(* ===== verification/_CoqProject ===== *)
-Q . S2P
Prelude.v
JsString.v
Utf.v
Encoding.v
Json.v
Platform.v
Dynamic.v
Matching.v
Types.v
Async.v
Crypto.v
Toy.v
KeyStore.v
Session.v
Ratchet.v
System.v
Scenario.v
AuthStore.v
Persist.v
ChatStore.v
ContactsStore.v
Client.v
Contacts.v
Socket.v
Emoji.v
Bubble.v
Roster.v
Sidebar.v
ChatWindow.v
Html.v
Widgets.v
Chrome.v
Login.v
LoginView.v
Security.v
SecurityView.v
Page.v
SidebarMarkup.v
SidebarRuns.v
ChatMarkup.v
ChatRuns.v
Serde.v
Limits.v
Database.v
Server.v
Service.v
ServiceRuns.v
AppMarkup.v
Relay.v
Delivery.v
Handshake.v
AppRuns.v
Browser.v
ServiceWorker.v
WorkerSafety.v
WorkerRuns.v
Witnesses.v
AppWitnesses.v
PageWitnesses.v
MarkupWitnesses.v
RelayWitnesses.v
ServiceWitnesses.v
