(* ===== verification/Prelude.v ===== *)
(** * Winkd: a verification library for the client and its server

    Winkd is a messenger: a Rust server relays JSON over WebSockets between web
    clients written in TypeScript. This library models the TypeScript: the
    encryption core (packages/core/src/encryption), the protocol client and the
    contact manager (packages/core/src), and the web application
    (apps/web/src: three stores, the socket hook, the components); and of the
    server (server/src) the messaging socket, so that statements reach from one
    user's screen to another's. Paths below are relative to src/.

    ** The files

    Foundations, shared by every component:
    - Prelude: tactics, the [winkd] hint database, [result] (a call returns or
      throws), [jsstr] (a string is its UTF-16 code units), list lemmas;
    - JsString, Utf, Encoding, Json: ECMAScript's strings and numbers, UTF-8 and
      percent-encoding, base64 and hex as crypto.ts writes them, [JSON.parse]
      and [JSON.stringify], each with its round trip;
    - Platform: insertion-ordered maps, plain objects used as maps, dynamically
      typed values ([value]: parsed JSON or [undefined]), ready states;
    - Dynamic: what the operators of the language do with values whose type a cast
      promised and nothing checked ([<], [+ n], [++], a property name, a key of a
      store), on integers as doubles ([to_double], exact up to [SAFE] = 2^53);
    - Matching: regular expressions as matchers, [split] and [match];
    - Types: packages/types/src and encryption/types.ts;
    - Async: asynchronous code as trees of effects, run alone or interleaved at
      their awaits.

    The encryption core:
    - Crypto: encryption/crypto.ts over a class [SubtleCrypto] of the platform's
      operations, with the documented laws ([WebCryptoLaws]) as a second class;
      Toy is an instance that obeys them and can be evaluated;
    - KeyStore: encryption/keystore.ts. The contract of the interface is stated
      once ([KeyStoreContract]); Modules InMemory and Idb implement it;
    - Session: encryption/session.ts, each method a program over a key store and
      session objects on a heap, with its functional description and the proof
      that the program computes it. A parsed message stays a JSON value, and is
      read where the code reads it: a cast checks nothing;
    - Ratchet, System: the two sessions of a conversation, and two devices with a
      network that loses and reorders; what forged numbers do; Scenario: concrete
      runs.

    The client and the web application:
    - Client: protocol/client.ts ([WinkdClient]) as a state machine over the
      sockets and timers it made; Contacts: contacts/index.ts;
    - AuthStore, ChatStore, ContactsStore: stores/*.ts. A session is kept with the
      identity of its object, because the hook compares identities;
    - Persist: what the [persist] middleware of authStore.ts writes and restores, over
      a class with its documented behaviour as laws (instance Documented): what is
      stored under the store's version is restored, another version discarded;
    - Socket: hooks/useSocket.ts. State [App]: the stores, [wsRef], the sockets
      with what their handlers closed over, and React's dependencies and
      clean-up; [render], [run_effect], [run_cleanup], [onmessage] with every
      server event, [send];
    - Emoji: components/emojiAssets.ts, EmojiPicker.tsx, RichEmojiText.tsx;
    - Bubble: components/MessageBubble.tsx and packages/ui's ChatBubble.tsx;
    - Roster: the contact list of Sidebar.tsx, ContactItem.tsx, packages/ui's
      Avatar.tsx; Sidebar, ChatWindow: the handlers of those components;
    - Login, Security: pages/LoginPage.tsx and components/SecuritySettings.tsx as
      state machines of requests, replies and timers;
    - Page: App.tsx, AppErrorBoundary.tsx and the views of Sidebar.tsx and
      ChatWindow.tsx: what is on the screen for a state of the stores, and the
      timer that ends a shake.

    The markup, on top of the views:
    - Html: trees of elements with attributes and handlers, and what they let a
      user do ([handlers], [offered]); a field's minimal length counts once its value
      was edited, not when a script has set it ([valid], flag [edited]); a component's
      tree inside another's ([html_map]);
    - Widgets: Avatar.tsx, RichEmojiText.tsx, ContactItem.tsx, MessageBubble.tsx and
      ChatBubble.tsx; Chrome: StatusBar.tsx, WinkdToolbar.tsx, AeroWindow.tsx,
      EmojiPicker.tsx and packages/ui's StatusPill.tsx;
    - LoginView, SecurityView: the two panels, with runs of the rendered page;
    - SidebarMarkup, ChatMarkup: Sidebar.tsx and ChatWindow.tsx; SidebarRuns,
      ChatRuns: what their actions do, and their runs;
    - AppMarkup: BuddyListPage.tsx, App.tsx and the error screen: the whole page;
      AppRuns: one life of the signed-in page, with the hook: what reaches the server;
    - Browser: a tab over sign-ins, sign-outs and reloads, with the storage.

    The server, server/src:
    - Serde: [serde_json] as a class with its laws: the texts it writes are read back
      alike, members in any order (instance in Module Texts); access to members;
    - Limits: limits.rs; Database: the rows and queries of db.rs that the socket uses,
      as functions on the tables of migrations/;
    - Server: the message arm of [handle_command] in router.rs, over a class [Backend]
      of what it asks of the database and the sessions;
    - Service: [handle_socket] and all arms of [handle_command], with presence.rs and the
      live sessions. A session starts in two steps and ends in two, as the code
      changes the live sessions and the presence under separate locks: a socket is
      authenticated ([register_session]) and then opened ([open_session]), taken out
      of the live ones ([end_session]) and then announced as gone ([leave]); a text
      is one step. Each query may fail. The instance of [Backend] is [backend_of];
    - ServiceRuns: what any step can do ([outcome], [message_outcome]) and the runs of
      the server;
    - Relay: a message from the window of one user through the server to the screen of
      another; Delivery: messages that wait, receipts, presence and the confirmation,
      between the server and the hook; Handshake: two users become contacts.

    The service worker, public/sw.js:
    - ServiceWorker: its handlers as trees of platform calls, interleaved in any
      order, with a rely/guarantee rule for invariants ([steps_safe]);
      WorkerSafety: invariants of every run; WorkerRuns: what a request gets.

    Witnesses, AppWitnesses, PageWitnesses, MarkupWitnesses, RelayWitnesses,
    ServiceWitnesses (and the Module Runs of WorkerRuns) apply the theorems with hypotheses at concrete inputs.

    ** How the parts interact

    The session manager calls the key store and the primitives; it is proved
    against the store's contract, and both stores discharge the contract. The
    hook's handlers write the stores; the components read the stores and pass
    objects to the hook's [send]. In Socket the components' writes are events
    ([EChat], [EContacts], [EProfile]) with an arbitrary update, so what is proved
    of the hook's runs holds for any component; Page puts the hook's handler, a
    component's handler and the views together. A view ([Page.Sidebar],
    [Page.ChatWindow]) is what rendering computes and may throw on; the markup is a
    total function of the view and of the component's own state, whose handlers
    are computed exactly ([login_handlers], [security_handlers],
    [sidebar_markup_handlers], [chat_markup_handlers]), so a run of a rendered
    component takes only the steps that its tree offers.

    The client and the server meet in the texts on a socket: Relay, Delivery and
    Handshake compose the server's steps with the hook's [onmessage] and with what the
    sidebar and the window send. Neither side knows the order in which the other
    writes members, so a text is read up to [alike].

    ** What the theorems show

    - Encryption: both sides of X3DH derive one secret; what is delivered opens
      to what was sent, for losses and reorderings within a chain, texts without a
      leading byte order mark and chains of fewer than 2^53 - 500 messages; the
      programs compute their functional descriptions over any contract-honouring
      store and for any envelope; skipping is bounded and ends for safe counts, and
      never ends after two forged numbers; a failing decrypt leaves the store as it
      was until it has its key, and has advanced the session from then on; both stores refine one abstract map and
      IndexedDB keeps its contents; safety numbers agree; signed pre-keys verify.
      Scenario has runs the protocol does not survive: a late message, a replay,
      a forged first message, overlapping sends.
    - Protocol client and hook: nothing but the authentication frame leaves
      before a socket is confirmed, delays stay within their bounds, at most one
      socket is live, a close with code 4001 signs out; server events keep the
      stores' invariants; the reconnection loop and the stale closures of the
      hook are theorems too.
    - Stores: invariants of the chat store, a stream of messages is kept in the
      order of arrival with copies combined, the contacts store refines four maps.
    - Components: the forms' and panels' state machines are safe and recover;
      attachments are gated; rendering keeps every character of a message and
      shows every emoji token as its image; the contact list shows every contact
      with a known status once, and no other; a typed event never takes the page down, and a message without a body
      does; a message typed by one user is shown to the other.
    - Markup: the rendered sign-in page and settings refine their state machines,
      and the fields' constraints hold of every request (but for a password the user
      came back to); whatever the sidebar and
      the chat window send is justified by the stores at the time and by what was
      on the screen; all the page transmits is an authentication or such a frame,
      after the authentication of its socket; no gesture takes the page down.
    - Browser: in a tab's life each page transmits with one token only; a reload reads
      back the session; signing in restores nothing; the next user of a tab is shown
      the open conversation of the one before.
    - Server: the sender of what is relayed is the user of the socket; contacts have
      asked and agreed; while one blocks the other, nothing passes between them; the live
      session of a user is an open socket of this user, and presence follows it unless
      the user reconnects while the socket before is being taken down.
    - Client and server together: a conversation whose texts are handled in order on
      a confirmed socket arrives in order and is shown;
      what is echoed confirms the sender's copy, what is refused looks sent; both
      gates of attachments agree; messages wait for a user who is away and their
      sender gets a receipt, but the hook's reconnection loses what waited; presence
      is never shown; an invitation that is accepted makes both contacts, and asking
      again ends that.
    - Service worker: answers and entries are responses of the network to the same
      address, or of earlier caches, but for the offline page of a failed navigation;
      every intercepted request is answered once and within five turns,
      an activation leaves the current cache, an installation makes navigation
      work without a network; other requests are answered stale, also those of the
      API, also to another user.

    ** Bounds and fuel

    Recursions that are not structural take fuel that is proved enough:
    [parse_json] twice the length of the text plus one (the round trip holds for
    every value), percent-decoding and [split_matches] the length of the text,
    digits [log2 n + 1] divisions. The loop of session.ts is given any number of
    rounds ([fuel], an argument of [decrypt] and [skipMessageKeys]) and reports
    [out_of_fuel] when it would go on: 500 rounds are enough for a count that is a
    safe integer ([skipMessageKeys_terminates]; [EnoughFuel] in Ratchet), no number is
    for a forged one ([forged_numbers_never_end]). Sixteen- and thirty-two-bit
    conversions are written out; the numbers of messages are doubles that [++] and
    [+] round ([to_double]), other counters and sizes integers below 2^53, where
    doubles are exact.

    ** Parameters and limits

    WebCrypto, the [URL] class, [toUpperCase] of a code unit, the contact
    search's [toLowerCase], and the texts of numbers written with a fraction or
    an exponent are parameters ([Doubles]), and so are their arithmetic
    ([Numbers]; sums of integers are computed, also beyond 2^53) and the exception of
    a key store that is asked for a key that is no integer ([OddKeys]); so are, on the server, [serde_json]'s choice of a text
    for a value and the texts of UUIDs. In Page a relayed frame is the sent one, its
    properties in any order being read alike; Relay proves it of the server's code.
    [js_toLowerCase] is exact as to the
    ASCII words a text contains. Property names that plain objects inherit
    ([__proto__] and the like) do not occur as keys; two parsed objects are never
    the same object. IndexedDB requests fail only for a store that does not
    exist; an object store keeps copies. Replies of the HTTP endpoints have the
    types the code casts them to. Rendering is a function: React's own failures
    are left out, and a change of a store or of a component's state is rendered
    before the next event, so handlers close over the state that is shown. In the
    markup, attributes are the source's; of the styles, those that depend on the
    state; what the pointer is over is a parameter, as are the browser's formats
    of dates, [VITE_API_URL] and the two addresses of the supporter box. A
    contact whose id is no text is not opened in the model. The worker's URLs are
    opened by a class [Location].

    The server answers a text on a socket in one step, and opens a session or
    announces its end in one: other sockets act between the two steps of a start or
    an end, but races inside a step, between the queries of one command, are outside
    the model, as are a socket that breaks
    while the server writes to it, the frame limits and the ping frames. A query that fails
    changes nothing. Rows are in the order of their creation, and ids of requests are
    their positions. [u_lapsed] stands for the comparison of a membership's expiry with
    the clock. Theorems about delivery are for a server whose queries do not fail
    ([no_faults]) and for texts that are [plain]: without lone surrogates, which Rust's
    strings cannot hold, without doubled members and with numbers written as integers.

    ** Not modelled

    Constant styles, focus and scrolling; main.tsx, which mounts the page and registers
    the worker; typography.ts, which holds constants of styles; the static pages
    app.html, login.html and winkd_website.html with their scripts, build and test
    files; the server's HTTP interface (accounts, sessions, OAuth, the second factor,
    devices, payments), rate limits and migrations; the code of third-party packages. *)

From Stdlib Require Export ZArith Lia.
From stdpp Require Export base tactics list gmap strings option.

#[export] Set Default Goal Selector "!".
Open Scope Z_scope.

(** ** Automation *)

Create HintDb winkd.

(** [lia] with Euclidean division turned into equations first. *)
Ltac zlia := Z.to_euclidean_division_equations; lia.

(** Case analysis on every [if]/[match] scrutinee of the goal, closing what
    simplification and linear arithmetic close. *)
Ltac crush_if :=
  repeat match goal with
  | |- context [if ?b then _ else _] =>
      lazymatch b with
      | context [if _ then _ else _] => fail
      | _ => destruct b eqn:?
      end
  end; simplify_eq/=.

(** Turn the boolean comparisons of [Z] in the context into inequalities. *)
Ltac zbool :=
  repeat match goal with
  | H : (_ && _)%bool = true |- _ => apply andb_true_iff in H as [??]
  | H : (_ || _)%bool = false |- _ => apply orb_false_iff in H as [??]
  | H : negb _ = true |- _ => apply negb_true_iff in H
  | H : negb _ = false |- _ => apply negb_false_iff in H
  | H : (_ <? _) = true |- _ => apply Z.ltb_lt in H
  | H : (_ <? _) = false |- _ => apply Z.ltb_ge in H
  | H : (_ <=? _) = true |- _ => apply Z.leb_le in H
  | H : (_ <=? _) = false |- _ => apply Z.leb_gt in H
  | H : (_ =? _) = true |- _ => apply Z.eqb_eq in H
  | H : (_ =? _) = false |- _ => apply Z.eqb_neq in H
  end.

(** Decide the comparisons of the goal with the hypotheses at hand. *)
Ltac zdecide :=
  repeat match goal with
  | |- context [?a <? ?b] =>
      first [ rewrite (proj2 (Z.ltb_lt a b)) by zlia
            | rewrite (proj2 (Z.ltb_ge a b)) by zlia ]
  | |- context [?a <=? ?b] =>
      first [ rewrite (proj2 (Z.leb_le a b)) by zlia
            | rewrite (proj2 (Z.leb_gt a b)) by zlia ]
  | |- context [?a =? ?b] =>
      first [ rewrite (proj2 (Z.eqb_eq a b)) by zlia
            | rewrite (proj2 (Z.eqb_neq a b)) by zlia ]
  | _ => progress cbn [andb orb negb]
  end.

(** ** Outcomes of JavaScript code *)

(** A JavaScript string is the list of its UTF-16 code units. *)
Abbreviation jsstr := (list Z).

(** The exceptions the program raises or can observe. *)
Inductive js_error :=
  | Error_ (message : jsstr)         (** [new Error(message)] *)
  | DOMException_ (name : string)    (** Web platform failures *)
  | SyntaxError_                     (** [JSON.parse] *)
  | URIError_                        (** [encodeURIComponent] and its inverse *)
  | TypeError_.                      (** a value of the wrong shape *)

(** A call either returns or throws. *)
Inductive result (A : Type) :=
  | Ok (a : A)
  | Throw (e : js_error).
Arguments Ok {A} a.
Arguments Throw {A} e.

#[global] Instance js_error_eq_dec : EqDecision js_error.
Proof. solve_decision. Defined.
#[global] Instance result_eq_dec `{EqDecision A} : EqDecision (result A).
Proof. solve_decision. Defined.

#[global] Instance result_ret : MRet result := λ A a, Ok a.
#[global] Instance result_bind : MBind result := λ A B k m,
  match m with Ok a => k a | Throw e => Throw e end.
#[global] Instance result_fmap : FMap result := λ A B f m,
  match m with Ok a => Ok (f a) | Throw e => Throw e end.

(** A platform call that reports failure with [None] throws [e]. *)
Definition throw_none {A} (e : js_error) (o : option A) : result A :=
  match o with Some a => Ok a | None => Throw e end.

(** [x ?? d] *)
Definition nullish {A} (d : A) (o : option A) : A :=
  match o with Some a => a | None => d end.

Lemma bind_Ok {A B} (m : result A) (k : A → result B) b :
  m ≫= k = Ok b ↔ ∃ a, m = Ok a ∧ k a = Ok b.
Proof. destruct m; cbn; naive_solver. Qed.

(** ** Generic list lemmas *)

(** A property of all elements, checked by evaluation. *)
Lemma Forall_check {A} (p : A → bool) (P : A → Prop) (l : list A) :
  (∀ x, p x = true → P x) → forallb p l = true → Forall P l.
Proof. intros Hp H. apply List.Forall_forall. rewrite forallb_forall in H. auto. Qed.

Lemma foldl_snoc_map {A B} (f : A → B) (l : list A) (acc : list B) :
  foldl (λ acc x, acc ++ [f x]) acc l = acc ++ map f l.
Proof.
  revert acc; induction l as [|x l IH]; intros acc; cbn; [by rewrite app_nil_r|].
  by rewrite IH, <- app_assoc.
Qed.

Lemma foldl_ext {A B} (f g : B → A → B) (l : list A) (b : B) :
  (∀ b a, f b a = g b a) → foldl f b l = foldl g b l.
Proof. intros H. revert b; induction l as [|a l IH]; intros b; cbn; [done|]. by rewrite H. Qed.

(** Writing [f i] at index [g i] of a list, one index after the other. *)
Lemma foldl_insert_length {A} (g : nat → nat) (f : nat → A) (idx : list nat) (l : list A) :
  length (foldl (λ b i, <[g i := f i]> b) l idx) = length l.
Proof.
  revert l; induction idx as [|i idx IH]; intros l; cbn; [done|].
  by rewrite IH, length_insert.
Qed.

Lemma foldl_insert_lookup {A} (f : nat → A) (n i : nat) (l : list A) :
  (i < n)%nat → (i < length l)%nat →
  foldl (λ b i, <[i := f i]> b) l (seq 0 n) !! i = Some (f i).
Proof.
  intros Hi Hl. induction n as [|n IH]; [lia|].
  rewrite seq_S, foldl_app; cbn. destruct (decide (i = n)) as [->|Hne].
  - apply list_lookup_insert_eq. by rewrite (foldl_insert_length id).
  - rewrite list_lookup_insert_ne by done. apply IH. lia.
Qed.

(** The loop [for (i = 0; i < n; i++) a[i] = f(i)] over a fresh array of
    length [n] computes [map f [0 .. n-1]]. *)
Lemma fill_loop {A} (f : nat → A) (d : A) (n : nat) :
  foldl (λ b i, <[i := f i]> b) (replicate n d) (seq 0 n) = map f (seq 0 n).
Proof.
  apply list_eq; intros i. destruct (decide (i < n)%nat) as [Hi|Hi].
  - rewrite foldl_insert_lookup by (rewrite ?length_replicate; lia).
    symmetry. apply list_lookup_fmap_Some. exists i. split; [done|].
    rewrite lookup_seq. lia.
  - rewrite !lookup_ge_None_2; rewrite ?(foldl_insert_length id), ?length_replicate,
      ?length_map, ?length_seq; auto with lia.
Qed.

Lemma map_seq_lookup {A} (l : list A) (d : A) :
  map (λ i, nth i l d) (seq 0 (length l)) = l.
Proof.
  apply list_eq; intros i. destruct (decide (i < length l)%nat) as [Hi|Hi].
  - destruct (lookup_lt_is_Some_2 l i Hi) as [x Hx]. rewrite Hx.
    apply list_lookup_fmap_Some. exists i. split.
    + rewrite (nth_lookup_Some _ _ _ _ Hx). done.
    + rewrite lookup_seq. lia.
  - rewrite !lookup_ge_None_2; rewrite ?length_map, ?length_seq; auto with lia.
Qed.
