(* ===== verification/JsString.v ===== *)
(** * JavaScript strings

    The operations of ECMAScript's [String] and [Number] that the program
    uses, on strings as lists of UTF-16 code units, and the lemmas about them
    that the components share. *)

From S2P Require Import Prelude.

Declare Scope js_scope.
Delimit Scope js_scope with js.

(** ** Literals *)

(** [js "..."] reads a source literal, which is UTF-8, as its code units. *)
Fixpoint js_units (bs : list Z) : jsstr :=
  match bs with
  | [] => []
  | b :: r =>
      if b <? 128 then b :: js_units r
      else match r with
      | c :: r1 =>
          if b <? 224 then ((b - 192) * 64 + (c - 128)) :: js_units r1
          else match r1 with
          | d :: r2 =>
              if b <? 240 then
                ((b - 224) * 4096 + (c - 128) * 64 + (d - 128)) :: js_units r2
              else match r2 with
              | e :: r3 =>
                  let cp := (b - 240) * 262144 + (c - 128) * 4096
                            + (d - 128) * 64 + (e - 128) - 65536 in
                  (55296 + cp / 1024) :: (56320 + cp mod 1024) :: js_units r3
              | [] => []
              end
          | [] => []
          end
      | [] => []
      end
  end.

Definition js (s : string) : jsstr :=
  js_units (map (λ a, Z.of_N (Ascii.N_of_ascii a)) (String.list_ascii_of_string s)).

#[global] Arguments js : simpl never.

(** ** Well-formedness *)

(** A code unit and a string of them. *)
Definition is_unit (c : Z) : Prop := 0 ≤ c < 65536.
Definition is_js (s : jsstr) : Prop := Forall is_unit s.

Lemma is_js_check s : forallb (λ c, (0 <=? c) && (c <? 65536)) s = true → is_js s.
Proof. apply Forall_check. intros c H. unfold is_unit. zbool. lia. Qed.

(** A byte and a byte string ([Uint8Array]). *)
Definition is_byte (b : Z) : Prop := 0 ≤ b < 256.
Definition is_bytes (l : list Z) : Prop := Forall is_byte l.

#[global] Instance is_unit_dec c : Decision (is_unit c).
Proof. unfold is_unit; apply _. Defined.
#[global] Instance is_byte_dec b : Decision (is_byte b).
Proof. unfold is_byte; apply _. Defined.

(** ** Searching and slicing *)

Fixpoint js_startsWith (s p : jsstr) {struct p} : bool :=
  match p, s with
  | [], _ => true
  | c :: p', d :: s' => (c =? d) && js_startsWith s' p'
  | _ :: _, [] => false
  end.

Fixpoint js_includes (s p : jsstr) : bool :=
  js_startsWith s p || match s with [] => false | _ :: s' => js_includes s' p end.

Definition js_endsWith (s p : jsstr) : bool :=
  (length p <=? length s)%nat &&
  bool_decide (drop (length s - length p) s = p).

(** A relative index of [slice]: negative counts from the end, then clamped. *)
Definition js_index (len : nat) (i : Z) : nat :=
  if i <? 0 then Z.to_nat (Z.max 0 (Z.of_nat len + i)) else Nat.min (Z.to_nat i) len.

Definition js_slice {A} (s : list A) (a b : Z) : list A :=
  let from := js_index (length s) a in
  let to := js_index (length s) b in
  take (to - from) (drop from s).

Definition js_slice_from {A} (s : list A) (a : Z) : list A :=
  drop (js_index (length s) a) s.

(** [s < t]: lexicographic in code units. *)
Fixpoint js_ltb (s t : jsstr) : bool :=
  match s, t with
  | _, [] => false
  | [], _ :: _ => true
  | c :: s', d :: t' => (c <? d) || ((c =? d) && js_ltb s' t')
  end.

(** [parts.join(sep)] *)
Fixpoint js_join (sep : jsstr) (parts : list jsstr) : jsstr :=
  match parts with
  | [] => []
  | [p] => p
  | p :: ps => p ++ sep ++ js_join sep ps
  end.

(** [s.split(sep)] for a separator of one code unit. *)
Fixpoint js_split (sep : Z) (s : jsstr) : list jsstr :=
  match s with
  | [] => [[]]
  | c :: s' =>
      if c =? sep then [] :: js_split sep s'
      else match js_split sep s' with
           | [] => [[c]]
           | p :: ps => (c :: p) :: ps
           end
  end.

(** The white space and line terminators that [trim] and [\s] recognise. *)
Definition is_space (c : Z) : bool :=
  (9 <=? c) && (c <=? 13) || (c =? 32) || (c =? 160) || (c =? 5760)
  || ((8192 <=? c) && (c <=? 8202)) || (c =? 8232) || (c =? 8233)
  || (c =? 8239) || (c =? 8287) || (c =? 12288) || (c =? 65279).

Fixpoint drop_space (s : jsstr) : jsstr :=
  match s with
  | c :: s' => if is_space c then drop_space s' else s
  | [] => []
  end.

Definition js_trim (s : jsstr) : jsstr := rev (drop_space (rev (drop_space s))).

Lemma drop_space_nonspace s c r : s = c :: r → is_space c = false → drop_space s = s.
Proof. intros -> H. cbn. by rewrite H. Qed.

Lemma trim_nonspace s :
  Forall (λ c, is_space c = false) s → js_trim s = s.
Proof.
  intros Hs. unfold js_trim.
  assert (∀ l, Forall (λ c, is_space c = false) l → drop_space l = l) as Hd.
  { intros l Hl. destruct l as [|c l]; [done|]. inversion Hl; subst. by eapply drop_space_nonspace. }
  rewrite (Hd s Hs), Hd by (by apply List.Forall_rev). apply rev_involutive.
Qed.

(** [s.replace(/\s/g, '')] *)
Definition remove_spaces (s : jsstr) : jsstr := List.filter (λ c, negb (is_space c)) s.

Lemma remove_spaces_spec s :
  Forall (λ c, is_space c = false) (remove_spaces s) ∧ (length (remove_spaces s) ≤ length s)%nat.
Proof.
  split; [|apply filter_length_le]. apply List.Forall_forall. intros x [_ Hx]%filter_In.
  by apply negb_true_iff.
Qed.

(** ** Numbers to strings and back *)

(** The digits of [n >= 0] in radix [r], most significant first. *)
Fixpoint digits_go (fuel : nat) (r n : Z) (acc : list Z) : list Z :=
  match fuel with
  | O => acc
  | S fuel' =>
      if n <? r then n :: acc
      else digits_go fuel' r (n / r) (n mod r :: acc)
  end.

(** [Z.log2 n + 1] divisions are enough, because the radix is at least 2. *)
Definition digits (r n : Z) : list Z := digits_go (S (Z.to_nat (Z.log2 n))) r n [].

Definition digit_char (d : Z) : Z := if d <? 10 then 48 + d else 87 + d.

Definition char_digit (c : Z) : option Z :=
  if (48 <=? c) && (c <=? 57) then Some (c - 48)
  else if (97 <=? c) && (c <=? 122) then Some (c - 87)
  else if (65 <=? c) && (c <=? 90) then Some (c - 55)
  else None.

(** [n.toString(r)] for an integer [n]. *)
Definition js_toString_radix (r n : Z) : jsstr :=
  if n <? 0 then 45 :: map digit_char (digits r (- n))
  else map digit_char (digits r n).

Definition js_toString (n : Z) : jsstr := js_toString_radix 10 n.

(** [s.padStart(n, c)] for a filler of one code unit. *)
Definition js_padStart (s : jsstr) (n : nat) (c : Z) : jsstr :=
  replicate (n - length s) c ++ s.

(** The longest prefix of digits below the radix, as their values. *)
Fixpoint digit_prefix (r : Z) (s : jsstr) : list Z :=
  match s with
  | [] => []
  | c :: s' =>
      match char_digit c with
      | Some d => if d <? r then d :: digit_prefix r s' else []
      | None => []
      end
  end.

Definition digits_value (r : Z) (ds : list Z) : Z := foldl (λ a d, a * r + d) 0 ds.

(** [parseInt(s, 16)]: leading white space, a sign and a [0x] prefix are
    skipped; [None] is [NaN]. *)
Definition parseInt16 (s : jsstr) : option Z :=
  let s1 := drop_space s in
  let '(sign, s2) := match s1 with
    | 45 :: r => (-1, r)
    | 43 :: r => (1, r)
    | _ => (1, s1)
    end in
  let s3 := match s2 with
    | 48 :: x :: r => if (x =? 120) || (x =? 88) then r else s2
    | _ => s2
    end in
  match digit_prefix 16 s3 with
  | [] => None
  | ds => Some (sign * digits_value 16 ds)
  end.

(** ** Lemmas *)

Lemma js_ltb_irrefl s : js_ltb s s = false.
Proof.
  induction s as [|c s IH]; cbn; [done|].
  by rewrite Z.ltb_irrefl, Z.eqb_refl, IH.
Qed.

(** Exactly one of two different strings is the smaller one. *)
Lemma js_ltb_total s t : s ≠ t → js_ltb t s = negb (js_ltb s t).
Proof.
  revert t; induction s as [|c s IH]; intros [|d t] Hne; cbn; try done.
  destruct (Z.lt_trichotomy c d) as [H|[->|H]].
  - rewrite (proj2 (Z.ltb_lt c d)), (proj2 (Z.ltb_ge d c)) by lia.
    rewrite (proj2 (Z.eqb_neq d c)) by lia. done.
  - rewrite Z.ltb_irrefl, Z.eqb_refl; cbn. apply IH. congruence.
  - rewrite (proj2 (Z.ltb_lt d c)), (proj2 (Z.ltb_ge c d)) by lia.
    rewrite (proj2 (Z.eqb_neq c d)) by lia. done.
Qed.

Lemma digits_go_acc fuel r n acc :
  digits_go fuel r n acc = digits_go fuel r n [] ++ acc.
Proof.
  revert n acc; induction fuel as [|fuel IH]; intros n acc; cbn; [done|].
  destruct (n <? r); [done|].
  by rewrite IH, (IH _ [_]), <- app_assoc.
Qed.

Lemma digits_go_range fuel r n acc :
  2 ≤ r → 0 ≤ n → Forall (λ d, 0 ≤ d < r) acc →
  Forall (λ d, 0 ≤ d < r) (digits_go fuel r n acc).
Proof.
  intros Hr; revert n acc; induction fuel as [|fuel IH]; intros n acc Hn Ha; cbn; [done|].
  destruct (n <? r) eqn:E; zbool.
  - constructor; [lia|done].
  - apply IH; [zlia|]. constructor; [zlia|done].
Qed.

Lemma digits_range r n : 2 ≤ r → 0 ≤ n → Forall (λ d, 0 ≤ d < r) (digits r n).
Proof. intros. by apply digits_go_range. Qed.

Lemma digits_value_app r ds d :
  digits_value r (ds ++ [d]) = digits_value r ds * r + d.
Proof. unfold digits_value. by rewrite foldl_app. Qed.

Lemma digits_go_value fuel r n :
  2 ≤ r → 0 ≤ n < 2 ^ Z.of_nat fuel → fuel ≠ O →
  digits_value r (digits_go fuel r n []) = n.
Proof.
  intros Hr; revert n; induction fuel as [|fuel IH]; intros n Hn Hf; [done|].
  cbn [digits_go]. destruct (n <? r) eqn:E; zbool; [unfold digits_value; cbn; lia|].
  rewrite digits_go_acc, digits_value_app.
  destruct fuel as [|fuel]; [change (2 ^ Z.of_nat 1) with 2 in Hn; lia|].
  rewrite IH; [zlia| |done]. split; [zlia|].
  apply Z.div_lt_upper_bound; [lia|].
  rewrite Nat2Z.inj_succ, Z.pow_succ_r in Hn by lia. nia.
Qed.

Lemma digits_value_digits r n : 2 ≤ r → 0 ≤ n → digits_value r (digits r n) = n.
Proof.
  intros Hr Hn. unfold digits. apply digits_go_value; [done| |done].
  split; [done|]. rewrite Nat2Z.inj_succ, Z2Nat.id by apply Z.log2_nonneg.
  destruct (decide (n = 0)) as [->|]; [done|]. apply Z.log2_spec. lia.
Qed.

Lemma digits_nonempty r n : digits r n ≠ [].
Proof.
  unfold digits. cbn [digits_go]. destruct (n <? r); [done|].
  rewrite digits_go_acc. by intros [_ ?]%app_nil.
Qed.

(** A number below [r ^ k] has at most [k] digits. *)
Lemma digits_go_length fuel r n k :
  2 ≤ r → 0 ≤ n < r ^ Z.of_nat (S k) →
  (length (digits_go fuel r n []) ≤ S k)%nat.
Proof.
  intros Hr; revert n k; induction fuel as [|fuel IH]; intros n k Hn; cbn [digits_go]; [cbn; lia|].
  destruct (n <? r) eqn:E; zbool; [cbn; lia|].
  rewrite digits_go_acc, length_app; cbn [length].
  destruct k as [|k]; [rewrite Z.pow_1_r in Hn; lia|].
  enough (length (digits_go fuel r (n / r) []) ≤ S k)%nat by lia.
  apply IH. split; [zlia|]. apply Z.div_lt_upper_bound; [lia|].
  rewrite (Nat2Z.inj_succ (S k)), Z.pow_succ_r in Hn by lia. nia.
Qed.

Lemma digits_length r n k :
  2 ≤ r → 0 ≤ n < r ^ Z.of_nat (S k) → (length (digits r n) ≤ S k)%nat.
Proof. intros. by apply digits_go_length. Qed.

Lemma char_digit_char d : 0 ≤ d < 36 → char_digit (digit_char d) = Some d.
Proof.
  intros Hd. unfold char_digit, digit_char.
  destruct (d <? 10) eqn:E; zbool.
  - rewrite (proj2 (Z.leb_le 48 _)), (proj2 (Z.leb_le _ 57)) by lia. cbn. f_equal; lia.
  - rewrite (proj2 (Z.leb_gt _ 57)) by lia. rewrite andb_false_r.
    rewrite (proj2 (Z.leb_le 97 _)), (proj2 (Z.leb_le _ 122)) by lia. cbn. f_equal; lia.
Qed.

Lemma digit_prefix_chars r ds s :
  r ≤ 36 → Forall (λ d, 0 ≤ d < r) ds →
  digit_prefix r (map digit_char ds ++ s) = ds ++ digit_prefix r s.
Proof.
  intros Hr; induction 1 as [|d ds Hd _ IH]; cbn; [done|].
  rewrite char_digit_char by lia. rewrite (proj2 (Z.ltb_lt d r)) by lia. by rewrite IH.
Qed.

Lemma digits_value_zeros r k ds :
  digits_value r (replicate k 0 ++ ds) = digits_value r ds.
Proof.
  unfold digits_value. induction k as [|k IH]; cbn; [done|]. exact IH.
Qed.

Lemma map_replicate_char k : map digit_char (replicate k 0) = replicate k 48.
Proof. induction k as [|k IH]; cbn; [done|]. by rewrite IH. Qed.
