(* ===== verification/Utf.v ===== *)
(** * UTF-16, UTF-8 and percent-encoding

    The platform's string encoders as the program uses them: [TextEncoder],
    [TextDecoder] (crypto.ts, session.ts), [encodeURIComponent] and
    [decodeURIComponent] (contacts/index.ts, Sidebar.tsx). The main facts are
    the two round trips, [text_roundtrip] and [uri_roundtrip]. *)

From S2P Require Import Prelude JsString.

(** ** Code points *)

Definition is_hi (c : Z) : bool := (55296 <=? c) && (c <=? 56319).
Definition is_lo (c : Z) : bool := (56320 <=? c) && (c <=? 57343).

Definition replacement : Z := 65533.

(** The code points of a string, [None] for a lone surrogate. *)
Fixpoint code_points (s : jsstr) : list (option Z) :=
  match s with
  | [] => []
  | c :: r =>
      if is_hi c then
        match r with
        | d :: r' =>
            if is_lo d
            then Some (65536 + (c - 55296) * 1024 + (d - 56320)) :: code_points r'
            else None :: code_points r
        | [] => [None]
        end
      else if is_lo c then None :: code_points r
      else Some c :: code_points r
  end.

(** The conversion to [USVString]: lone surrogates become U+FFFD. *)
Definition scalar_values (s : jsstr) : list Z :=
  map (nullish replacement) (code_points s).

Definition utf16_of (cp : Z) : jsstr :=
  if cp <? 65536 then [cp]
  else [55296 + (cp - 65536) / 1024; 56320 + (cp - 65536) mod 1024].

Definition utf16 (cps : list Z) : jsstr := concat (map utf16_of cps).

(** A Unicode scalar value. *)
Definition is_scalar (cp : Z) : Prop := 0 ≤ cp < 55296 ∨ 57344 ≤ cp < 1114112.

(** No lone surrogate occurs in the string. *)
Definition well_formed (s : jsstr) : bool :=
  forallb (λ o, match o with Some _ => true | None => false end) (code_points s).

(** Texts of small code units have no surrogates. *)
Lemma below_surrogates s : Forall (λ c, c < 55296) s → well_formed s = true.
Proof.
  unfold well_formed. induction 1 as [|c r Hc _ IH]; [done|].
  assert (is_hi c = false ∧ is_lo c = false) as [Hh Hl] by (unfold is_hi, is_lo; split; lia).
  cbn [code_points]. rewrite Hh, Hl. exact IH.
Qed.

(** ** UTF-8 *)

Definition utf8_of (cp : Z) : list Z :=
  if cp <? 128 then [cp]
  else if cp <? 2048 then [192 + cp / 64; 128 + cp mod 64]
  else if cp <? 65536 then
    [224 + cp / 4096; 128 + cp / 64 mod 64; 128 + cp mod 64]
  else
    [240 + cp / 262144; 128 + cp / 4096 mod 64; 128 + cp / 64 mod 64; 128 + cp mod 64].

Definition utf8 (cps : list Z) : list Z := concat (map utf8_of cps).

(** [new TextEncoder().encode(s)] *)
Definition text_encode (s : jsstr) : list Z := utf8 (scalar_values s).

(** The decoder of the Encoding standard: a code point in progress, how many
    continuation bytes are missing and the range the next one must be in. *)
Record u8_state := mk_u8 { u8_cp : Z; u8_need : nat; u8_low : Z; u8_up : Z }.

Definition u8_init : u8_state := mk_u8 0 0 128 191.

(** A byte that starts a code point. *)
Definition u8_start (b : Z) : u8_state * list Z :=
  if b <? 128 then (u8_init, [b])
  else if (194 <=? b) && (b <=? 223) then (mk_u8 (b - 192) 1 128 191, [])
  else if (224 <=? b) && (b <=? 239) then
    (mk_u8 (b - 224) 2 (if b =? 224 then 160 else 128) (if b =? 237 then 159 else 191), [])
  else if (240 <=? b) && (b <=? 244) then
    (mk_u8 (b - 240) 3 (if b =? 240 then 144 else 128) (if b =? 244 then 143 else 191), [])
  else (u8_init, [replacement]).

Definition u8_step (st : u8_state) (b : Z) : u8_state * list Z :=
  match u8_need st with
  | O => u8_start b
  | S k =>
      if (u8_low st <=? b) && (b <=? u8_up st) then
        let cp := u8_cp st * 64 + (b - 128) in
        match k with
        | O => (u8_init, [cp])
        | S _ => (mk_u8 cp k 128 191, [])
        end
      else (* the byte is read again as a first byte *)
        let '(st', out) := u8_start b in (st', replacement :: out)
  end.

Fixpoint u8_run (st : u8_state) (bs : list Z) : list Z :=
  match bs with
  | [] => match u8_need st with O => [] | S _ => [replacement] end
  | b :: r => let '(st', out) := u8_step st b in out ++ u8_run st' r
  end.

Definition strip_bom (cps : list Z) : list Z :=
  match cps with 65279 :: r => r | _ => cps end.

(** [new TextDecoder().decode(bytes)]: malformed input becomes U+FFFD and a
    leading byte order mark is removed. *)
Definition text_decode (bs : list Z) : jsstr := utf16 (strip_bom (u8_run u8_init bs)).

(** ** encodeURIComponent *)

(** [A-Z a-z 0-9 - _ . ! ~ * ' ( )] *)
Definition uri_unreserved (c : Z) : bool :=
  ((65 <=? c) && (c <=? 90)) || ((97 <=? c) && (c <=? 122)) || ((48 <=? c) && (c <=? 57))
  || (c =? 45) || (c =? 95) || (c =? 46) || (c =? 33) || (c =? 126) || (c =? 42)
  || (c =? 39) || (c =? 40) || (c =? 41).

Definition hex_upper (d : Z) : Z := if d <? 10 then 48 + d else 55 + d.
Definition pct (b : Z) : jsstr := [37; hex_upper (b / 16); hex_upper (b mod 16)].

Definition uri_encode_cp (cp : Z) : jsstr :=
  if uri_unreserved cp then [cp] else concat (map pct (utf8_of cp)).

(** [encodeURIComponent(s)] throws [URIError] on a lone surrogate. *)
Definition encodeURIComponent (s : jsstr) : result jsstr :=
  if well_formed s
  then Ok (concat (map uri_encode_cp (scalar_values s)))
  else Throw URIError_.

(** ** decodeURIComponent *)

Definition hex_val (c : Z) : option Z :=
  match char_digit c with
  | Some d => if d <? 16 then Some d else None
  | None => None
  end.

(** One escape [%XX] at the front of the string. *)
Definition unpct (s : jsstr) : option (Z * jsstr) :=
  match s with
  | 37 :: a :: b :: r =>
      match hex_val a, hex_val b with
      | Some x, Some y => Some (x * 16 + y, r)
      | _, _ => None
      end
  | _ => None
  end.

(** [n] further escapes, each a continuation byte, folded into [cp]. *)
Fixpoint unpct_more (n : nat) (cp : Z) (s : jsstr) : option (Z * jsstr) :=
  match n with
  | O => Some (cp, s)
  | S n' =>
      match unpct s with
      | Some (b, r) =>
          if (128 <=? b) && (b <=? 191)
          then unpct_more n' (cp * 64 + (b - 128)) r
          else None
      | None => None
      end
  end.

(** The code point that the escapes at the front of the string encode: a
    minimal-length encoding of a scalar value. *)
Definition uri_decode_cp (s : jsstr) : option (Z * jsstr) :=
  match unpct s with
  | None => None
  | Some (b, r) =>
      if b <? 128 then Some (b, r)
      else
        let '(n, cp0, low) :=
          if (192 <=? b) && (b <=? 223) then (1%nat, b - 192, 128)
          else if (224 <=? b) && (b <=? 239) then (2%nat, b - 224, 2048)
          else if (240 <=? b) && (b <=? 247) then (3%nat, b - 240, 65536)
          else (0%nat, 0, 0) in
        match n with
        | O => None
        | S _ =>
            match unpct_more n cp0 r with
            | Some (cp, r') =>
                if (low <=? cp) && (cp <? 1114112)
                   && negb ((55296 <=? cp) && (cp <? 57344))
                then Some (cp, r') else None
            | None => None
            end
        end
  end.

(** The input shrinks at every turn, so its length is enough fuel. *)
Fixpoint uri_decode_go (fuel : nat) (s : jsstr) : option jsstr :=
  match fuel, s with
  | _, [] => Some []
  | O, _ :: _ => None
  | S f, c :: r =>
      if c =? 37 then
        match uri_decode_cp s with
        | Some (cp, r') => option_map (app (utf16_of cp)) (uri_decode_go f r')
        | None => None
        end
      else option_map (cons c) (uri_decode_go f r)
  end.

(** [decodeURIComponent(s)] *)
Definition decodeURIComponent (s : jsstr) : result jsstr :=
  throw_none URIError_ (uri_decode_go (length s) s).

(** ** Lemmas on code points *)

(** Induction along [code_points]: a surrogate pair is one step. *)
Lemma code_points_ind (P : jsstr → Prop) :
  P [] →
  (∀ c d r, is_hi c = true → is_lo d = true → P r → P (c :: d :: r)) →
  (∀ c r, (is_hi c = true → ∀ d r', r = d :: r' → is_lo d = false) → P r → P (c :: r)) →
  ∀ s, P s.
Proof.
  intros Hnil Hpair Hone s. remember (length s) as n eqn:Hn.
  assert (Hle : (length s ≤ n)%nat) by lia. clear Hn. revert s Hle.
  induction n as [|n IH]; intros [|c r] Hle; cbn in Hle; [done|lia|done|].
  destruct (is_hi c) eqn:Hc; [|apply Hone; [congruence|apply IH; lia]].
  destruct r as [|d r]; [apply Hone; [by intros|done]|].
  destruct (is_lo d) eqn:Hd.
  - apply Hpair; [done..|]. apply IH. cbn in Hle; lia.
  - apply Hone; [intros _ d' r' [= <- <-]; done|]. apply IH. cbn in *; lia.
Qed.

Lemma code_points_single c r :
  (is_hi c = true → ∀ d r', r = d :: r' → is_lo d = false) →
  code_points (c :: r) =
    (if is_hi c || is_lo c then None else Some c) :: code_points r.
Proof.
  intros H. cbn [code_points]. destruct (is_hi c) eqn:Hc; cbn.
  - destruct r as [|d r]; [done|]. by rewrite (H eq_refl d r eq_refl).
  - by destruct (is_lo c).
Qed.

Lemma code_points_pair c d r :
  is_hi c = true → is_lo d = true →
  code_points (c :: d :: r) =
    Some (65536 + (c - 55296) * 1024 + (d - 56320)) :: code_points r.
Proof. intros Hc Hd. cbn [code_points]. by rewrite Hc, Hd. Qed.

Lemma scalar_values_scalar s : is_js s → Forall is_scalar (scalar_values s).
Proof.
  unfold scalar_values. induction s as [|c d r Hc Hd IH|c r H IH] using code_points_ind;
    intros Hs; [constructor| |].
  - rewrite code_points_pair by done. cbn. constructor.
    + unfold is_hi, is_lo, is_scalar in *. zbool. lia.
    + apply IH. by do 2 apply Forall_cons_1 in Hs as [_ Hs].
  - rewrite code_points_single by done. cbn. apply Forall_cons_1 in Hs as [Hc Hs].
    constructor; [|by apply IH].
    unfold is_hi, is_lo, is_scalar, is_unit, replacement in *.
    destruct (_ || _) eqn:E; cbn; [lia|]. zbool. unfold is_scalar.
    apply andb_false_iff in H0 as [?|?], H1 as [?|?]; zbool; lia.
Qed.

Lemma scalar_values_utf16 s :
  is_js s → well_formed s = true → utf16 (scalar_values s) = s.
Proof.
  unfold scalar_values, utf16, well_formed.
  induction s as [|c d r Hc Hd IH|c r H IH] using code_points_ind; intros Hs Hw; [done| |].
  - rewrite code_points_pair in * by done. cbn in *.
    rewrite IH by first [done | by do 2 apply Forall_cons_1 in Hs as [_ Hs]].
    unfold is_hi, is_lo in *. zbool. unfold utf16_of.
    rewrite (proj2 (Z.ltb_ge _ _)) by lia. cbn. repeat f_equal; zlia.
  - rewrite code_points_single in * by done. cbn in *.
    apply Forall_cons_1 in Hs as [Hu Hs].
    destruct (is_hi c || is_lo c) eqn:E; cbn in Hw; [done|]. cbn. rewrite IH by done.
    unfold utf16_of, is_unit in *. cbn. by rewrite (proj2 (Z.ltb_lt c 65536)) by lia.
Qed.

(** ** Lemmas on UTF-8 *)

Lemma u8_run_ascii cp bs : 0 ≤ cp < 128 → u8_run u8_init (cp :: bs) = cp :: u8_run u8_init bs.
Proof. intros. cbn. unfold u8_start. by zdecide. Qed.

(** One continuation byte inside its range. *)
Lemma u8_run_cont cp k low up b bs :
  low ≤ b ≤ up →
  u8_run (mk_u8 cp (S k) low up) (b :: bs) =
    match k with
    | O => (cp * 64 + (b - 128)) :: u8_run u8_init bs
    | S _ => u8_run (mk_u8 (cp * 64 + (b - 128)) k 128 191) bs
    end.
Proof.
  intros. cbn. unfold u8_step; cbn. zdecide. by destruct k.
Qed.

Lemma u8_run_start b bs st :
  u8_start b = (st, []) → u8_run u8_init (b :: bs) = u8_run st bs.
Proof. intros H. cbn. unfold u8_step; cbn. by rewrite H. Qed.

Lemma u8_run_utf8_of cp bs :
  is_scalar cp → u8_run u8_init (utf8_of cp ++ bs) = cp :: u8_run u8_init bs.
Proof.
  intros Hcp. unfold utf8_of, is_scalar in *.
  destruct (cp <? 128) eqn:E1; [zbool; apply u8_run_ascii; lia|].
  destruct (cp <? 2048) eqn:E2; [|destruct (cp <? 65536) eqn:E3]; zbool; cbn [app].
  - erewrite u8_run_start by (unfold u8_start; by zdecide).
    rewrite u8_run_cont by zlia. f_equal; zlia.
  - erewrite u8_run_start by (unfold u8_start; by zdecide).
    rewrite u8_run_cont by (crush_if; zbool; zlia).
    rewrite u8_run_cont by zlia. f_equal; zlia.
  - erewrite u8_run_start by (unfold u8_start; by zdecide).
    rewrite u8_run_cont by (crush_if; zbool; zlia).
    rewrite !u8_run_cont by zlia. f_equal; zlia.
Qed.

Lemma u8_run_utf8 cps : Forall is_scalar cps → u8_run u8_init (utf8 cps) = cps.
Proof.
  unfold utf8; induction 1 as [|cp cps Hcp _ IH]; cbn; [done|].
  by rewrite u8_run_utf8_of, IH.
Qed.

Lemma utf8_of_bytes cp : is_scalar cp → is_bytes (utf8_of cp).
Proof.
  intros Hcp. unfold utf8_of, is_scalar, is_bytes, is_byte in *.
  destruct (cp <? 128) eqn:E1; [|destruct (cp <? 2048) eqn:E2;
    [|destruct (cp <? 65536) eqn:E3]]; zbool; repeat constructor; zlia.
Qed.

Lemma text_encode_bytes s : is_js s → is_bytes (text_encode s).
Proof.
  intros Hs. unfold text_encode, utf8, is_bytes. apply Forall_concat, Forall_map.
  eapply List.Forall_impl; [apply utf8_of_bytes|]. by apply scalar_values_scalar.
Qed.

(** What decoding an encoded string returns, for every string. *)
Lemma text_decode_encode s :
  is_js s → text_decode (text_encode s) = utf16 (strip_bom (scalar_values s)).
Proof.
  intros Hs. unfold text_decode, text_encode.
  by rewrite u8_run_utf8 by by apply scalar_values_scalar.
Qed.

(** ** Lemmas on percent-encoding *)

Lemma hex_val_upper d : 0 ≤ d < 16 → hex_val (hex_upper d) = Some d.
Proof.
  intros Hd. unfold hex_val, char_digit, hex_upper.
  destruct (d <? 10) eqn:E; zbool; zdecide; repeat f_equal; lia.
Qed.

Lemma unpct_pct b s : is_byte b → unpct (pct b ++ s) = Some (b, s).
Proof.
  intros Hb. unfold is_byte in Hb. cbn. rewrite !hex_val_upper by zlia.
  repeat f_equal. zlia.
Qed.

Lemma unpct_more_pct n cp b s :
  128 ≤ b ≤ 191 →
  unpct_more (S n) cp (pct b ++ s) = unpct_more n (cp * 64 + (b - 128)) s.
Proof.
  intros. cbn [unpct_more]. rewrite unpct_pct by (unfold is_byte; lia). by zdecide.
Qed.

Lemma uri_decode_cp_encoded cp s :
  is_scalar cp → uri_decode_cp (concat (map pct (utf8_of cp)) ++ s) = Some (cp, s).
Proof.
  intros Hcp. unfold utf8_of, is_scalar in *.
  destruct (cp <? 128) eqn:E1; [|destruct (cp <? 2048) eqn:E2;
    [|destruct (cp <? 65536) eqn:E3]]; zbool; cbn [map concat];
    unfold uri_decode_cp; rewrite <-?app_assoc, unpct_pct by (unfold is_byte; zlia);
    zdecide; [done|..]; rewrite ?unpct_more_pct by zlia; cbn [app unpct_more].
  - match goal with |- context [Some (?n, _)] => replace n with cp by zlia end. by zdecide.
  - match goal with |- context [Some (?n, _)] => replace n with cp by zlia end.
    destruct (cp <? 57344) eqn:E4; zbool; by zdecide.
  - match goal with |- context [Some (?n, _)] => replace n with cp by zlia end. by zdecide.
Qed.

(** More fuel does not change the outcome. *)
Lemma uri_decode_go_fuel f f' s t :
  (f ≤ f')%nat → uri_decode_go f s = Some t → uri_decode_go f' s = Some t.
Proof.
  revert f' s t; induction f as [|f IH]; intros f' s t Hle; destruct s as [|c r].
  - by destruct f'.
  - done.
  - by destruct f'.
  - destruct f' as [|f']; [lia|]. cbn [uri_decode_go].
    destruct (c =? 37).
    + destruct (uri_decode_cp (c :: r)) as [[cp r']|]; [|done].
      destruct (uri_decode_go f r') as [u|] eqn:E; [|done].
      intros [= <-]. by rewrite (IH f' r' u ltac:(lia) E).
    + destruct (uri_decode_go f r) as [u|] eqn:E; [|done].
      intros [= <-]. by rewrite (IH f' r u ltac:(lia) E).
Qed.

Lemma uri_decode_go_cp fuel cp s t :
  is_scalar cp → uri_decode_go fuel s = Some t →
  uri_decode_go (S fuel) (uri_encode_cp cp ++ s) = Some (utf16_of cp ++ t).
Proof.
  intros Hcp Ht. unfold uri_encode_cp. destruct (uri_unreserved cp) eqn:E.
  - assert (cp ≠ 37 ∧ 0 ≤ cp < 65536) as [H37 Hlt].
    { unfold uri_unreserved in E. rewrite !orb_true_iff in E. naive_solver (zbool; lia). }
    cbn [app uri_decode_go]. rewrite (proj2 (Z.eqb_neq cp 37)), Ht by done. cbn.
    unfold utf16_of. by rewrite (proj2 (Z.ltb_lt cp 65536)) by lia.
  - assert (∃ l, concat (map pct (utf8_of cp)) ++ s = 37 :: l) as [l Hl].
    { unfold utf8_of. crush_if; eexists; reflexivity. }
    pose proof (uri_decode_cp_encoded cp s Hcp) as Hd. rewrite Hl in *.
    cbn [uri_decode_go]. rewrite Z.eqb_refl, Hd. by rewrite Ht.
Qed.

Lemma uri_decode_go_cps cps :
  Forall is_scalar cps →
  uri_decode_go (length cps) (concat (map uri_encode_cp cps)) = Some (utf16 cps).
Proof.
  unfold utf16; induction 1 as [|cp cps Hcp _ IH]; cbn [map concat length]; [done|].
  by apply uri_decode_go_cp.
Qed.

Lemma uri_encode_length cps :
  (length cps ≤ length (concat (map uri_encode_cp cps)))%nat.
Proof.
  induction cps as [|cp cps IH]; cbn [map concat length]; [done|].
  rewrite length_app.
  enough (1 ≤ length (uri_encode_cp cp))%nat by lia.
  unfold uri_encode_cp, utf8_of. repeat case_match; cbn [map concat app pct length]; lia.
Qed.

(** [decodeURIComponent] undoes [encodeURIComponent]. *)
Lemma uri_roundtrip s e :
  is_js s → encodeURIComponent s = Ok e → decodeURIComponent e = Ok s.
Proof.
  intros Hs. unfold encodeURIComponent, decodeURIComponent.
  destruct (well_formed s) eqn:Hw; [|done]. intros [= <-].
  erewrite uri_decode_go_fuel; [|apply uri_encode_length|].
  2: { apply uri_decode_go_cps, scalar_values_scalar, Hs. }
  by rewrite scalar_values_utf16.
Qed.

(** The text round trip of the message pipeline: exact for a well-formed
    string that does not begin with U+FEFF. *)
Lemma text_roundtrip s :
  is_js s → well_formed s = true → head s ≠ Some 65279 →
  text_decode (text_encode s) = s.
Proof.
  intros Hs Hw Hb. rewrite text_decode_encode by done.
  enough (strip_bom (scalar_values s) = scalar_values s) as ->
    by by apply scalar_values_utf16.
  unfold scalar_values. destruct s as [|c d r|c r H] using code_points_ind; [done| |].
  - rewrite code_points_pair by done. cbn. unfold is_hi, is_lo in *. zbool.
    destruct (Z.eq_dec (65536 + (c - 55296) * 1024 + (d - 56320)) 65279); [lia|].
    unfold strip_bom. repeat case_match; try done; lia.
  - rewrite code_points_single by done. cbn.
    assert (c ≠ 65279) by (cbn in Hb; congruence).
    destruct (_ || _); cbn; [done|]. unfold strip_bom.
    repeat case_match; done.
Qed.
