(* ===== verification/Encoding.v ===== *)
(** * Byte encodings of crypto.ts

    [bufToBase64], [base64ToBuf], [bufToHex], [hexToBuf] and [concatBufs] of
    packages/core/src/encryption/crypto.ts, over the platform's [btoa] and
    [atob]. A [Uint8Array] is a list of bytes; an assignment out of its range
    does nothing, which is what stdpp's list insert does. *)

From S2P Require Import Prelude JsString.

(** ** btoa and atob *)

(** The base64 alphabet, by value and by character. *)
Definition b64_char (v : Z) : Z :=
  if v <? 26 then 65 + v
  else if v <? 52 then 71 + v
  else if v <? 62 then v - 4
  else if v =? 62 then 43 else 47.

Definition b64_val (c : Z) : option Z :=
  if (65 <=? c) && (c <=? 90) then Some (c - 65)
  else if (97 <=? c) && (c <=? 122) then Some (c - 71)
  else if (48 <=? c) && (c <=? 57) then Some (c + 4)
  else if c =? 43 then Some 62
  else if c =? 47 then Some 63
  else None.

Fixpoint b64_encode (l : list Z) : jsstr :=
  match l with
  | a :: b :: c :: r =>
      b64_char (a / 4) :: b64_char (a mod 4 * 16 + b / 16)
      :: b64_char (b mod 16 * 4 + c / 64) :: b64_char (c mod 64) :: b64_encode r
  | [a; b] =>
      [b64_char (a / 4); b64_char (a mod 4 * 16 + b / 16); b64_char (b mod 16 * 4); 61]
  | [a] => [b64_char (a / 4); b64_char (a mod 4 * 16); 61; 61]
  | [] => []
  end.

(** [btoa(s)] throws when a code unit is not a byte. *)
Definition btoa (s : jsstr) : result jsstr :=
  if forallb (λ c, c <? 256) s then Ok (b64_encode s)
  else Throw (DOMException_ "InvalidCharacterError").

(** The sextets of an unpadded string, [None] on a foreign character. *)
Fixpoint b64_sextets (s : jsstr) : option (list Z) :=
  match s with
  | [] => Some []
  | c :: r =>
      match b64_val c, b64_sextets r with
      | Some v, Some vs => Some (v :: vs)
      | _, _ => None
      end
  end.

(** Bytes from sextets; the bits left over at the end are discarded. *)
Fixpoint b64_bytes (vs : list Z) : list Z :=
  match vs with
  | a :: b :: c :: d :: r =>
      a * 4 + b / 16 :: b mod 16 * 16 + c / 4 :: c mod 4 * 64 + d :: b64_bytes r
  | [a; b; c] => [a * 4 + b / 16; b mod 16 * 16 + c / 4]
  | [a; b] => [a * 4 + b / 16]
  | _ => []
  end.

(** At most two padding characters are removed, and only from a string whose
    length is a multiple of four. *)
Definition strip_padding (s : jsstr) : jsstr :=
  if (length s mod 4 =? 0)%nat then
    match rev s with
    | 61 :: 61 :: r => rev r
    | 61 :: r => rev r
    | _ => s
    end
  else s.

Definition is_ascii_space (c : Z) : bool :=
  (c =? 9) || (c =? 10) || (c =? 12) || (c =? 13) || (c =? 32).

(** [atob(s)]: the forgiving base64 decoder. *)
Definition atob (s : jsstr) : result jsstr :=
  let s := strip_padding (List.filter (λ c, negb (is_ascii_space c)) s) in
  if (length s mod 4 =? 1)%nat then Throw (DOMException_ "InvalidCharacterError")
  else
    match b64_sextets s with
    | Some vs => Ok (b64_bytes vs)
    | None => Throw (DOMException_ "InvalidCharacterError")
    end.

(** ** The helpers of crypto.ts *)

(** An element of a [Uint8Array] holds its value modulo 256, and [NaN] as 0. *)
Definition toUint8 (v : option Z) : Z :=
  match v with Some n => n mod 256 | None => 0 end.

Definition bufToBase64 (bytes : list Z) : jsstr :=
  let binary := foldl (λ binary b, binary ++ [b]) [] bytes in
  (* every code unit of [binary] is a byte, so [btoa] does not throw *)
  b64_encode binary.

Definition base64ToBuf (b64 : jsstr) : result (list Z) :=
  binary ← atob b64;
  let bytes := replicate (length binary) 0 in
  mret (foldl (λ bytes i, <[i := toUint8 (binary !! i)]> bytes) bytes
          (seq 0 (length binary))).

Definition bufToHex (buf : list Z) : jsstr :=
  concat (map (λ b, js_padStart (js_toString_radix 16 b) 2 48) buf).

(** The loop runs over [i = 0, 2, 4, ...] below the length. *)
Definition hexToBuf (hex : jsstr) : list Z :=
  let bytes := replicate (length hex / 2) 0 in
  foldl (λ bytes k,
      let i := (2 * k)%nat in
      <[(i / 2)%nat := toUint8 (parseInt16 (take 2 (drop i hex)))]> bytes)
    bytes (seq 0 ((length hex + 1) / 2)).

(** [out.set(arr, offset)] *)
Definition set_at {A} (out arr : list A) (offset : nat) : list A :=
  take offset out ++ arr ++ drop (offset + length arr) out.

Definition concatBufs (arrays : list (list Z)) : list Z :=
  let total := foldl (λ s a, s + length a)%nat O arrays in
  fst (foldl (λ '(out, offset) arr, (set_at out arr offset, offset + length arr)%nat)
         (replicate total 0, O) arrays).

(** ** Base64 lemmas *)

(** A decidable property of bytes is checked by evaluation. *)
Lemma byte_check (p : Z → bool) :
  forallb p (seqZ 0 256) = true → ∀ b, is_byte b → p b = true.
Proof.
  intros H b Hb. rewrite forallb_forall in H. apply H.
  apply list_elem_of_In, elem_of_seqZ. unfold is_byte in Hb. lia.
Qed.

(** The sextets of a byte string, before padding. *)
Fixpoint b64_raw (l : list Z) : list Z :=
  match l with
  | a :: b :: c :: r =>
      a / 4 :: a mod 4 * 16 + b / 16 :: b mod 16 * 4 + c / 64 :: c mod 64 :: b64_raw r
  | [a; b] => [a / 4; a mod 4 * 16 + b / 16; b mod 16 * 4]
  | [a] => [a / 4; a mod 4 * 16]
  | [] => []
  end.

(** Induction three bytes at a time. *)
Lemma bytes3_ind (P : list Z → Prop) :
  P [] → (∀ a, P [a]) → (∀ a b, P [a; b]) →
  (∀ a b c r, P r → P (a :: b :: c :: r)) → ∀ l, P l.
Proof.
  intros H0 H1 H2 H3 l. remember (length l) as n eqn:Hn.
  assert (Hle : (length l ≤ n)%nat) by lia. clear Hn. revert l Hle.
  induction n as [n IH] using lt_wf_ind; intros [|a [|b [|c r]]] Hle; try done.
  apply H3, (IH (n - 1)%nat); cbn in Hle; lia.
Qed.

Definition b64_pad (l : list Z) : nat :=
  match (length l mod 3)%nat with 0%nat => 0 | 1%nat => 2 | _ => 1 end.

Lemma mod3_step n : (S (S (S n)) mod 3 = n mod 3)%nat.
Proof. replace (S (S (S n))) with (n + 1 * 3)%nat by lia. by rewrite Nat.Div0.mod_add. Qed.

Lemma b64_encode_raw l :
  b64_encode l = map b64_char (b64_raw l) ++ replicate (b64_pad l) 61.
Proof.
  induction l as [|a|a b|a b c r IH] using bytes3_ind; [done..|].
  cbn [b64_encode b64_raw map app]. rewrite IH. unfold b64_pad. cbn [length].
  by rewrite mod3_step.
Qed.

Lemma b64_raw_length l : ((length (b64_raw l) + b64_pad l) mod 4 = 0)%nat.
Proof.
  induction l as [|a|a b|a b c r IH] using bytes3_ind; [done..|].
  unfold b64_pad in *. cbn [b64_raw length] in *. rewrite mod3_step.
  etransitivity; [|exact IH]. etransitivity; [|apply (Nat.Div0.mod_add _ 1 4)].
  apply (f_equal (λ n, n mod 4)%nat). lia.
Qed.

Definition is_sextet (v : Z) : Prop := 0 ≤ v < 64.

Lemma b64_raw_range l : is_bytes l → Forall is_sextet (b64_raw l).
Proof.
  unfold is_sextet, is_bytes, is_byte.
  induction l as [|a|a b|a b c r IH] using bytes3_ind; intros H; cbn;
    repeat match goal with H : Forall _ (_ :: _) |- _ => apply Forall_cons_1 in H as [??] end;
    repeat constructor; first [zlia | auto].
Qed.

Lemma b64_val_char v : is_sextet v → b64_val (b64_char v) = Some v.
Proof.
  intros H. unfold is_sextet in H. unfold b64_char, b64_val.
  destruct (v <? 26) eqn:?; [|destruct (v <? 52) eqn:?; [|destruct (v <? 62) eqn:?;
    [|destruct (v =? 62) eqn:?]]]; zbool; zdecide; f_equal; lia.
Qed.

Lemma b64_char_range v : is_sextet v → 43 ≤ b64_char v ≤ 122 ∧ b64_char v ≠ 61.
Proof.
  intros H. unfold is_sextet, b64_char in *.
  repeat case_match; zbool; lia.
Qed.

Lemma b64_sextets_map vs : Forall is_sextet vs → b64_sextets (map b64_char vs) = Some vs.
Proof.
  induction 1 as [|v vs Hv _ IH]; cbn; [done|]. by rewrite b64_val_char, IH.
Qed.

Lemma b64_bytes_raw l : is_bytes l → b64_bytes (b64_raw l) = l.
Proof.
  unfold is_bytes, is_byte.
  induction l as [|a|a b|a b c r IH] using bytes3_ind; intros H; cbn;
    repeat match goal with H : Forall _ (_ :: _) |- _ => apply Forall_cons_1 in H as [??] end;
    [done|repeat f_equal; zlia|repeat f_equal; zlia|].
  rewrite IH by done. repeat f_equal; zlia.
Qed.

(** Stripping the padding of an encoder's output. *)
Lemma strip_padding_raw l :
  is_bytes l → strip_padding (b64_encode l) = map b64_char (b64_raw l).
Proof.
  intros Hl. unfold strip_padding. rewrite b64_encode_raw.
  rewrite length_app, length_map, length_replicate, b64_raw_length.
  cbn [Nat.eqb]. rewrite rev_app_distr.
  assert (Hlast : ∀ r, rev (map b64_char (b64_raw l)) = 61 :: r → False).
  { intros r Hr. pose proof (b64_raw_range l Hl) as Hs.
    assert (In 61 (map b64_char (b64_raw l))) as Hin.
    { apply in_rev. rewrite Hr. by left. }
    apply in_map_iff in Hin as (v & Hv & Hi).
    rewrite List.Forall_forall in Hs. by destruct (b64_char_range v (Hs v Hi)). }
  unfold b64_pad. destruct (length l mod 3)%nat as [|[|]]; cbn [replicate rev app].
  - destruct (rev (map b64_char (b64_raw l))) as [|x r] eqn:E;
      [by rewrite app_nil_r|].
    rewrite app_nil_r. destruct (Z.eq_dec x 61) as [->|Hx]; [by destruct (Hlast r)|].
    repeat case_match; done.
  - by rewrite rev_involutive.
  - destruct (rev (map b64_char (b64_raw l))) as [|x r] eqn:E.
    + apply (f_equal (@rev Z)) in E. rewrite rev_involutive in E. by rewrite E.
    + destruct (Z.eq_dec x 61) as [->|Hx]; [by destruct (Hlast r)|].
      apply (f_equal (@rev Z)) in E. rewrite rev_involutive in E. rewrite E.
      repeat case_match; done.
Qed.

Lemma filter_b64 l :
  is_bytes l → List.filter (λ c, negb (is_ascii_space c)) (b64_encode l) = b64_encode l.
Proof.
  intros Hl. apply forallb_filter_id. rewrite b64_encode_raw, forallb_app.
  apply andb_true_iff; split; apply forallb_forall; intros c Hc.
  - apply in_map_iff in Hc as (v & <- & Hv). pose proof (b64_raw_range l Hl) as Hs.
    rewrite List.Forall_forall in Hs. destruct (b64_char_range v (Hs v Hv)).
    unfold is_ascii_space. by zdecide.
  - apply list_elem_of_In, elem_of_replicate in Hc as [-> _]. done.
Qed.

Lemma atob_encode l : is_bytes l → atob (b64_encode l) = Ok l.
Proof.
  intros Hl. unfold atob. rewrite filter_b64, strip_padding_raw by done.
  pose proof (b64_raw_length l) as Hlen. rewrite length_map.
  rewrite b64_sextets_map by by apply b64_raw_range. rewrite b64_bytes_raw by done.
  unfold b64_pad in Hlen. destruct (Nat.eqb_spec (length (b64_raw l) mod 4) 1) as [E|]; [|done].
  exfalso. rewrite Nat.Div0.add_mod, E in Hlen. by repeat case_match.
Qed.

Lemma atob_btoa s t : is_bytes s → btoa s = Ok t → atob t = Ok s.
Proof.
  intros Hs. unfold btoa. destruct (forallb _ s); [|done]. intros [= <-].
  by apply atob_encode.
Qed.

Lemma bufToBase64_encode bs : bufToBase64 bs = b64_encode bs.
Proof. unfold bufToBase64. by rewrite (foldl_snoc_map id), map_id. Qed.

Lemma toUint8_byte b : is_byte b → toUint8 (Some b) = b.
Proof. intros. cbn. by apply Z.mod_small. Qed.

Lemma base64_decode_bytes s bs :
  is_bytes bs → atob s = Ok bs → base64ToBuf s = Ok bs.
Proof.
  intros Hb Ha. unfold base64ToBuf. rewrite Ha. cbn. f_equal.
  rewrite (fill_loop (λ i, toUint8 (bs !! i))).
  etransitivity; [|apply (map_seq_lookup bs 0)]. apply map_ext_in. intros i Hi.
  apply in_seq in Hi. destruct (lookup_lt_is_Some_2 bs i ltac:(lia)) as [b Hbi].
  rewrite Hbi, (nth_lookup_Some _ _ _ _ Hbi). apply toUint8_byte.
  by eapply Forall_lookup_1.
Qed.

(** [base64ToBuf] undoes [bufToBase64]. *)
Lemma base64_roundtrip bs : is_bytes bs → base64ToBuf (bufToBase64 bs) = Ok bs.
Proof.
  intros Hb. rewrite bufToBase64_encode. by apply base64_decode_bytes, atob_encode.
Qed.

(** The text is ASCII, holds no colon and is empty only for no bytes. *)
Lemma bufToBase64_chars bs :
  is_bytes bs → Forall (λ c, 43 ≤ c ≤ 122 ∧ c ≠ 58) (bufToBase64 bs).
Proof.
  intros Hb. rewrite bufToBase64_encode, b64_encode_raw. apply Forall_app. split.
  - apply Forall_map. eapply List.Forall_impl, b64_raw_range, Hb.
    intros v Hv. unfold is_sextet in Hv. unfold compose, b64_char.
    repeat match goal with |- context [if ?b then _ else _] => destruct b eqn:? end; zbool; lia.
  - apply Forall_replicate. lia.
Qed.

Lemma bufToBase64_nonempty bs : bs ≠ [] → bufToBase64 bs ≠ [].
Proof. rewrite bufToBase64_encode. by destruct bs as [|? [|? [|? ?]]]. Qed.

Lemma bufToBase64_inj a b :
  is_bytes a → is_bytes b → bufToBase64 a = bufToBase64 b → a = b.
Proof.
  intros Ha Hb H. apply base64_roundtrip in Ha, Hb. congruence.
Qed.
#[export] Hint Resolve base64_roundtrip atob_encode : winkd.

(** ** Hexadecimal lemmas *)

Lemma hex2_byte b :
  is_byte b →
  js_padStart (js_toString_radix 16 b) 2 48 = [digit_char (b / 16); digit_char (b mod 16)].
Proof.
  intros Hb. apply (bool_decide_eq_true_1 _).
  revert b Hb. apply byte_check. by vm_compute.
Qed.

Lemma parseInt16_hex2 b :
  is_byte b → parseInt16 [digit_char (b / 16); digit_char (b mod 16)] = Some b.
Proof.
  intros Hb. apply (bool_decide_eq_true_1 _).
  revert b Hb. apply byte_check. by vm_compute.
Qed.

Lemma bufToHex_cons b bs :
  is_byte b →
  bufToHex (b :: bs) = digit_char (b / 16) :: digit_char (b mod 16) :: bufToHex bs.
Proof. intros Hb. unfold bufToHex. cbn [map concat]. by rewrite hex2_byte. Qed.

Lemma bufToHex_length bs : is_bytes bs → length (bufToHex bs) = (2 * length bs)%nat.
Proof.
  induction 1 as [|b bs Hb _ IH]; [done|]. rewrite bufToHex_cons by done. cbn; lia.
Qed.

Lemma bufToHex_slice bs k b :
  is_bytes bs → bs !! k = Some b →
  take 2 (drop (2 * k) (bufToHex bs)) = [digit_char (b / 16); digit_char (b mod 16)].
Proof.
  intros Hbs. revert k. induction Hbs as [|c bs Hc _ IH]; intros [|k] Hk; simplify_eq/=.
  - by rewrite bufToHex_cons.
  - rewrite bufToHex_cons by done.
    replace (k + S (k + 0))%nat with (S (2 * k)) by lia. cbn [drop]. by apply IH.
Qed.

(** [hexToBuf] undoes [bufToHex]. *)
Lemma hex_roundtrip bs : is_bytes bs → hexToBuf (bufToHex bs) = bs.
Proof.
  intros Hb. unfold hexToBuf. rewrite bufToHex_length by done.
  replace (2 * length bs / 2)%nat with (length bs)
    by (rewrite Nat.mul_comm, Nat.div_mul; lia).
  replace ((2 * length bs + 1) / 2)%nat with (length bs)
    by (rewrite Nat.add_comm, Nat.mul_comm, Nat.div_add by lia; done).
  transitivity (foldl (λ bytes k, <[k := toUint8 (parseInt16 (take 2 (drop (2 * k) (bufToHex bs))))]> bytes)
    (replicate (length bs) 0) (seq 0 (length bs))).
  { apply foldl_ext. intros b k. by rewrite (Nat.mul_comm 2 k), Nat.div_mul. }
  rewrite (fill_loop (λ k, toUint8 (parseInt16 (take 2 (drop (2 * k) (bufToHex bs)))))).
  etransitivity; [|apply (map_seq_lookup bs 0)]. apply map_ext_in. intros k Hk.
  apply in_seq in Hk. destruct (lookup_lt_is_Some_2 bs k ltac:(lia)) as [b Hbk].
  assert (is_byte b) by by eapply Forall_lookup_1.
  rewrite (bufToHex_slice _ _ b), parseInt16_hex2, (nth_lookup_Some _ _ _ _ Hbk) by done.
  by apply toUint8_byte.
Qed.
#[export] Hint Resolve hex_roundtrip : winkd.

Lemma bufToHex_inj a b : is_bytes a → is_bytes b → bufToHex a = bufToHex b → a = b.
Proof.
  intros Ha Hb H. rewrite <-(hex_roundtrip a), <-(hex_roundtrip b) by done. by rewrite H.
Qed.

(** Writing bytes into a byte array leaves a byte array of the same length. *)
Lemma foldl_insert_bytes (g : nat → nat) (f : nat → Z) idx l :
  (∀ i, is_byte (f i)) → is_bytes l →
  is_bytes (foldl (λ b i, <[g i := f i]> b) l idx).
Proof.
  intros Hf; revert l; induction idx as [|i idx IH]; intros l Hl; cbn [foldl]; [done|].
  apply IH, Forall_insert; auto.
Qed.

Lemma toUint8_range v : is_byte (toUint8 v).
Proof. unfold toUint8, is_byte. case_match; [apply Z.mod_pos_bound|]; lia. Qed.

(** What [hexToBuf] returns is a byte array of half the length, always. *)
Lemma hexToBuf_bytes s : is_bytes (hexToBuf s) ∧ length (hexToBuf s) = (length s / 2)%nat.
Proof.
  unfold hexToBuf. split.
  - apply (foldl_insert_bytes (λ k, (2 * k / 2)%nat)); [intros; apply toUint8_range|].
    apply Forall_replicate. unfold is_byte; lia.
  - rewrite (foldl_insert_length (λ k, (2 * k / 2)%nat)
      (λ k, toUint8 (parseInt16 (take 2 (drop (2 * k) s))))). apply length_replicate.
Qed.

(** ** concatBufs *)

Lemma foldl_total {A} (arrays : list (list A)) n :
  foldl (λ s a, s + length a)%nat n arrays = (n + length (concat arrays))%nat.
Proof.
  revert n; induction arrays as [|a r IH]; intros n; cbn; [lia|].
  rewrite IH, length_app. lia.
Qed.

(** The loop invariant of [concatBufs]: the part below the offset is filled. *)
Lemma concat_loop (arrays : list (list Z)) (done_ rest : list Z) :
  length rest = length (concat arrays) →
  fst (foldl (λ '(out, offset) arr, (set_at out arr offset, offset + length arr)%nat)
         (done_ ++ rest, length done_) arrays) = done_ ++ concat arrays.
Proof.
  revert done_ rest; induction arrays as [|a r IH]; intros done_ rest Hlen; cbn in *.
  - apply nil_length_inv in Hlen as ->. done.
  - unfold set_at at 2.
    rewrite take_app_length, drop_app_ge by lia.
    replace (length done_ + length a - length done_)%nat with (length a) by lia.
    rewrite app_assoc.
    replace (length done_ + length a)%nat with (length (done_ ++ a)) by apply length_app.
    rewrite IH; [by rewrite <-app_assoc|].
    rewrite length_drop, Hlen, length_app. lia.
Qed.

Lemma concatBufs_concat arrays : concatBufs arrays = concat arrays.
Proof.
  unfold concatBufs. rewrite foldl_total; cbn [Nat.add].
  apply (concat_loop arrays []). apply length_replicate.
Qed.
