(* ===== verification/Json.v ===== *)
(** * JSON text

    [JSON.stringify] and [JSON.parse] as the program uses them: every wire
    message, stored private key and socket frame goes through them. Numbers
    are integers; a literal with a fraction or an exponent is kept as its text
    ([JFrac]), because the program writes none and reads none as a count. *)

From S2P Require Import Prelude JsString Utf.

Inductive json :=
  | JNull
  | JBool (b : bool)
  | JNum (n : Z)
  | JFrac (lit : jsstr)
  | JStr (s : jsstr)
  | JArr (l : list json)
  | JObj (l : list (jsstr * json)).

(** ** JSON.stringify *)

(** Four lowercase hexadecimal digits. *)
Definition hex4 (c : Z) : jsstr :=
  [digit_char (c / 4096); digit_char (c / 256 mod 16);
   digit_char (c / 16 mod 16); digit_char (c mod 16)].

(** One code unit in a quoted string. *)
Definition quote_unit (c : Z) : jsstr :=
  if c =? 8 then [92; 98] else if c =? 9 then [92; 116] else if c =? 10 then [92; 110]
  else if c =? 12 then [92; 102] else if c =? 13 then [92; 114]
  else if c =? 34 then [92; 34] else if c =? 92 then [92; 92]
  else if c <? 32 then 92 :: 117 :: hex4 c
  else [c].

(** Lone surrogates are escaped; a pair is copied. *)
Fixpoint quote_units (s : jsstr) : jsstr :=
  match s with
  | [] => []
  | c :: r =>
      if is_hi c then
        match r with
        | d :: r' =>
            if is_lo d then c :: d :: quote_units r'
            else 92 :: 117 :: hex4 c ++ quote_units r
        | [] => 92 :: 117 :: hex4 c
        end
      else if is_lo c then 92 :: 117 :: hex4 c ++ quote_units r
      else quote_unit c ++ quote_units r
  end.

Definition quote (s : jsstr) : jsstr := 34 :: quote_units s ++ [34].

Fixpoint stringify (v : json) : jsstr :=
  match v with
  | JNull => js "null"
  | JBool true => js "true"
  | JBool false => js "false"
  | JNum n => js_toString n
  | JFrac lit => lit
  | JStr s => quote s
  | JArr l => 91 :: js_join [44] (map stringify l) ++ [93]
  | JObj l =>
      123 :: js_join [44] (map (λ '(k, v), quote k ++ 58 :: stringify v) l) ++ [125]
  end.

(** ** JSON.parse *)

Fixpoint skip_ws (s : jsstr) : jsstr :=
  match s with
  | c :: r => if (c =? 32) || (c =? 9) || (c =? 10) || (c =? 13) then skip_ws r else s
  | [] => []
  end.

Definition parse_hex4 (s : jsstr) : option (Z * jsstr) :=
  match s with
  | a :: b :: c :: d :: r =>
      match char_digit a, char_digit b, char_digit c, char_digit d with
      | Some w, Some x, Some y, Some z =>
          if (w <? 16) && (x <? 16) && (y <? 16) && (z <? 16)
          then Some (w * 4096 + x * 256 + y * 16 + z, r) else None
      | _, _, _, _ => None
      end
  | _ => None
  end.

(** The rest of a string literal, after the opening quote. *)
Fixpoint parse_string (s : jsstr) : option (jsstr * jsstr) :=
  match s with
  | [] => None
  | c :: r =>
      if c =? 34 then Some ([], r)
      else if c =? 92 then
        match r with
        | [] => None
        | e :: r1 =>
            if e =? 117 then
              match r1 with
              | a :: b :: x :: y :: r2 =>
                  match parse_hex4 [a; b; x; y], parse_string r2 with
                  | Some (u, _), Some (t, q) => Some (u :: t, q)
                  | _, _ => None
                  end
              | _ => None
              end
            else
              match (if e =? 34 then Some 34 else if e =? 92 then Some 92
                     else if e =? 47 then Some 47 else if e =? 98 then Some 8
                     else if e =? 102 then Some 12 else if e =? 110 then Some 10
                     else if e =? 114 then Some 13 else if e =? 116 then Some 9
                     else None), parse_string r1 with
              | Some u, Some (t, q) => Some (u :: t, q)
              | _, _ => None
              end
        end
      else if c <? 32 then None
      else match parse_string r with
           | Some (t, q) => Some (c :: t, q)
           | None => None
           end
  end.

Definition is_digit (c : Z) : bool := (48 <=? c) && (c <=? 57).

Fixpoint span_digits (s : jsstr) : jsstr * jsstr :=
  match s with
  | c :: r => if is_digit c then let '(ds, q) := span_digits r in (c :: ds, q) else ([], s)
  | [] => ([], [])
  end.

(** A fraction and an exponent: the literal text they take. *)
Definition parse_frac (s : jsstr) : option (jsstr * jsstr) :=
  match s with
  | c :: r =>
      if c =? 46 then
        match span_digits r with
        | ([], _) => None
        | (ds, q) => Some (46 :: ds, q)
        end
      else Some ([], s)
  | [] => Some ([], s)
  end.

Definition parse_exp (s : jsstr) : option (jsstr * jsstr) :=
  match s with
  | e :: r =>
      if (e =? 101) || (e =? 69) then
        let '(sign, r1) := match r with
          | c :: r' => if (c =? 43) || (c =? 45) then ([c], r') else ([], r)
          | [] => ([], r)
          end in
        match span_digits r1 with
        | ([], _) => None
        | (ds, q) => Some (e :: sign ++ ds, q)
        end
      else Some ([], s)
  | [] => Some ([], s)
  end.

(** No digits, or a leading zero before further digits. *)
Definition bad_digits (ds : jsstr) : bool :=
  match ds with [] => true | [_] => false | c :: _ :: _ => c =? 48 end.

Definition parse_number (s : jsstr) : option (json * jsstr) :=
  let neg := match s with c :: _ => c =? 45 | [] => false end in
  let '(ds, s2) := span_digits (if neg then tail s else s) in
  if bad_digits ds then None
  else
    match parse_frac s2 with
    | None => None
    | Some (fr, s3) =>
        match parse_exp s3 with
        | None => None
        | Some (ex, s4) =>
            match fr ++ ex with
            | [] =>
                let n := digits_value 10 (map (λ c, c - 48) ds) in
                Some (JNum (if neg then - n else n), s4)
            | tail => Some (JFrac ((if neg then [45] else []) ++ ds ++ tail), s4)
            end
        end
    end.

(** A fixed word at the front of the text. *)
Definition eat (w s : jsstr) : option jsstr :=
  if js_startsWith s w then Some (drop (length w) s) else None.

(** [null], [true], [false] or a number. *)
Definition parse_scalar (s : jsstr) : option (json * jsstr) :=
  match eat (js "null") s, eat (js "true") s, eat (js "false") s with
  | Some q, _, _ => Some (JNull, q)
  | None, Some q, _ => Some (JBool true, q)
  | None, None, Some q => Some (JBool false, q)
  | None, None, None => parse_number s
  end.

(** The character that [skip_ws] stops at, and the text after it. *)
Definition next_char (s : jsstr) : Z * jsstr :=
  match skip_ws s with c :: r => (c, r) | [] => (-1, []) end.

(** The fuel bounds the depth of the recursion; [parse_json] gives twice the
    length of the text, and every two calls consume a character. *)
Fixpoint parse_value (fuel : nat) (s : jsstr) {struct fuel} : option (json * jsstr) :=
  match fuel with
  | O => None
  | S f =>
      let '(c, r) := next_char s in
      if c =? 123 then
        let '(d, r') := next_char r in
        if d =? 125 then Some (JObj [], r')
        else match parse_members f r with
             | Some (l, q) => Some (JObj l, q)
             | None => None
             end
      else if c =? 91 then
        let '(d, r') := next_char r in
        if d =? 93 then Some (JArr [], r')
        else match parse_elems f r with
             | Some (l, q) => Some (JArr l, q)
             | None => None
             end
      else if c =? 34 then
        match parse_string r with
        | Some (t, q) => Some (JStr t, q)
        | None => None
        end
      else parse_scalar (skip_ws s)
  end
with parse_elems (fuel : nat) (s : jsstr) {struct fuel} : option (list json * jsstr) :=
  match fuel with
  | O => None
  | S f =>
      match parse_value f s with
      | None => None
      | Some (v, r) =>
          let '(d, q) := next_char r in
          if d =? 93 then Some ([v], q)
          else if d =? 44 then
            match parse_elems f q with
            | Some (vs, q') => Some (v :: vs, q')
            | None => None
            end
          else None
      end
  end
with parse_members (fuel : nat) (s : jsstr) {struct fuel} : option (list (jsstr * json) * jsstr) :=
  match fuel with
  | O => None
  | S f =>
      let '(c, r) := next_char s in
      if c =? 34 then
        match parse_string r with
        | None => None
        | Some (k, r1) =>
            let '(e, r2) := next_char r1 in
            if e =? 58 then
              match parse_value f r2 with
              | None => None
              | Some (v, r3) =>
                  let '(d, q) := next_char r3 in
                  if d =? 125 then Some ([(k, v)], q)
                  else if d =? 44 then
                    match parse_members f q with
                    | Some (l, q') => Some ((k, v) :: l, q')
                    | None => None
                    end
                  else None
              end
            else None
        end
      else None
  end.

(** [JSON.parse(text)] *)
Definition parse_json (text : jsstr) : result json :=
  match parse_value (S (2 * length text)) text with
  | Some (v, r) => match skip_ws r with [] => Ok v | _ => Throw SyntaxError_ end
  | None => Throw SyntaxError_
  end.

(** ** Reading an object *)

(** [v.k] of an object: the last member of that name. *)
Definition json_get (k : jsstr) (v : json) : option json :=
  match v with
  | JObj l =>
      match list_find (λ kv, kv.1 = k) (rev l) with
      | Some (_, kv) => Some kv.2
      | None => None
      end
  | _ => None
  end.

Definition as_str (v : json) : option jsstr := match v with JStr s => Some s | _ => None end.
Definition as_int (v : json) : option Z := match v with JNum n => Some n | _ => None end.

(** ** The round trip *)

(** Values the program writes: integers and strings of code units. *)
Definition js_ok (s : jsstr) : bool := forallb (λ c, (0 <=? c) && (c <? 65536)) s.

Fixpoint json_ok (v : json) : bool :=
  match v with
  | JNull | JBool _ | JNum _ => true
  | JFrac _ => false
  | JStr s => js_ok s
  | JArr l => forallb json_ok l
  | JObj l => forallb (λ '(k, v), js_ok k && json_ok v) l
  end.

Lemma js_ok_spec s : js_ok s = true ↔ is_js s.
Proof.
  unfold js_ok, is_js, is_unit. rewrite forallb_forall, List.Forall_forall.
  split; intros H c Hc; specialize (H c Hc); cbn in *.
  - zbool. lia.
  - by zdecide.
Qed.

(** Fuel that suffices to read a value back. *)
Fixpoint json_size (v : json) : nat :=
  match v with
  | JArr l => S (list_sum (map (λ v, S (json_size v)) l))
  | JObj l => S (list_sum (map (λ kv, S (json_size kv.2)) l))
  | _ => 1
  end%nat.

(** Induction that reaches the elements of arrays and objects. *)
Section json_ind.
Context (P : json → Prop).
Context (Hnull : P JNull) (Hbool : ∀ b, P (JBool b)) (Hnum : ∀ n, P (JNum n))
  (Hfrac : ∀ l, P (JFrac l)) (Hstr : ∀ s, P (JStr s))
  (Harr : ∀ l, Forall P l → P (JArr l))
  (Hobj : ∀ l, Forall (λ kv : jsstr * json, P kv.2) l → P (JObj l)).

Fixpoint json_nested_ind (v : json) : P v :=
  match v with
  | JNull => Hnull | JBool b => Hbool b | JNum n => Hnum n
  | JFrac l => Hfrac l | JStr s => Hstr s
  | JArr l => Harr l ((fix go l := match l return Forall P l with
      | [] => Forall_nil_2 P
      | v :: l => Forall_cons_2 P v l (json_nested_ind v) (go l)
      end) l)
  | JObj l => Hobj l ((fix go l := match l return Forall (λ kv : jsstr * json, P kv.2) l with
      | [] => Forall_nil_2 _
      | kv :: l => Forall_cons_2 _ kv l (json_nested_ind kv.2) (go l)
      end) l)
  end.
End json_ind.

Lemma parse_hex4_hex4 c : is_unit c → parse_hex4 (hex4 c) = Some (c, []).
Proof.
  intros Hc. unfold is_unit in Hc. unfold hex4, parse_hex4.
  rewrite !char_digit_char by zlia. zdecide. repeat f_equal. zlia.
Qed.

Lemma parse_string_escape c s q t r :
  is_unit c → parse_string s = Some (t, r) → q = s →
  parse_string (92 :: 117 :: hex4 c ++ q) = Some (c :: t, r).
Proof.
  intros Hc Hs ->. pose proof (parse_hex4_hex4 c Hc) as Hx. unfold hex4 in *.
  cbn [app parse_string]. rewrite Hs.
  change (92 =? 34) with false. change (92 =? 92) with true. change (117 =? 117) with true.
  cbv iota. by rewrite Hx.
Qed.

Lemma parse_string_plain c s t r :
  c ≠ 34 → c ≠ 92 → 32 ≤ c → parse_string s = Some (t, r) →
  parse_string (c :: s) = Some (c :: t, r).
Proof. intros ??? Hs. cbn [parse_string]. rewrite Hs. by zdecide. Qed.

Lemma parse_string_unit c s t r :
  0 ≤ c → parse_string s = Some (t, r) →
  parse_string (quote_unit c ++ s) = Some (c :: t, r).
Proof.
  intros Hc Hs. unfold quote_unit.
  repeat match goal with
  | |- context [if c =? ?n then _ else _] =>
      destruct (Z.eqb_spec c n) as [->|?]; [cbn; by rewrite Hs|]
  end.
  destruct (Z.ltb_spec c 32); [|by apply parse_string_plain].
  cbn [app]. eapply parse_string_escape; [unfold is_unit; lia|done|done].
Qed.

Lemma parse_string_quote s q :
  is_js s → parse_string (quote_units s ++ 34 :: q) = Some (s, q).
Proof.
  induction s as [|c d r Hc Hd IH|c r H IH] using code_points_ind; intros Hs; [done| |].
  - cbn [quote_units]. rewrite Hc, Hd. unfold is_hi, is_lo in *. zbool. cbn [app].
    do 2 apply Forall_cons_1 in Hs as [_ Hs].
    do 2 (apply parse_string_plain; [lia..|]). auto.
  - apply Forall_cons_1 in Hs as [Hu Hs]. specialize (IH Hs). cbn [quote_units].
    destruct (is_hi c) eqn:Hc.
    + destruct r as [|d r].
      * cbn [app]. by eapply (parse_string_escape _ (34 :: q)).
      * rewrite (H eq_refl d r eq_refl). cbn [app]. rewrite <-app_assoc.
        by eapply parse_string_escape.
    + destruct (is_lo c).
      * cbn [app]. rewrite <-app_assoc. by eapply parse_string_escape.
      * rewrite <-app_assoc. apply parse_string_unit; [unfold is_unit in Hu; lia|done].
Qed.

(** ** Numbers *)

(** What may follow a value inside the texts the program writes. *)
Definition value_end (q : jsstr) : Prop :=
  match q with [] => True | c :: _ => c = 44 ∨ c = 93 ∨ c = 125 end.

Lemma is_digit_char d : 0 ≤ d < 10 → is_digit (digit_char d) = true ∧ digit_char d = 48 + d.
Proof. intros Hd. unfold is_digit, digit_char. by zdecide. Qed.

Lemma span_digits_app ds q :
  Forall (λ d, 0 ≤ d < 10) ds → value_end q →
  span_digits (map digit_char ds ++ q) = (map digit_char ds, q).
Proof.
  intros Hds Hq. induction Hds as [|d ds Hd _ IH]; cbn [map app span_digits].
  - destruct q as [|c q]; [done|]. cbn in *. unfold is_digit.
    destruct Hq as [->|[->| ->]]; done.
  - by rewrite (proj1 (is_digit_char d Hd)), IH.
Qed.

Lemma parse_tail q : value_end q → parse_frac q = Some ([], q) ∧ parse_exp q = Some ([], q).
Proof. destruct q as [|c q]; [done|]. by intros [->|[->| ->]]. Qed.

Lemma digits_go_head fuel n :
  0 < n < 2 ^ Z.of_nat fuel → head (digits_go fuel 10 n []) ≠ Some 0.
Proof.
  revert n; induction fuel as [|fuel IH]; intros n Hn; [done|].
  cbn [digits_go]. destruct (n <? 10) eqn:E; zbool; [cbn; intros [=]; lia|].
  rewrite digits_go_acc.
  assert (0 < n / 10 < 2 ^ Z.of_nat fuel) as Hlt.
  { split; [zlia|]. apply Z.div_lt_upper_bound; [lia|].
    rewrite Nat2Z.inj_succ, Z.pow_succ_r in Hn by lia. lia. }
  specialize (IH _ Hlt).
  destruct (digits_go fuel 10 (n / 10) []) as [|d ds] eqn:Eg; [|done].
  destruct fuel; [cbn in Hlt; lia|]. cbn [digits_go] in Eg.
  destruct (_ <? _); [done|]. rewrite digits_go_acc in Eg. by apply app_nil in Eg as [_ ?].
Qed.

Lemma digits_head n : 0 < n → head (digits 10 n) ≠ Some 0.
Proof.
  intros Hn. apply digits_go_head. split; [done|].
  rewrite Nat2Z.inj_succ, Z2Nat.id by apply Z.log2_nonneg. by apply Z.log2_spec.
Qed.

Lemma map_digit_val ds :
  Forall (λ d, 0 ≤ d < 10) ds → map (λ c, c - 48) (map digit_char ds) = ds.
Proof.
  induction 1 as [|d ds Hd _ IH]; cbn [map]; [done|]. rewrite IH.
  unfold digit_char. zdecide. f_equal. lia.
Qed.

Lemma digits10_good n : 0 ≤ n → bad_digits (map digit_char (digits 10 n)) = false.
Proof.
  intros Hn. pose proof (digits_range 10 n ltac:(lia) Hn) as Hr.
  pose proof (digits_nonempty 10 n) as Hne.
  destruct (decide (n = 0)) as [->|Hn0]; [done|].
  pose proof (digits_head n ltac:(lia)) as Hh.
  destruct (digits 10 n) as [|d [|e ds]]; [done..|].
  apply Forall_cons_1 in Hr as [Hd _]. cbn in *.
  rewrite (proj2 (is_digit_char d Hd)). apply Z.eqb_neq. intros ?. apply Hh. f_equal. lia.
Qed.

Lemma parse_number_toString n q :
  value_end q → parse_number (js_toString n ++ q) = Some (JNum n, q).
Proof.
  intros Hq. destruct (parse_tail q Hq) as [Hf He].
  set (m := Z.abs n).
  pose proof (digits_range 10 m ltac:(lia) ltac:(lia)) as Hr.
  pose proof (span_digits_app _ q Hr Hq) as Hs.
  pose proof (digits10_good m ltac:(lia)) as Hb.
  assert (Hfirst : ∀ c l, map digit_char (digits 10 m) ++ q = c :: l → (c =? 45) = false).
  { intros c l. destruct (digits 10 m) as [|d ds] eqn:E; [by destruct (digits_nonempty 10 m)|].
    apply Forall_cons_1 in Hr as [Hd _]. cbn. rewrite (proj2 (is_digit_char d Hd)).
    intros [= <- _]. apply Z.eqb_neq. lia. }
  unfold js_toString, js_toString_radix, parse_number.
  destruct (n <? 0) eqn:En; zbool.
  - replace (- n) with m by lia. cbn [app]. rewrite Z.eqb_refl. cbn [tail].
    rewrite Hs, Hb, Hf, He. cbn [app].
    rewrite map_digit_val, digits_value_digits by (done || lia). do 3 f_equal. lia.
  - replace n with m by lia.
    replace (match map digit_char (digits 10 m) ++ q with c :: _ => c =? 45 | [] => false end)
      with false by (destruct (map _ _ ++ q); [done|]; by rewrite (Hfirst _ _ eq_refl)).
    rewrite Hs, Hb, Hf, He. cbn [app].
    by rewrite map_digit_val, digits_value_digits by (done || lia).
Qed.

(** ** Values *)

(** The first character of a value decides its kind. *)
Lemma next_char_cons c r :
  c ≠ 32 → c ≠ 9 → c ≠ 10 → c ≠ 13 → next_char (c :: r) = (c, r) ∧ skip_ws (c :: r) = c :: r.
Proof. intros. unfold next_char. cbn. by zdecide. Qed.

Lemma next_char_sep c r : In c [34; 44; 58; 91; 93; 123; 125] → next_char (c :: r) = (c, r).
Proof. intros H. repeat (destruct H as [<-|H]; [done|]). done. Qed.

Lemma eat_other w d c l : head w = Some d → c ≠ d → eat w (c :: l) = None.
Proof. destruct w as [|x w]; [done|]. intros [= ->] Hc. unfold eat. cbn. by zdecide. Qed.

Lemma parse_value_num f n q :
  value_end q → parse_value (S f) (js_toString n ++ q) = Some (JNum n, q).
Proof.
  intros Hq. pose proof (parse_number_toString n q Hq) as Hp.
  assert (∃ c l, js_toString n ++ q = c :: l ∧ (c = 45 ∨ 48 ≤ c ≤ 57)) as (c & l & E & Hc).
  { unfold js_toString, js_toString_radix. destruct (n <? 0) eqn:En; [by eauto|]. zbool.
    pose proof (digits_range 10 n ltac:(lia) ltac:(lia)) as Hr.
    destruct (digits 10 n) as [|d ds] eqn:Ed; [by destruct (digits_nonempty 10 n)|].
    apply Forall_cons_1 in Hr as [Hd _]. do 2 eexists. split; [reflexivity|].
    rewrite (proj2 (is_digit_char d Hd)). lia. }
  rewrite E in *. cbn [parse_value].
  destruct (next_char_cons c l) as [-> ->]; [lia..|]. zdecide.
  unfold parse_scalar.
  by rewrite (eat_other (js "null") 110), (eat_other (js "true") 116),
    (eat_other (js "false") 102) by (reflexivity || lia).
Qed.

(** The texts of the elements and of the members, and what reads them back. *)
Lemma parse_elems_join f l q :
  (∀ v f' q', In v l → (json_size v ≤ f')%nat → value_end q' →
     parse_value f' (stringify v ++ q') = Some (v, q')) →
  l ≠ [] → (list_sum (map (λ v, S (json_size v)) l) ≤ f)%nat →
  parse_elems f (js_join [44] (map stringify l) ++ 93 :: q) = Some (l, q).
Proof.
  intros HP Hl. revert f. induction l as [|v l IH]; intros f Hf; [done|].
  cbn [map list_sum foldr] in Hf. change (foldr Init.Nat.add 0%nat) with list_sum in Hf.
  destruct f as [|f]; [cbn in Hf; lia|].
  cbn [parse_elems]. destruct l as [|w l].
  - cbn [map js_join]. rewrite HP; [done|by left| |cbn; auto]. cbn in Hf; lia.
  - change (js_join [44] (map stringify (v :: w :: l)))
      with (stringify v ++ [44] ++ js_join [44] (map stringify (w :: l))).
    rewrite <-!app_assoc. rewrite HP; [|by left| |cbn; auto].
    2: { cbn in Hf; lia. }
    cbn [app]. rewrite next_char_sep by (cbn; auto 10).
    change (44 =? 93) with false. rewrite Z.eqb_refl. cbv iota.
    rewrite IH; [done| |done|].
    + intros v' f' q' Hin. apply HP. by right.
    + unfold list_sum in *. cbn in *. lia.
Qed.

Definition member_text (kv : jsstr * json) : jsstr :=
  quote kv.1 ++ 58 :: stringify kv.2.

Lemma parse_members_join f l q :
  (∀ kv f' q', In kv l → (json_size kv.2 ≤ f')%nat → value_end q' →
     parse_value f' (stringify kv.2 ++ q') = Some (kv.2, q')) →
  Forall (λ kv, is_js kv.1) l → l ≠ [] →
  (list_sum (map (λ kv, S (json_size kv.2)) l) ≤ f)%nat →
  parse_members f (js_join [44] (map member_text l) ++ 125 :: q) = Some (l, q).
Proof.
  intros HP Hk Hl. revert f. induction l as [|[k v] l IH]; intros f Hf; [done|].
  apply Forall_cons_1 in Hk as [Hkk Hk].
  destruct f as [|f]; [cbn in Hf; lia|]. cbn [parse_members].
  assert (Hv : ∀ q', value_end q' → parse_value f (stringify v ++ q') = Some (v, q')).
  { intros q' Hq'. apply (HP (k, v)); [by left|cbn in Hf |- *; lia|done]. }
  assert (Hm : ∀ q', next_char (member_text (k, v) ++ q')
                     = (34, quote_units k ++ 34 :: 58 :: stringify v ++ q')).
  { intros q'. unfold member_text, quote. cbn [fst snd app]. rewrite <-!app_assoc.
    cbn [app]. by rewrite next_char_sep by (cbn; auto). }
  destruct l as [|w l].
  - cbn [map js_join]. rewrite Hm, Z.eqb_refl, parse_string_quote by done.
    rewrite next_char_sep by (cbn; auto 10). rewrite Z.eqb_refl, Hv by (cbn; auto).
    by rewrite next_char_sep by (cbn; auto 10).
  - change (js_join [44] (map member_text ((k, v) :: w :: l)))
      with (member_text (k, v) ++ [44] ++ js_join [44] (map member_text (w :: l))).
    rewrite <-!app_assoc, Hm, Z.eqb_refl, parse_string_quote by done.
    rewrite next_char_sep by (cbn; auto 10). rewrite Z.eqb_refl, Hv by (cbn; auto).
    cbn [app]. rewrite next_char_sep by (cbn; auto 10).
    change (44 =? 125) with false. rewrite Z.eqb_refl. cbv iota.
    rewrite IH; [done| |done|done|].
    + intros kv f' q' Hin. apply HP. by right.
    + unfold list_sum in *. cbn in *. lia.
Qed.

(** No value begins with a closing bracket or a brace, so a non-empty
    array or object is not mistaken for an empty one. *)
Lemma next_char_join_arr l q :
  l ≠ [] → (∀ v, In v l → json_ok v = true) →
  (next_char (js_join [44] (map stringify l) ++ q)).1 ≠ 93.
Proof.
  destruct l as [|v l]; [done|]. intros _ Hok. specialize (Hok v (or_introl eq_refl)).
  assert (∃ c r, stringify v = c :: r ∧
    (In c [34; 91; 123; 110; 116; 102; 45] ∨ 48 ≤ c ≤ 57)) as (c & r & E & Hc).
  { destruct v as [|[]|n| | | |]; cbn; try done;
      try (do 2 eexists; split; [reflexivity|cbn; auto 10]; fail).
    unfold js_toString, js_toString_radix. destruct (n <? 0) eqn:En; [by eauto 12|]. zbool.
    pose proof (digits_range 10 n ltac:(lia) ltac:(lia)) as Hr.
    destruct (digits 10 n) as [|d ds] eqn:Ed; [by destruct (digits_nonempty 10 n)|].
    apply Forall_cons_1 in Hr as [Hd _]. do 2 eexists. split; [reflexivity|]. right.
    rewrite (proj2 (is_digit_char d Hd)). lia. }
  assert (∃ r', js_join [44] (map stringify (v :: l)) ++ q = c :: r') as [r' Er].
  { cbn [map js_join]. rewrite E. destruct (map stringify l); eexists; reflexivity. }
  rewrite Er.
  assert (c ≠ 32 ∧ c ≠ 9 ∧ c ≠ 10 ∧ c ≠ 13 ∧ c ≠ 93) as (?&?&?&?&?)
    by (cbn in Hc; repeat split; lia).
  by rewrite (proj1 (next_char_cons c r' ltac:(done) ltac:(done) ltac:(done) ltac:(done))).
Qed.

Lemma next_char_join_obj l q :
  l ≠ [] → (next_char (js_join [44] (map member_text l) ++ q)).1 = 34.
Proof.
  destruct l as [|kv l]; [done|]. intros _. cbn [map js_join].
  destruct (map member_text l); unfold member_text, quote; cbn [app];
    rewrite <-?app_assoc; cbn [app]; by rewrite next_char_sep by (cbn; auto).
Qed.

Lemma parse_value_stringify v :
  json_ok v = true → ∀ f q, (json_size v ≤ f)%nat → value_end q →
  parse_value f (stringify v ++ q) = Some (v, q).
Proof.
  induction v as [|[]|n|lit|s|l IH|l IH] using json_nested_ind; intros Hok f q Hf Hq;
    (destruct f as [|f]; [cbn in Hf; lia|]).
  - reflexivity.
  - reflexivity.
  - reflexivity.
  - by apply parse_value_num.
  - done.
  - cbn [stringify]. unfold quote. cbn [parse_value app]. rewrite <-app_assoc. cbn [app].
    rewrite next_char_sep by (cbn; auto). cbn [Z.eqb Pos.eqb].
    rewrite parse_string_quote; [done|]. by apply js_ok_spec.
  - cbn [stringify parse_value app]. rewrite <-app_assoc. cbn [app].
    rewrite next_char_sep by (cbn; auto 10). cbn [Z.eqb Pos.eqb].
    destruct l as [|v l]; [done|].
    assert (Hall : ∀ w, In w (v :: l) → json_ok w = true)
      by by apply (proj1 (forallb_forall _ _)).
    pose proof (next_char_join_arr (v :: l) (93 :: q) ltac:(done) Hall) as Hne.
    destruct (next_char (_ ++ 93 :: q)) as [d r']. cbn in Hne.
    rewrite (proj2 (Z.eqb_neq d 93)) by done.
    rewrite parse_elems_join; [done| |done|cbn in *; lia].
    intros w f' q' Hin. rewrite List.Forall_forall in IH. auto.
  - cbn [stringify parse_value app].
    change (map (λ '(k, v), quote k ++ 58 :: stringify v) l) with
      (map (λ '(k, v), quote k ++ 58 :: stringify v) l).
    replace (map (λ '(k, v), quote k ++ 58 :: stringify v) l) with (map member_text l)
      by (apply map_ext; by intros []).
    rewrite <-app_assoc. cbn [app].
    rewrite next_char_sep by (cbn; auto 10). cbn [Z.eqb Pos.eqb].
    destruct l as [|v l]; [done|].
    pose proof (next_char_join_obj (v :: l) (125 :: q) ltac:(done)) as Hne.
    destruct (next_char (_ ++ 125 :: q)) as [d r']. cbn in Hne. subst d.
    cbn [Z.eqb Pos.eqb].
    pose proof (proj1 (forallb_forall _ _) Hok) as Hall.
    rewrite parse_members_join; [done| | |done|cbn in *; lia].
    + intros kv f' q' Hin. rewrite List.Forall_forall in IH. apply IH; [done|].
      specialize (Hall kv Hin). destruct kv; cbn in *. by apply andb_true_iff in Hall as [_ ?].
    + apply List.Forall_forall. intros kv Hin. specialize (Hall kv Hin).
      destruct kv; cbn in *. apply andb_true_iff in Hall as [? _]. by apply js_ok_spec.
Qed.

(** A value is never larger than twice its text. *)
Lemma stringify_size v : json_ok v = true → (json_size v ≤ 2 * length (stringify v))%nat.
Proof.
  induction v as [|[]|n|lit|s|l IH|l IH] using json_nested_ind; intros Hok.
  - vm_compute; lia.
  - vm_compute; lia.
  - vm_compute; lia.
  - cbn [json_size stringify]. unfold js_toString, js_toString_radix.
    pose proof (digits_nonempty 10 n). pose proof (digits_nonempty 10 (- n)).
    destruct (n <? 0); cbn [length]; [lia|]. destruct (digits 10 n); [done|cbn; lia].
  - done.
  - cbn [json_size stringify quote length]. unfold quote. cbn [length]. lia.
  - cbn [json_size stringify length]. rewrite length_app; cbn [length].
    enough (list_sum (map (λ v, S (json_size v)) l)
            ≤ 2 * length (js_join [44%Z] (map stringify l)) + 1)%nat by lia.
    cbn [json_ok] in Hok.
    induction IH as [|v l Hv IHl IH']; cbn [map]; [cbn; lia|].
    cbn [forallb] in Hok. apply andb_true_iff in Hok as [Hok1 Hok2].
    specialize (Hv Hok1). specialize (IH' Hok2). unfold list_sum in *. cbn [foldr].
    destruct l as [|w l]; [cbn; lia|].
    change (js_join [44] (stringify v :: map stringify (w :: l)))
      with (stringify v ++ [44] ++ js_join [44] (map stringify (w :: l))).
    rewrite !length_app. cbn [length]. lia.
  - cbn [json_size stringify length]. rewrite length_app; cbn [length].
    replace (map (λ '(k, v), quote k ++ 58 :: stringify v) l) with (map member_text l)
      by (apply map_ext; by intros []).
    enough (list_sum (map (λ kv, S (json_size kv.2)) l)
            ≤ 2 * length (js_join [44%Z] (map member_text l)) + 1)%nat by lia.
    cbn [json_ok] in Hok.
    induction IH as [|[k v] l Hv IHl IH']; cbn [map]; [cbn; lia|].
    cbn [forallb] in Hok. apply andb_true_iff in Hok as [Hok1 Hok2].
    apply andb_true_iff in Hok1 as [_ Hok1].
    specialize (Hv Hok1). specialize (IH' Hok2). unfold list_sum in *. cbn [foldr].
    assert (length (stringify v) ≤ length (member_text (k, v)))%nat
      by (unfold member_text; rewrite length_app; cbn; lia).
    destruct l as [|w l]; [cbn in *; lia|].
    change (js_join [44] (member_text (k, v) :: map member_text (w :: l)))
      with (member_text (k, v) ++ [44] ++ js_join [44] (map member_text (w :: l))).
    rewrite !length_app. cbn [length snd] in *. lia.
Qed.

(** [JSON.parse] undoes [JSON.stringify] on everything the program writes. *)
Lemma json_roundtrip v : json_ok v = true → parse_json (stringify v) = Ok v.
Proof.
  intros Hok. unfold parse_json.
  pose proof (parse_value_stringify v Hok (S (2 * length (stringify v))) []
    ltac:(pose proof (stringify_size v Hok); lia) I) as Hp.
  rewrite app_nil_r in Hp. by rewrite Hp.
Qed.
#[export] Hint Resolve json_roundtrip : winkd.

(** ** Texts of bytes *)

(** Values whose strings hold bytes only: what [btoa] of their text accepts. *)
Fixpoint json_bytes (v : json) : bool :=
  match v with
  | JNull | JBool _ | JNum _ => true
  | JFrac _ => false
  | JStr s => forallb (λ c, (0 <=? c) && (c <? 256)) s
  | JArr l => forallb json_bytes l
  | JObj l => forallb (λ '(k, v), forallb (λ c, (0 <=? c) && (c <? 256)) k && json_bytes v) l
  end.

Lemma is_bytes_check s : forallb (λ c, (0 <=? c) && (c <? 256)) s = true ↔ is_bytes s.
Proof.
  unfold is_bytes. rewrite forallb_forall, List.Forall_forall. unfold is_byte.
  split; intros H c Hc; specialize (H c Hc); cbn in *.
  - zbool. lia.
  - by zdecide.
Qed.

Lemma bytes_js_ok s : is_bytes s → js_ok s = true.
Proof.
  intros H. apply js_ok_spec. eapply List.Forall_impl, H. unfold is_byte, is_unit. lia.
Qed.

Lemma json_bytes_ok v : json_bytes v = true → json_ok v = true.
Proof.
  induction v as [|b|n|lit|s|l IH|l IH] using json_nested_ind; intros H; try done.
  - by apply bytes_js_ok, is_bytes_check.
  - cbn in *. apply forallb_forall. intros v Hv. rewrite forallb_forall in H.
    rewrite List.Forall_forall in IH. auto.
  - cbn in *. apply forallb_forall. intros [k v] Hv. rewrite forallb_forall in H.
    rewrite List.Forall_forall in IH. specialize (H _ Hv). cbn in H. apply andb_true_iff in H as [Hk H].
    specialize (IH _ Hv H). cbn in IH. rewrite IH, andb_true_r.
    by apply bytes_js_ok, is_bytes_check.
Qed.

Lemma digit_char_byte d : 0 ≤ d < 36 → is_byte (digit_char d).
Proof. unfold is_byte, digit_char. intros. destruct (d <? 10); lia. Qed.

Lemma js_toString_bytes n : is_bytes (js_toString n).
Proof.
  assert (∀ m, 0 ≤ m → is_bytes (map digit_char (digits 10 m))) as H.
  { intros m Hm. apply Forall_map. eapply List.Forall_impl, (digits_range 10 m); [|lia..].
    cbn. intros d Hd. apply digit_char_byte. lia. }
  unfold js_toString, js_toString_radix. destruct (n <? 0) eqn:E; zbool; [|apply H; lia].
  apply Forall_cons_2; [unfold is_byte; lia|]. apply H. lia.
Qed.

Lemma quote_unit_bytes c : is_byte c → is_bytes (quote_unit c).
Proof.
  intros Hc. unfold quote_unit.
  repeat match goal with |- context [if ?b then _ else _] => destruct b end;
    repeat (apply Forall_cons_2 || apply Forall_nil_2); unfold is_byte in *; try lia;
    apply digit_char_byte; zlia.
Qed.

Lemma quote_bytes s : is_bytes s → is_bytes (quote s).
Proof.
  intros Hs. unfold quote. apply Forall_cons_2; [unfold is_byte; lia|].
  apply Forall_app. split; [|by apply Forall_cons_2; [unfold is_byte; lia|]].
  induction Hs as [|c s Hc Hs IH]; [by apply Forall_nil_2|]. cbn [quote_units].
  unfold is_byte in Hc.
  assert (is_hi c = false ∧ is_lo c = false) as [-> ->].
  { unfold is_hi, is_lo. split; apply andb_false_iff; left; apply Z.leb_gt; lia. }
  apply Forall_app. split; [by apply quote_unit_bytes|done].
Qed.

Lemma js_join_bytes sep l : is_bytes sep → Forall is_bytes l → is_bytes (js_join sep l).
Proof.
  intros Hs Hl. induction Hl as [|x [|y l] Hx Hl IH]; [by apply Forall_nil_2|done|].
  change (js_join sep (x :: y :: l)) with (x ++ sep ++ js_join sep (y :: l)).
  by repeat (apply Forall_app; split).
Qed.

Lemma stringify_bytes v : json_bytes v = true → is_bytes (stringify v).
Proof.
  assert (∀ c, In c [34; 44; 58; 91; 93; 123; 125] → is_byte c) as Hc.
  { intros c H. unfold is_byte. cbn in H. lia. }
  induction v as [|[]|n|lit|s|l IH|l IH] using json_nested_ind; intros H; try done.
  - by apply is_bytes_check.
  - by apply is_bytes_check.
  - by apply is_bytes_check.
  - apply js_toString_bytes.
  - by apply quote_bytes, is_bytes_check.
  - cbn [stringify]. apply Forall_cons_2; [apply Hc; cbn; auto 10|]. apply Forall_app.
    split; [|apply Forall_cons_2; [apply Hc; cbn; auto 10|by apply Forall_nil_2]].
    apply js_join_bytes; [apply Forall_cons_2; [apply Hc; cbn; auto 10|by apply Forall_nil_2]|].
    apply Forall_map, List.Forall_forall. intros v Hv. rewrite List.Forall_forall in IH.
    cbn in H. rewrite forallb_forall in H. cbn. auto.
  - cbn [stringify]. apply Forall_cons_2; [apply Hc; cbn; auto 10|]. apply Forall_app.
    split; [|apply Forall_cons_2; [apply Hc; cbn; auto 10|by apply Forall_nil_2]].
    apply js_join_bytes; [apply Forall_cons_2; [apply Hc; cbn; auto 10|by apply Forall_nil_2]|].
    apply Forall_map, List.Forall_forall. intros [k v] Hv. rewrite List.Forall_forall in IH.
    cbn in H. rewrite forallb_forall in H. specialize (H _ Hv). cbn in H.
    apply andb_true_iff in H as [Hk H]. apply Forall_app.
    split; [by apply quote_bytes, is_bytes_check|].
    apply Forall_cons_2; [apply Hc; cbn; auto 10|]. apply (IH _ Hv H).
Qed.
