(* ===== verification/Platform.v ===== *)
(** * The JavaScript platform

    What the client, the stores and the hook use of the language and of the
    browser: insertion-ordered maps and plain objects used as maps, dynamically
    typed values as [JSON.parse] returns them, and the ready states of a
    WebSocket. The program casts parsed JSON to TypeScript types without a
    check, so what arrives is kept as a dynamic value ([value]). *)

From S2P Require Import Prelude JsString Utf Json.

(** ** The JavaScript Map *)

Abbreviation jsmap A := (list (jsstr * A)) (only parsing).

Section jsmap.
Context {A : Type}.

Definition map_get (k : jsstr) (m : jsmap A) : option A :=
  snd <$> List.find (λ kv, bool_decide (kv.1 = k)) m.

(** [set] of a present key keeps its place. *)
Fixpoint map_set (k : jsstr) (v : A) (m : jsmap A) : jsmap A :=
  match m with
  | [] => [(k, v)]
  | (k', v') :: m => if decide (k' = k) then (k', v) :: m else (k', v') :: map_set k v m
  end.

Definition map_delete (k : jsstr) (m : jsmap A) : jsmap A :=
  List.filter (λ kv, negb (bool_decide (kv.1 = k))) m.

Definition keys (m : jsmap A) : list jsstr := map fst m.
Definition values (m : jsmap A) : list A := map snd m.

Lemma map_get_set k j v m :
  map_get j (map_set k v m) = if decide (j = k) then Some v else map_get j m.
Proof.
  unfold map_get. induction m as [|[k' v'] m IH]; cbn.
  - destruct (decide (j = k)) as [->|]; [by rewrite bool_decide_true|by rewrite bool_decide_false].
  - destruct (decide (k' = k)) as [->|Hk]; cbn; repeat case_bool_decide; destruct (decide (j = k));
      subst; try done; by rewrite IH, decide_False by done.
Qed.

Lemma map_get_delete k j m :
  map_get j (map_delete k m) = if decide (j = k) then None else map_get j m.
Proof.
  unfold map_get, map_delete. induction m as [|[k' v'] m IH]; cbn; [by destruct (decide _)|].
  repeat (case_bool_decide; cbn); destruct (decide (j = k)); subst; try done;
    by rewrite ?bool_decide_true.
Qed.

Lemma elem_of_keys_set k v n m : n ∈ keys (map_set k v m) → n = k ∨ n ∈ keys m.
Proof.
  induction m as [|[k' v'] m IH]; cbn.
  - intros H. apply list_elem_of_singleton in H. by left.
  - destruct (decide (k' = k)) as [->|]; cbn; rewrite !elem_of_cons; naive_solver.
Qed.

Lemma elem_of_keys_delete k n m : n ∈ keys (map_delete k m) → n ≠ k ∧ n ∈ keys m.
Proof.
  induction m as [|[k' v'] m IH]; cbn; [by intros H%elem_of_nil|].
  case_bool_decide; cbn; rewrite !elem_of_cons; naive_solver.
Qed.

Lemma keys_set k v m : NoDup (keys m) → NoDup (keys (map_set k v m)).
Proof.
  induction m as [|[k' v'] m IH]; cbn; intros Hn.
  - repeat constructor. by apply not_elem_of_nil.
  - inversion Hn as [|? ? Hni Hn']; subst. destruct (decide (k' = k)) as [->|Hne]; cbn; [done|].
    constructor; [|by apply IH]. intros [->|?]%elem_of_keys_set; done.
Qed.

Lemma keys_delete k m : NoDup (keys m) → NoDup (keys (map_delete k m)).
Proof.
  induction m as [|[k' v'] m IH]; cbn; intros Hn; [done|].
  inversion Hn as [|? ? Hni Hn']; subst. case_bool_decide; cbn; [by apply IH|].
  constructor; [|by apply IH]. intros [_ ?]%elem_of_keys_delete. done.
Qed.

Lemma map_get_elem k v m : map_get k m = Some v → (k, v) ∈ m.
Proof.
  unfold map_get. destruct (List.find _ m) as [[k' v']|] eqn:E; [|done]. cbn. intros [= ->].
  apply find_some in E as [Hi Hk]. apply bool_decide_eq_true in Hk. cbn in Hk. subst.
  by apply list_elem_of_In.
Qed.

Lemma map_get_of_elem k v m : NoDup (keys m) → (k, v) ∈ m → map_get k m = Some v.
Proof.
  intros Hn Hi. unfold map_get. induction m as [|[k' v'] m IH]; [by apply not_elem_of_nil in Hi|].
  inversion Hn as [|? ? Hk Hn']; subst. cbn. case_bool_decide as E; cbn.
  - cbn in E. subst. apply elem_of_cons in Hi as [[= ->]|Hi]; [done|].
    destruct Hk. by apply (list_elem_of_fmap_2 fst) in Hi.
  - apply elem_of_cons in Hi as [[= -> ->]|Hi]; [done|]. by apply IH.
Qed.

Lemma map_set_set k v w m : map_set k w (map_set k v m) = map_set k w m.
Proof.
  induction m as [|[k' v'] m IH]; cbn; [by rewrite decide_True|].
  destruct (decide (k' = k)) as [->|Hne]; cbn; [by rewrite decide_True|].
  rewrite decide_False by done. by rewrite IH.
Qed.

End jsmap.

#[global] Arguments map_get {A} k m : simpl never.
#[global] Arguments map_set {A} k v m : simpl never.
#[global] Arguments map_delete {A} k m : simpl never.

(** ** Plain objects used as maps *)

(** An array index as a property name: a canonical decimal below 2^32 - 1. *)
Definition array_index (k : jsstr) : option Z :=
  match k with
  | [] => None
  | 48 :: _ :: _ => None
  | _ =>
      if forallb is_digit k then
        let n := digits_value 10 (map (λ c, c - 48) k) in
        if n <? 4294967295 then Some n else None
      else None
  end.

Fixpoint insert_entry {A} (n : Z) (kv : jsstr * A) (l : list (Z * (jsstr * A)))
    : list (Z * (jsstr * A)) :=
  match l with
  | [] => [(n, kv)]
  | e :: r => if n <? e.1 then (n, kv) :: e :: r else e :: insert_entry n kv r
  end.

(** [Object.values(o)]: the array indices in ascending order, then the other
    names in the order of their insertion. *)
Definition object_values {A} (m : jsmap A) : list A :=
  map (λ e, e.2.2)
    (foldr (λ kv l, match array_index kv.1 with Some n => insert_entry n kv l | None => l end) [] m)
  ++ values (List.filter (λ kv, match array_index kv.1 with None => true | Some _ => false end) m).

Lemma elem_of_insert_entry {A} n (kv : jsstr * A) l x :
  x ∈ insert_entry n kv l ↔ x = (n, kv) ∨ x ∈ l.
Proof.
  induction l as [|e l IH]; cbn; [by rewrite list_elem_of_singleton, elem_of_nil; naive_solver|].
  destruct (n <? e.1); rewrite !elem_of_cons; [naive_solver|]. rewrite IH. naive_solver.
Qed.

Lemma elem_of_object_values {A} (m : jsmap A) v : v ∈ object_values m ↔ ∃ k, (k, v) ∈ m.
Proof.
  unfold object_values, values. rewrite elem_of_app. split; [intros [Hv|Hv]|intros [k Hi]].
  - apply list_elem_of_fmap in Hv as ([n [k w]] & -> & Hi). exists k. cbn in *.
    induction m as [|[k' w'] m IH]; cbn in Hi; [by apply not_elem_of_nil in Hi|]. rewrite elem_of_cons.
    destruct (array_index k'); [|by auto].
    apply elem_of_insert_entry in Hi as [[= -> -> ->]|Hi]; [by left|by auto].
  - apply list_elem_of_fmap in Hv as ([k w] & -> & Hi). exists k.
    rewrite list_elem_of_In in Hi |- *. by apply filter_In in Hi as [Hi _].
  - destruct (array_index k) as [n|] eqn:E.
    + left. apply list_elem_of_fmap. exists (n, (k, v)). split; [done|].
      induction m as [|[k' w'] m IH]; [by apply not_elem_of_nil in Hi|]. cbn.
      apply elem_of_cons in Hi as [[= -> ->]|Hi].
      * rewrite E. apply elem_of_insert_entry. by left.
      * destruct (array_index k'); [apply elem_of_insert_entry; right|]; by apply IH.
    + right. apply list_elem_of_fmap. exists (k, v). split; [done|].
      apply list_elem_of_In, filter_In. rewrite <-list_elem_of_In. cbn. by rewrite E.
Qed.

(** ** Dynamically typed values *)

(** A value of parsed JSON, or [None] for [undefined]. *)
Abbreviation value := (option json) (only parsing).

(** Number literals with a fraction or an exponent are read as doubles; what
    the program asks of a double is a parameter. *)
Class Doubles := {
  double_toString : jsstr → jsstr;        (** [String(x)] *)
  double_is_zero : jsstr → bool;          (** [x === 0] *)
  double_eqb : jsstr → jsstr → bool;      (** [x === y] *)
}.

(** [v.k]: reading a property of [undefined] or [null] throws. *)
Definition get_prop (k : jsstr) (v : value) : result value :=
  match v with None | Some JNull => Throw TypeError_ | Some v => Ok (json_get k v) end.

(** [v === s] for a string [s]. *)
Definition is_string (s : jsstr) (v : value) : bool :=
  match v with Some (JStr t) => bool_decide (t = s) | _ => false end.

(** [typeof v === "string" ? v : undefined] *)
Definition string_value (v : value) : option jsstr :=
  match v with Some (JStr s) => Some s | _ => None end.

(** [typeof v === "number" ? v : undefined] *)
Definition number_value (v : value) : option json :=
  match v with Some (JNum n) => Some (JNum n) | Some (JFrac l) => Some (JFrac l) | _ => None end.

(** [v ?? w] *)
Definition nullish_value (v w : value) : value :=
  match v with None | Some JNull => w | _ => v end.

Section doubles.
Context {doubles : Doubles}.

(** [Boolean(v)] *)
Definition truthy (v : value) : bool :=
  match v with
  | None | Some JNull => false
  | Some (JBool b) => b
  | Some (JNum n) => negb (n =? 0)
  | Some (JFrac l) => negb (double_is_zero l)
  | Some (JStr s) => negb (bool_decide (s = []))
  | Some (JArr _) | Some (JObj _) => true
  end.

(** [v === w]. Two objects are two parses, hence not the same object. *)
Definition strict_eq (v w : value) : bool :=
  match v, w with
  | None, None => true
  | Some JNull, Some JNull => true
  | Some (JBool a), Some (JBool b) => eqb a b
  | Some (JNum m), Some (JNum n) => m =? n
  | Some (JNum n), Some (JFrac l) | Some (JFrac l), Some (JNum n) => double_eqb l (js_toString n)
  | Some (JFrac k), Some (JFrac l) => double_eqb k l
  | Some (JStr s), Some (JStr t) => bool_decide (s = t)
  | _, _ => false
  end.

(** [String(n)] of an integer: its digits, as long as it is safe. *)
Definition integer_toString (n : Z) : jsstr :=
  if Z.abs n <=? 9007199254740992 then js_toString n else double_toString (js_toString n).

(** [String(v)]. An own property named [toString] is never callable. *)
Fixpoint json_toString (v : json) : result jsstr :=
  match v with
  | JNull => Ok (js "null")
  | JBool true => Ok (js "true")
  | JBool false => Ok (js "false")
  | JNum n => Ok (integer_toString n)
  | JFrac l => Ok (double_toString l)
  | JStr s => Ok s
  | JArr l =>
      let fix elems (l : list json) : result (list jsstr) :=
        match l with
        | [] => Ok []
        | v :: l =>
            s ← (match v with JNull => Ok [] | _ => json_toString v end);
            ss ← elems l;
            mret (s :: ss)
        end in
      ss ← elems l; mret (js_join [44] ss)
  | JObj l =>
      match json_get (js "toString") v with
      | Some _ => Throw TypeError_
      | None => Ok (js "[object Object]")
      end
  end.

Definition value_toString (v : value) : result jsstr :=
  match v with None => Ok (js "undefined") | Some v => json_toString v end.

End doubles.

Lemma is_string_true s v : is_string s v = true ↔ v = Some (JStr s).
Proof. destruct v as [[]|]; cbn; rewrite ?bool_decide_eq_true; naive_solver. Qed.

(** [s.toLowerCase()], exact as to which ASCII words it equals: besides the
    capital letters only U+212A lowers to an ASCII letter. *)
Definition lower_unit (c : Z) : Z :=
  if (65 <=? c) && (c <=? 90) then c + 32 else if c =? 8490 then 107 else c.
Definition js_toLowerCase (s : jsstr) : jsstr := map lower_unit s.

(** ** WebSocket objects *)

Inductive readyState := CONNECTING | OPEN | CLOSING | CLOSED.

#[global] Instance readyState_eq_dec : EqDecision readyState.
Proof. solve_decision. Defined.
