(* ===== verification/Dynamic.v ===== *)
(** * Arithmetic on dynamic values

    The numbers of a wire message are read with a cast, so the program adds to
    and compares whatever [JSON.parse] returned. A number is an integral double
    ([JNum]), or the text of any other double ([JFrac]), NaN among them; sums of
    integers are rounded to 53 bits as the language does. *)

From S2P Require Import Prelude JsString Json Platform.

(** ** Integers as doubles *)

(** Every integer up to this one is a double. *)
Definition SAFE : Z := 9007199254740992.

(** The double nearest to an integer, ties to even. *)
Definition to_double (z : Z) : Z :=
  let e := Z.log2 (Z.abs z) - 52 in
  if e <=? 0 then z
  else
    let q := Z.abs z / 2 ^ e in
    let r := Z.abs z mod 2 ^ e in
    let up := (2 ^ (e - 1) <? r) || ((r =? 2 ^ (e - 1)) && Z.odd q) in
    Z.sgn z * ((if up then q + 1 else q) * 2 ^ e).

Lemma to_double_safe z : Z.abs z ≤ SAFE → to_double z = z.
Proof.
  intros Hz. unfold to_double. destruct (Z.leb_spec (Z.log2 (Z.abs z) - 52) 0) as [|He]; [done|].
  assert (2 ^ 53 ≤ Z.abs z) as Hl.
  { transitivity (2 ^ Z.log2 (Z.abs z)); [apply Z.pow_le_mono_r; lia|]. apply Z.log2_spec.
    destruct (decide (z = 0)) as [->|]; [done|lia]. }
  change (2 ^ 53) with SAFE in Hl. assert (z = SAFE ∨ z = - SAFE) as [-> | ->] by lia; reflexivity.
Qed.

(** Rounding does not cross the bound. *)
Lemma to_double_large z : SAFE ≤ z → SAFE ≤ to_double z.
Proof.
  intros Hz. unfold to_double. destruct (Z.leb_spec (Z.log2 (Z.abs z) - 52) 0) as [|He]; [done|].
  unfold SAFE in *. replace (Z.sgn z) with 1 by lia. replace (Z.abs z) with z in * by lia.
  set (e := Z.log2 z - 52) in *. pose proof (Z.log2_spec z ltac:(lia)) as [Hl _].
  assert (2 ^ 52 ≤ z / 2 ^ e) as Hq.
  { apply Z.div_le_lower_bound; [apply Z.pow_pos_nonneg; lia|].
    rewrite <-Z.pow_add_r by lia. by replace (e + 52) with (Z.log2 z) by lia. }
  assert (2 ^ 1 ≤ 2 ^ e) by (apply Z.pow_le_mono_r; lia).
  change (2 ^ 52) with 4503599627370496 in Hq. change (2 ^ 1) with 2 in *.
  destruct (_ || _); nia.
Qed.

Lemma to_double_opp z : to_double (- z) = - to_double z.
Proof. unfold to_double. rewrite Z.abs_opp, Z.sgn_opp. destruct (_ <=? 0); [done|]. lia. Qed.

Lemma to_double_small z : z ≤ - SAFE → to_double z ≤ - SAFE.
Proof. intros Hz. pose proof (to_double_large (- z) ltac:(lia)) as H. rewrite to_double_opp in H. lia. Qed.

(** ** Numbers *)

Definition NaN : json := JFrac (js "NaN").

(** What the program asks of doubles that are not integral, and of the
    conversion of strings. *)
Class Numbers := {
  numbers_doubles :: Doubles;
  double_integer : jsstr → option Z;      (** the integer a literal such as 1e3 denotes *)
  double_plus : jsstr → Z → json;         (** [x + z] *)
  double_ltb : json → json → bool;        (** [x < y] for numbers, one not integral *)
  string_toNumber : jsstr → json;         (** [Number(s)] *)
}.

Section numbers.
Context {numbers : Numbers}.

(** An integer literal, rounded; the largest are infinite. *)
Definition integer_number (z : Z) : json :=
  let r := to_double z in
  if Z.abs r <? 2 ^ 1024 then JNum r
  else JFrac (if 0 <? z then js "Infinity" else js "-Infinity").

(** [ToNumber(v)] *)
Definition to_number (v : value) : result json :=
  match v with
  | None => Ok NaN
  | Some JNull => Ok (JNum 0)
  | Some (JBool b) => Ok (JNum (if b then 1 else 0))
  | Some (JNum z) => Ok (integer_number z)
  | Some (JFrac l) => Ok (match double_integer l with Some z => JNum z | None => JFrac l end)
  | Some (JStr s) => Ok (string_toNumber s)
  | Some v => string_toNumber <$> json_toString v
  end.

(** [ToPrimitive(v)]: of an array or an object, its text. *)
Definition to_primitive (v : value) : result value :=
  match v with
  | Some (JArr _ as v) | Some (JObj _ as v) => (λ s, Some (JStr s)) <$> json_toString v
  | v => Ok v
  end.

(** The text of a number that is not integral. *)
Definition fraction (x : json) : option jsstr := match x with JFrac l => Some l | _ => None end.
Definition is_fraction (l : jsstr) (x : json) : bool := bool_decide (fraction x = Some l).

Definition number_ltb (x y : json) : bool :=
  match x, y with
  | JNum a, JNum b => a <? b
  | _, _ =>
      if is_fraction (js "NaN") x || is_fraction (js "NaN") y then false
      else if is_fraction (js "Infinity") x || is_fraction (js "-Infinity") y then false
      else if is_fraction (js "-Infinity") x || is_fraction (js "Infinity") y then true
      else double_ltb x y
  end.

Definition number_plus (x : json) (z : Z) : json :=
  match x with
  | JNum n => JNum (to_double (n + z))
  | JFrac l => if is_fraction (js "NaN") x then NaN else double_plus l z
  | x => x
  end.

(** [v < w] *)
Definition js_less (v w : value) : result bool :=
  v ← to_primitive v;
  w ← to_primitive w;
  match v, w with
  | Some (JStr s), Some (JStr t) => Ok (js_ltb s t)
  | _, _ => x ← to_number v; y ← to_number w; Ok (number_ltb x y)
  end.

(** [v + z] for a number [z] *)
Definition js_plus (v : value) (z : Z) : result json :=
  v ← to_primitive v;
  match v with
  | Some (JStr s) => Ok (JStr (s ++ js_toString z))
  | _ => x ← to_number v; Ok (number_plus x z)
  end.

(** [x++] of a number or a string *)
Definition js_increment (v : json) : result json := x ← to_number (Some v); Ok (number_plus x 1).

(** The integer a value is as a key. *)
Definition key_number (v : value) : option Z :=
  match v with
  | Some (JNum z) => match integer_number z with JNum r => Some r | _ => None end
  | Some (JFrac l) => double_integer l
  | _ => None
  end.

(** ** Safe integers *)

Lemma integer_number_safe z : Z.abs z ≤ SAFE → integer_number z = JNum z.
Proof.
  intros Hz. unfold integer_number. rewrite to_double_safe by done.
  replace (Z.abs z <? 2 ^ 1024) with true; [done|]. symmetry. apply Z.ltb_lt.
  eapply Z.le_lt_trans; [exact Hz|reflexivity].
Qed.

Lemma js_less_safe x y :
  Z.abs x ≤ SAFE → Z.abs y ≤ SAFE → js_less (Some (JNum x)) (Some (JNum y)) = Ok (x <? y).
Proof.
  intros Hx Hy. unfold js_less. cbn [to_primitive mbind result_bind to_number].
  by rewrite !integer_number_safe.
Qed.

(** Against an integer of any size a safe one is compared as an integer. *)
Lemma js_less_int t : ∃ t', ∀ r, Z.abs r ≤ SAFE → js_less (Some (JNum r)) (Some (JNum t)) = Ok (r <? t').
Proof.
  unfold js_less. cbn [to_primitive mbind result_bind to_number].
  destruct (decide (Z.abs t ≤ SAFE)) as [Ht|Ht].
  { exists t. intros r Hr. by rewrite !integer_number_safe. }
  unfold integer_number at 2. destruct (Z.abs (to_double t) <? 2 ^ 1024).
  { exists (to_double t). intros r Hr. by rewrite integer_number_safe. }
  exists (if 0 <? t then SAFE + 1 else - SAFE - 1). intros r Hr. rewrite integer_number_safe by done.
  destruct (0 <? t); cbn; f_equal; symmetry; [apply Z.ltb_lt|apply Z.ltb_ge]; lia.
Qed.

Lemma js_plus_safe x z :
  Z.abs x ≤ SAFE → Z.abs (x + z) ≤ SAFE → js_plus (Some (JNum x)) z = Ok (JNum (x + z)).
Proof.
  intros Hx Hz. unfold js_plus. cbn [to_primitive mbind result_bind to_number].
  rewrite integer_number_safe by done. cbn [number_plus]. by rewrite to_double_safe.
Qed.

Lemma js_increment_safe x : Z.abs x ≤ SAFE → Z.abs (x + 1) ≤ SAFE → js_increment (JNum x) = Ok (JNum (x + 1)).
Proof.
  intros Hx Hz. unfold js_increment. cbn [to_number mbind result_bind].
  rewrite integer_number_safe by done. cbn [number_plus]. by rewrite to_double_safe.
Qed.

Lemma key_number_safe z : Z.abs z ≤ SAFE → key_number (Some (JNum z)) = Some z.
Proof. intros Hz. cbn. by rewrite integer_number_safe. Qed.

End numbers.
