(* ===== verification/Matching.v ===== *)
(** * Regular expressions as matchers

    A global regular expression is modelled by its matcher: the length of the
    match at the head of a text, if there is one. This file has what
    [String.prototype.split] (with the expression captured) and
    [String.prototype.match] do with a matcher, and when the parts of a split
    can be told apart again by matching them. *)

From S2P Require Import Prelude JsString.

(** ** Building blocks of matchers *)

Fixpoint first_some {A} (l : list (option A)) : option A :=
  match l with [] => None | Some a :: _ => Some a | None :: l => first_some l end.

(** The length of the longest head of characters in a class. *)
Fixpoint span (p : Z → bool) (s : jsstr) : nat :=
  match s with c :: r => if p c then S (span p r) else 0%nat | [] => 0%nat end.

(** [[^\s]] *)
Definition non_space (c : Z) : bool := negb (is_space c).

(** What follows a literal at the head of the text. *)
Definition after (w s : jsstr) : option jsstr :=
  if js_startsWith s w then Some (drop (length w) s) else None.

(** ** Splitting and matching *)

Section matcher.
Context (m : jsstr → option nat).

(** [text.split(re)]: the texts between matches and the matches, in order.
    [text] accumulates the current one, reversed; every round takes at least a
    character, so the length of the text is enough fuel. *)
Fixpoint split_go (fuel : nat) (text s : jsstr) : list jsstr :=
  match fuel with
  | O => [rev text]
  | S fuel =>
      match s with
      | [] => [rev text]
      | c :: r =>
          match m s with
          | Some n => rev text :: take n s :: split_go fuel [] (drop n s)
          | None => split_go fuel (c :: text) r
          end
      end
  end.

Definition split_matches (text : jsstr) : list jsstr := split_go (S (length text)) [] text.

(** [text.match(re) ?? []] *)
Fixpoint match_go (fuel : nat) (s : jsstr) : list jsstr :=
  match fuel with
  | O => []
  | S fuel =>
      match s with
      | [] => []
      | c :: r =>
          match m s with
          | Some n => take n s :: match_go fuel (drop n s)
          | None => match_go fuel r
          end
      end
  end.

Definition all_matches (text : jsstr) : list jsstr := match_go (S (length text)) text.

(** The texts and the matches of a split, told apart by position. *)
Inductive alternating (is_text is_match : jsstr → Prop) : list jsstr → Prop :=
  | alternating_last t : is_text t → alternating is_text is_match [t]
  | alternating_cons t u l :
      is_text t → is_match u → alternating is_text is_match l →
      alternating is_text is_match (t :: u :: l).

(** The elements at the odd positions. *)
Fixpoint odds {A} (l : list A) : list A :=
  match l with _ :: u :: l => u :: odds l | _ => [] end.

(** A matcher that takes at least a character of the text. *)
Class Progress := progress s n : m s = Some n → (0 < n ≤ length s)%nat.

(** A match at the head of a text is one in every longer text. *)
Class Extensible := extensible s t : is_Some (m s) → is_Some (m (s ++ t)).

(** A match matches itself, to its end. *)
Class SelfMatching := self_match s n : m s = Some n → m (take n s) = Some n.

Section facts.
Context {m_progress : Progress}.

Lemma split_go_concat fuel text s :
  (length s < fuel)%nat → concat (split_go fuel text s) = rev text ++ s.
Proof.
  revert text s. induction fuel as [|fuel IH]; intros text s Hf; [lia|].
  destruct s as [|c r]; cbn [split_go]; [done|].
  destruct (m (c :: r)) as [n|] eqn:Em.
  - apply progress in Em. cbn [concat]. rewrite IH.
    + cbn [rev app]. by rewrite take_drop.
    + rewrite length_drop. cbn [length] in *. lia.
  - rewrite IH by (cbn in Hf; lia). cbn. by rewrite <-(assoc_L (++)).
Qed.

Lemma split_matches_concat s : concat (split_matches s) = s.
Proof. unfold split_matches. by rewrite split_go_concat by lia. Qed.

(** The odd positions of a split are the matches. *)
Lemma split_go_matches fuel fuel' text s :
  (length s < fuel)%nat → (length s < fuel')%nat →
  odds (split_go fuel text s) = match_go fuel' s.
Proof.
  revert fuel' text s. induction fuel as [|fuel IH]; intros fuel' text s Hf Hf'; [lia|].
  destruct fuel' as [|fuel']; [lia|]. destruct s as [|c r]; cbn [split_go match_go]; [done|].
  destruct (m (c :: r)) as [n|] eqn:Em.
  - apply progress in Em. cbn [odds]. f_equal. apply IH; rewrite length_drop; cbn [length] in *; lia.
  - apply IH; cbn in Hf, Hf'; lia.
Qed.

Lemma split_matches_odds s : odds (split_matches s) = all_matches s.
Proof. apply split_go_matches; lia. Qed.

Lemma all_matches_none s :
  all_matches s = [] ↔ ∀ a b, s = a ++ b → m b = None.
Proof.
  unfold all_matches. assert (∀ fuel s, (length s < fuel)%nat →
    match_go fuel s = [] ↔ ∀ a b, s = a ++ b → b ≠ [] → m b = None) as Hgo.
  { intros fuel. induction fuel as [|fuel IH]; intros t Hf; [lia|]. destruct t as [|c r]; cbn [match_go].
    - split; [|done]. intros _ a b E. symmetry in E. apply app_eq_nil in E as [_ ->]. done.
    - destruct (m (c :: r)) as [n|] eqn:Em.
      + split; [done|]. intros H. specialize (H [] (c :: r) eq_refl). rewrite Em in H. by discriminate H.
      + rewrite IH by (cbn in Hf; lia). split.
        * intros H [|x a] b E Hb; [cbn in E; by subst|]. injection E as -> E. by eapply H.
        * intros H a b E Hb. apply (H (c :: a) b); [cbn; by rewrite E|done]. }
  rewrite Hgo by lia. split; intros H a b E.
  - destruct b as [|c b]; [|by apply (H a)]. destruct (m []) as [n|] eqn:Em; [|done].
    apply progress in Em. cbn in Em. lia.
  - intros _. by eapply H.
Qed.

Lemma all_matches_head s : is_Some (m s) → all_matches s ≠ [].
Proof.
  intros [n Hn] H. rewrite all_matches_none in H. by rewrite (H [] s eq_refl) in Hn.
Qed.

Context {m_extensible : Extensible} {m_self : SelfMatching}.

(** Each text of a split has no match in it, and each match is one, whole: the
    parts can be told apart by matching them again. *)
Lemma split_matches_classified s :
  alternating (λ t, all_matches t = []) (λ u, m u = Some (length u)) (split_matches s).
Proof.
  unfold split_matches. assert (∀ fuel text s, (length s < fuel)%nat →
    (∀ a b, rev text = a ++ b → b ≠ [] → m (b ++ s) = None) →
    alternating (λ t, all_matches t = []) (λ u, m u = Some (length u)) (split_go fuel text s)) as Hgo.
  { assert (∀ text s, (∀ a b, rev text = a ++ b → b ≠ [] → m (b ++ s) = None) →
      all_matches (rev text) = []) as Htext.
    { intros text t H. apply all_matches_none. intros a b E. destruct (m b) eqn:Em; [|done].
      destruct b as [|c b]; [apply progress in Em; cbn in Em; lia|].
      destruct (extensible (c :: b) t) as [k Hk]; [by eexists|]. by rewrite (H a) in Hk. }
    intros fuel. induction fuel as [|fuel IH]; intros text t Hf H; [lia|].
    destruct t as [|c r]; cbn [split_go]; [constructor; by eapply Htext|].
    destruct (m (c :: r)) as [n|] eqn:Em.
    - constructor; [by eapply Htext| |].
      + apply progress in Em as Hn. rewrite length_take, Nat.min_l by lia. by apply self_match.
      + apply progress in Em. apply IH; [rewrite length_drop; cbn [length] in *; lia|].
        intros a b E. cbn in E. symmetry in E. apply app_eq_nil in E as [_ ->]. done.
    - apply IH; [cbn in Hf; lia|]. intros a b E Hb.
      destruct b as [|x b _] using rev_ind; [done|]. cbn [rev] in E. rewrite (assoc_L (++)) in E.
      apply app_inj_2 in E as [E E2]; [|done]. injection E2 as ->. rewrite <-(assoc_L (++)). cbn.
      destruct (decide (b = [])) as [->|Hb']; [done|]. by eapply H. }
  apply Hgo; [lia|]. intros a b E. cbn in E. symmetry in E. apply app_eq_nil in E as [_ ->]. done.
Qed.

End facts.

(** A text that is one match. *)
Lemma split_matches_whole s : s ≠ [] → m s = Some (length s) → split_matches s = [[]; s; []].
Proof.
  intros Hne Hm. unfold split_matches. destruct s as [|c r]; [done|]. cbn [split_go].
  rewrite Hm, firstn_all, drop_all. by destruct (length (c :: r)).
Qed.

Lemma alternating_elem (P Q : jsstr → Prop) l x : alternating P Q l → x ∈ l → P x ∨ Q x.
Proof.
  induction 1 as [t Ht|t u l Ht Hu _ IH]; rewrite ?elem_of_cons.
  - intros [->|H]; [by left|by apply not_elem_of_nil in H].
  - intros [->|[->|H]]; [by left|by right|auto].
Qed.

Lemma alternating_odds (P Q : jsstr → Prop) l x : alternating P Q l → x ∈ odds l → Q x.
Proof.
  induction 1 as [t Ht|t u l Ht Hu _ IH]; cbn [odds]; [by intros H%not_elem_of_nil|].
  rewrite elem_of_cons. intros [->|H]; auto.
Qed.

Lemma odds_elem {A} (l : list A) x : x ∈ odds l → x ∈ l.
Proof.
  assert (∀ n (l : list A), (length l ≤ n)%nat → x ∈ odds l → x ∈ l) as Hgo.
  { induction n as [|n IH]; intros [|y [|z k]] Hn; cbn [odds]; cbn in Hn;
      try (by intros H%not_elem_of_nil); try lia.
    rewrite !elem_of_cons. intros [->|H]; [auto|]. do 2 right. apply IH; [lia|done]. }
  by apply (Hgo (length l)).
Qed.
End matcher.

(** ** Facts about the building blocks *)

Lemma first_some_elem {A} (l : list (option A)) a : first_some l = Some a → In (Some a) l.
Proof.
  induction l as [|[b|] l IH]; cbn; [done| |auto]. intros [= ->]. by left.
Qed.

Lemma span_le p s : (span p s ≤ length s)%nat.
Proof. induction s as [|c s IH]; cbn; [done|]. destruct (p c); lia. Qed.

(** The span grows with the text. *)
Lemma span_app p s t : (span p s ≤ span p (s ++ t))%nat.
Proof. induction s as [|c s IH]; cbn; [lia|]. destruct (p c); lia. Qed.

Lemma span_all p s : Forall (λ c, p c = true) s → span p s = length s.
Proof. induction 1 as [|c s Hc _ IH]; cbn; [done|]. by rewrite Hc, IH. Qed.

(** The span of a head that holds it. *)
Lemma span_take p s n : (span p s ≤ n)%nat → span p (take n s) = span p s.
Proof.
  revert n. induction s as [|c s IH]; intros [|n]; cbn; [done..| |].
  - destruct (p c); [lia|done].
  - destruct (p c); [|done]. intros H. rewrite IH; lia.
Qed.

Lemma startsWith_app s t w : js_startsWith s w = true → js_startsWith (s ++ t) w = true.
Proof.
  revert s. induction w as [|c w IH]; intros [|d s]; cbn; try done.
  intros [-> H]%andb_true_iff. by apply IH.
Qed.

Lemma startsWith_split s w : js_startsWith s w = true ↔ ∃ r, s = w ++ r.
Proof.
  revert s. induction w as [|c w IH]; intros s; cbn [js_startsWith app]; [naive_solver|].
  destruct s as [|d s]; [naive_solver|]. rewrite andb_true_iff, IH, Z.eqb_eq. naive_solver.
Qed.

Lemma after_spec w s r : after w s = Some r ↔ s = w ++ r.
Proof.
  unfold after. destruct (js_startsWith s w) eqn:E.
  - apply startsWith_split in E as [q ->]. rewrite drop_app_length. split; [by intros [= ->]|].
    by intros ->%app_inv_head.
  - split; [done|]. intros H. assert (js_startsWith s w = true) as H'; [|by rewrite E in H'].
    apply startsWith_split. by exists r.
Qed.

(** [w[^\s]+] at the head of [s]: the length of the match. *)
Definition word_after (w s : jsstr) : option nat :=
  match after w s with
  | Some r => match span non_space r with O => None | S n => Some (length w + S n)%nat end
  | None => None
  end.

Lemma word_after_spec w s n :
  word_after w s = Some n ↔
    ∃ r, s = w ++ r ∧ (0 < span non_space r)%nat ∧ n = (length w + span non_space r)%nat.
Proof.
  unfold word_after. destruct (after w s) as [r|] eqn:E.
  - apply after_spec in E. split.
    + destruct (span non_space r) as [|k] eqn:Ek; [done|]. intros [= <-]. exists r. rewrite Ek. split_and!; [done|lia..].
    + intros (q & -> & Hq & ->). apply app_inv_head in E as ->. destruct (span non_space r); [lia|done].
  - split; [done|]. intros (r & Hr & _). apply after_spec in Hr. congruence.
Qed.

#[export] Instance word_after_progress w : Progress (word_after w).
Proof.
  intros s n (r & -> & Hr & ->)%word_after_spec. rewrite length_app. pose proof (span_le non_space r). lia.
Qed.

#[export] Instance word_after_extensible w : Extensible (word_after w).
Proof.
  intros s t [n (r & -> & Hr & ->)%word_after_spec]. eexists. apply word_after_spec.
  exists (r ++ t). rewrite (assoc_L (++)). pose proof (span_app non_space r t). split_and!; [done|lia|done].
Qed.

#[export] Instance word_after_self w : SelfMatching (word_after w).
Proof.
  intros s n (r & -> & Hr & ->)%word_after_spec. apply word_after_spec.
  exists (take (span non_space r) r). rewrite take_app_add. by rewrite span_take by lia.
Qed.

(** [:[class]+:] at the head of [s]. *)
Definition colon_token (p : Z → bool) (s : jsstr) : option nat :=
  match after [58] s with
  | Some r =>
      match span p r with
      | O => None
      | S n => match after [58] (drop (S n) r) with Some _ => Some (S n + 2)%nat | None => None end
      end
  | None => None
  end.

Lemma span_stop p w c s : Forall (λ c, p c = true) w → p c = false → span p (w ++ c :: s) = length w.
Proof. intros Hw Hc. induction Hw as [|d w Hd _ IH]; cbn; [by rewrite Hc|]. by rewrite Hd, IH. Qed.

Lemma span_drop p s : match drop (span p s) s with c :: _ => p c = false | [] => True end.
Proof. induction s as [|c s IH]; cbn; [done|]. by destruct (p c) eqn:E. Qed.

Lemma take_span p s : Forall (λ c, p c = true) (take (span p s) s).
Proof. induction s as [|c s IH]; cbn; [done|]. destruct (p c) eqn:E; by constructor. Qed.

Lemma colon_token_spec p s n :
  colon_token p s = Some n ↔
    ∃ w r, s = 58 :: w ++ 58 :: r ∧ w ≠ [] ∧ Forall (λ c, p c = true) w ∧ p 58 = false ∧
      n = (length w + 2)%nat.
Proof.
  unfold colon_token. split.
  - destruct (after [58] s) as [q|] eqn:E; [|done]. apply after_spec in E as ->.
    pose proof (take_span p q) as Hw. pose proof (span_drop p q) as Hd.
    pose proof (span_le p q) as Hl.
    destruct (span p q) as [|k] eqn:Ek; [done|].
    destruct (after [58] (drop (S k) q)) as [r|] eqn:E; [|done]. apply after_spec in E.
    intros [= <-]. exists (take (S k) q), r. cbn [app] in E. rewrite <-E, take_drop.
    rewrite E in Hd. split_and!; [done| |done|done|].
    + destruct q; [cbn in Hl; lia|done].
    + rewrite length_take. lia.
  - intros (w & r & -> & Hne & Hw & Hp & ->). replace (after [58] _) with (Some (w ++ 58 :: r)) by done.
    rewrite span_stop by done. destruct w as [|c w]; [done|]. cbn [length].
    replace (drop (S (length w)) _) with (58 :: r) by (by rewrite (drop_app_length (c :: w))). cbn. f_equal. 
Qed.

#[export] Instance colon_token_progress p : Progress (colon_token p).
Proof.
  intros s n (w & r & -> & ? & ? & ? & ->)%colon_token_spec. cbn. rewrite length_app. cbn. lia.
Qed.

#[export] Instance colon_token_extensible p : Extensible (colon_token p).
Proof.
  intros s t [n (w & r & -> & ? & ? & ? & ->)%colon_token_spec]. eexists. apply colon_token_spec.
  exists w, (r ++ t). cbn. rewrite <-(assoc_L (++)). by split_and!.
Qed.

#[export] Instance colon_token_self p : SelfMatching (colon_token p).
Proof.
  intros s n (w & r & -> & ? & ? & ? & ->)%colon_token_spec. apply colon_token_spec.
  exists w, []. replace (length w + 2)%nat with (S (length (w ++ [58]))) by (rewrite length_app; cbn; lia).
  cbn [take]. replace (w ++ 58 :: r) with ((w ++ [58]) ++ r) by (by rewrite <-(assoc_L (++))).
  rewrite take_app_length. by split_and!.
Qed.

(** [re1|re2]: the second is tried only when the first fails. *)
Definition orelse (m1 m2 : jsstr → option nat) (s : jsstr) : option nat :=
  match m1 s with Some n => Some n | None => m2 s end.

#[export] Instance orelse_progress m1 m2 : Progress m1 → Progress m2 → Progress (orelse m1 m2).
Proof. unfold orelse. intros H1 H2 s n. destruct (m1 s) eqn:E; [intros [= <-]; by apply H1|apply H2]. Qed.

#[export] Instance orelse_extensible m1 m2 : Extensible m1 → Extensible m2 → Extensible (orelse m1 m2).
Proof.
  unfold orelse. intros H1 H2 s t. destruct (m1 s) eqn:E.
  - intros _. destruct (H1 s t) as [k ->]; [by eexists|by eexists].
  - intros H%(H2 s t). by destruct (m1 (s ++ t)).
Qed.

#[export] Instance orelse_self m1 m2 :
  Extensible m1 → SelfMatching m1 → SelfMatching m2 → SelfMatching (orelse m1 m2).
Proof.
  unfold orelse. intros He H1 H2 s n. destruct (m1 s) eqn:E.
  - intros [= ->]. by rewrite (H1 s n).
  - intros H. destruct (m1 (take n s)) eqn:E'; [|by apply H2].
    destruct (He (take n s) (drop n s)) as [k Hk]; [by eexists|]. rewrite take_drop in Hk. congruence.
Qed.
