(* ===== verification/Types.v ===== *)
(** * The shared data types

    packages/types/src (user.ts, contact.ts, message.ts, session.ts) and
    packages/core/src/encryption/types.ts. Union types of string literals are
    enumerations with the literal each constructor stands for. An interface
    value built with optional or [undefined] properties keeps the difference
    between an absent property and a present one ([prop]), because object
    spread treats them differently. *)

From S2P Require Import Prelude JsString Json.

(** ** Users and contacts *)

Inductive UserStatus := online | away | busy | invisible.

#[global] Instance UserStatus_eq_dec : EqDecision UserStatus.
Proof. solve_decision. Defined.

Record UserProfile := mkUserProfile {
  winkdId : jsstr;
  displayName : jsstr;
  moodMessage : jsstr;
  status : UserStatus;
  avatarData : option jsstr;
}.

(** [OwnProfile extends UserProfile] *)
Record OwnProfile := mkOwnProfile {
  own_profile : UserProfile;
  own_sessionToken : jsstr;
}.

Inductive ContactRequestStatus := pending_outbound | pending_inbound | accepted | blocked.

#[global] Instance ContactRequestStatus_eq_dec : EqDecision ContactRequestStatus.
Proof. solve_decision. Defined.

(** [Contact extends UserProfile] *)
Record Contact := mkContact {
  c_profile : UserProfile;
  c_id : jsstr;
  c_requestStatus : ContactRequestStatus;
  c_unreadCount : Z;
  c_lastMessageAt : option jsstr;
}.

Record GroupedContacts := mkGrouped {
  g_online : list Contact;
  g_away : list Contact;
  g_busy : list Contact;
  g_offline : list Contact;
}.

#[global] Instance UserProfile_eq_dec : EqDecision UserProfile.
Proof. solve_decision. Defined.
#[global] Instance OwnProfile_eq_dec : EqDecision OwnProfile.
Proof. solve_decision. Defined.
#[global] Instance Contact_eq_dec : EqDecision Contact.
Proof. solve_decision. Defined.

(** ** Object properties *)

(** A property of an object literal: not there, there with the value
    [undefined], or there with a value. *)
Inductive prop (A : Type) := Absent | Undef | Val (a : A).
Arguments Absent {A}.
Arguments Undef {A}.
Arguments Val {A} a.

#[global] Instance prop_eq_dec `{EqDecision A} : EqDecision (prop A).
Proof. solve_decision. Defined.

(** Reading the property. *)
Definition prop_get {A} (p : prop A) : option A :=
  match p with Val a => Some a | _ => None end.

(** The property in [{ ...old, ...new }]: a present one wins, [undefined] included. *)
Definition prop_spread {A} (old new : prop A) : prop A :=
  match new with Absent => old | _ => new end.

(** [cond ? value : undefined] *)
Definition prop_of_option {A} (o : option A) : prop A :=
  match o with Some a => Val a | None => Undef end.

(** ** Messages *)

(** A message of any [MessageType]; the type is the literal itself, because
    the socket handler casts an arbitrary string to it. A size is a JSON
    number. *)
Record Message := mkMessage {
  m_id : jsstr;
  m_conversationId : jsstr;
  m_senderId : jsstr;
  m_type : jsstr;
  m_sentAt : jsstr;
  m_delivered : bool;
  m_read : bool;
  m_body : prop jsstr;
  m_mediaData : prop jsstr;
  m_mediaUrl : prop jsstr;
  m_mediaName : prop jsstr;
  m_mediaMime : prop jsstr;
  m_mediaSize : prop json;
  m_packId : prop jsstr;
  m_animationId : prop jsstr;
}.

(** [{ ...m, ...n }] *)
Definition message_spread (m n : Message) : Message :=
  mkMessage (m_id n) (m_conversationId n) (m_senderId n) (m_type n) (m_sentAt n)
    (m_delivered n) (m_read n)
    (prop_spread (m_body m) (m_body n))
    (prop_spread (m_mediaData m) (m_mediaData n))
    (prop_spread (m_mediaUrl m) (m_mediaUrl n))
    (prop_spread (m_mediaName m) (m_mediaName n))
    (prop_spread (m_mediaMime m) (m_mediaMime n))
    (prop_spread (m_mediaSize m) (m_mediaSize n))
    (prop_spread (m_packId m) (m_packId n))
    (prop_spread (m_animationId m) (m_animationId n)).

(** ** The socket protocol *)

Inductive ServerEventType :=
  | ev_message | ev_presence_update | ev_contact_request | ev_contact_accepted
  | ev_winkd_received | ev_nudge_received | ev_typing_start | ev_typing_stop
  | ev_delivery_receipt | ev_read_receipt.

Inductive ClientCommandType :=
  | cmd_send_message | cmd_set_status | cmd_set_mood | cmd_set_display_name
  | cmd_add_contact | cmd_accept_contact | cmd_block_contact | cmd_send_winkd
  | cmd_send_nudge | cmd_send_wink | cmd_typing_start | cmd_typing_stop.

#[global] Instance ServerEventType_eq_dec : EqDecision ServerEventType.
Proof. solve_decision. Defined.
#[global] Instance ClientCommandType_eq_dec : EqDecision ClientCommandType.
Proof. solve_decision. Defined.

Definition event_name (e : ServerEventType) : jsstr :=
  match e with
  | ev_message => js "message"
  | ev_presence_update => js "presence_update"
  | ev_contact_request => js "contact_request"
  | ev_contact_accepted => js "contact_accepted"
  | ev_winkd_received => js "winkd_received"
  | ev_nudge_received => js "nudge_received"
  | ev_typing_start => js "typing_start"
  | ev_typing_stop => js "typing_stop"
  | ev_delivery_receipt => js "delivery_receipt"
  | ev_read_receipt => js "read_receipt"
  end.

Definition command_name (c : ClientCommandType) : jsstr :=
  match c with
  | cmd_send_message => js "send_message"
  | cmd_set_status => js "set_status"
  | cmd_set_mood => js "set_mood"
  | cmd_set_display_name => js "set_display_name"
  | cmd_add_contact => js "add_contact"
  | cmd_accept_contact => js "accept_contact"
  | cmd_block_contact => js "block_contact"
  | cmd_send_winkd => js "send_winkd"
  | cmd_send_nudge => js "send_nudge"
  | cmd_send_wink => js "send_wink"
  | cmd_typing_start => js "typing_start"
  | cmd_typing_stop => js "typing_stop"
  end.

(** ** Encryption types *)

Record IdentityKeyPair := mkIdentity { ik_publicKey : jsstr; ik_privateKey : jsstr }.

Record PreKey := mkPreKey { pk_id : Z; pk_publicKey : jsstr; pk_privateKey : jsstr }.

(** [SignedPreKey extends PreKey] *)
Record SignedPreKey := mkSignedPreKey { spk_key : PreKey; spk_signature : jsstr }.

(** [Omit<PreKey, "privateKey">] and [Omit<SignedPreKey, "privateKey">]. *)
Record PublicPreKey := mkPublicPreKey { ppk_id : Z; ppk_publicKey : jsstr }.
Record PublicSignedPreKey := mkPublicSignedPreKey
  { pspk_id : Z; pspk_publicKey : jsstr; pspk_signature : jsstr }.

Record PreKeyBundle := mkBundle {
  b_registrationId : Z;
  b_deviceId : Z;
  b_identityKey : jsstr;
  b_signedPreKey : PublicSignedPreKey;
  b_oneTimePreKey : option PublicPreKey;
}.

Record EncryptedEnvelope := mkEnvelope {
  env_type : Z;
  env_ciphertext : jsstr;
  env_registrationId : Z;
}.

(** The X3DH parameters of the first message. *)
Record PendingPreKeyMsg := mkPending {
  pp_identityKey : jsstr;
  pp_ephemeralKey : jsstr;
  pp_spkId : Z;
  pp_opkId : option Z;
}.

(** [recvCount] is set from a header that is only cast, and [theirRatchetPublic]
    is the header's key: both hold whatever value that was. *)
Record RatchetSession := mkSession {
  rootKey : jsstr;
  sendChainKey : option jsstr;
  recvChainKey : option jsstr;
  sendCount : Z;
  recvCount : json;
  prevSendCount : Z;
  ourRatchetPublic : jsstr;
  ourRatchetPrivate : jsstr;
  theirRatchetPublic : option json;
  skipped : gmap jsstr jsstr;
  isInitiator : bool;
  pendingPreKeyMsg : option PendingPreKeyMsg;
}.

#[global] Instance IdentityKeyPair_eq_dec : EqDecision IdentityKeyPair.
Proof. solve_decision. Defined.
#[global] Instance PreKey_eq_dec : EqDecision PreKey.
Proof. solve_decision. Defined.
#[global] Instance SignedPreKey_eq_dec : EqDecision SignedPreKey.
Proof. solve_decision. Defined.
#[global] Instance EncryptedEnvelope_eq_dec : EqDecision EncryptedEnvelope.
Proof. solve_decision. Defined.
#[global] Instance PendingPreKeyMsg_eq_dec : EqDecision PendingPreKeyMsg.
Proof. solve_decision. Defined.
