(* ===== verification/Async.v ===== *)
(** * Asynchronous code

    An [async] function is a tree of the effects it performs ([prog]): drawing
    entropy, reading and writing the session objects on the JavaScript heap,
    calling the key store, and giving control back at an [await]. One tree has
    two semantics: [run] executes it alone, [run_schedule] interleaves several
    trees at their awaits. *)

From S2P Require Import Prelude JsString Types.

(** A reference to a session object. *)
Abbreviation ref := nat (only parsing).
Abbreviation heap := (gmap nat RatchetSession) (only parsing).

(** The thirteen methods of [interface KeyStore] (encryption/keystore.ts). A
    session is passed and returned by reference. *)
Inductive ks_op : Type → Type :=
  | getIdentityKeyPair : ks_op (option IdentityKeyPair)
  | saveIdentityKeyPair (kp : IdentityKeyPair) : ks_op unit
  | getLocalRegistrationId : ks_op (option Z)
  | saveLocalRegistrationId (id : Z) : ks_op unit
  | loadPreKey (id : Z) : ks_op (option PreKey)
  | storePreKey (key : PreKey) : ks_op unit
  | removePreKey (id : Z) : ks_op unit
  | loadSignedPreKey (id : Z) : ks_op (option SignedPreKey)
  | storeSignedPreKey (key : SignedPreKey) : ks_op unit
  | removeSignedPreKey (id : Z) : ks_op unit
  | loadSession (peerId : jsstr) : ks_op (option ref)
  | storeSession (peerId : jsstr) (session : ref) : ks_op unit
  | deleteSession (peerId : jsstr) : ks_op unit.

(** An implementation of the interface: its state, and what each method
    answers (or rejects with) and does to the state and to the heap. *)
Class KeyStore (K : Type) :=
  ks_run : ∀ {R}, ks_op R → K → heap → result R * K * heap.

Inductive op : Type → Type :=
  | Yield : op unit                      (** an [await] *)
  | Entropy : op nat                     (** the next draw of the random source *)
  | New (s : RatchetSession) : op ref    (** an object literal *)
  | Get (l : ref) : op (option RatchetSession)
  | Put (l : ref) (s : RatchetSession) : op unit
  | Ks {R} (o : ks_op R) : op (result R).

Inductive prog (A : Type) : Type :=
  | Ret (r : result A)
  | Vis {R : Type} (o : op R) (k : R → prog A).
Arguments Ret {A} r.
Arguments Vis {A R} o k.

Fixpoint prog_bind {A B} (p : prog A) (k : A → prog B) : prog B :=
  match p with
  | Ret (Ok a) => k a
  | Ret (Throw e) => Ret (Throw e)
  | Vis o c => Vis o (λ x, prog_bind (c x) k)
  end.

Definition ret {A} (a : A) : prog A := Ret (Ok a).
Definition throw {A} (e : js_error) : prog A := Ret (Throw e).
Definition lift {A} (r : result A) : prog A := Ret r.
Definition perform {R} (o : op R) : prog R := Vis o ret.

Declare Scope prog_scope.
Delimit Scope prog_scope with prog.
Notation "'let!' x ':=' p 'in' q" := (prog_bind p (λ x, q))
  (at level 200, x pattern, p at level 100, q at level 200) : prog_scope.
Notation "p ';;;' q" := (prog_bind p (λ _, q))
  (at level 199, right associativity) : prog_scope.
Open Scope prog_scope.

(** [await] of a platform call whose result is known, and of a store method. *)
Definition await {A} (r : result A) : prog A :=
  let! _ := perform Yield in lift r.
Definition await_ks {R} (o : ks_op R) : prog R :=
  let! x := perform (Ks o) in
  let! _ := perform Yield in
  lift x.

(** [await] of a call to another [async] function. *)
Definition await_call {A} (p : prog A) : prog A :=
  let! x := p in
  let! _ := perform Yield in
  ret x.

(** Reading and updating the object behind a reference. *)
Definition deref (l : ref) : prog RatchetSession :=
  let! o := perform (Get l) in lift (throw_none TypeError_ o).
Definition modify (l : ref) (f : RatchetSession → RatchetSession) : prog unit :=
  let! s := deref l in perform (Put l (f s)).

(** ** Running one task *)

Record world (K : Type) := mkWorld { w_entropy : nat; w_heap : heap; w_store : K }.
Arguments mkWorld {K} _ _ _.
Arguments w_entropy {K} _.
Arguments w_heap {K} _.
Arguments w_store {K} _.

Section run.
Context {K : Type} `{KeyStore K}.

Definition exec {R} (o : op R) (w : world K) : world K * R :=
  match o in op R return world K * R with
  | Yield => (w, tt)
  | Entropy => (mkWorld (S (w_entropy w)) (w_heap w) (w_store w), w_entropy w)
  | New s =>
      let l := fresh (dom (w_heap w)) in
      (mkWorld (w_entropy w) (<[l := s]> (w_heap w)) (w_store w), l)
  | Get l => (w, w_heap w !! l)
  | Put l s => (mkWorld (w_entropy w) (<[l := s]> (w_heap w)) (w_store w), tt)
  | Ks o =>
      let '(x, k, h) := ks_run o (w_store w) (w_heap w) in
      (mkWorld (w_entropy w) h k, x)
  end.

Fixpoint run {A} (p : prog A) (w : world K) : world K * result A :=
  match p with
  | Ret r => (w, r)
  | Vis o k => let '(w', x) := exec o w in run (k x) w'
  end.

Lemma run_bind {A B} (p : prog A) (k : A → prog B) w :
  run (prog_bind p k) w =
    let '(w', r) := run p w in
    match r with Ok a => run (k a) w' | Throw e => (w', Throw e) end.
Proof.
  revert w; induction p as [[a|e]|R o c IH]; intros w; cbn; [done..|].
  destruct (exec o w) as [w' x]. apply IH.
Qed.

Lemma run_await {A} (r : result A) w : run (await r) w = (w, r).
Proof. done. Qed.

(** [p], run from [w], ends in a state and with a result that satisfy [Q]. *)
Definition wp {A} (p : prog A) (w : world K) (Q : result A → world K → Prop) : Prop :=
  let '(w', r) := run p w in Q r w'.

Lemma wp_bind {A B} (p : prog A) (k : A → prog B) w Q :
  wp p w (λ r w', match r with Ok a => wp (k a) w' Q | Throw e => Q (Throw e) w' end) →
  wp (prog_bind p k) w Q.
Proof. unfold wp. rewrite run_bind. by destruct (run p w) as [w' [a|e]]. Qed.

Lemma wp_mono {A} (p : prog A) w (P Q : result A → world K → Prop) :
  wp p w P → (∀ r w', P r w' → Q r w') → wp p w Q.
Proof. unfold wp. destruct (run p w). eauto. Qed.

Lemma wp_run {A} (p : prog A) w Q : wp p w Q ↔ ∃ w' r, run p w = (w', r) ∧ Q r w'.
Proof. unfold wp. destruct (run p w) as [w' r]. naive_solver. Qed.

(** ** Interleaving tasks *)

(** Run a task up to its next [await], or to its end. *)
Fixpoint run_slice {A} (p : prog A) (w : world K) : world K * prog A :=
  match p with
  | Ret r => (w, Ret r)
  | @Vis _ R o k =>
      match o in op R return (R → prog A) → world K * prog A with
      | Yield => λ k, (w, k tt)
      | _ => λ _, let '(w', x) := exec o w in run_slice (k x) w'
      end k
  end.

(** A schedule names the task that runs at each turn of the event loop. *)
Fixpoint run_schedule {A} (sched : list nat) (ps : list (prog A)) (w : world K)
  : world K * list (prog A) :=
  match sched with
  | [] => (w, ps)
  | i :: rest =>
      match ps !! i with
      | Some p => let '(w', p') := run_slice p w in run_schedule rest (<[i := p']> ps) w'
      | None => run_schedule rest ps w
      end
  end.
End run.
