(* ===== verification/Crypto.v ===== *)
(** * crypto.ts: the cryptographic primitives

    packages/core/src/encryption/crypto.ts over the platform's [SubtleCrypto].
    The platform is a class of operations ([SubtleCrypto]); what WebCrypto
    documents about them is a second class ([WebCryptoLaws]), used only by the
    theorems that need it. Functions that draw entropy are asynchronous
    programs; the others return a [result] and are awaited by their callers. *)

From S2P Require Import Prelude JsString Utf Encoding Json Types Async.

(** ** The platform *)

(** An algorithm together with the usage the key is imported for. *)
Inductive algorithm :=
  | ECDH_public | ECDH_deriveBits | ECDSA_verify | ECDSA_sign
  | HKDF_deriveBits | HMAC_sign | AES_encrypt | AES_decrypt.

Class SubtleCrypto := {
  CryptoKey : Type;
  (** the key pair of a draw, as [{ publicKey, privateKey }] *)
  generateKey : nat → CryptoKey * CryptoKey;
  exportRaw : CryptoKey → list Z;
  exportJwk : CryptoKey → list (jsstr * json);
  importRaw : algorithm → list Z → option CryptoKey;
  importJwk : algorithm → json → option CryptoKey;
  deriveEcdh : CryptoKey → CryptoKey → option (list Z);
  deriveHkdf : list Z → list Z → CryptoKey → Z → option (list Z);
  signHmac : CryptoKey → list Z → option (list Z);
  signEcdsa : nat → CryptoKey → list Z → option (list Z);
  verifyEcdsa : CryptoKey → list Z → list Z → option bool;
  encryptAes : list Z → CryptoKey → list Z → option (list Z);
  decryptAes : list Z → CryptoKey → list Z → option (list Z);
  digestSha512 : list Z → list Z;
  randomBytes : nat → nat → list Z;
}.

Definition DataError : js_error := DOMException_ "DataError".
Definition OperationError : js_error := DOMException_ "OperationError".

(** [const { key_ops: _, ...jwkClean } = privJwk] *)
Definition strip_key_ops (jwk : list (jsstr * json)) : json :=
  JObj (List.filter (λ kv, negb (bool_decide (kv.1 = js "key_ops"))) jwk).

Record DHKeyPair := mkDH { publicKeyRaw : jsstr; privateKeyJwk : jsstr }.

(** A P-256 key pair to a draw. *)
Definition dh_pair `{SubtleCrypto} (e : nat) : DHKeyPair :=
  let kp := generateKey e in
  mkDH (bufToBase64 (exportRaw kp.1)) (stringify (strip_key_ops (exportJwk kp.2))).

Section crypto.
Context `{SubtleCrypto}.

Definition generateDHKeyPair : prog DHKeyPair :=
  let! e := perform Entropy in
  await (Ok (dh_pair e)).

(** ** Key importers *)

Definition importDHPublic (b64 : jsstr) : result CryptoKey :=
  bytes ← base64ToBuf b64;
  throw_none DataError (importRaw ECDH_public bytes).

Definition importDHPrivate (jwkStr : jsstr) : result CryptoKey :=
  jwk ← parse_json jwkStr;
  throw_none DataError (importJwk ECDH_deriveBits jwk).

Definition importVerifyPublic (b64 : jsstr) : result CryptoKey :=
  bytes ← base64ToBuf b64;
  throw_none DataError (importRaw ECDSA_verify bytes).

Definition importSigningPrivate (jwkStr : jsstr) : result CryptoKey :=
  jwk ← parse_json jwkStr;
  throw_none DataError (importJwk ECDSA_sign jwk).

(** ** ECDH and key derivation *)

(** [publicKeyB64] is the text of the argument, or the exception of converting
    it: a session passes on values it has only cast. *)
Definition dh_of (privateKeyJwk : jsstr) (publicKeyB64 : result jsstr) : result (list Z) :=
  priv ← importDHPrivate privateKeyJwk;
  b64 ← publicKeyB64;
  pub ← importDHPublic b64;
  throw_none OperationError (deriveEcdh pub priv).

Definition dh (privateKeyJwk publicKeyB64 : jsstr) : result (list Z) := dh_of privateKeyJwk (Ok publicKeyB64).

Definition hkdf (ikm salt : list Z) (info : jsstr) (outBytes : Z) : result (list Z) :=
  baseKey ← throw_none DataError (importRaw HKDF_deriveBits ikm);
  throw_none OperationError (deriveHkdf salt (text_encode info) baseKey (outBytes * 8)).

Definition hmacSha256 (keyBytes data : list Z) : result (list Z) :=
  key ← throw_none DataError (importRaw HMAC_sign keyBytes);
  throw_none OperationError (signHmac key data).

(** [{ newRootKey, chainKey }] *)
Definition kdfRootKey (rootKeyHex : jsstr) (dhOutput : list Z) : result (jsstr * jsstr) :=
  out ← hkdf dhOutput (hexToBuf rootKeyHex) (js "WinkdRatchetRK v1") 64;
  mret (bufToHex (js_slice out 0 32), bufToHex (js_slice out 32 64)).

(** [{ messageKey, nextChainKey }] *)
Definition kdfChainKey (chainKeyHex : jsstr) : result (list Z * jsstr) :=
  let ck := hexToBuf chainKeyHex in
  messageKey ← hmacSha256 ck [1];
  nextCK ← hmacSha256 ck [2];
  mret (messageKey, bufToHex nextCK).

(** ** Symmetric encryption *)

(** [{ ciphertext, iv }]; the key is imported before the IV is drawn. *)
Definition aesGcmEncrypt (keyBytes plaintext : list Z) : prog (jsstr * jsstr) :=
  let! key := await (throw_none DataError (importRaw AES_encrypt (js_slice keyBytes 0 32))) in
  let! e := perform Entropy in
  let iv := randomBytes e 12 in
  let! ct := await (throw_none OperationError (encryptAes iv key plaintext)) in
  ret (bufToBase64 ct, bufToBase64 iv).

Definition aesGcmDecrypt_of (keyBytes : list Z) (ciphertext iv : result jsstr) : result (list Z) :=
  key ← throw_none DataError (importRaw AES_decrypt (js_slice keyBytes 0 32));
  ivb ← iv ≫= base64ToBuf;
  ct ← ciphertext ≫= base64ToBuf;
  throw_none OperationError (decryptAes ivb key ct).

Definition aesGcmDecrypt (keyBytes : list Z) (ciphertext iv : jsstr) : result (list Z) :=
  aesGcmDecrypt_of keyBytes (Ok ciphertext) (Ok iv).

(** ** X3DH *)

Definition x3dh (myIdentityPrivJwk myEphemeralPrivJwk theirIdentityPubB64
    theirSignedPreKeyPubB64 : jsstr) (theirOneTimePreKeyPubB64 : option jsstr)
    : result (list Z) :=
  DH1 ← dh myIdentityPrivJwk theirSignedPreKeyPubB64;
  DH2 ← dh myEphemeralPrivJwk theirIdentityPubB64;
  DH3 ← dh myEphemeralPrivJwk theirSignedPreKeyPubB64;
  let F := replicate 32 255 in
  let dhInput := concatBufs [DH1; DH2; DH3] in
  dhInput ← match theirOneTimePreKeyPubB64 with
    | Some opk => DH4 ← dh myEphemeralPrivJwk opk; mret (concatBufs [dhInput; DH4])
    | None => mret dhInput
    end;
  hkdf (concatBufs [F; dhInput]) (replicate 32 0) (js "Winkd X3DH v1") 32.

Definition x3dhRespond_of (myIdentityPrivJwk mySignedPreKeyPrivJwk : jsstr)
    (myOneTimePreKeyPrivJwk : option jsstr) (theirIdentityPubB64 theirEphemeralPubB64 : result jsstr)
    : result (list Z) :=
  DH1 ← dh_of mySignedPreKeyPrivJwk theirIdentityPubB64;
  DH2 ← dh_of myIdentityPrivJwk theirEphemeralPubB64;
  DH3 ← dh_of mySignedPreKeyPrivJwk theirEphemeralPubB64;
  let F := replicate 32 255 in
  let dhInput := concatBufs [DH1; DH2; DH3] in
  dhInput ← match myOneTimePreKeyPrivJwk with
    | Some opk => DH4 ← dh_of opk theirEphemeralPubB64; mret (concatBufs [dhInput; DH4])
    | None => mret dhInput
    end;
  hkdf (concatBufs [F; dhInput]) (replicate 32 0) (js "Winkd X3DH v1") 32.

Definition x3dhRespond (myIdentityPrivJwk mySignedPreKeyPrivJwk : jsstr)
    (myOneTimePreKeyPrivJwk : option jsstr) (theirIdentityPubB64 theirEphemeralPubB64 : jsstr)
    : result (list Z) :=
  x3dhRespond_of myIdentityPrivJwk mySignedPreKeyPrivJwk myOneTimePreKeyPrivJwk
    (Ok theirIdentityPubB64) (Ok theirEphemeralPubB64).

(** ** Signing *)

Definition signPreKey (identityPrivateJwk preKeyPublicB64 : jsstr) : prog jsstr :=
  let! signingKey := await (importSigningPrivate identityPrivateJwk) in
  let! data := lift (base64ToBuf preKeyPublicB64) in
  let! e := perform Entropy in
  let! sig := await (throw_none OperationError (signEcdsa e signingKey data)) in
  ret (bufToBase64 sig).

(** The body of the [try] block of [verifyPreKey]. *)
Definition verifyPreKey_body (identityPublicB64 preKeyPublicB64 signatureB64 : jsstr)
    : result bool :=
  verifyKey ← importVerifyPublic identityPublicB64;
  sig ← base64ToBuf signatureB64;
  data ← base64ToBuf preKeyPublicB64;
  throw_none OperationError (verifyEcdsa verifyKey sig data).

Definition verifyPreKey (identityPublicB64 preKeyPublicB64 signatureB64 : jsstr) : bool :=
  match verifyPreKey_body identityPublicB64 preKeyPublicB64 signatureB64 with
  | Ok b => b
  | Throw _ => false
  end.

(** ** Key generation helpers *)

Definition generateIdentityKeyPair : prog IdentityKeyPair :=
  let! kp := generateDHKeyPair in
  ret (mkIdentity (publicKeyRaw kp) (privateKeyJwk kp)).

Definition generatePreKeyPair (id : Z) : prog PreKey :=
  let! kp := generateDHKeyPair in
  ret (mkPreKey id (publicKeyRaw kp) (privateKeyJwk kp)).

Definition generateSignedPreKeyPair (id : Z) (identityPrivateJwk : jsstr) : prog SignedPreKey :=
  let! kp := generateDHKeyPair in
  let! signature := signPreKey identityPrivateJwk (publicKeyRaw kp) in
  ret (mkSignedPreKey (mkPreKey id (publicKeyRaw kp) (privateKeyJwk kp)) signature).

(** The two random bytes of a [Uint16Array] of length 1, little-endian. *)
Definition newRegistrationId : prog Z :=
  let! e := perform Entropy in
  let buf := randomBytes e 2 in
  let v := nth 0 buf 0 + 256 * nth 1 buf 0 in
  ret (Z.land v 16383 + 1).

(** ** Safety numbers *)

(** Group [i] of the safety number: five bytes folded modulo 100 000. *)
Definition safety_group (hash : list Z) (i : nat) : jsstr :=
  let o := (i * 5)%nat in
  let b k := nth (o + k) hash 0 in
  let n := ((((b 0%nat * 256 + b 1%nat) * 256 + b 2%nat) * 256 + b 3%nat) * 256
            + b 4%nat) mod 100000 in
  js_padStart (js_toString n) 5 48.

Definition computeSafetyNumber (myWinkdId myIdentityPublicB64 theirWinkdId
    theirIdentityPublicB64 : jsstr) : result jsstr :=
  let '(id1, key1, id2, key2) :=
    if js_ltb myWinkdId theirWinkdId
    then (myWinkdId, myIdentityPublicB64, theirWinkdId, theirIdentityPublicB64)
    else (theirWinkdId, theirIdentityPublicB64, myWinkdId, myIdentityPublicB64) in
  k1 ← base64ToBuf key1;
  k2 ← base64ToBuf key2;
  let data := concatBufs [text_encode id1; k1; text_encode id2; k2] in
  let hash := digestSha512 data in
  let groups := map (safety_group hash) (seq 0 12) in
  mret (js_join [32] groups).
End crypto.

(** ** What WebCrypto documents *)

(** The private key text of a generated pair. *)
Definition jwk_text `{SubtleCrypto} (e : nat) : jsstr := privateKeyJwk (dh_pair e).

Class WebCryptoLaws (SC : SubtleCrypto) : Prop := {
  (** keys can be exported and imported back under the algorithms of P-256,
      the private ones because their [key_ops] member is gone *)
  law_raw_bytes e : is_bytes (exportRaw (generateKey e).1);
  law_raw_nonempty e : exportRaw (generateKey e).1 ≠ [];
  law_jwk_json e : json_ok (strip_key_ops (exportJwk (generateKey e).2)) = true;
  law_import_public e : importRaw ECDH_public (exportRaw (generateKey e).1)
                        = Some (generateKey e).1;
  law_import_private e :
    importJwk ECDH_deriveBits (strip_key_ops (exportJwk (generateKey e).2))
    = Some (generateKey e).2;
  law_import_sign e : ∃ k,
    importJwk ECDSA_sign (strip_key_ops (exportJwk (generateKey e).2)) = Some k ∧
    ∃ v, importRaw ECDSA_verify (exportRaw (generateKey e).1) = Some v ∧
    ∀ r data, ∃ sig, signEcdsa r k data = Some sig ∧ is_bytes sig ∧
      verifyEcdsa v sig data = Some true;
  (** Diffie-Hellman: both sides derive the same 32 bytes *)
  law_dh e e' : ∃ s,
    deriveEcdh (generateKey e').1 (generateKey e).2 = Some s ∧
    deriveEcdh (generateKey e).1 (generateKey e').2 = Some s ∧
    is_bytes s ∧ length s = 32%nat;
  (** HKDF-SHA256 yields as many bytes as asked for, up to 255 blocks *)
  law_hkdf ikm salt info n :
    is_bytes ikm → is_bytes salt → is_bytes info → 0 < n ≤ 8160 →
    ∃ k out, importRaw HKDF_deriveBits ikm = Some k ∧
      deriveHkdf salt info k (n * 8) = Some out ∧
      is_bytes out ∧ Z.of_nat (length out) = n;
  (** HMAC-SHA256 with a non-empty key yields 32 bytes *)
  law_hmac key data :
    is_bytes key → is_bytes data → key ≠ [] →
    ∃ k out, importRaw HMAC_sign key = Some k ∧
      signHmac k data = Some out ∧ is_bytes out ∧ length out = 32%nat;
  (** AES-256-GCM decrypts what it encrypted *)
  law_aes key iv pt :
    is_bytes key → length key = 32%nat → is_bytes iv → length iv = 12%nat → is_bytes pt →
    ∃ ke kd ct, importRaw AES_encrypt key = Some ke ∧ importRaw AES_decrypt key = Some kd ∧
      encryptAes iv ke pt = Some ct ∧ is_bytes ct ∧ decryptAes iv kd ct = Some pt;
  law_random e n : is_bytes (randomBytes e n) ∧ length (randomBytes e n) = n;
  law_sha512 data : is_bytes (digestSha512 data) ∧ length (digestSha512 data) = 64%nat;
}.

(** Different draws make different key pairs: what a cryptographic random
    source gives up to a negligible probability. Only the theorems about a whole
    conversation use it. *)
Class FreshKeys (SC : SubtleCrypto) : Prop :=
  fresh_keys e e' :
    exportRaw (generateKey e).1 = exportRaw (generateKey e').1 → e = e'.

(** ** Keys in their stored form *)

(** 32 bytes as 64 hexadecimal digits. *)
Definition is_hexkey (s : jsstr) : Prop :=
  ∃ b, is_bytes b ∧ length b = 32%nat ∧ s = bufToHex b.

(** A 32-byte message key. *)
Definition is_key (k : list Z) : Prop := is_bytes k ∧ length k = 32%nat.

Section facts.
Context `{SC : SubtleCrypto} `{!WebCryptoLaws SC}.

(** The public key text of a draw, and the secret two draws share. *)
Definition pub_text (e : nat) : jsstr := publicKeyRaw (dh_pair e).
Definition dh_secret (i j : nat) : list Z :=
  match dh (jwk_text i) (pub_text j) with Ok s => s | Throw _ => [] end.

Lemma import_public_pair e : importDHPublic (pub_text e) = Ok (generateKey e).1.
Proof.
  unfold importDHPublic, pub_text. cbn.
  rewrite base64_roundtrip by apply law_raw_bytes. cbn. by rewrite law_import_public.
Qed.

Lemma import_private_pair e : importDHPrivate (jwk_text e) = Ok (generateKey e).2.
Proof.
  unfold importDHPrivate, jwk_text. change (privateKeyJwk (dh_pair e))
    with (stringify (strip_key_ops (exportJwk (generateKey e).2))).
  rewrite json_roundtrip by apply law_jwk_json.
  change (throw_none DataError (importJwk ECDH_deriveBits
    (strip_key_ops (exportJwk (generateKey e).2))) = Ok (generateKey e).2).
  by rewrite law_import_private.
Qed.

(** Both ends of a Diffie-Hellman exchange compute the same secret. *)
Lemma dh_pairs i j :
  dh (jwk_text i) (pub_text j) = Ok (dh_secret i j) ∧
  dh_secret i j = dh_secret j i ∧ is_key (dh_secret i j).
Proof.
  assert (Hdh : ∀ i j, dh (jwk_text i) (pub_text j)
                       = throw_none OperationError (deriveEcdh (generateKey j).1 (generateKey i).2)).
  { intros i' j'. unfold dh, dh_of. rewrite import_private_pair. cbn [mbind result_bind].
    by rewrite import_public_pair. }
  destruct (law_dh i j) as (s & H1 & H2 & Hb & Hl).
  assert (dh_secret i j = s) as E1 by (unfold dh_secret; by rewrite Hdh, H1).
  assert (dh_secret j i = s) as E2 by (unfold dh_secret; by rewrite Hdh, H2).
  rewrite Hdh, H1, E1, E2. done.
Qed.

Lemma dh_ok i j : dh (jwk_text i) (pub_text j) = Ok (dh_secret i j).
Proof. apply dh_pairs. Qed.
Lemma dh_of_ok i j : dh_of (jwk_text i) (Ok (pub_text j)) = Ok (dh_secret i j).
Proof. apply dh_ok. Qed.
Lemma dh_secret_comm i j : dh_secret i j = dh_secret j i.
Proof. apply dh_pairs. Qed.
Lemma dh_secret_key i j : is_key (dh_secret i j).
Proof. apply dh_pairs. Qed.

Lemma hkdf_ok ikm salt info n :
  is_bytes ikm → is_bytes salt → is_js info → 0 < n ≤ 8160 →
  ∃ out, hkdf ikm salt info n = Ok out ∧ is_bytes out ∧ Z.of_nat (length out) = n.
Proof.
  intros Hi Hs Hj Hn.
  destruct (law_hkdf ikm salt (text_encode info) n Hi Hs (text_encode_bytes _ Hj) Hn)
    as (k & out & Hk & Ho & Hb & Hl).
  exists out. unfold hkdf. rewrite Hk; cbn. by rewrite Ho.
Qed.

Lemma js_ascii s : forallb (λ c, (0 <=? c) && (c <? 65536)) (js s) = true → is_js (js s).
Proof. apply js_ok_spec. Qed.

Lemma slice_bytes (l : list Z) a b : is_bytes l → is_bytes (js_slice l a b).
Proof. intros. unfold js_slice. by apply Forall_take, Forall_drop. Qed.

(** The root key derivation never fails on a 32-byte secret and returns two keys. *)
Lemma kdfRootKey_ok rk dhOut :
  is_bytes dhOut →
  ∃ rk' ck, kdfRootKey rk dhOut = Ok (rk', ck) ∧ is_hexkey rk' ∧ is_hexkey ck.
Proof.
  intros Hd. unfold kdfRootKey.
  destruct (hkdf_ok dhOut (hexToBuf rk) (js "WinkdRatchetRK v1") 64) as (out & -> & Hb & Hl);
    [done|apply hexToBuf_bytes|by apply js_ascii|lia|].
  assert (length out = 64%nat) as Hl' by lia.
  assert (∀ a, a = 0 ∨ a = 32 → is_hexkey (bufToHex (js_slice out a (a + 32)))) as Hs.
  { intros a Ha. exists (js_slice out a (a + 32)). split; [by apply slice_bytes|split; [|done]].
    unfold js_slice, js_index. rewrite length_take, length_drop, Hl'.
    destruct Ha as [-> | ->]; reflexivity. }
  exists (bufToHex (js_slice out 0 32)), (bufToHex (js_slice out 32 64)).
  split; [done|]. split; [apply (Hs 0)|apply (Hs 32)]; lia.
Qed.

(** The chain key derivation likewise. *)
Lemma kdfChainKey_ok ck :
  is_hexkey ck → ∃ mk ck', kdfChainKey ck = Ok (mk, ck') ∧ is_key mk ∧ is_hexkey ck'.
Proof.
  intros (b & Hb & Hl & ->). unfold kdfChainKey, hmacSha256. rewrite hex_roundtrip by done.
  assert (b ≠ []) as Hne by (by intros ->).
  assert (∀ x, is_byte x → is_bytes [x]) as Hx by (intros; by apply Forall_singleton).
  destruct (law_hmac b [1] Hb (Hx 1 ltac:(unfold is_byte; lia)) Hne) as (k & o1 & Hk & H1 & ? & ?).
  destruct (law_hmac b [2] Hb (Hx 2 ltac:(unfold is_byte; lia)) Hne) as (k' & o2 & Hk' & H2 & ? & ?).
  rewrite Hk in *. simplify_eq. cbn. rewrite H1. cbn. rewrite H2. cbn.
  do 2 eexists. split; [reflexivity|]. split; [done|]. by exists o2.
Qed.

Lemma slice_all (k : list Z) : length k = 32%nat → js_slice k 0 32 = k.
Proof.
  intros Hl. unfold js_slice, js_index. rewrite Hl. cbn -[take drop].
  rewrite drop_0. apply take_ge. lia.
Qed.

(** ** AES-GCM round trip *)

(** What the encryption of a byte string under a key leaves behind: one draw
    is consumed and the ciphertext decrypts to the plaintext. *)
Lemma aesGcm_roundtrip {K} `{KeyStore K} mk pt (w : world K) :
  is_key mk → is_bytes pt →
  ∃ ct iv, run (aesGcmEncrypt mk pt) w
           = (mkWorld (S (w_entropy w)) (w_heap w) (w_store w), Ok (ct, iv)) ∧
    aesGcmDecrypt mk ct iv = Ok pt.
Proof.
  intros [Hb Hl] Hpt. destruct (law_random (w_entropy w) 12) as [Hrb Hrl].
  destruct (law_aes mk (randomBytes (w_entropy w) 12) pt Hb Hl Hrb Hrl Hpt)
    as (ke & kd & ct & Hke & Hkd & He & Hct & Hd).
  exists (bufToBase64 ct), (bufToBase64 (randomBytes (w_entropy w) 12)).
  unfold aesGcmEncrypt, aesGcmDecrypt, aesGcmDecrypt_of. rewrite slice_all by done. split.
  - rewrite run_bind, run_await, Hke. cbn. by rewrite He.
  - rewrite Hkd. cbn. rewrite base64_roundtrip by done. cbn.
    rewrite base64_roundtrip by done. cbn. by rewrite Hd.
Qed.

(** ** X3DH *)

Lemma x3dh_hkdf_ok l :
  Forall is_bytes l →
  ∃ sk, hkdf (concatBufs [replicate 32 255; concatBufs l]) (replicate 32 0)
          (js "Winkd X3DH v1") 32 = Ok sk ∧ is_key sk.
Proof.
  intros Hl. rewrite !concatBufs_concat.
  destruct (hkdf_ok (concat [replicate 32 255; concat l]) (replicate 32 0) (js "Winkd X3DH v1") 32)
    as (sk & -> & Hb & Hn).
  - cbn [concat]. rewrite app_nil_r. apply Forall_app. split; [|by apply Forall_concat].
    apply Forall_replicate. unfold is_byte; lia.
  - apply Forall_replicate. unfold is_byte; lia.
  - by apply js_ascii.
  - lia.
  - exists sk. split; [done|]. split; [done|lia].
Qed.

(** The secret X3DH yields between the owners of identity draws [ia] and
    [ib], with ephemeral draw [ea], signed pre-key [sb] and one-time pre-key [ob]. *)
Definition x3dh_secret (ia ea ib sb : nat) (ob : option nat) : list Z :=
  match x3dh (jwk_text ia) (jwk_text ea) (pub_text ib) (pub_text sb) (pub_text <$> ob) with
  | Ok sk => sk
  | Throw _ => []
  end.

Lemma x3dh_both ia ea ib sb ob :
  x3dh (jwk_text ia) (jwk_text ea) (pub_text ib) (pub_text sb) (pub_text <$> ob)
    = Ok (x3dh_secret ia ea ib sb ob) ∧
  x3dhRespond (jwk_text ib) (jwk_text sb) (jwk_text <$> ob) (pub_text ia) (pub_text ea)
    = Ok (x3dh_secret ia ea ib sb ob) ∧
  is_key (x3dh_secret ia ea ib sb ob).
Proof.
  assert (∀ i j, is_bytes (dh_secret i j)) as Hb by (intros; apply dh_secret_key).
  assert (∃ l, Forall is_bytes l ∧
    x3dh (jwk_text ia) (jwk_text ea) (pub_text ib) (pub_text sb) (pub_text <$> ob)
      = hkdf (concatBufs [replicate 32 255; concatBufs l]) (replicate 32 0) (js "Winkd X3DH v1") 32 ∧
    x3dhRespond (jwk_text ib) (jwk_text sb) (jwk_text <$> ob) (pub_text ia) (pub_text ea)
      = hkdf (concatBufs [replicate 32 255; concatBufs l]) (replicate 32 0) (js "Winkd X3DH v1") 32)
    as (l & Hl & E1 & E2).
  { exists ([dh_secret ia sb; dh_secret ea ib; dh_secret ea sb]
             ++ match ob with Some o => [dh_secret ea o] | None => [] end).
    unfold x3dh, x3dhRespond, x3dhRespond_of. rewrite !dh_ok, !dh_of_ok.
    rewrite (dh_secret_comm sb ia), (dh_secret_comm ib ea), (dh_secret_comm sb ea).
    destruct ob as [o|]; unfold mbind, result_bind, fmap, option_fmap, option_map; cbn [app];
      rewrite ?dh_ok, ?dh_of_ok, ?(dh_secret_comm o ea).
    - split; [by repeat constructor; apply Hb|].
      rewrite !concatBufs_concat. unfold mret, result_ret.
      rewrite !concatBufs_concat. cbn [concat]. by rewrite !app_nil_r, <-!app_assoc.
    - split; [by repeat constructor; apply Hb|]. done. }
  destruct (x3dh_hkdf_ok l Hl) as (sk & Hsk & Hk).
  assert (x3dh_secret ia ea ib sb ob = sk) as -> by (unfold x3dh_secret; by rewrite E1, Hsk).
  by rewrite E1, E2, Hsk.
Qed.

Lemma pub_text_chars e : Forall (λ c, 43 ≤ c ≤ 122 ∧ c ≠ 58) (pub_text e).
Proof. apply bufToBase64_chars, law_raw_bytes. Qed.

Lemma pub_text_bytes e : is_bytes (pub_text e).
Proof. eapply List.Forall_impl, pub_text_chars. unfold is_byte. cbn. lia. Qed.

Lemma pub_text_nonempty e : pub_text e ≠ [].
Proof. apply bufToBase64_nonempty, law_raw_nonempty. Qed.

(** A signature made with the private key of a pair verifies under its public key. *)
Lemma sign_verify {K} `{KeyStore K} i (data : list Z) (w : world K) :
  is_bytes data →
  ∃ sig, run (signPreKey (jwk_text i) (bufToBase64 data)) w
         = (mkWorld (S (w_entropy w)) (w_heap w) (w_store w), Ok sig) ∧
    verifyPreKey (pub_text i) (bufToBase64 data) sig = true.
Proof.
  intros Hd. destruct (law_import_sign i) as (k & Hk & v & Hv & Hs).
  destruct (Hs (w_entropy w) data) as (sig & Hsig & Hb & Hver).
  exists (bufToBase64 sig). split.
  - unfold signPreKey, importSigningPrivate, jwk_text.
    change (privateKeyJwk (dh_pair i))
      with (stringify (strip_key_ops (exportJwk (generateKey i).2))).
    rewrite json_roundtrip by apply law_jwk_json.
    rewrite run_bind, run_await.
    unfold mbind at 1, result_bind. rewrite Hk. cbn. rewrite base64_roundtrip by done.
    cbn. by rewrite Hsig.
  - unfold verifyPreKey, verifyPreKey_body, importVerifyPublic, pub_text. cbn.
    rewrite (base64_roundtrip _ (law_raw_bytes i)). cbn. rewrite Hv. cbn.
    rewrite (base64_roundtrip _ Hb). cbn. rewrite (base64_roundtrip _ Hd). cbn.
    by rewrite Hver.
Qed.
End facts.

#[export] Hint Resolve dh_secret_key kdfChainKey_ok kdfRootKey_ok : winkd.

(** ** Safety numbers *)

(** A safety group is five decimal digits. *)
Lemma safety_group_digits `{SubtleCrypto} hash i :
  length (safety_group hash i) = 5%nat ∧ Forall (λ c, 48 ≤ c ≤ 57) (safety_group hash i).
Proof.
  unfold safety_group. set (n := _ mod 100000).
  assert (0 <= n < 100000) as Hn by (apply Z.mod_pos_bound; lia). clearbody n.
  unfold js_toString, js_toString_radix. zdecide.
  pose proof (digits_length 10 n 4 ltac:(lia) ltac:(lia)) as Hl.
  unfold js_padStart. rewrite length_app, length_replicate, length_map. split; [lia|].
  apply Forall_app. split; [apply Forall_replicate; lia|].
  apply Forall_map. eapply List.Forall_impl, (digits_range 10 n); [|lia..].
  cbn. intros d Hd. unfold digit_char. zdecide. lia.
Qed.

(** Joining groups of five digits with spaces. *)
Definition digit_or_space (i : nat) (c : Z) : Prop :=
  if (i mod 6 =? 5)%nat then c = 32 else 48 ≤ c ≤ 57.

Lemma join_groups gs :
  Forall (λ g, length g = 5%nat ∧ Forall (λ c, 48 ≤ c ≤ 57) g) gs → gs ≠ [] →
  length (js_join [32] gs) = (6 * length gs - 1)%nat ∧
  ∀ i c, js_join [32] gs !! i = Some c → digit_or_space i c.
Proof.
  intros Hgs. induction Hgs as [|g gs [Hl Hd] Hgs IH]; intros Hne; [done|].
  assert (∀ i c, g !! i = Some c → digit_or_space i c) as Hg.
  { intros i c Hi. pose proof (lookup_lt_Some _ _ _ Hi). unfold digit_or_space.
    rewrite Nat.mod_small by lia. destruct (Nat.eqb_spec i 5); [lia|].
    exact (Forall_lookup_1 _ _ _ _ Hd Hi). }
  destruct gs as [|g' gs].
  { cbn [js_join length]. split; [lia|done]. }
  destruct (IH ltac:(done)) as [IHl IHd].
  change (js_join [32] (g :: g' :: gs)) with (g ++ [32] ++ js_join [32] (g' :: gs)).
  rewrite !length_app, IHl, Hl. split; [cbn [length]; lia|].
  intros i c. rewrite lookup_app_Some, Hl. intros [?|[Hi Hc]]; [by apply Hg|].
  unfold digit_or_space. destruct (decide (i = 5%nat)) as [->|]; [by injection Hc|].
  replace i with (6 + (i - 6))%nat by lia.
  replace (i - 5)%nat with (S (i - 6)) in Hc by lia.
  replace (6 + (i - 6))%nat with (i - 6 + 1 * 6)%nat by lia. rewrite Nat.Div0.mod_add.
  by apply IHd.
Qed.

(** ** Properties *)

Section properties.
Context `{SC : SubtleCrypto} `{!WebCryptoLaws SC}.

(** C3: X3DH agreement. For the key pairs of any draws, with or without a
    one-time pre-key, the initiator's [x3dh] and the responder's
    [x3dhRespond] both succeed and return the same 32-byte secret. *)
Theorem x3dh_agreement ia ea ib sb (ob : option nat) :
  ∃ sk,
    x3dh (jwk_text ia) (jwk_text ea) (pub_text ib) (pub_text sb) (pub_text <$> ob) = Ok sk ∧
    x3dhRespond (jwk_text ib) (jwk_text sb) (jwk_text <$> ob) (pub_text ia) (pub_text ea) = Ok sk ∧
    is_bytes sk ∧ length sk = 32%nat.
Proof. exists (x3dh_secret ia ea ib sb ob). apply x3dh_both. Qed.

(** A signed pre-key made by [generateSignedPreKeyPair] with an identity's
    private key carries the id asked for, passes [verifyPreKey] under that
    identity's public key, and costs two draws of entropy and no access to
    the store. *)
Theorem generateSignedPreKeyPair_verifies {K} `{KeyStore K} (id : Z) (i : nat) (w : world K) :
  ∃ spk, run (generateSignedPreKeyPair id (jwk_text i)) w
         = (mkWorld (S (S (w_entropy w))) (w_heap w) (w_store w), Ok spk) ∧
    pk_id (spk_key spk) = id ∧
    verifyPreKey (pub_text i) (pk_publicKey (spk_key spk)) (spk_signature spk) = true.
Proof.
  destruct w as [e h k]. unfold generateSignedPreKeyPair, generateDHKeyPair.
  destruct (sign_verify i (exportRaw (generateKey e).1) (mkWorld (S e) h k) (law_raw_bytes e))
    as (sig & Hrun & Hver).
  exists (mkSignedPreKey (mkPreKey id (pub_text e) (jwk_text e)) sig).
  split; [|by split].
  rewrite run_bind. cbn [run prog_bind perform exec await lift ret]. cbn [w_entropy w_heap w_store].
  rewrite run_bind. change (publicKeyRaw (dh_pair e)) with (bufToBase64 (exportRaw (generateKey e).1)).
  by rewrite Hrun.
Qed.

(** [newRegistrationId] returns a number between 1 and 16384, both
    included (so fifteen bits are needed to hold it). *)
Theorem newRegistrationId_range {K} `{KeyStore K} (w : world K) :
  ∃ id, run newRegistrationId w
        = (mkWorld (S (w_entropy w)) (w_heap w) (w_store w), Ok id) ∧ 1 ≤ id ≤ 16384.
Proof.
  eexists. split; [reflexivity|].
  change 16383 with (Z.ones 14). rewrite Z.land_ones by lia.
  pose proof (Z.mod_pos_bound (nth 0 (randomBytes (w_entropy w) 2) 0
    + 256 * nth 1 (randomBytes (w_entropy w) 2) 0) (2 ^ 14)). lia.
Qed.

(** Both peers compute the same safety number. For two different Winkd
    ids and the public keys of any two pairs, [computeSafetyNumber] succeeds,
    does not depend on whose side computes it, and returns 71 characters:
    twelve groups of five decimal digits separated by single spaces. *)
Theorem computeSafetyNumber_agrees a i b j :
  a ≠ b →
  ∃ s, computeSafetyNumber a (pub_text i) b (pub_text j) = Ok s ∧
    computeSafetyNumber b (pub_text j) a (pub_text i) = Ok s ∧
    length s = 71%nat ∧ ∀ n c, s !! n = Some c → digit_or_space n c.
Proof.
  intros Hne. assert (∀ x i y j, ∃ s,
    (k1 ← base64ToBuf (pub_text i); k2 ← base64ToBuf (pub_text j);
     mret (js_join [32] (map (safety_group (digestSha512 (concatBufs
       [text_encode x; k1; text_encode y; k2]))) (seq 0 12)))) = Ok s ∧
    length s = 71%nat ∧ ∀ n c, s !! n = Some c → digit_or_space n c) as Hs.
  { intros x i' y j'. unfold pub_text.
    cbn [publicKeyRaw dh_pair]. rewrite !base64_roundtrip by apply law_raw_bytes.
    eexists. split; [reflexivity|].
    apply (join_groups (map _ (seq 0 12))); [|done].
    apply Forall_map, Forall_forall. intros ? _. apply safety_group_digits. }
  unfold computeSafetyNumber. rewrite (js_ltb_total a b Hne).
  destruct (js_ltb a b); cbn [negb];
    [destruct (Hs a i b j) as (s & E & ?)|destruct (Hs b j a i) as (s & E & ?)];
    exists s; by rewrite E.
Qed.
End properties.
