(* ===== verification/Toy.v ===== *)
(** * A concrete platform

    A small, insecure but executable [SubtleCrypto] that obeys every law of
    [WebCryptoLaws], so that the theorems stated over an arbitrary lawful
    platform can be evaluated on concrete inputs. Public and private keys are
    the number of the draw that made them; every hash is a polynomial hash
    expanded to bytes. *)

From S2P Require Import Prelude JsString Utf Encoding Json Types Async Crypto.

Module Toy.

Inductive key := TPub (n : nat) | TPriv (n : nat) | TSym (bytes : list Z).

Definition hash (l : list Z) : Z :=
  foldl (λ a b, (a * 1000003 + b + 7) mod 2305843009213693951) 17 l.

Definition expand (n : nat) (h : Z) : list Z :=
  map (λ i, Z.shiftr ((h + Z.of_nat i * 11400714819323198485) * 6364136223846793005) 40 mod 256)
    (seq 0 n).

Definition raw (k : key) : list Z :=
  match k with TPub n => 4 :: digits 256 (Z.of_nat n) | _ => [] end.

Definition jwk (k : key) : list (jsstr * json) :=
  match k with
  | TPriv n => [(js "kty", JStr (js "EC")); (js "key_ops", JArr [JStr (js "deriveBits")]);
                (js "d", JNum (Z.of_nat n))]
  | _ => []
  end.

Definition import_raw (a : algorithm) (l : list Z) : option key :=
  match a with
  | ECDH_public | ECDSA_verify =>
      match l with
      | 4 :: ds => Some (TPub (Z.to_nat (digits_value 256 ds)))
      | _ => None
      end
  | HKDF_deriveBits => Some (TSym l)
  | HMAC_sign => match l with [] => None | _ => Some (TSym l) end
  | AES_encrypt | AES_decrypt => if (length l =? 32)%nat then Some (TSym l) else None
  | _ => None
  end.

Definition import_jwk (a : algorithm) (j : json) : option key :=
  match a, j with
  | (ECDH_deriveBits | ECDSA_sign), JObj _ =>
      match json_get (js "d") j with
      | Some (JNum n) => Some (TPriv (Z.to_nat n))
      | _ => None
      end
  | _, _ => None
  end.

Definition ecdh (pub priv : key) : option (list Z) :=
  match pub, priv with
  | TPub m, TPriv n =>
      Some (expand 32 (hash [Z.of_nat (m + n); Z.of_nat (m * n)]))
  | _, _ => None
  end.

Definition hkdf_bits (salt info : list Z) (k : key) (bits : Z) : option (list Z) :=
  match k with
  | TSym ikm => Some (expand (Z.to_nat (bits / 8)) (hash (salt ++ [1] ++ info ++ [2] ++ ikm)))
  | _ => None
  end.

Definition hmac (k : key) (data : list Z) : option (list Z) :=
  match k with TSym b => Some (expand 32 (hash (b ++ [3] ++ data))) | _ => None end.

Definition signature (n : nat) (data : list Z) : list Z :=
  expand 64 (hash (Z.of_nat n :: 5 :: data)).

Definition ecdsa_sign (e : nat) (k : key) (data : list Z) : option (list Z) :=
  match k with TPriv n => Some (signature n data) | _ => None end.

Definition ecdsa_verify (k : key) (sig data : list Z) : option bool :=
  match k with TPub n => Some (bool_decide (sig = signature n data)) | _ => None end.

Definition stream (iv k : list Z) (n : nat) : list Z := expand n (hash (k ++ iv)).
Definition tag (iv k ct : list Z) : list Z := expand 16 (hash (k ++ iv ++ ct)).

Definition aes_encrypt (iv : list Z) (k : key) (pt : list Z) : option (list Z) :=
  match k with
  | TSym b =>
      let ct := zip_with (λ x y, (x + y) mod 256) pt (stream iv b (length pt)) in
      Some (ct ++ tag iv b ct)
  | _ => None
  end.

Definition aes_decrypt (iv : list Z) (k : key) (data : list Z) : option (list Z) :=
  match k with
  | TSym b =>
      let n := (length data - 16)%nat in
      let ct := take n data in
      if bool_decide (drop n data = tag iv b ct)
      then Some (zip_with (λ x y, (x - y) mod 256) ct (stream iv b n)) else None
  | _ => None
  end.

#[global] Instance crypto : SubtleCrypto := {|
  CryptoKey := key;
  generateKey e := (TPub e, TPriv e);
  exportRaw := raw;
  exportJwk := jwk;
  importRaw := import_raw;
  importJwk := import_jwk;
  deriveEcdh := ecdh;
  deriveHkdf := hkdf_bits;
  signHmac := hmac;
  signEcdsa := ecdsa_sign;
  verifyEcdsa := ecdsa_verify;
  encryptAes := aes_encrypt;
  decryptAes := aes_decrypt;
  digestSha512 data := expand 64 (hash data);
  randomBytes e n := expand n (hash [Z.of_nat e; 9]);
|}.

Lemma expand_bytes n h : is_bytes (expand n h).
Proof.
  unfold expand, is_bytes. apply Forall_map, Forall_forall. intros i _. cbn.
  unfold is_byte. apply Z.mod_pos_bound. lia.
Qed.

Lemma expand_length n h : length (expand n h) = n.
Proof. unfold expand. by rewrite length_map, length_seq. Qed.

Lemma add_sub_stream pt st :
  is_bytes pt → length st = length pt →
  zip_with (λ x y, (x - y) mod 256) (zip_with (λ x y, (x + y) mod 256) pt st) st = pt.
Proof.
  intros Hb. revert st. induction Hb as [|x pt Hx Hb IH]; intros [|y st] Hl; try done.
  cbn in Hl |- *. rewrite IH by lia. f_equal. unfold is_byte in Hx. 
  rewrite Zminus_mod_idemp_l. rewrite Z.add_simpl_r. by apply Z.mod_small.
Qed.

Lemma aes_roundtrip iv b pt :
  is_bytes pt →
  ∃ ct, aes_encrypt iv (TSym b) pt = Some ct ∧ is_bytes ct ∧ aes_decrypt iv (TSym b) ct = Some pt.
Proof.
  intros Hpt. unfold aes_encrypt, aes_decrypt.
  set (ct := zip_with _ _ _). exists (ct ++ tag iv b ct). split; [done|].
  assert (length ct = length pt) as Hl.
  { unfold ct, stream. rewrite length_zip_with, expand_length. lia. }
  assert (length (ct ++ tag iv b ct) - 16 = length ct)%nat as Hn
    by (unfold tag; rewrite length_app, expand_length; lia).
  rewrite Hn, take_app_length, drop_app_length, bool_decide_true by done.
  split.
  - apply Forall_app. split; [|apply expand_bytes]. subst ct. clear.
    generalize (stream iv b (length pt)). induction pt as [|x pt IH]; intros [|y st]; cbn;
      try constructor; [|apply IH]. apply Z.mod_pos_bound. lia.
  - rewrite Hl. f_equal. apply add_sub_stream; [done|apply expand_length].
Qed.

Lemma import_jwk_stripped a n :
  a = ECDH_deriveBits ∨ a = ECDSA_sign →
  import_jwk a (strip_key_ops (jwk (TPriv n))) = Some (TPriv n).
Proof.
  intros Ha. transitivity (Some (TPriv (Z.to_nat (Z.of_nat n)))); [|by rewrite Nat2Z.id].
  by destruct Ha as [-> | ->].
Qed.

#[global] Instance laws : WebCryptoLaws crypto.
Proof.
  split; cbn -[digits digits_value expand hash signature aes_encrypt aes_decrypt json_ok import_jwk jwk].
  - intros e. apply Forall_cons_2; [unfold is_byte; lia|]. apply (digits_range 256); lia.
  - done.
  - done.
  - intros e. by rewrite digits_value_digits, Nat2Z.id by lia.
  - intros e. apply import_jwk_stripped. by left.
  - intros e. rewrite import_jwk_stripped by (by right). eexists. split; [done|].
    rewrite digits_value_digits, Nat2Z.id by lia. eexists. split; [done|].
    intros ? data. exists (signature e data). split; [done|]. split; [apply expand_bytes|].
    cbn -[signature]. by rewrite bool_decide_true.
  - intros e e'. eexists. split; [done|]. rewrite (Nat.add_comm e e'), (Nat.mul_comm e e').
    split; [done|]. split; [apply expand_bytes|apply expand_length].
  - intros ikm salt info n _ _ _ Hn. do 2 eexists. split; [done|]. cbn. split; [done|].
    split; [apply expand_bytes|]. rewrite expand_length, Z.div_mul by done. lia.
  - intros [|x key] data _ _ Hk; [done|]. do 2 eexists. split; [done|]. split; [done|].
    split; [apply expand_bytes|apply expand_length].
  - intros key iv pt _ Hl _ _ Hpt. exists (TSym key), (TSym key).
    destruct (aes_roundtrip iv key pt Hpt) as (ct & He & Hb & Hd). exists ct. by rewrite Hl.
  - intros e n. split; [apply expand_bytes|apply expand_length].
  - intros data. split; [apply expand_bytes|apply expand_length].
Qed.

(** Different draws give different public keys. *)
Lemma raw_inj m n : raw (TPub m) = raw (TPub n) → m = n.
Proof.
  unfold raw. intros H. apply (f_equal (λ l, digits_value 256 (tail l))) in H. cbn [tail] in H.
  rewrite !digits_value_digits in H by lia. lia.
Qed.

#[global] Instance fresh : FreshKeys crypto.
Proof. intros m n. apply raw_inj. Qed.

End Toy.
