(* ===== verification/KeyStore.v ===== *)
(** * keystore.ts: where the keys live

    packages/core/src/encryption/keystore.ts. The contract of [interface
    KeyStore] is stated once, as a simulation between a store and an abstract
    view of its contents ([KeyStoreContract]); the session manager is proved
    against it. Both implementations discharge it: the IndexedDB store, whose
    untyped values are copied in and out, and the in-memory store, which keeps
    the session objects themselves. *)

From S2P Require Import Prelude JsString Types Async.

(** ** The contract *)

(** What a key store holds. *)
Record ks_view := mkView {
  v_identity : option IdentityKeyPair;
  v_regId : option Z;
  v_preKeys : gmap Z PreKey;
  v_signedPreKeys : gmap Z SignedPreKey;
  v_sessions : gmap jsstr RatchetSession;
}.

Definition empty_view : ks_view := mkView None None ∅ ∅ ∅.

Definition set_preKeys (f : gmap Z PreKey → gmap Z PreKey) (v : ks_view) : ks_view :=
  mkView (v_identity v) (v_regId v) (f (v_preKeys v)) (v_signedPreKeys v) (v_sessions v).
Definition set_signedPreKeys (f : gmap Z SignedPreKey → gmap Z SignedPreKey) (v : ks_view) : ks_view :=
  mkView (v_identity v) (v_regId v) (v_preKeys v) (f (v_signedPreKeys v)) (v_sessions v).
Definition set_sessions (f : gmap jsstr RatchetSession → gmap jsstr RatchetSession) (v : ks_view)
    : ks_view :=
  mkView (v_identity v) (v_regId v) (v_preKeys v) (v_signedPreKeys v) (f (v_sessions v)).

(** The methods that pass no session object. *)
Definition flat {R} (o : ks_op R) : bool :=
  match o with loadSession _ | storeSession _ _ => false | _ => true end.

(** What such a method answers and leaves. *)
Definition spec_flat {R} (o : ks_op R) (v : ks_view) : option R * ks_view :=
  match o in ks_op R return option R * ks_view with
  | getIdentityKeyPair => (Some (v_identity v), v)
  | saveIdentityKeyPair kp =>
      (Some tt, mkView (Some kp) (v_regId v) (v_preKeys v) (v_signedPreKeys v) (v_sessions v))
  | getLocalRegistrationId => (Some (v_regId v), v)
  | saveLocalRegistrationId id =>
      (Some tt, mkView (v_identity v) (Some id) (v_preKeys v) (v_signedPreKeys v) (v_sessions v))
  | loadPreKey id => (Some (v_preKeys v !! id), v)
  | storePreKey key => (Some tt, set_preKeys <[pk_id key := key]> v)
  | removePreKey id => (Some tt, set_preKeys (delete id) v)
  | loadSignedPreKey id => (Some (v_signedPreKeys v !! id), v)
  | storeSignedPreKey key => (Some tt, set_signedPreKeys <[pk_id (spk_key key) := key]> v)
  | removeSignedPreKey id => (Some tt, set_signedPreKeys (delete id) v)
  | deleteSession p => (Some tt, set_sessions (delete p) v)
  | loadSession _ => (None, v)
  | storeSession _ _ => (None, v)
  end.

(** Two views that differ at most in the session of [p]. *)
Definition agree_except (p : jsstr) (v v' : ks_view) : Prop :=
  set_sessions (delete p) v = set_sessions (delete p) v'.

#[global] Instance agree_except_equiv p : Equivalence (agree_except p).
Proof. split; red; unfold agree_except; congruence. Qed.

Lemma agree_except_insert p s v v' :
  agree_except p v v' → set_sessions <[p := s]> v = set_sessions <[p := s]> v'.
Proof.
  unfold agree_except, set_sessions. intros [= -> -> -> -> H]. f_equal.
  by rewrite <-insert_delete_eq, H, insert_delete_eq.
Qed.

Lemma agree_except_regId p v v' : agree_except p v v' → v_regId v = v_regId v'.
Proof. by intros [= _ ? _ _ _]. Qed.

Class KeyStoreContract (K : Type) `{KeyStore K} := {
  (** the store and the heap represent a view *)
  ks_rep : K → heap → ks_view → Prop;
  (** what writing through a reference to the session of a peer can do to the
      view: nothing beyond that session *)
  ks_touch : jsstr → ks_view → ks_view → Prop;
  ks_touch_equiv p : Equivalence (ks_touch p);
  ks_touch_agree p v v' : ks_touch p v v' → agree_except p v v';
  (** the reference is one to the session of this peer *)
  ks_owned : K → heap → jsstr → ref → Prop;
  contract_functional k h v v' : ks_rep k h v → ks_rep k h v' → v = v';
  contract_flat {R} (o : ks_op R) k h v :
    flat o = true → ks_rep k h v →
    ∃ x k', ks_run o k h = (Ok x, k', h) ∧ (spec_flat o v).1 = Some x ∧
      ks_rep k' h (spec_flat o v).2 ∧ ∀ p l, ks_owned k h p l → ks_owned k' h p l;
  contract_load p k h v :
    ks_rep k h v →
    match v_sessions v !! p with
    | None => ∃ k', ks_run (loadSession p) k h = (Ok None, k', h) ∧ ks_rep k' h v
    | Some s => ∃ l k' h', ks_run (loadSession p) k h = (Ok (Some l), k', h') ∧
        ks_rep k' h' v ∧ h' !! l = Some s ∧ ks_owned k' h' p l
    end;
  contract_store p l s k h v :
    ks_rep k h v → h !! l = Some s → ks_owned k h p l →
    ∃ k', ks_run (storeSession p l) k h = (Ok tt, k', h) ∧
      ks_rep k' h (set_sessions <[p := s]> v) ∧ ks_owned k' h p l;
  contract_write p l s k h v :
    ks_rep k h v → ks_owned k h p l →
    ∃ v', ks_rep k (<[l := s]> h) v' ∧ ks_touch p v v' ∧ ks_owned k (<[l := s]> h) p l;
  contract_new p l s k h v :
    ks_rep k h v → h !! l = None → ks_rep k (<[l := s]> h) v ∧ ks_owned k (<[l := s]> h) p l;
}.

(** A store whose contents do not change when a loaded object is mutated. *)
Class IsolatedKeyStore (K : Type) `{KeyStoreContract K} : Prop :=
  isolated_touch p v v' : ks_touch p v v' → v = v'.

#[export] Existing Instance ks_touch_equiv.

(** ** InMemoryKeyStore *)

Module InMemory.

Record InMemoryKeyStore := mkStore {
  _identity : option IdentityKeyPair;
  _regId : option Z;
  _preKeys : gmap Z PreKey;
  _signedPreKeys : gmap Z SignedPreKey;
  _sessions : gmap jsstr ref;
}.

Definition new : InMemoryKeyStore := mkStore None None ∅ ∅ ∅.

(** A session is stored and returned as the reference it is. *)
Definition step {R} (o : ks_op R) (k : InMemoryKeyStore) : R * InMemoryKeyStore :=
  let '(mkStore i r pk spk ss) := k in
  match o in ks_op R return R * InMemoryKeyStore with
  | getIdentityKeyPair => (i, k)
  | saveIdentityKeyPair kp => (tt, mkStore (Some kp) r pk spk ss)
  | getLocalRegistrationId => (r, k)
  | saveLocalRegistrationId id => (tt, mkStore i (Some id) pk spk ss)
  | loadPreKey id => (pk !! id, k)
  | storePreKey key => (tt, mkStore i r (<[pk_id key := key]> pk) spk ss)
  | removePreKey id => (tt, mkStore i r (delete id pk) spk ss)
  | loadSignedPreKey id => (spk !! id, k)
  | storeSignedPreKey key => (tt, mkStore i r pk (<[pk_id (spk_key key) := key]> spk) ss)
  | removeSignedPreKey id => (tt, mkStore i r pk (delete id spk) ss)
  | loadSession p => (ss !! p, k)
  | storeSession p l => (tt, mkStore i r pk spk (<[p := l]> ss))
  | deleteSession p => (tt, mkStore i r pk spk (delete p ss))
  end.

#[global] Instance store : KeyStore InMemoryKeyStore :=
  λ R o k h, let '(x, k') := step o k in (Ok x, k', h).

(** Every stored reference is live, and no object is stored for two peers. *)
Definition well_formed (k : InMemoryKeyStore) (h : heap) : Prop :=
  (∀ p l, _sessions k !! p = Some l → is_Some (h !! l)) ∧
  (∀ p q l, _sessions k !! p = Some l → _sessions k !! q = Some l → p = q).

Definition view (k : InMemoryKeyStore) (h : heap) : ks_view :=
  mkView (_identity k) (_regId k) (_preKeys k) (_signedPreKeys k)
    (omap (λ l, h !! l) (_sessions k)).

Definition rep (k : InMemoryKeyStore) (h : heap) (v : ks_view) : Prop :=
  well_formed k h ∧ v = view k h.

Definition owned (k : InMemoryKeyStore) (h : heap) (p : jsstr) (l : ref) : Prop :=
  is_Some (h !! l) ∧ ∀ q, _sessions k !! q = Some l → q = p.

Lemma owned_insert k h p l s : owned k h p l → owned k (<[l := s]> h) p l.
Proof. intros [_ Hq]. split; [rewrite lookup_insert_eq; eauto|done]. Qed.

Lemma well_formed_insert k h l s : well_formed k h → well_formed k (<[l := s]> h).
Proof.
  intros [Hl Hi]. split; [|done]. intros p l' Hp.
  destruct (decide (l = l')) as [->|Hne]; [rewrite lookup_insert_eq; eauto|].
  rewrite lookup_insert_ne by done. eauto.
Qed.

(** The view after a write through a reference nothing but [p] stores. *)
Lemma view_write k h p l s :
  (∀ q, _sessions k !! q = Some l → q = p) →
  agree_except p (view k h) (view k (<[l := s]> h)).
Proof.
  intros Hq. unfold agree_except, set_sessions, view. cbn. f_equal.
  apply map_eq; intros q. destruct (decide (p = q)) as [->|Hne]; [by rewrite !lookup_delete_eq|].
  rewrite !lookup_delete_ne, !lookup_omap by done.
  destruct (_sessions k !! q) as [l'|] eqn:E; cbn; [|done].
  rewrite lookup_insert_ne; [done|]. intros <-. by apply Hne, eq_sym, Hq.
Qed.

Lemma rep_sessions i r pk spk ss i' r' pk' spk' h :
  rep (mkStore i r pk spk ss) h (view (mkStore i r pk spk ss) h) →
  rep (mkStore i' r' pk' spk' ss) h
    (mkView i' r' pk' spk' (v_sessions (view (mkStore i r pk spk ss) h))).
Proof. intros [[Hl Hi] _]. by repeat split. Qed.

Lemma rep_delete i r pk spk ss h p :
  well_formed (mkStore i r pk spk ss) h →
  rep (mkStore i r pk spk (delete p ss)) h
    (set_sessions (delete p) (view (mkStore i r pk spk ss) h)).
Proof.
  intros [Hl Hi]. split; [split; cbn|].
  - intros q l Hq. apply lookup_delete_Some in Hq as [_ Hq]. eauto.
  - intros q q' l Hq Hq'. apply lookup_delete_Some in Hq as [_ Hq].
    apply lookup_delete_Some in Hq' as [_ Hq']. eauto.
  - unfold set_sessions, view; cbn. f_equal. by rewrite omap_delete.
Qed.

Lemma mem_flat_ok {R} (o : ks_op R) k h v :
  flat o = true → rep k h v →
  ∃ x k', ks_run o k h = (Ok x, k', h) ∧ (spec_flat o v).1 = Some x ∧
    rep k' h (spec_flat o v).2 ∧ ∀ p l, owned k h p l → owned k' h p l.
Proof.
  destruct k as [i r pk spk ss]. intros Hf [Hwf ->].
  destruct o; try discriminate Hf; (eexists _, _; split; [reflexivity|]);
    (split; [reflexivity|]); (split; [|try by intros]);
    try (apply (rep_sessions i r pk spk ss); by split).
  - by apply rep_delete.
  - intros p l [? Hq]. split; [done|]. cbn. intros q [_ ?]%lookup_delete_Some. auto.
Qed.

Lemma mem_load_ok p k h v :
  rep k h v →
  match v_sessions v !! p with
  | None => ∃ k', ks_run (loadSession p) k h = (Ok None, k', h) ∧ rep k' h v
  | Some s => ∃ l k' h', ks_run (loadSession p) k h = (Ok (Some l), k', h') ∧
      rep k' h' v ∧ h' !! l = Some s ∧ owned k' h' p l
  end.
Proof.
  destruct k as [i r pk spk ss]. intros [[Hl Hi] ->]. cbn [view v_sessions _sessions].
  rewrite lookup_omap. destruct (ss !! p) as [l|] eqn:E; cbn.
  - destruct (Hl p l E) as [s Hs]. rewrite Hs. exists l. do 2 eexists. split; [by rewrite E|].
    split; [by split|]. split; [done|]. split; [by eauto|]. cbn. eauto.
  - eexists. split; [by rewrite E|]. by split.
Qed.

Lemma mem_store_ok p l s k h v :
  rep k h v → h !! l = Some s → owned k h p l →
  ∃ k', ks_run (storeSession p l) k h = (Ok tt, k', h) ∧
    rep k' h (set_sessions <[p := s]> v) ∧ owned k' h p l.
Proof.
  destruct k as [i r pk spk ss]. intros [[Hl Hi] ->] Hs [_ Hq]. cbn in Hl, Hi, Hq.
  eexists. split; [reflexivity|]. split.
  - split; [split; cbn|].
    + intros q l' Hq'. destruct (decide (p = q)) as [->|Hne].
      * rewrite lookup_insert_eq in Hq'. simplify_eq. eauto.
      * rewrite lookup_insert_ne in Hq' by done. eauto.
    + intros q q' l' [[??]|[??]]%lookup_insert_Some [[??]|[??]]%lookup_insert_Some;
        subst; eauto using eq_sym.
    + unfold set_sessions, view; cbn. f_equal.
      apply map_eq; intros q. rewrite lookup_omap.
      destruct (decide (p = q)) as [->|Hne]; [by rewrite !lookup_insert_eq|].
      by rewrite !lookup_insert_ne, lookup_omap by done.
  - split; [by eauto|]. cbn. intros q [[<- _]|[? ?]]%lookup_insert_Some; auto.
Qed.

#[global] Instance contract : KeyStoreContract InMemoryKeyStore.
Proof.
  refine {| ks_rep := rep; ks_touch := agree_except; ks_owned := owned;
            contract_flat := @mem_flat_ok; contract_load := mem_load_ok; contract_store := mem_store_ok |}.
  - done.
  - by intros k h v v' [_ ->] [_ ->].
  - intros p l s k h v [Hwf ->] Ho. exists (view k (<[l := s]> h)).
    split; [split; [by apply well_formed_insert|done]|].
    split; [apply view_write, Ho|by apply owned_insert].
  - intros p l s k h v [[Hl Hi] ->] Hn.
    assert (∀ q, _sessions k !! q ≠ Some l) as Hq.
    { intros q E. destruct (Hl q l E) as [? Hs]. by rewrite Hn in Hs. }
    split; [split; [by apply well_formed_insert|]|].
    + unfold view. f_equal. apply map_eq; intros q. rewrite !lookup_omap.
      destruct (_sessions k !! q) as [l'|] eqn:E; cbn; [|done].
      rewrite lookup_insert_ne; [done|]. by intros ->; apply (Hq q).
    + split; [rewrite lookup_insert_eq; eauto|]. intros q E. by apply Hq in E.
Defined.

Lemma mem_new_rep h : rep new h empty_view.
Proof. split; [by split|]. unfold view, empty_view; cbn. f_equal. Qed.

End InMemory.

(** ** IndexedDbKeyStore *)

Module Idb.

Definition STORE_IDENTITY : jsstr := js "identity_keys".
Definition STORE_REG_ID : jsstr := js "registration_id".
Definition STORE_PRE_KEYS : jsstr := js "pre_keys".
Definition STORE_SIGNED_PRE_KEYS : jsstr := js "signed_pre_keys".
Definition STORE_SESSIONS : jsstr := js "sessions".

Definition STORES : list jsstr :=
  [STORE_IDENTITY; STORE_REG_ID; STORE_PRE_KEYS; STORE_SIGNED_PRE_KEYS; STORE_SESSIONS].

(** The keys of the platform's object stores the program uses, and its values. *)
Inductive idb_key := KStr (s : jsstr) | KNum (n : Z).

Inductive idb_value :=
  | VIdentity (kp : IdentityKeyPair)
  | VNumber (n : Z)
  | VPreKey (k : PreKey)
  | VSignedPreKey (k : SignedPreKey)
  | VSession (s : RatchetSession).

#[global] Instance idb_key_eq_dec : EqDecision idb_key.
Proof. solve_decision. Defined.
#[global] Instance idb_key_countable : Countable idb_key.
Proof.
  refine (inj_countable' (λ k, match k with KStr s => inl s | KNum n => inr n end)
    (λ x, match x with inl s => KStr s | inr n => KNum n end) _).
  by intros [].
Defined.

(** The object stores of the database, by name. *)
Abbreviation database := (gmap jsstr (gmap idb_key idb_value)).

(** [disk]: the database of this origin, [None] before its first opening;
    [_db]: whether the module's cached connection is set. *)
Record IndexedDb := mkDb { disk : option database; _db : bool }.

Definition new : IndexedDb := mkDb None false.

(** [onupgradeneeded]: create the stores that do not exist. *)
Definition upgrade (d : database) : database :=
  foldl (λ d name, if decide (is_Some (d !! name)) then d else <[name := ∅]> d) d STORES.

(** The version number never changes, so only a new database is upgraded. *)
Definition openDB (k : IndexedDb) : IndexedDb :=
  if _db k then k
  else mkDb (Some (match disk k with Some d => d | None => upgrade ∅ end)) true.

Definition NotFoundError : js_error := DOMException_ "NotFoundError".

(** [db.transaction(storeName)] on the open database. *)
Definition transaction (storeName : jsstr) (k : IndexedDb)
    : result (database * gmap idb_key idb_value) :=
  match disk k with
  | Some d => throw_none NotFoundError (pair d <$> d !! storeName)
  | None => Throw NotFoundError
  end.

Definition idbGet (storeName : jsstr) (key : idb_key) (k : IndexedDb)
    : result (option idb_value) * IndexedDb :=
  let k := openDB k in
  ('(_, objects) ← transaction storeName k; mret (objects !! key), k).

(** A write of the store [storeName]: its objects become [f] of what they were. *)
Definition idbWrite (storeName : jsstr)
    (f : gmap idb_key idb_value → gmap idb_key idb_value) (k : IndexedDb)
    : result unit * IndexedDb :=
  let k := openDB k in
  match transaction storeName k with
  | Ok (d, objects) => (Ok tt, mkDb (Some (<[storeName := f objects]> d)) true)
  | Throw e => (Throw e, k)
  end.

Definition idbPut (storeName : jsstr) (key : idb_key) (value : idb_value) :=
  idbWrite storeName <[key := value]>.
Definition idbDelete (storeName : jsstr) (key : idb_key) :=
  idbWrite storeName (delete key).

(** [req.result as T]: the program trusts the type of what it stored. *)
Definition cast {T} (f : idb_value → option T) (r : result (option idb_value) * IndexedDb)
    : result (option T) * IndexedDb :=
  (o ← r.1; match o with
            | Some x => Some <$> throw_none TypeError_ (f x)
            | None => mret None
            end, r.2).

Definition as_identity x := match x with VIdentity kp => Some kp | _ => None end.
Definition as_number x := match x with VNumber n => Some n | _ => None end.
Definition as_preKey x := match x with VPreKey k => Some k | _ => None end.
Definition as_signedPreKey x := match x with VSignedPreKey k => Some k | _ => None end.
Definition as_session x := match x with VSession s => Some s | _ => None end.

(** [loadSession] and [storeSession] on values: the database clones. *)
Definition loadSession_value (p : jsstr) (k : IndexedDb) : result (option RatchetSession) * IndexedDb :=
  cast as_session (idbGet STORE_SESSIONS (KStr p) k).
Definition storeSession_value (p : jsstr) (s : RatchetSession) (k : IndexedDb)
    : result unit * IndexedDb :=
  idbPut STORE_SESSIONS (KStr p) (VSession s) k.

Definition step {R} (o : ks_op R) (k : IndexedDb) (h : heap) : result R * IndexedDb * heap :=
  match o in ks_op R return result R * IndexedDb * heap with
  | getIdentityKeyPair => (cast as_identity (idbGet STORE_IDENTITY (KStr (js "ik")) k), h)
  | saveIdentityKeyPair kp => (idbPut STORE_IDENTITY (KStr (js "ik")) (VIdentity kp) k, h)
  | getLocalRegistrationId => (cast as_number (idbGet STORE_REG_ID (KStr (js "rid")) k), h)
  | saveLocalRegistrationId id => (idbPut STORE_REG_ID (KStr (js "rid")) (VNumber id) k, h)
  | loadPreKey id => (cast as_preKey (idbGet STORE_PRE_KEYS (KNum id) k), h)
  | storePreKey key => (idbPut STORE_PRE_KEYS (KNum (pk_id key)) (VPreKey key) k, h)
  | removePreKey id => (idbDelete STORE_PRE_KEYS (KNum id) k, h)
  | loadSignedPreKey id => (cast as_signedPreKey (idbGet STORE_SIGNED_PRE_KEYS (KNum id) k), h)
  | storeSignedPreKey key =>
      (idbPut STORE_SIGNED_PRE_KEYS (KNum (pk_id (spk_key key))) (VSignedPreKey key) k, h)
  | removeSignedPreKey id => (idbDelete STORE_SIGNED_PRE_KEYS (KNum id) k, h)
  | loadSession p =>
      match loadSession_value p k with
      | (Ok (Some s), k') =>
          let l := fresh (dom h) in (Ok (Some l), k', <[l := s]> h)
      | (Ok None, k') => (Ok None, k', h)
      | (Throw e, k') => (Throw e, k', h)
      end
  | storeSession p l =>
      match h !! l with
      | Some s => (storeSession_value p s k, h)
      | None => (Throw TypeError_, k, h)
      end
  | deleteSession p => (idbDelete STORE_SESSIONS (KStr p) k, h)
  end.

#[global] Instance store : KeyStore IndexedDb := @step.

(** ** The database represents a view *)

(** The database the next request finds. *)
Definition opened (k : IndexedDb) : database :=
  match disk k with Some d => d | None => upgrade ∅ end.

(** The object at a key of a store. *)
Definition cell (d : database) (name : jsstr) (key : idb_key) : option idb_value :=
  d !! name ≫= (.!! key).

Record db_rep (d : database) (v : ks_view) : Prop := {
  db_stores name : name ∈ STORES → is_Some (d !! name);
  db_identity : cell d STORE_IDENTITY (KStr (js "ik")) = VIdentity <$> v_identity v;
  db_regId : cell d STORE_REG_ID (KStr (js "rid")) = VNumber <$> v_regId v;
  db_preKeys id : cell d STORE_PRE_KEYS (KNum id) = VPreKey <$> v_preKeys v !! id;
  db_signedPreKeys id :
    cell d STORE_SIGNED_PRE_KEYS (KNum id) = VSignedPreKey <$> v_signedPreKeys v !! id;
  db_sessions p : cell d STORE_SESSIONS (KStr p) = VSession <$> v_sessions v !! p;
}.

Definition rep (k : IndexedDb) (h : heap) (v : ks_view) : Prop :=
  (_db k = true → is_Some (disk k)) ∧ db_rep (opened k) v.

Lemma openDB_opened k :
  (_db k = true → is_Some (disk k)) → openDB k = mkDb (Some (opened k)) true.
Proof.
  destruct k as [[d|] []]; intros H; try done. by destruct (H eq_refl).
Qed.

Lemma idbGet_ok name key k h v :
  rep k h v → name ∈ STORES →
  idbGet name key k = (Ok (cell (opened k) name key), mkDb (Some (opened k)) true).
Proof.
  intros [Ho Hd] Hn. unfold idbGet, transaction. rewrite openDB_opened by done. cbn [disk].
  destruct (db_stores _ _ Hd name Hn) as [objs Ho']. unfold cell. by rewrite Ho'.
Qed.

(** The cells after a write of one store. *)
Lemma idbWrite_ok name f k h v :
  rep k h v → name ∈ STORES →
  ∃ d, idbWrite name f k = (Ok tt, mkDb (Some d) true) ∧
    (∀ n, n ∈ STORES → is_Some (d !! n)) ∧
    (∀ n key, n ≠ name → cell d n key = cell (opened k) n key) ∧
    ∃ objs, opened k !! name = Some objs ∧ d !! name = Some (f objs).
Proof.
  intros [Ho Hd] Hn. unfold idbWrite, transaction. rewrite openDB_opened by done. cbn [disk].
  destruct (db_stores _ _ Hd name Hn) as [objs Ho']. rewrite Ho'. eexists. split; [reflexivity|].
  split; [|split].
  - intros n Hn'. destruct (decide (name = n)) as [->|];
      [rewrite lookup_insert_eq; eauto|rewrite lookup_insert_ne by done].
    by apply (db_stores _ _ Hd).
  - intros n key Hne. unfold cell. by rewrite lookup_insert_ne.
  - exists objs. by rewrite lookup_insert_eq.
Qed.

(** The reads and writes of one cell, over the view. *)
Lemma get_ok {T} name key (f : idb_value → option T) g (o : option T) k h v :
  rep k h v → name ∈ STORES → (∀ t, f (g t) = Some t) → cell (opened k) name key = g <$> o →
  ∃ k', cast f (idbGet name key k) = (Ok o, k') ∧ rep k' h v.
Proof.
  intros Hr Hn Hf Hc. erewrite idbGet_ok, Hc by done. unfold cast. cbn.
  exists (mkDb (Some (opened k)) true). split; [|split; [by eauto|apply Hr]].
  destruct o as [t|]; cbn; [by rewrite Hf|done].
Qed.

Lemma write_ok name key (o : option idb_value) k h v v' f :
  rep k h v → name ∈ STORES →
  (∀ m, f m !! key = o) → (∀ m key', key' ≠ key → f m !! key' = m !! key') →
  (∀ d, (∀ n, n ∈ STORES → is_Some (d !! n)) →
    (∀ n k', (n, k') ≠ (name, key) → cell d n k' = cell (opened k) n k') →
    cell d name key = o → db_rep d v') →
  ∃ k', idbWrite name f k = (Ok tt, k') ∧ rep k' h v'.
Proof.
  intros Hr Hn Hf Hf' Hd. destruct (idbWrite_ok name f k h v Hr Hn) as (d & -> & Hs & Hc & objs & Ho & Ho').
  eexists. split; [reflexivity|]. split; [by eauto|]. apply (Hd d); [done| |].
  - intros n k' Hne. destruct (decide (n = name)) as [->|]; [|by apply Hc].
    unfold cell. rewrite Ho, Ho'. cbn. apply Hf'. congruence.
  - unfold cell. rewrite Ho'. cbn. apply Hf.
Qed.

Lemma put_ok name key x k h v v' :
  rep k h v → name ∈ STORES →
  (∀ d, (∀ n, n ∈ STORES → is_Some (d !! n)) →
    (∀ n k', (n, k') ≠ (name, key) → cell d n k' = cell (opened k) n k') →
    cell d name key = Some x → db_rep d v') →
  ∃ k', idbPut name key x k = (Ok tt, k') ∧ rep k' h v'.
Proof.
  intros Hr Hn Hd. eapply write_ok; [done..| | |exact Hd]; intros m.
  - by rewrite lookup_insert_eq.
  - intros. by rewrite lookup_insert_ne.
Qed.

Lemma delete_ok name key k h v v' :
  rep k h v → name ∈ STORES →
  (∀ d, (∀ n, n ∈ STORES → is_Some (d !! n)) →
    (∀ n k', (n, k') ≠ (name, key) → cell d n k' = cell (opened k) n k') →
    cell d name key = None → db_rep d v') →
  ∃ k', idbDelete name key k = (Ok tt, k') ∧ rep k' h v'.
Proof.
  intros Hr Hn Hd. eapply write_ok; [done..| | |exact Hd]; intros m.
  - by rewrite lookup_delete_eq.
  - intros. by rewrite lookup_delete_ne.
Qed.

(** The names of the stores are pairwise different. *)
Ltac in_stores := apply list_elem_of_In; cbn; by auto 10.
Ltac other_cell := let H := fresh in intros H; apply (f_equal fst) in H; by vm_compute in H.

(** A database that differs from a good one in one cell. *)
Ltac db_update Hr :=
  let d := fresh "d" in let Hs := fresh "Hs" in let Hne := fresh "Hne" in
  intros d Hs Hne Hx; destruct Hr as [_ [_ Hi Hr Hpk Hspk Hss]];
  split; [done|..]; intros; try (rewrite Hne by other_cell; cbn; by auto).

(** The cells of a store whose contents are a map of the view. *)
Lemma cell_insert {I A} `{Countable I} (g : I → idb_key) (f : A → idb_value) d d0 name
    (m : gmap I A) i a :
  (∀ i j, g i = g j → i = j) →
  (∀ i, cell d0 name (g i) = f <$> m !! i) →
  (∀ n k', (n, k') ≠ (name, g i) → cell d n k' = cell d0 n k') →
  cell d name (g i) = Some (f a) →
  ∀ j, cell d name (g j) = f <$> <[i := a]> m !! j.
Proof.
  intros Hg Hm Hne Hx j. destruct (decide (i = j)) as [->|Hij]; [by rewrite lookup_insert_eq|].
  rewrite lookup_insert_ne, Hne by naive_solver. apply Hm.
Qed.

Lemma cell_delete {I A} `{Countable I} (g : I → idb_key) (f : A → idb_value) d d0 name
    (m : gmap I A) i :
  (∀ i j, g i = g j → i = j) →
  (∀ i, cell d0 name (g i) = f <$> m !! i) →
  (∀ n k', (n, k') ≠ (name, g i) → cell d n k' = cell d0 n k') →
  cell d name (g i) = None →
  ∀ j, cell d name (g j) = f <$> delete i m !! j.
Proof.
  intros Hg Hm Hne Hx j. destruct (decide (i = j)) as [->|Hij]; [by rewrite lookup_delete_eq|].
  rewrite lookup_delete_ne, Hne by naive_solver. apply Hm.
Qed.

Lemma request_ok {R} (p : result R * IndexedDb) (h : heap) v (x : R) :
  (∃ k', p = (Ok x, k') ∧ rep k' h v) →
  ∃ x' k', (p, h) = (Ok x', k', h) ∧ Some x = Some x' ∧ rep k' h v.
Proof. intros (k' & -> & ?). by eauto. Qed.

Ltac by_read f g Hr :=
  apply request_ok, (get_ok _ _ f g); [exact Hr|in_stores|done|apply Hr].

(** Close the case of a write: [L] is the lemma for the request. *)
Ltac by_write L Hr :=
  apply request_ok; eapply L; [exact Hr|in_stores|];
  db_update Hr; cbn; first [done | eapply cell_insert | eapply cell_delete];
  naive_solver.

Lemma idb_flat_ok {R} (o : ks_op R) k h v :
  flat o = true → rep k h v →
  ∃ x k', step o k h = (Ok x, k', h) ∧ (spec_flat o v).1 = Some x ∧
    rep k' h (spec_flat o v).2.
Proof.
  intros Hf Hr. destruct o; try discriminate Hf; cbn [step spec_flat fst snd].
  - by_read as_identity VIdentity Hr.
  - by_write put_ok Hr.
  - by_read as_number VNumber Hr.
  - by_write put_ok Hr.
  - by_read as_preKey VPreKey Hr.
  - by_write put_ok Hr.
  - by_write delete_ok Hr.
  - by_read as_signedPreKey VSignedPreKey Hr.
  - by_write put_ok Hr.
  - by_write delete_ok Hr.
  - by_write delete_ok Hr.
Qed.

Lemma idb_load_ok p k h v :
  rep k h v →
  match v_sessions v !! p with
  | None => ∃ k', ks_run (loadSession p) k h = (Ok None, k', h) ∧ rep k' h v
  | Some s => ∃ l k' h', ks_run (loadSession p) k h = (Ok (Some l), k', h') ∧
      rep k' h' v ∧ h' !! l = Some s ∧ True
  end.
Proof.
  intros Hr. cbn [ks_run store step]. unfold loadSession_value.
  destruct (get_ok STORE_SESSIONS (KStr p) as_session VSession (v_sessions v !! p) k h v)
    as (k' & E & Hr'); [exact Hr|in_stores|done|apply Hr|].
  unfold ks_run, store, step, loadSession_value. rewrite E.
  destruct (v_sessions v !! p) as [s|]; [|by eauto].
  exists (fresh (dom h)), k', (<[fresh (dom h) := s]> h). rewrite lookup_insert_eq.
  split; [done|]. split; [apply Hr'|done].
Qed.

Lemma idb_store_ok p l s k h v :
  rep k h v → h !! l = Some s → True →
  ∃ k', ks_run (storeSession p l) k h = (Ok tt, k', h) ∧
    rep k' h (set_sessions <[p := s]> v) ∧ True.
Proof.
  intros Hr Hs _. unfold ks_run, store, step. rewrite Hs. unfold storeSession_value.
  edestruct (put_ok STORE_SESSIONS (KStr p) (VSession s) k h v (set_sessions <[p := s]> v))
    as (k' & -> & ?); [exact Hr|in_stores| |by eauto].
  db_update Hr; cbn; first [done | eapply cell_insert]; naive_solver.
Qed.

Lemma db_rep_functional d v v' : db_rep d v → db_rep d v' → v = v'.
Proof.
  intros [_ H1 H2 H3 H4 H5] [_ H1' H2' H3' H4' H5'].
  destruct v as [i r pk spk ss], v' as [i' r' pk' spk' ss']; cbn in *.
  assert (∀ {A} (f : A → idb_value) (o o' : option A) x,
    (∀ a b, f a = f b → a = b) → x = f <$> o → x = f <$> o' → o = o') as Hinj.
  { intros A f o o' x Hf -> E. destruct o, o'; cbn in E; simplify_eq; try done.
    by f_equal; apply Hf. }
  f_equal; try (apply map_eq; intros j); eapply Hinj; eauto; by intros ?? [= ->].
Qed.

#[global] Instance contract : KeyStoreContract IndexedDb.
Proof.
  refine {| ks_rep := rep; ks_touch := λ _, eq; ks_owned := λ _ _ _ _, True;
            contract_load := idb_load_ok; contract_store := idb_store_ok |}.
  - intros p v v' ->. done.
  - intros k h v v' [_ ?] [_ ?]. by eapply db_rep_functional.
  - intros R o k h v Hf Hr. destruct (idb_flat_ok o k h v Hf Hr) as (x & k' & ? & ? & ?).
    by exists x, k'.
  - intros p l s k h v Hr _. by exists v.
  - intros p l s k h v Hr _. done.
Defined.

#[global] Instance isolated : IsolatedKeyStore IndexedDb.
Proof. intros p v v' H. exact H. Qed.

(** Closing the page: the objects and the connection are gone. *)
Definition reload (w : world IndexedDb) : world IndexedDb :=
  mkWorld (w_entropy w) ∅ (mkDb (disk (w_store w)) false).

Lemma reload_rep k h v : rep k h v → rep (mkDb (disk k) false) ∅ v.
Proof. intros [_ Hd]. by split. Qed.

Lemma idb_new_rep h : rep new h empty_view.
Proof.
  split; [done|]. split; try done.
  intros name Hn. apply list_elem_of_In in Hn. cbn in Hn.
  repeat (destruct Hn as [<-|Hn]; [by vm_compute; eauto|]). done.
Qed.

End Idb.

(** ** Reasoning about a client

    Between two calls of the session manager the world is [idle]: the store
    represents a view. During a call it is [editing] one session object. *)

Section client.
Context {K : Type} `{KeyStoreContract K}.

Definition idle (w : world K) (v : ks_view) (e : nat) : Prop :=
  ks_rep (w_store w) (w_heap w) v ∧ w_entropy w = e.

Definition editing (w : world K) (p : jsstr) (l : ref) (s : RatchetSession) (v : ks_view)
    (e : nat) : Prop :=
  w_heap w !! l = Some s ∧ ks_owned (w_store w) (w_heap w) p l ∧
  ∃ v', idle w v' e ∧ ks_touch p v v'.

Lemma wp_ret {A} (r : result A) w (Q : result A → world K → Prop) : Q r w → wp (Ret r) w Q.
Proof. done. Qed.

Lemma wp_await {A B} (r : result A) (k : A → prog B) w Q :
  match r with Ok a => wp (k a) w Q | Throw e => Q (Throw e) w end →
  wp (prog_bind (await r) k) w Q.
Proof. intros ?. apply wp_bind. by destruct r. Qed.

Lemma wp_lift {A B} (r : result A) (k : A → prog B) w Q :
  match r with Ok a => wp (k a) w Q | Throw e => Q (Throw e) w end →
  wp (prog_bind (lift r) k) w Q.
Proof. intros ?. apply wp_bind. by destruct r. Qed.

Lemma wp_call {A B} (p : prog A) (k : A → prog B) w Q :
  wp p w (λ r w', match r with Ok a => wp (k a) w' Q | Throw e => Q (Throw e) w' end) →
  wp (prog_bind (await_call p) k) w Q.
Proof.
  intros Hp. apply wp_bind. unfold await_call. apply wp_bind.
  eapply wp_mono; [exact Hp|]. by intros [a|er] w'.
Qed.

Lemma wp_flat {R B} (o : ks_op R) x v' (k : R → prog B) w v e Q :
  idle w v e → flat o = true → spec_flat o v = (Some x, v') →
  (∀ w', idle w' v' e → wp (k x) w' Q) →
  wp (prog_bind (await_ks o) k) w Q.
Proof.
  intros [Hr He] Hf Hs Hk. unfold wp. rewrite run_bind. cbn.
  destruct (contract_flat o _ _ _ Hf Hr) as (x' & k' & -> & Hx & Hr' & _).
  rewrite Hs in Hx, Hr'. cbn in Hx, Hr' |- *. simplify_eq.
  by apply (Hk (mkWorld (w_entropy w) (w_heap w) k')).
Qed.

Lemma wp_load {B} p (k : option ref → prog B) w v e Q :
  idle w v e →
  match v_sessions v !! p with
  | None => ∀ w', idle w' v e → wp (k None) w' Q
  | Some s => ∀ w' l, idle w' v e → editing w' p l s v e → wp (k (Some l)) w' Q
  end →
  wp (prog_bind (await_ks (loadSession p)) k) w Q.
Proof.
  intros [Hr He] Hk. unfold wp. rewrite run_bind. cbn.
  pose proof (contract_load p _ _ _ Hr) as Hl.
  destruct (v_sessions v !! p) as [s|].
  - destruct Hl as (l & k' & h' & -> & Hr' & Hs & Ho). cbn.
    apply (Hk (mkWorld (w_entropy w) h' k')); [done|]. split; [done|]. split; [done|].
    exists v. by split.
  - destruct Hl as (k' & -> & Hr'). cbn. by apply (Hk (mkWorld (w_entropy w) (w_heap w) k')).
Qed.

Lemma wp_regId {B} (k : option Z → prog B) w p l s v e Q :
  editing w p l s v e →
  (∀ w', editing w' p l s v e → wp (k (v_regId v)) w' Q) →
  wp (prog_bind (await_ks getLocalRegistrationId) k) w Q.
Proof.
  intros (Hs & Ho & v' & [Hr He] & Ht) Hk. unfold wp. rewrite run_bind. cbn.
  destruct (contract_flat getLocalRegistrationId _ _ _ eq_refl Hr)
    as (x & k' & -> & Hx & Hr' & Ho'). cbn in Hx, Hr' |- *. simplify_eq.
  rewrite <-(agree_except_regId p v v') by by apply ks_touch_agree.
  apply (Hk (mkWorld (w_entropy w) (w_heap w) k')). split; [done|]. split; [by apply Ho'|].
  exists v'. by split.
Qed.

Lemma wp_deref {B} l (k : RatchetSession → prog B) w p s v e Q :
  editing w p l s v e → wp (k s) w Q → wp (prog_bind (deref l) k) w Q.
Proof. intros (Hs & _) Hk. unfold wp. rewrite run_bind. cbn. by rewrite Hs. Qed.

Lemma wp_modify {B} l f (k : unit → prog B) w p s v e Q :
  editing w p l s v e →
  (∀ w', editing w' p l (f s) v e → wp (k tt) w' Q) →
  wp (prog_bind (modify l f) k) w Q.
Proof.
  intros (Hs & Ho & v' & [Hr He] & Ht) Hk. unfold wp. rewrite run_bind. cbn. rewrite Hs. cbn.
  apply Hk. destruct (contract_write p l (f s) _ _ _ Hr Ho) as (v'' & Hr' & Ht' & Ho').
  split; [apply lookup_insert_eq|]. split; [done|]. exists v''. split; [by split|].
  by transitivity v'.
Qed.

Lemma wp_new {B} s (k : ref → prog B) w p v e Q :
  idle w v e →
  (∀ w' l, editing w' p l s v e → wp (k l) w' Q) →
  wp (prog_bind (perform (New s)) k) w Q.
Proof.
  intros [Hr He] Hk. unfold wp. rewrite run_bind. cbn. apply Hk.
  assert (w_heap w !! fresh (dom (w_heap w)) = None) as Hn
    by apply not_elem_of_dom, is_fresh.
  destruct (contract_new p _ s _ _ _ Hr Hn) as [Hr' Ho'].
  split; [apply lookup_insert_eq|]. split; [done|]. exists v. by split.
Qed.

Lemma wp_store {B} p l (k : unit → prog B) w s v e Q :
  editing w p l s v e →
  (∀ w', idle w' (set_sessions <[p := s]> v) e →
     editing w' p l s (set_sessions <[p := s]> v) e → wp (k tt) w' Q) →
  wp (prog_bind (await_ks (storeSession p l)) k) w Q.
Proof.
  intros (Hs & Ho & v' & [Hr He] & Ht) Hk. unfold wp. rewrite run_bind. cbn.
  destruct (contract_store p l s _ _ _ Hr Hs Ho) as (k' & -> & Hr' & Ho'). cbn.
  rewrite (agree_except_insert p s v v') in Hk by by apply ks_touch_agree.
  assert (idle (mkWorld (w_entropy w) (w_heap w) k') (set_sessions <[p := s]> v') e) by done.
  apply Hk; [done|]. split; [done|]. split; [done|]. by eexists.
Qed.

Lemma wp_entropy {B} (k : nat → prog B) w v e Q :
  idle w v e → (∀ w', idle w' v (S e) → wp (k e) w' Q) → wp (prog_bind (perform Entropy) k) w Q.
Proof.
  intros [Hr He] Hk. unfold wp. rewrite run_bind. cbn. rewrite He. apply Hk. split; [done|].
  cbn. congruence.
Qed.

Lemma wp_entropy_editing {B} (k : nat → prog B) w p l s v e Q :
  editing w p l s v e → (∀ w', editing w' p l s v (S e) → wp (k e) w' Q) →
  wp (prog_bind (perform Entropy) k) w Q.
Proof.
  intros (Hs & Ho & v' & [Hr He] & Ht) Hk. unfold wp. rewrite run_bind. cbn. rewrite He.
  apply Hk. split; [done|]. split; [done|]. exists v'. split; [|done]. split; [done|].
  cbn. congruence.
Qed.

(** What is left of an edit that is given up. *)
Lemma editing_idle w p l s v e :
  editing w p l s v e → ∃ v', idle w v' e ∧ ks_touch p v v'.
Proof. intros (_ & _ & ?). done. Qed.
End client.

(** ** Sequences of calls *)

(** What a client that keeps no session object alive can ask and see. *)
Inductive call :=
  | CGetIdentity | CSaveIdentity (kp : IdentityKeyPair)
  | CGetRegId | CSaveRegId (id : Z)
  | CLoadPreKey (id : Z) | CStorePreKey (key : PreKey) | CRemovePreKey (id : Z)
  | CLoadSignedPreKey (id : Z) | CStoreSignedPreKey (key : SignedPreKey)
  | CRemoveSignedPreKey (id : Z)
  | CLoadSession (p : jsstr) | CStoreSession (p : jsstr) (s : RatchetSession)
  | CDeleteSession (p : jsstr).

Inductive answer :=
  | ANone
  | AIdentity (o : option IdentityKeyPair)
  | ARegId (o : option Z)
  | APreKey (o : option PreKey)
  | ASignedPreKey (o : option SignedPreKey)
  | ASession (o : option RatchetSession).

Definition call_prog (c : call) : prog answer :=
  match c with
  | CGetIdentity => let! x := await_ks getIdentityKeyPair in ret (AIdentity x)
  | CSaveIdentity kp => await_ks (saveIdentityKeyPair kp) ;;; ret ANone
  | CGetRegId => let! x := await_ks getLocalRegistrationId in ret (ARegId x)
  | CSaveRegId id => await_ks (saveLocalRegistrationId id) ;;; ret ANone
  | CLoadPreKey id => let! x := await_ks (loadPreKey id) in ret (APreKey x)
  | CStorePreKey key => await_ks (storePreKey key) ;;; ret ANone
  | CRemovePreKey id => await_ks (removePreKey id) ;;; ret ANone
  | CLoadSignedPreKey id => let! x := await_ks (loadSignedPreKey id) in ret (ASignedPreKey x)
  | CStoreSignedPreKey key => await_ks (storeSignedPreKey key) ;;; ret ANone
  | CRemoveSignedPreKey id => await_ks (removeSignedPreKey id) ;;; ret ANone
  | CLoadSession p =>
      let! o := await_ks (loadSession p) in
      match o with
      | Some l => let! s := deref l in ret (ASession (Some s))
      | None => ret (ASession None)
      end
  | CStoreSession p s =>
      let! l := perform (New s) in await_ks (storeSession p l) ;;; ret ANone
  | CDeleteSession p => await_ks (deleteSession p) ;;; ret ANone
  end.

(** The same calls on the abstract view. *)
Definition call_spec (c : call) (v : ks_view) : answer * ks_view :=
  match c with
  | CGetIdentity => (AIdentity (v_identity v), v)
  | CSaveIdentity kp => (ANone, (spec_flat (saveIdentityKeyPair kp) v).2)
  | CGetRegId => (ARegId (v_regId v), v)
  | CSaveRegId id => (ANone, (spec_flat (saveLocalRegistrationId id) v).2)
  | CLoadPreKey id => (APreKey (v_preKeys v !! id), v)
  | CStorePreKey key => (ANone, set_preKeys <[pk_id key := key]> v)
  | CRemovePreKey id => (ANone, set_preKeys (delete id) v)
  | CLoadSignedPreKey id => (ASignedPreKey (v_signedPreKeys v !! id), v)
  | CStoreSignedPreKey key => (ANone, set_signedPreKeys <[pk_id (spk_key key) := key]> v)
  | CRemoveSignedPreKey id => (ANone, set_signedPreKeys (delete id) v)
  | CLoadSession p => (ASession (v_sessions v !! p), v)
  | CStoreSession p s => (ANone, set_sessions <[p := s]> v)
  | CDeleteSession p => (ANone, set_sessions (delete p) v)
  end.

Fixpoint calls_prog (cs : list call) : prog (list answer) :=
  match cs with
  | [] => ret []
  | c :: cs =>
      let! a := call_prog c in
      let! l := calls_prog cs in
      ret (a :: l)
  end.

Fixpoint calls_spec (cs : list call) (v : ks_view) : list answer * ks_view :=
  match cs with
  | [] => ([], v)
  | c :: cs =>
      let '(a, v) := call_spec c v in
      let '(l, v) := calls_spec cs v in
      (a :: l, v)
  end.

Section sequences.
Context {K : Type} `{KeyStoreContract K}.

Lemma call_refines c (w : world K) v e :
  idle w v e →
  wp (call_prog c) w (λ r w', r = Ok (call_spec c v).1 ∧ idle w' (call_spec c v).2 e).
Proof.
  intros Hi. destruct c; cbn [call_prog];
    try (eapply wp_flat; [exact Hi|done|reflexivity|]; intros w' Hw'; by split).
  - eapply wp_load; [exact Hi|]. destruct (v_sessions v !! p) as [s|] eqn:E; intros w'.
    + intros l Hw' He. eapply wp_deref; [exact He|]. cbn. by rewrite E.
    + cbn. by rewrite E.
  - eapply wp_new; [exact Hi|]. intros w' l He. eapply wp_store; [exact He|]. by intros.
Qed.

Lemma calls_refine cs (w : world K) v e :
  idle w v e →
  wp (calls_prog cs) w (λ r w', r = Ok (calls_spec cs v).1 ∧ idle w' (calls_spec cs v).2 e).
Proof.
  revert w v; induction cs as [|c cs IH]; intros w v Hi; cbn [calls_prog calls_spec]; [done|].
  apply wp_bind. eapply wp_mono; [by apply call_refines|].
  intros r w' [-> Hi']. revert Hi'. destruct (call_spec c v) as [a v']. intros Hi'.
  apply wp_bind. eapply wp_mono; [by apply IH|].
  intros r' w'' [-> Hi'']. revert Hi''. cbn [fst snd].
  by destruct (calls_spec cs v') as [l v''].
Qed.
End sequences.

(** ** Properties *)

(** C7: Both key stores implement the interface's abstract map: for every
    sequence of [KeyStore] method calls by a client that reads sessions by
    value, starting from empty stores, [IndexedDbKeyStore] and
    [InMemoryKeyStore] succeed on every call and return the answers of the
    abstract specification, hence the same answers. *)
Theorem implementations_refine_spec (cs : list call) (e : nat) :
  (run (calls_prog cs) (mkWorld e ∅ Idb.new)).2 = Ok (calls_spec cs empty_view).1 ∧
  (run (calls_prog cs) (mkWorld e ∅ InMemory.new)).2 = Ok (calls_spec cs empty_view).1.
Proof.
  split.
  - assert (idle (mkWorld e ∅ Idb.new) empty_view e) as Hi by (split; [apply Idb.idb_new_rep|done]).
    apply (calls_refine cs) in Hi. unfold wp in Hi. destruct (run _ _). apply Hi.
  - assert (idle (mkWorld e ∅ InMemory.new) empty_view e) as Hi
      by (split; [apply InMemory.mem_new_rep|done]).
    apply (calls_refine cs) in Hi. unfold wp in Hi. destruct (run _ _). apply Hi.
Qed.

(** IndexedDB contents survive the page. After any sequence of calls, if
    the page is closed (every object and the cached connection are lost) and
    reopened, a second sequence of calls is answered as if the two sequences
    had run one after the other on the abstract map. *)
Theorem IndexedDb_persists (cs cs' : list call) (e : nat) :
  let w := (run (calls_prog cs) (mkWorld e ∅ Idb.new)).1 in
  (run (calls_prog cs') (Idb.reload w)).2
    = Ok (calls_spec cs' (calls_spec cs empty_view).2).1.
Proof.
  intros w. assert (idle (mkWorld e ∅ Idb.new) empty_view e) as Hi
    by (split; [apply Idb.idb_new_rep|done]).
  apply (calls_refine cs) in Hi. unfold wp in Hi. subst w.
  destruct (run (calls_prog cs) _) as [w r]. destruct Hi as [_ [Hr He]]. cbn [fst].
  assert (idle (Idb.reload w) (calls_spec cs empty_view).2 e) as Hi
    by (split; [by apply Idb.reload_rep in Hr|done]).
  apply (calls_refine cs') in Hi. unfold wp in Hi. destruct (run (calls_prog cs') _). apply Hi.
Qed.

(** Load the session of [p], mutate the object, load it again. *)
Definition mutate_and_reload (p : jsstr) (s : RatchetSession) (f : RatchetSession → RatchetSession)
    : prog (option RatchetSession) :=
  let! l := perform (New s) in
  await_ks (storeSession p l) ;;;
  let! o := await_ks (loadSession p) in
  match o with
  | None => ret None
  | Some l1 =>
      modify l1 f ;;;
      let! o := await_ks (loadSession p) in
      match o with
      | None => ret None
      | Some l2 => let! s := deref l2 in ret (Some s)
      end
  end.

(** The two stores differ in aliasing. A session that is loaded and mutated
    but not stored back is seen unchanged by the next [loadSession] of the
    IndexedDB store, which clones, and seen mutated by that of the in-memory
    store, which hands out the stored object itself. *)
Theorem stores_differ_in_aliasing p s f e h :
  (run (mutate_and_reload p s f) (mkWorld e h Idb.new)).2 = Ok (Some s) ∧
  (run (mutate_and_reload p s f) (mkWorld e h InMemory.new)).2 = Ok (Some (f s)).
Proof.
  split.
  - enough (wp (mutate_and_reload p s f) (mkWorld e h Idb.new) (λ r _, r = Ok (Some s))) as Hw
      by (unfold wp in Hw; by destruct (run _ _)).
    unfold mutate_and_reload.
    eapply (wp_new _ _ _ p); [split; [apply Idb.idb_new_rep|done]|]. intros w l He.
    eapply wp_store; [exact He|]. clear He. intros w' Hi _.
    eapply wp_load; [exact Hi|]. cbn. rewrite lookup_insert_eq. intros w2 l2 _ He.
    eapply wp_modify; [exact He|]. clear He. intros w3 He.
    apply editing_idle in He as (v' & Hi' & Ht). apply isolated_touch in Ht as <-.
    eapply wp_load; [exact Hi'|]. cbn. rewrite lookup_insert_eq. intros w4 l4 _ He.
    by eapply wp_deref; [exact He|].
  - unfold mutate_and_reload. cbn. rewrite !lookup_insert_eq. cbn.
    do 2 (rewrite lookup_insert_eq; cbn). by rewrite lookup_insert_eq.
Qed.
