(* ===== verification/Session.v ===== *)
(** * session.ts: the session manager

    packages/core/src/encryption/session.ts: X3DH session establishment and the
    Double Ratchet. Every method of [SignalSessionManager] is a program over
    the key store; a session is an object on the heap, mutated field by field
    between awaits as the code does. The second half gives each method a
    functional description on session values and proves that the program,
    run against any store that honours the contract of [KeyStore], does that. *)

From S2P Require Import Prelude JsString Utf Encoding Json Platform Dynamic Types Async Crypto KeyStore.

(** ** Assignments to the fields of a session *)

Definition set_rootKey (x : jsstr) (s : RatchetSession) : RatchetSession :=
  mkSession x (sendChainKey s) (recvChainKey s) (sendCount s) (recvCount s) (prevSendCount s)
    (ourRatchetPublic s) (ourRatchetPrivate s) (theirRatchetPublic s) (skipped s)
    (isInitiator s) (pendingPreKeyMsg s).
Definition set_sendChainKey (x : option jsstr) (s : RatchetSession) : RatchetSession :=
  mkSession (rootKey s) x (recvChainKey s) (sendCount s) (recvCount s) (prevSendCount s)
    (ourRatchetPublic s) (ourRatchetPrivate s) (theirRatchetPublic s) (skipped s)
    (isInitiator s) (pendingPreKeyMsg s).
Definition set_recvChainKey (x : option jsstr) (s : RatchetSession) : RatchetSession :=
  mkSession (rootKey s) (sendChainKey s) x (sendCount s) (recvCount s) (prevSendCount s)
    (ourRatchetPublic s) (ourRatchetPrivate s) (theirRatchetPublic s) (skipped s)
    (isInitiator s) (pendingPreKeyMsg s).
Definition set_sendCount (x : Z) (s : RatchetSession) : RatchetSession :=
  mkSession (rootKey s) (sendChainKey s) (recvChainKey s) x (recvCount s) (prevSendCount s)
    (ourRatchetPublic s) (ourRatchetPrivate s) (theirRatchetPublic s) (skipped s)
    (isInitiator s) (pendingPreKeyMsg s).
Definition set_recvCount (x : json) (s : RatchetSession) : RatchetSession :=
  mkSession (rootKey s) (sendChainKey s) (recvChainKey s) (sendCount s) x (prevSendCount s)
    (ourRatchetPublic s) (ourRatchetPrivate s) (theirRatchetPublic s) (skipped s)
    (isInitiator s) (pendingPreKeyMsg s).
Definition set_prevSendCount (x : Z) (s : RatchetSession) : RatchetSession :=
  mkSession (rootKey s) (sendChainKey s) (recvChainKey s) (sendCount s) (recvCount s) x
    (ourRatchetPublic s) (ourRatchetPrivate s) (theirRatchetPublic s) (skipped s)
    (isInitiator s) (pendingPreKeyMsg s).
Definition set_ourRatchet (kp : DHKeyPair) (s : RatchetSession) : RatchetSession :=
  mkSession (rootKey s) (sendChainKey s) (recvChainKey s) (sendCount s) (recvCount s)
    (prevSendCount s) (publicKeyRaw kp) (privateKeyJwk kp) (theirRatchetPublic s) (skipped s)
    (isInitiator s) (pendingPreKeyMsg s).
Definition set_theirRatchetPublic (x : value) (s : RatchetSession) : RatchetSession :=
  mkSession (rootKey s) (sendChainKey s) (recvChainKey s) (sendCount s) (recvCount s)
    (prevSendCount s) (ourRatchetPublic s) (ourRatchetPrivate s) x (skipped s)
    (isInitiator s) (pendingPreKeyMsg s).
Definition set_skipped (x : gmap jsstr jsstr) (s : RatchetSession) : RatchetSession :=
  mkSession (rootKey s) (sendChainKey s) (recvChainKey s) (sendCount s) (recvCount s)
    (prevSendCount s) (ourRatchetPublic s) (ourRatchetPrivate s) (theirRatchetPublic s) x
    (isInitiator s) (pendingPreKeyMsg s).
Definition set_pendingPreKeyMsg (x : option PendingPreKeyMsg) (s : RatchetSession)
    : RatchetSession :=
  mkSession (rootKey s) (sendChainKey s) (recvChainKey s) (sendCount s) (recvCount s)
    (prevSendCount s) (ourRatchetPublic s) (ourRatchetPrivate s) (theirRatchetPublic s)
    (skipped s) (isInitiator s) x.

(** A nullable string in a condition: [null] and the empty string are false. *)
Definition nonempty (o : option jsstr) : option jsstr :=
  match o with Some (_ :: _) => o | _ => None end.

(** ** Wire formats *)

Record RatchetHeader := mkHeader { h_rk : jsstr; h_n : Z; h_pn : Z }.

Record WireMessage := mkWire { w_h : RatchetHeader; w_ct : jsstr; w_iv : jsstr }.

(** [PreKeyWireMessage extends WireMessage] *)
Record PreKeyWireMessage := mkPreKeyWire {
  p_ik : jsstr;
  p_ek : jsstr;
  p_spkId : Z;
  p_opkId : option Z;
  p_wire : WireMessage;
}.

Definition header_json (h : RatchetHeader) : json :=
  JObj [(js "rk", JStr (h_rk h)); (js "n", JNum (h_n h)); (js "pn", JNum (h_pn h))].

Definition wire_members (m : WireMessage) : list (jsstr * json) :=
  [(js "h", header_json (w_h m)); (js "ct", JStr (w_ct m)); (js "iv", JStr (w_iv m))].

Definition wire_json (m : WireMessage) : json := JObj (wire_members m).

Definition preKeyWire_json (m : PreKeyWireMessage) : json :=
  JObj ([(js "ik", JStr (p_ik m)); (js "ek", JStr (p_ek m)); (js "spkId", JNum (p_spkId m));
         (js "opkId", match p_opkId m with Some n => JNum n | None => JNull end)]
        ++ wire_members (p_wire m)).

(** What [msg.h] is destructured into. [parsed as WireMessage] checks nothing: a
    member that is missing or of another type is only met where it is used. *)
Record Received := mkReceived { r_rk : value; r_n : value; r_pn : value }.

Definition read_header (msg : json) : result Received :=
  h ← get_prop (js "h") (Some msg);
  rk ← get_prop (js "rk") h;
  n ← get_prop (js "n") h;
  pn ← get_prop (js "pn") h;
  mret (mkReceived rk n pn).

(** A key store asked for a key that is no integer, which nothing is stored
    under: the exception it rejects with, if it does (IndexedDB does for a value
    that is no key at all). *)
Class OddKeys := odd_key : value → option js_error.

Definition MAX_SKIP : Z := 500.

Section manager.
Context `{SubtleCrypto} {numbers : Numbers} {odd_keys : OddKeys}.

(** ** initSessionFromBundle *)

Definition initSessionFromBundle (peerId : jsstr) (bundle : PreKeyBundle) : prog unit :=
  let spk := b_signedPreKey bundle in
  let! valid := await (Ok (verifyPreKey (b_identityKey bundle) (pspk_publicKey spk)
                             (pspk_signature spk))) in
  if negb valid then
    throw (Error_ (js "[SignalSession] Invalid signed pre-key signature from " ++ peerId))
  else
  let! idKP := await_ks getIdentityKeyPair in
  match idKP with
  | None => throw (Error_ (js "[SignalSession] No local identity key — call generateIdentityKeyPair() first"))
  | Some idKP =>
    let! ek := await_call generateDHKeyPair in
    let! SK := await (x3dh (ik_privateKey idKP) (privateKeyJwk ek) (b_identityKey bundle)
                        (pspk_publicKey spk) (ppk_publicKey <$> b_oneTimePreKey bundle)) in
    let! ratchetKP := await_call generateDHKeyPair in
    let! dhOut := await (dh (privateKeyJwk ratchetKP) (pspk_publicKey spk)) in
    let! (newRootKey, chainKey) := await (kdfRootKey (bufToHex SK) dhOut) in
    let! session := perform (New (mkSession newRootKey (Some chainKey) None 0 (JNum 0) 0
      (publicKeyRaw ratchetKP) (privateKeyJwk ratchetKP) (Some (JStr (pspk_publicKey spk))) ∅ true
      (Some (mkPending (ik_publicKey idKP) (publicKeyRaw ek) (pspk_id spk)
               (ppk_id <$> b_oneTimePreKey bundle))))) in
    await_ks (storeSession peerId session) ;;;
    ret tt
  end.

(** ** encrypt *)

Definition is_first (s : RatchetSession) : option PendingPreKeyMsg :=
  if isInitiator s && (sendCount s =? 0) then pendingPreKeyMsg s else None.

Definition encrypt (peerId plaintext : jsstr) : prog EncryptedEnvelope :=
  let! session := await_ks (loadSession peerId) in
  match session with
  | None => throw (Error_ (js "[SignalSession] No session for " ++ peerId
                           ++ js " — call initSessionFromBundle() first"))
  | Some session =>
    let! rid := await_ks getLocalRegistrationId in
    let regId := nullish 0 rid in
    let! s := deref session in
    match nonempty (sendChainKey s) with
    | None => throw (Error_ (js "[SignalSession] Session has no sending chain key"))
    | Some sendChain =>
      let! (messageKey, nextChainKey) := await (kdfChainKey sendChain) in
      modify session (set_sendChainKey (Some nextChainKey)) ;;;
      let pt := text_encode plaintext in
      let! (ciphertext, iv) := await_call (aesGcmEncrypt messageKey pt) in
      let! s := deref session in
      let m := mkWire (mkHeader (ourRatchetPublic s) (sendCount s) (prevSendCount s))
                 ciphertext iv in
      let! (wirePayload, type) :=
        match is_first s with
        | Some pkInfo =>
            modify session (set_pendingPreKeyMsg None) ;;;
            ret (preKeyWire_json (mkPreKeyWire (pp_identityKey pkInfo) (pp_ephemeralKey pkInfo)
                   (pp_spkId pkInfo) (pp_opkId pkInfo) m), 1)
        | None => ret (wire_json m, 2)
        end in
      modify session (λ s, set_sendCount (to_double (sendCount s + 1)) s) ;;;
      await_ks (storeSession peerId session) ;;;
      let! ciphertext := lift (btoa (stringify wirePayload)) in
      ret (mkEnvelope type ciphertext regId)
    end
  end.

(** ** skipMessageKeys *)

(** [`${a}:${b}`] *)
Definition skipped_name (their n : value) : result jsstr :=
  a ← value_toString their;
  b ← value_toString n;
  mret (a ++ [58] ++ b).

(** One round of the loop: file the message key and advance the chain. *)
Definition skip_store (name : jsstr) (messageKey : list Z) (nextChainKey : jsstr) (count : json)
    (s : RatchetSession) : RatchetSession :=
  set_recvCount count (set_recvChainKey (Some nextChainKey)
    (set_skipped (<[name := bufToHex messageKey]> (skipped s)) s)).

(** What a run reports that has used up its rounds: a loop still running. *)
Definition out_of_fuel : js_error := Error_ (js "out of fuel").

(** [kdfChainKey(session.recvChainKey)] *)
Definition kdfRecvChain (s : RatchetSession) : result (list Z * jsstr) :=
  chain ← throw_none TypeError_ (recvChainKey s); kdfChainKey chain.

Fixpoint skip_loop (fuel : nat) (session : ref) (target : value) : prog unit :=
  let! s := deref session in
  let! behind := lift (js_less (Some (recvCount s)) target) in
  if behind : bool then
    match fuel with
    | O => throw out_of_fuel
    | S fuel =>
        let! (messageKey, nextChainKey) := await (kdfRecvChain s) in
        let! s := deref session in
        let! name := lift (skipped_name (theirRatchetPublic s) (Some (recvCount s))) in
        let! count := lift (js_increment (recvCount s)) in
        modify session (skip_store name messageKey nextChainKey count) ;;;
        skip_loop fuel session target
    end
  else ret tt.

Definition too_many : js_error :=
  Error_ (js "[SignalSession] Too many skipped messages (max " ++ js_toString MAX_SKIP ++ js ")").

(** The loop is given [fuel] rounds. *)
Definition skipMessageKeys (fuel : nat) (session : ref) (target : value) : prog unit :=
  let! s := deref session in
  match nonempty (recvChainKey s) with
  | Some _ =>
      if truthy (theirRatchetPublic s) then
        let! limit := lift (js_plus (Some (recvCount s)) MAX_SKIP) in
        let! beyond := lift (js_less (Some limit) target) in
        if beyond : bool then throw too_many else skip_loop fuel session target
      else ret tt
  | None => ret tt
  end.

(** ** initSessionFromPreKey *)

(** [store.loadPreKey(id)] and [store.loadSignedPreKey(id)] of an id that is cast. *)
Definition load_key {A} (load : Z → ks_op (option A)) (id : value) : prog (option A) :=
  match key_number id with
  | Some id => await_ks (load id)
  | None => await (match odd_key id with Some er => Throw er | None => Ok None end)
  end.

(** The text of a member of a message. *)
Definition member_text (k : jsstr) (msg : json) : result jsstr := v ← get_prop k (Some msg); value_toString v.

Definition initSessionFromPreKey (peerId : jsstr) (msg : json) : prog ref :=
  let! idKP := await_ks getIdentityKeyPair in
  match idKP with
  | None => throw (Error_ (js "[SignalSession] No local identity key"))
  | Some idKP =>
    let! spkId := lift (get_prop (js "spkId") (Some msg)) in
    let! spk := load_key loadSignedPreKey spkId in
    match spk with
    | None =>
        let! id := lift (value_toString spkId) in
        throw (Error_ (js "[SignalSession] Signed pre-key " ++ id ++ js " not found"))
    | Some spk =>
      let! opkId := lift (get_prop (js "opkId") (Some msg)) in
      let! opkPrivate :=
        match opkId with
        | Some JNull => ret None
        | _ =>
            let! opk := load_key loadPreKey opkId in
            match opk, key_number opkId with
            | Some opk, Some id => await_ks (removePreKey id) ;;; ret (Some (pk_privateKey opk))
            | _, _ => ret None
            end
        end in
      let spkPrivate := pk_privateKey (spk_key spk) in
      let! SK := await (x3dhRespond_of (ik_privateKey idKP) spkPrivate opkPrivate
                          (member_text (js "ik") msg) (member_text (js "ek") msg)) in
      let! h := lift (get_prop (js "h") (Some msg)) in
      let! rk := lift (get_prop (js "rk") h) in
      let! dhOut1 := await (dh_of spkPrivate (value_toString rk)) in
      let! (rk1, ckr) := await (kdfRootKey (bufToHex SK) dhOut1) in
      let! bobRatchetKP := await_call generateDHKeyPair in
      let! dhOut2 := await (dh_of (privateKeyJwk bobRatchetKP) (value_toString rk)) in
      let! (rk2, cks) := await (kdfRootKey rk1 dhOut2) in
      let! session := perform (New (mkSession rk2 (Some cks) (Some ckr) 0 (JNum 0) 0
        (publicKeyRaw bobRatchetKP) (privateKeyJwk bobRatchetKP) rk ∅ false None)) in
      await_ks (storeSession peerId session) ;;;
      ret session
    end
  end.

(** ** decrypt *)

(** [session.theirRatchetPublic !== theirRatchetKey]. An array or an object is
    equal to itself only: to the key of the message the session was [made] from. *)
Definition their_key_changed (made : bool) (their rk : value) : bool :=
  negb (match rk with Some (JArr _) | Some (JObj _) => made | _ => strict_eq their rk end).

(** The DH ratchet step, when their ratchet key changed. *)
Definition dh_ratchet (fuel : nat) (session : ref) (theirRatchetKey prevCount : value) : prog unit :=
  await_call (skipMessageKeys fuel session prevCount) ;;;
  let! s := deref session in
  let! dhOut1 := await (dh_of (ourRatchetPrivate s) (value_toString theirRatchetKey)) in
  let! s := deref session in
  let! (newRootKey1, chainKey1) := await (kdfRootKey (rootKey s) dhOut1) in
  modify session (λ s, set_recvCount (JNum 0) (set_rootKey newRootKey1
                         (set_recvChainKey (Some chainKey1) s))) ;;;
  let! newKP := await_call generateDHKeyPair in
  let! dhOut2 := await (dh_of (privateKeyJwk newKP) (value_toString theirRatchetKey)) in
  let! s := deref session in
  let! (newRootKey2, chainKey2) := await (kdfRootKey (rootKey s) dhOut2) in
  modify session (λ s, set_theirRatchetPublic theirRatchetKey (set_ourRatchet newKP
    (set_sendCount 0 (set_prevSendCount (sendCount s) (set_rootKey newRootKey2
      (set_sendChainKey (Some chainKey2) s)))))) ;;;
  ret tt.

(** Retrieve the message key: a saved one, or the next one of the chain. *)
Definition message_key (fuel : nat) (session : ref) (theirRatchetKey msgNum : value) : prog (list Z) :=
  let! skippedKey := lift (skipped_name theirRatchetKey msgNum) in
  let! s := deref session in
  match skipped s !! skippedKey with
  | Some hex =>
      modify session (λ s, set_skipped (delete skippedKey (skipped s)) s) ;;;
      ret (hexToBuf hex)
  | None =>
      await_call (skipMessageKeys fuel session msgNum) ;;;
      let! s := deref session in
      match nonempty (recvChainKey s) with
      | None => throw (Error_ (js "[SignalSession] No receiving chain key"))
      | Some chain =>
          let! (mk, nextChainKey) := await (kdfChainKey chain) in
          modify session (set_recvChainKey (Some nextChainKey)) ;;;
          let! count := lift (js_plus msgNum 1) in
          modify session (set_recvCount count) ;;;
          ret mk
      end
  end.

(** [aesGcmDecrypt(messageKey, msg.ct, msg.iv)] *)
Definition open_wire (messageKey : list Z) (msg : json) : result (list Z) :=
  aesGcmDecrypt_of messageKey (member_text (js "ct") msg) (member_text (js "iv") msg).

(** The part of [decrypt] after the session is found. *)
Definition decrypt_with (fuel : nat) (made : bool) (peerId : jsstr) (session : ref) (msg : json) : prog jsstr :=
  let! header := lift (read_header msg) in
  let 'mkReceived theirRatchetKey msgNum prevCount := header in
  let! s := deref session in
  (if their_key_changed made (theirRatchetPublic s) theirRatchetKey
   then dh_ratchet fuel session theirRatchetKey prevCount else ret tt) ;;;
  let! messageKey := message_key fuel session theirRatchetKey msgNum in
  await_ks (storeSession peerId session) ;;;
  let! pt := await (open_wire messageKey msg) in
  ret (text_decode pt).

Definition decrypt (fuel : nat) (peerId : jsstr) (envelope : EncryptedEnvelope) : prog jsstr :=
  let! parsed := lift (text ← atob (env_ciphertext envelope); parse_json text) in
  if env_type envelope =? 1 then
    let! session := await_call (initSessionFromPreKey peerId parsed) in
    decrypt_with fuel true peerId session parsed
  else
    let! session := await_ks (loadSession peerId) in
    match session with
    | None => throw (Error_ (js "[SignalSession] No session for " ++ peerId))
    | Some session => decrypt_with fuel false peerId session parsed
    end.
End manager.

(** ** The methods as functions on session values *)

Section functional.
Context `{SubtleCrypto} {numbers : Numbers} {odd_keys : OddKeys}.

(** The loop of [skipMessageKeys]. *)
Fixpoint skip_rounds (fuel : nat) (s : RatchetSession) (target : value) : result RatchetSession :=
  behind ← js_less (Some (recvCount s)) target;
  if behind : bool then
    match fuel with
    | O => Throw out_of_fuel
    | S fuel =>
        '(mk, ck) ← kdfRecvChain s;
        name ← skipped_name (theirRatchetPublic s) (Some (recvCount s));
        count ← js_increment (recvCount s);
        skip_rounds fuel (skip_store name mk ck count s) target
    end
  else Ok s.

Definition skip_value (fuel : nat) (s : RatchetSession) (target : value) : result RatchetSession :=
  match nonempty (recvChainKey s) with
  | Some _ =>
      if truthy (theirRatchetPublic s) then
        limit ← js_plus (Some (recvCount s)) MAX_SKIP;
        beyond ← js_less (Some limit) target;
        if beyond : bool then Throw too_many else skip_rounds fuel s target
      else Ok s
  | None => Ok s
  end.

(** The session after a DH ratchet step that draws the new pair [kp]. *)
Definition ratchet_value (fuel : nat) (s : RatchetSession) (rk pn : value) (kp : DHKeyPair)
    : result RatchetSession :=
  s ← skip_value fuel s pn;
  dhOut1 ← dh_of (ourRatchetPrivate s) (value_toString rk);
  '(rk1, ck1) ← kdfRootKey (rootKey s) dhOut1;
  let s := set_recvCount (JNum 0) (set_rootKey rk1 (set_recvChainKey (Some ck1) s)) in
  dhOut2 ← dh_of (privateKeyJwk kp) (value_toString rk);
  '(rk2, ck2) ← kdfRootKey rk1 dhOut2;
  mret (set_theirRatchetPublic rk (set_ourRatchet kp
    (set_sendCount 0 (set_prevSendCount (sendCount s) (set_rootKey rk2
      (set_sendChainKey (Some ck2) s)))))).

Definition message_key_value (fuel : nat) (s : RatchetSession) (rk n : value)
    : result (RatchetSession * list Z) :=
  name ← skipped_name rk n;
  match skipped s !! name with
  | Some hex => Ok (set_skipped (delete name (skipped s)) s, hexToBuf hex)
  | None =>
      s ← skip_value fuel s n;
      match nonempty (recvChainKey s) with
      | None => Throw (Error_ (js "[SignalSession] No receiving chain key"))
      | Some chain =>
          '(mk, ck) ← kdfChainKey chain;
          count ← js_plus n 1;
          mret (set_recvCount count (set_recvChainKey (Some ck) s), mk)
      end
  end.

(** What [decrypt] does to a session before it stores it: the new session,
    the message key and the next draw. *)
Definition receive_value (fuel : nat) (made : bool) (s : RatchetSession) (h : Received) (e : nat)
    : result (RatchetSession * list Z * nat) :=
  if their_key_changed made (theirRatchetPublic s) (r_rk h) then
    s ← ratchet_value fuel s (r_rk h) (r_pn h) (dh_pair e);
    '(s, mk) ← message_key_value fuel s (r_rk h) (r_n h); mret (s, mk, S e)
  else
    '(s, mk) ← message_key_value fuel s (r_rk h) (r_n h); mret (s, mk, e).

Definition open_message (mk : list Z) (msg : json) : result jsstr := text_decode <$> open_wire mk msg.

(** [encrypt]: the session to store and the message it makes. *)
Definition send_value (s : RatchetSession) (text : jsstr) (e : nat)
    : result (RatchetSession * (json * Z)) :=
  match nonempty (sendChainKey s) with
  | None => Throw (Error_ (js "[SignalSession] Session has no sending chain key"))
  | Some chain =>
      '(mk, ck) ← kdfChainKey chain;
      key ← throw_none DataError (importRaw AES_encrypt (js_slice mk 0 32));
      ct ← throw_none OperationError (encryptAes (randomBytes e 12) key (text_encode text));
      let m := mkWire (mkHeader (ourRatchetPublic s) (sendCount s) (prevSendCount s))
                 (bufToBase64 ct) (bufToBase64 (randomBytes e 12)) in
      let s' := set_sendCount (to_double (sendCount s + 1)) (set_sendChainKey (Some ck) s) in
      mret match is_first s with
           | Some pk =>
               (set_pendingPreKeyMsg None s',
                (preKeyWire_json (mkPreKeyWire (pp_identityKey pk) (pp_ephemeralKey pk)
                   (pp_spkId pk) (pp_opkId pk) m), 1))
           | None => (s', (wire_json m, 2))
           end
  end.

(** [initSessionFromBundle], after the checks, with draws [e] and [S e]. *)
Definition initiator_value (ik : IdentityKeyPair) (bundle : PreKeyBundle) (e : nat)
    : result RatchetSession :=
  let spk := b_signedPreKey bundle in
  SK ← x3dh (ik_privateKey ik) (privateKeyJwk (dh_pair e)) (b_identityKey bundle)
         (pspk_publicKey spk) (ppk_publicKey <$> b_oneTimePreKey bundle);
  dhOut ← dh (privateKeyJwk (dh_pair (S e))) (pspk_publicKey spk);
  '(rk, ck) ← kdfRootKey (bufToHex SK) dhOut;
  mret (mkSession rk (Some ck) None 0 (JNum 0) 0 (publicKeyRaw (dh_pair (S e)))
    (privateKeyJwk (dh_pair (S e))) (Some (JStr (pspk_publicKey spk))) ∅ true
    (Some (mkPending (ik_publicKey ik) (publicKeyRaw (dh_pair e)) (pspk_id spk)
             (ppk_id <$> b_oneTimePreKey bundle)))).

(** [initSessionFromPreKey], once the keys are loaded. *)
Definition responder_value (ik : IdentityKeyPair) (spkPrivate : jsstr) (opkPrivate : option jsstr)
    (msg : json) (e : nat) : result RatchetSession :=
  SK ← x3dhRespond_of (ik_privateKey ik) spkPrivate opkPrivate (member_text (js "ik") msg) (member_text (js "ek") msg);
  h ← get_prop (js "h") (Some msg);
  rk ← get_prop (js "rk") h;
  dhOut1 ← dh_of spkPrivate (value_toString rk);
  '(rk1, ckr) ← kdfRootKey (bufToHex SK) dhOut1;
  dhOut2 ← dh_of (privateKeyJwk (dh_pair e)) (value_toString rk);
  '(rk2, cks) ← kdfRootKey rk1 dhOut2;
  mret (mkSession rk2 (Some cks) (Some ckr) 0 (JNum 0) 0 (publicKeyRaw (dh_pair e))
    (privateKeyJwk (dh_pair e)) rk ∅ false None).

(** A key that is looked up by a value. *)
Definition keyed {A} (m : gmap Z A) (id : value) : result (option A) :=
  match key_number id with
  | Some id => Ok (m !! id)
  | None => match odd_key id with Some er => Throw er | None => Ok None end
  end.
End functional.

(** ** The programs compute these functions *)

Section refinement.
Context `{SC : SubtleCrypto} {numbers : Numbers} {odd_keys : OddKeys} {K : Type} `{KeyStoreContract K}.

(** The outcome of a block that edits a session. *)
Definition edits {A} (p : jsstr) (l : ref) (v : ks_view) (e' : nat)
    (out : result (RatchetSession * A)) (r : result A) (w : world K) : Prop :=
  match out with
  | Ok (s', a) => r = Ok a ∧ editing w p l s' v e'
  | Throw er => r = Throw er ∧ ∃ s' e'', editing w p l s' v e''
  end.

(** Reduce the binds of a functional description. *)
Ltac rcbn :=
  cbn [mbind result_bind mret result_ret fmap result_fmap edits
       rootKey set_recvCount set_rootKey set_recvChainKey].

Lemma skip_loop_runs n target w p l s v e :
  editing w p l s v e →
  wp (skip_loop n l target) w (edits p l v e ((λ s, (s, tt)) <$> skip_rounds n s target)).
Proof.
  revert w s; induction n as [|n IH]; intros w s He; cbn [skip_loop skip_rounds];
    (eapply wp_deref; [exact He|]); apply wp_lift;
    (destruct (js_less (Some (recvCount s)) target) as [[]|er]; rcbn; [|by split|by eauto]); [by split; eauto|].
  apply wp_await. destruct (kdfRecvChain s) as [[mk ck]|er]; rcbn; [|by eauto].
  eapply wp_deref; [exact He|]. apply wp_lift.
  destruct (skipped_name _ _) as [name|er]; rcbn; [|by eauto]. apply wp_lift.
  destruct (js_increment _) as [count|er]; rcbn; [|by eauto].
  eapply wp_modify; [exact He|]. intros w' He'. by apply IH.
Qed.

Lemma skipMessageKeys_runs fuel target w p l s v e :
  editing w p l s v e →
  wp (skipMessageKeys fuel l target) w (edits p l v e ((λ s, (s, tt)) <$> skip_value fuel s target)).
Proof.
  intros He. unfold skipMessageKeys, skip_value. eapply wp_deref; [exact He|].
  destruct (nonempty (recvChainKey s)); [|by split].
  destruct (truthy (theirRatchetPublic s)); [|by split]. apply wp_lift.
  destruct (js_plus _ _) as [limit|er]; rcbn; [|by eauto]. apply wp_lift.
  destruct (js_less _ _) as [[]|er]; rcbn; [by split; eauto| |by eauto]. by apply skip_loop_runs.
Qed.

Lemma skip_call {B} fuel target (k : unit → prog B) w p l s v e Q :
  editing w p l s v e →
  match skip_value fuel s target with
  | Ok s' => ∀ w', editing w' p l s' v e → wp (k tt) w' Q
  | Throw er => ∀ w' s' e', editing w' p l s' v e' → Q (Throw er) w'
  end →
  wp (prog_bind (await_call (skipMessageKeys fuel l target)) k) w Q.
Proof.
  intros He Hk. apply wp_call. eapply wp_mono; [by apply skipMessageKeys_runs|].
  intros r w' Hw'. destruct (skip_value fuel s target) as [s'|er]; cbn in Hw'.
  - destruct Hw' as [-> ?]. by apply Hk.
  - destruct Hw' as [-> (? & ? & ?)]. by eapply Hk.
Qed.

Lemma generate_editing {B} (k : DHKeyPair → prog B) w p l s v e Q :
  editing w p l s v e →
  (∀ w', editing w' p l s v (S e) → wp (k (dh_pair e)) w' Q) →
  wp (prog_bind (await_call generateDHKeyPair) k) w Q.
Proof.
  intros He Hk. apply wp_call. eapply wp_entropy_editing; [exact He|].
  intros w' He'. by apply Hk.
Qed.

Lemma generate_idle {B} (k : DHKeyPair → prog B) w v e Q :
  idle w v e → (∀ w', idle w' v (S e) → wp (k (dh_pair e)) w' Q) →
  wp (prog_bind (await_call generateDHKeyPair) k) w Q.
Proof.
  intros He Hk. apply wp_call. eapply wp_entropy; [exact He|].
  intros w' He'. by apply Hk.
Qed.

Lemma dh_ratchet_runs fuel rk pn w p l s v e :
  editing w p l s v e →
  wp (dh_ratchet fuel l rk pn) w
    (edits p l v (S e) ((λ s, (s, tt)) <$> ratchet_value fuel s rk pn (dh_pair e))).
Proof.
  intros He. unfold dh_ratchet, ratchet_value.
  eapply skip_call; [exact He|]. destruct (skip_value fuel s pn) as [s1|er]; rcbn; [|by eauto].
  intros w1 He1. eapply wp_deref; [exact He1|]. apply wp_await.
  destruct (dh_of (ourRatchetPrivate s1) _) as [d1|er]; rcbn; [|by eauto].
  eapply wp_deref; [exact He1|]. apply wp_await.
  destruct (kdfRootKey (rootKey s1) d1) as [[rk1 ck1]|er]; rcbn; [|by eauto].
  eapply wp_modify; [exact He1|]. intros w2 He2.
  eapply generate_editing; [exact He2|]. intros w3 He3. apply wp_await.
  destruct (dh_of (privateKeyJwk (dh_pair e)) _) as [d2|er]; rcbn; [|by eauto].
  eapply wp_deref; [exact He3|]. apply wp_await. rcbn.
  destruct (kdfRootKey rk1 d2) as [[rk2 ck2]|er]; rcbn; [|by eauto].
  eapply wp_modify; [exact He3|]. by intros w4 He4.
Qed.

Lemma message_key_runs fuel rk n w p l s v e :
  editing w p l s v e →
  wp (message_key fuel l rk n) w (edits p l v e (message_key_value fuel s rk n)).
Proof.
  intros He. unfold message_key, message_key_value. apply wp_lift.
  destruct (skipped_name rk n) as [name|er]; rcbn; [|by eauto]. eapply wp_deref; [exact He|].
  destruct (skipped s !! _) as [hex|].
  - eapply wp_modify; [exact He|]. by intros w' He'.
  - eapply skip_call; [exact He|]. destruct (skip_value fuel s n) as [s1|er]; rcbn; [|by eauto].
    intros w1 He1. eapply wp_deref; [exact He1|].
    destruct (nonempty (recvChainKey s1)) as [chain|]; [|by split; eauto].
    apply wp_await. destruct (kdfChainKey chain) as [[mk ck]|er]; rcbn; [|by eauto].
    eapply wp_modify; [exact He1|]. intros w2 He2. apply wp_lift.
    destruct (js_plus n 1) as [count|er]; rcbn; [|by eauto].
    eapply wp_modify; [exact He2|]. by intros w3 He3.
Qed.

(** What [decrypt] leaves: a stored session and the opened message, or an
    exception and an untouched store, up to an edit that was given up. *)
Definition decrypted (p : jsstr) (v : ks_view) (msg : json)
    (out : result (RatchetSession * list Z * nat)) (r : result jsstr) (w : world K) : Prop :=
  match out with
  | Ok (s', mk, e') => r = open_message mk msg ∧ idle w (set_sessions <[p := s']> v) e'
  | Throw er => r = Throw er ∧ ∃ v' e', idle w v' e' ∧ ks_touch p v v'
  end.

(** The header is read first. *)
Definition received (fuel : nat) (made : bool) (s : RatchetSession) (msg : json) (e : nat)
    : result (RatchetSession * list Z * nat) :=
  h ← read_header msg; receive_value fuel made s h e.

Lemma decrypt_with_runs fuel made msg w p l s v e :
  editing w p l s v e →
  wp (decrypt_with fuel made p l msg) w (decrypted p v msg (received fuel made s msg e)).
Proof.
  intros He. unfold decrypt_with, received. apply wp_lift.
  assert (∀ er w s e, editing w p l s v e → decrypted p v msg (Throw er) (Throw er) w) as Hthrow.
  { intros er w' s' e' He'. split; [done|]. apply editing_idle in He' as (v' & ? & ?). eauto. }
  destruct (read_header msg) as [[rk n pn]|er]; rcbn; [|by eapply Hthrow].
  unfold receive_value. cbn [r_rk r_n r_pn].
  assert (∀ s e w, editing w p l s v e →
    wp (let! messageKey := message_key fuel l rk n in
        await_ks (storeSession p l) ;;;
        let! pt := await (open_wire messageKey msg) in ret (text_decode pt)) w
      (decrypted p v msg ('(s, mk) ← message_key_value fuel s rk n; mret (s, mk, e)))) as Htail.
  { clear s e w He. intros s e w He. apply wp_bind.
    eapply wp_mono; [by apply message_key_runs|]. intros r w' Hw'.
    destruct (message_key_value fuel s rk n) as [[s' mk]|er]; cbn in Hw' |- *.
    - destruct Hw' as [-> He']. eapply wp_store; [exact He'|]. intros w2 Hi _.
      apply wp_await. unfold decrypted. rcbn. unfold open_message. by destruct (open_wire mk msg).
    - destruct Hw' as [-> (s' & e'' & He')]. by eapply Hthrow. }
  eapply wp_deref; [exact He|]. destruct (their_key_changed _ _ _).
  - apply wp_bind. eapply wp_mono; [by apply dh_ratchet_runs|]. intros r w' Hw'.
    destruct (ratchet_value fuel s rk pn (dh_pair e)) as [s'|er]; cbn in Hw' |- *.
    + destruct Hw' as [-> He']. by apply Htail.
    + destruct Hw' as [-> (s' & e'' & He')]. by eapply Hthrow.
  - by apply wp_bind, Htail.
Qed.

(** What [encrypt] leaves. *)
Definition encrypted (p : jsstr) (v : ks_view) (e : nat)
    (out : result (RatchetSession * (json * Z))) (r : result EncryptedEnvelope) (w : world K)
    : Prop :=
  match out with
  | Ok (s', (payload, ty)) =>
      r = (λ c, mkEnvelope ty c (nullish 0 (v_regId v))) <$> btoa (stringify payload) ∧
      idle w (set_sessions <[p := s']> v) (S e)
  | Throw er => r = Throw er ∧ ∃ v' e', idle w v' e' ∧ ks_touch p v v'
  end.

Definition no_session (p : jsstr) : js_error :=
  Error_ (js "[SignalSession] No session for " ++ p ++ js " — call initSessionFromBundle() first").

Lemma aesGcmEncrypt_call {B} mk pt (k : jsstr * jsstr → prog B) w p l s v e Q :
  editing w p l s v e →
  match (key ← throw_none DataError (importRaw AES_encrypt (js_slice mk 0 32));
         throw_none OperationError (encryptAes (randomBytes e 12) key pt)) with
  | Ok ct => ∀ w', editing w' p l s v (S e) →
      wp (k (bufToBase64 ct, bufToBase64 (randomBytes e 12))) w' Q
  | Throw er => ∀ w' e', editing w' p l s v e' → Q (Throw er) w'
  end →
  wp (prog_bind (await_call (aesGcmEncrypt mk pt)) k) w Q.
Proof.
  intros He Hk. apply wp_call. unfold aesGcmEncrypt. apply wp_await. revert Hk.
  destruct (throw_none DataError _) as [key|er]; rcbn; [|by eauto].
  intros Hk. eapply wp_entropy_editing; [exact He|]. intros w' He'. apply wp_await. revert Hk.
  destruct (throw_none OperationError _) as [ct|er]; intros Hk; [by apply Hk|by eauto].
Qed.

Lemma encrypt_runs p text w v e :
  idle w v e →
  wp (encrypt p text) w
    (encrypted p v e match v_sessions v !! p with
                     | Some s => send_value s text e
                     | None => Throw (no_session p)
                     end).
Proof.
  intros Hi. unfold encrypt, send_value. eapply wp_load; [exact Hi|].
  destruct (v_sessions v !! p) as [s|]; intros w0.
  2: { intros Hi0. split; [done|]. exists v, e. by split. }
  intros l _ He. eapply wp_regId; [exact He|]. clear He w0. intros w0 He.
  assert (∀ er w s' e', editing w p l s' v e' → encrypted p v e (Throw er) (Throw er) w) as Hthrow.
  { intros er w1 s' e' He'. split; [done|]. apply editing_idle in He' as (v' & ? & ?). eauto. }
  eapply wp_deref; [exact He|].
  destruct (nonempty (sendChainKey s)) as [chain|]; [|by eapply Hthrow].
  apply wp_await. destruct (kdfChainKey chain) as [[mk ck]|er]; rcbn; [|by eapply Hthrow].
  eapply wp_modify; [exact He|]. clear He w0. intros w0 He.
  eapply aesGcmEncrypt_call; [exact He|].
  destruct (throw_none DataError _) as [key|er]; rcbn; [|intros; by eapply Hthrow].
  destruct (throw_none OperationError _) as [ct|er]; rcbn; [|intros; by eapply Hthrow].
  clear He w0. intros w0 He. eapply wp_deref; [exact He|].
  change (is_first (set_sendChainKey (Some ck) s)) with (is_first s).
  assert (∀ w s' payload, editing w p l s' v (S e) →
    wp (modify l (λ s, set_sendCount (to_double (sendCount s + 1)) s) ;;;
        await_ks (storeSession p l) ;;;
        let! ciphertext := lift (btoa (stringify payload.1)) in
        ret (mkEnvelope payload.2 ciphertext (nullish 0 (v_regId v)))) w
      (encrypted p v e (Ok (set_sendCount (to_double (sendCount s' + 1)) s', payload)))) as Htail.
  { clear w He w0 Hi. intros w s' [payload ty] He.
    eapply wp_modify; [exact He|]. clear He. intros w1 He.
    eapply wp_store; [exact He|]. intros w2 Hi _. apply wp_lift. cbn [fst snd encrypted].
    destruct (btoa (stringify payload)) eqn:E; (split; [cbn; by rewrite ?E|done]). }
  destruct (is_first s) as [pk|]; apply wp_bind.
  - eapply wp_modify; [exact He|]. clear He w0. intros w0 He.
    exact (Htail _ _ (_, _) He).
  - exact (Htail _ _ (_, _) He).
Qed.

(** What [initSessionFromBundle] leaves. *)
Lemma initSessionFromBundle_runs p bundle w v e :
  idle w v e →
  wp (initSessionFromBundle p bundle) w (λ r w',
    match (if verifyPreKey (b_identityKey bundle) (pspk_publicKey (b_signedPreKey bundle))
                (pspk_signature (b_signedPreKey bundle))
           then match v_identity v with
                | Some ik => initiator_value ik bundle e
                | None => Throw (Error_ (js "[SignalSession] No local identity key — call generateIdentityKeyPair() first"))
                end
           else Throw (Error_ (js "[SignalSession] Invalid signed pre-key signature from " ++ p)))
    with
    | Ok s => r = Ok tt ∧ idle w' (set_sessions <[p := s]> v) (S (S e))
    | Throw er => r = Throw er ∧ ∃ e', idle w' v e'
    end).
Proof.
  intros Hi. unfold initSessionFromBundle, initiator_value. apply wp_await.
  destruct (verifyPreKey _ _ _); cbn [negb]; [|by split; eauto].
  eapply wp_flat; [exact Hi|done|reflexivity|]. clear Hi w. intros w Hi.
  destruct (v_identity v) as [ik|]; [|by split; eauto].
  eapply generate_idle; [exact Hi|]. clear Hi w. intros w Hi. apply wp_await.
  destruct (x3dh _ _ _ _ _) as [SK|er]; rcbn; [|by eauto].
  eapply generate_idle; [exact Hi|]. clear Hi w. intros w Hi. apply wp_await.
  destruct (dh _ _) as [d|er]; rcbn; [|by eauto]. apply wp_await.
  destruct (kdfRootKey _ _) as [[rk ck]|er]; rcbn; [|by eauto].
  eapply (wp_new _ _ _ p); [exact Hi|]. clear Hi w. intros w l He.
  eapply wp_store; [exact He|]. by intros w' Hi _.
Qed.

(** The one-time pre-key a first message names, and the view once it is consumed. *)
Definition consume (opkId : value) (v : ks_view) : result (option jsstr * ks_view) :=
  match opkId with
  | Some JNull => Ok (None, v)
  | _ =>
      opk ← keyed (v_preKeys v) opkId;
      mret match opk, key_number opkId with
           | Some opk, Some id => (Some (pk_privateKey opk), set_preKeys (delete id) v)
           | _, _ => (None, v)
           end
  end.

(** The signed pre-key a first message names. *)
Definition addressed (msg : json) (v : ks_view) : result SignedPreKey :=
  spkId ← get_prop (js "spkId") (Some msg);
  spk ← keyed (v_signedPreKeys v) spkId;
  match spk with
  | Some spk => Ok spk
  | None => id ← value_toString spkId; Throw (Error_ (js "[SignalSession] Signed pre-key " ++ id ++ js " not found"))
  end.

(** The session a first message makes, with the view its one-time pre-key is
    consumed from. *)
Definition accept_value (msg : json) (v : ks_view) (e : nat) : ks_view * result RatchetSession :=
  match v_identity v with
  | None => (v, Throw (Error_ (js "[SignalSession] No local identity key")))
  | Some ik =>
      match spk ← addressed msg v; opkId ← get_prop (js "opkId") (Some msg); pair spk <$> consume opkId v with
      | Throw er => (v, Throw er)
      | Ok (spk, (opk, v1)) => (v1, responder_value ik (pk_privateKey (spk_key spk)) opk msg e)
      end
  end.

Lemma load_key_runs {A B} (load : Z → ks_op (option A)) (m : gmap Z A) id (k : option A → prog B) w v e Q :
  idle w v e → (∀ z, flat (load z) = true ∧ spec_flat (load z) v = (Some (m !! z), v)) →
  match keyed m id with
  | Ok o => ∀ w', idle w' v e → wp (k o) w' Q
  | Throw er => Q (Throw er) w
  end →
  wp (prog_bind (load_key load id) k) w Q.
Proof.
  intros Hi Hload. unfold load_key, keyed. destruct (key_number id) as [z|].
  - destruct (Hload z) as [Hf Hs]. intros Hk. eapply wp_flat; [exact Hi|done|exact Hs|done].
  - destruct (odd_key id) as [er|]; intros Hk; apply wp_await; [done|by apply Hk].
Qed.

Lemma consume_runs opkId w v e :
  idle w v e →
  wp (match opkId with
      | Some JNull => ret None
      | _ =>
          let! opk := load_key loadPreKey opkId in
          match opk, key_number opkId with
          | Some opk, Some id => await_ks (removePreKey id) ;;; ret (Some (pk_privateKey opk))
          | _, _ => ret None
          end
      end) w (λ r w', match consume opkId v with
                      | Ok (opk, v1) => r = Ok opk ∧ idle w' v1 e
                      | Throw er => r = Throw er ∧ idle w' v e
                      end).
Proof.
  intros Hi. assert (opkId = Some JNull ∨ opkId ≠ Some JNull) as [->|Hn]
    by (destruct opkId as [[]|]; (by left) || (by right)); [done|].
  assert (∀ A (x y : A), match opkId with Some JNull => x | _ => y end = y) as Hy
    by (intros; by destruct opkId as [[]|]).
  unfold consume. rewrite !Hy. eapply (load_key_runs _ (v_preKeys v)); [exact Hi|done|].
  destruct (keyed (v_preKeys v) opkId) as [opk|er]; rcbn; [|done].
  intros w1 Hi1. destruct opk as [opk|]; [|done]. destruct (key_number opkId) as [id|]; [|done].
  eapply wp_flat; [exact Hi1|done|reflexivity|]. by intros w2.
Qed.

Lemma initSessionFromPreKey_runs p msg w v e :
  idle w v e →
  wp (initSessionFromPreKey p msg) w (λ r w',
    match accept_value msg v e with
    | (v1, Ok s) => ∃ l, r = Ok l ∧ editing w' p l s (set_sessions <[p := s]> v1) (S e)
    | (v1, Throw er) => r = Throw er ∧ ∃ e', idle w' v1 e'
    end).
Proof.
  intros Hi. unfold initSessionFromPreKey, accept_value, addressed.
  eapply wp_flat; [exact Hi|done|reflexivity|]. clear Hi w. intros w Hi.
  destruct (v_identity v) as [ik|]; [|by split; eauto]. apply wp_lift.
  destruct (get_prop (js "spkId") (Some msg)) as [spkId|er]; rcbn; [|by eauto].
  eapply (load_key_runs _ (v_signedPreKeys v)); [exact Hi|done|].
  destruct (keyed (v_signedPreKeys v) spkId) as [spk|er]; rcbn; [|by eauto].
  clear Hi w. intros w Hi. destruct spk as [spk|]; rcbn.
  2: { apply wp_lift. destruct (value_toString spkId); rcbn; [by split; eauto|by eauto]. }
  apply wp_lift. destruct (get_prop (js "opkId") (Some msg)) as [opkId|er]; rcbn; [|by eauto].
  apply wp_bind. eapply wp_mono; [by apply consume_runs|]. clear Hi w. intros r w Hw.
  destruct (consume opkId v) as [[opk v1]|er]; rcbn; destruct Hw as [-> Hi]; [|by eauto].
  unfold responder_value. apply wp_await.
  destruct (x3dhRespond_of _ _ _ _ _) as [SK|er]; rcbn; [|by eauto]. apply wp_lift.
  destruct (get_prop (js "h") (Some msg)) as [h|er]; rcbn; [|by eauto]. apply wp_lift.
  destruct (get_prop (js "rk") h) as [rk|er]; rcbn; [|by eauto]. apply wp_await.
  destruct (dh_of _ _) as [d|er]; rcbn; [|by eauto]. apply wp_await.
  destruct (kdfRootKey _ _) as [[rk1 ckr]|er]; rcbn; [|by eauto].
  eapply generate_idle; [exact Hi|]. clear Hi w. intros w Hi. apply wp_await.
  destruct (dh_of _ _) as [d2|er]; rcbn; [|by eauto]. apply wp_await.
  destruct (kdfRootKey rk1 _) as [[rk2 cks]|er]; rcbn; [|by eauto].
  eapply (wp_new _ _ _ p); [exact Hi|]. clear Hi w. intros w l He.
  eapply wp_store; [exact He|]. intros w' _ He'. by eexists.
Qed.

Definition parse_envelope (envelope : EncryptedEnvelope) : result json :=
  text ← atob (env_ciphertext envelope); parse_json text.

(** [decrypt] as a function of the store's view: the view its session is
    stored into, and the message, the session and the key. *)
Definition decrypt_value (fuel : nat) (p : jsstr) (envelope : EncryptedEnvelope) (v : ks_view) (e : nat)
    : ks_view * result (json * (RatchetSession * list Z * nat)) :=
  match parse_envelope envelope with
  | Throw er => (v, Throw er)
  | Ok parsed =>
      if env_type envelope =? 1 then
        match accept_value parsed v e with
        | (v1, Throw er) => (v1, Throw er)
        | (v1, Ok s) => (set_sessions <[p := s]> v1, pair parsed <$> received fuel true s parsed (S e))
        end
      else
        match v_sessions v !! p with
        | None => (v, Throw (Error_ (js "[SignalSession] No session for " ++ p)))
        | Some s => (v, pair parsed <$> received fuel false s parsed e)
        end
  end.

Lemma decrypt_runs fuel p envelope w v e :
  idle w v e →
  wp (decrypt fuel p envelope) w (λ r w',
    match decrypt_value fuel p envelope v e with
    | (v1, Ok (m, (s', mk, e'))) =>
        r = open_message mk m ∧ idle w' (set_sessions <[p := s']> v1) e'
    | (v1, Throw er) => r = Throw er ∧ ∃ v' e', idle w' v' e' ∧ ks_touch p v1 v'
    end).
Proof.
  intros Hi. unfold decrypt, decrypt_value. apply wp_lift. fold (parse_envelope envelope).
  assert (∀ w v m out r, decrypted p v m out r w →
    match (v, pair m <$> out) with
    | (v1, Ok (m, (s', mk, e'))) =>
        r = open_message mk m ∧ idle w (set_sessions <[p := s']> v1) e'
    | (v1, Throw er) => r = Throw er ∧ ∃ v' e', idle w v' e' ∧ ks_touch p v1 v'
    end) as Hd by (intros w0 v0 m0 [[[? ?] ?]|?] r0; exact id).
  assert (∀ w v er e, idle w v e →
    Throw (A := jsstr) er = Throw er ∧ ∃ v' e', idle w v' e' ∧ ks_touch p v v') as Hthrow.
  { intros w' v' er e' ?. split; [done|]. by exists v', e'. }
  destruct (parse_envelope envelope) as [parsed|er]; [|by eapply Hthrow].
  destruct (env_type envelope =? 1).
  - apply wp_call. eapply wp_mono; [by apply initSessionFromPreKey_runs|].
    intros r w' Hw'. destruct (accept_value parsed v e) as [v1 [s|er]].
    + destruct Hw' as (l & -> & He). eapply wp_mono; [by apply decrypt_with_runs|].
      intros r w''. apply Hd.
    + destruct Hw' as [-> (e' & Hi')]. by eapply Hthrow.
  - eapply wp_load; [exact Hi|]. destruct (v_sessions v !! p) as [s|]; intros w'.
    + intros l _ He. eapply wp_mono; [by apply decrypt_with_runs|]. intros r w''. apply Hd.
    + intros Hi'. by eapply Hthrow.
Qed.
End refinement.

(** ** The wire formats are read back *)

Section formats.
Context `{SubtleCrypto} {numbers : Numbers}.

Definition header_value (h : RatchetHeader) : Received :=
  mkReceived (Some (JStr (h_rk h))) (Some (JNum (h_n h))) (Some (JNum (h_pn h))).

Lemma read_header_wire m : read_header (wire_json m) = Ok (header_value (w_h m)).
Proof. by destruct m as [[]]. Qed.

Lemma read_header_preKey m : read_header (preKeyWire_json m) = Ok (header_value (w_h (p_wire m))).
Proof. by destruct m as [???? [[]]]. Qed.

Lemma open_message_wire mk m : open_message mk (wire_json m) = text_decode <$> aesGcmDecrypt mk (w_ct m) (w_iv m).
Proof. by destruct m as [[]]. Qed.

Lemma open_message_preKey mk m :
  open_message mk (preKeyWire_json m) = text_decode <$> aesGcmDecrypt mk (w_ct (p_wire m)) (w_iv (p_wire m)).
Proof. by destruct m as [???? [[]]]. Qed.
End formats.

(** A payload of bytes travels through [JSON.stringify], [btoa] and back. *)
Lemma envelope_roundtrip payload ty rid :
  json_bytes payload = true →
  ∃ c, btoa (stringify payload) = Ok c ∧ parse_envelope (mkEnvelope ty c rid) = Ok payload.
Proof.
  intros Hb. pose proof (stringify_bytes payload Hb) as Hs.
  assert (btoa (stringify payload) = Ok (b64_encode (stringify payload))) as E.
  { unfold btoa. replace (forallb _ _) with true; [done|]. symmetry.
    apply forallb_forall. unfold is_bytes in Hs. rewrite List.Forall_forall in Hs.
    intros c Hc. apply Hs in Hc. unfold is_byte in Hc. by zdecide. }
  exists (b64_encode (stringify payload)). split; [done|].
  unfold parse_envelope. cbn [env_ciphertext]. rewrite (atob_btoa _ _ Hs E). cbn [mbind result_bind].
  by apply json_roundtrip, json_bytes_ok.
Qed.

(** ** Bounds of the skipping loop *)

Section bounds.
Context `{SubtleCrypto} {numbers : Numbers}.

(** The exceptions of a round. *)
Definition round_error (er : js_error) : Prop := er = TypeError_ ∨ er = DataError ∨ er = OperationError.

Lemma json_toString_error v er : json_toString v = Throw er → er = TypeError_.
Proof.
  induction v as [|[]| | | |l IH|l _] using json_nested_ind; cbn; try done.
  - match goal with |- context [(?f l : result (list jsstr))] => set (elems := f) end. intros He.
    assert (elems l = Throw er) as He' by (by destruct (elems l); cbn in He; [|injection He as ->]). clear He.
    induction IH as [|v l Hv _ IHl]; [done|]. cbn in He'. fold elems in He'.
    destruct (match v with JNull => Ok [] | _ => json_toString v end) as [t|er'] eqn:E; cbn in He'.
    + destruct (elems l) as [ss|er'']; cbn in He'; [done|]. injection He' as ->. by apply IHl.
    + injection He' as ->. apply Hv. by destruct v.
  - by case_match; intros [= <-].
Qed.

Lemma skipped_name_error a b er : skipped_name a b = Throw er → er = TypeError_.
Proof.
  unfold skipped_name, value_toString.
  destruct a as [a|]; [destruct (json_toString a) eqn:E; [|intros [= <-]; by eapply json_toString_error]|];
    cbn; (destruct b as [b|]; [destruct (json_toString b) eqn:E2; [done|intros [= <-]; by eapply json_toString_error]|done]).
Qed.

Lemma kdfRecvChain_error s er : kdfRecvChain s = Throw er → round_error er.
Proof.
  unfold kdfRecvChain, round_error. destruct (recvChainKey s) as [ck|]; cbn; [|intros [= <-]; by left].
  unfold kdfChainKey, hmacSha256.
  destruct (importRaw HMAC_sign (hexToBuf ck)) as [k|]; cbn; [|intros [= <-]; auto].
  destruct (signHmac k [1]); cbn; [|intros [= <-]; auto].
  destruct (signHmac k [2]); cbn; [done|intros [= <-]; auto].
Qed.

(** Up to a target that is compared as the integer [t] the loop ends by itself. *)
Lemma skip_rounds_ends target t fuel s r :
  (∀ x, Z.abs x ≤ SAFE → js_less (Some (JNum x)) target = Ok (x <? t)) → t ≤ SAFE →
  recvCount s = JNum r → Z.abs r ≤ SAFE → (Z.to_nat (t - r) ≤ fuel)%nat →
  match skip_rounds fuel s target with
  | Ok s' => (size (skipped s') ≤ size (skipped s) + Z.to_nat (t - r))%nat
  | Throw er => round_error er
  end.
Proof.
  intros Hless Ht. revert s r. induction fuel as [|fuel IH]; intros s r Hs Hr Hf; cbn [skip_rounds];
    rewrite Hs, Hless by done; cbn [mbind result_bind]; (destruct (r <? t) eqn:E; zbool; [|lia]); [lia|].
  destruct (kdfRecvChain s) as [[mk ck]|er] eqn:Ek; cbn [mbind result_bind]; [|by eapply kdfRecvChain_error].
  destruct (skipped_name _ _) as [name|er] eqn:En; cbn [mbind result_bind];
    [|left; by eapply skipped_name_error].
  rewrite js_increment_safe by lia. cbn [mbind result_bind].
  specialize (IH (skip_store name mk ck (JNum (r + 1)) s) (r + 1) eq_refl ltac:(lia) ltac:(lia)).
  destruct (skip_rounds _ _ _) as [s'|]; [|done]. unfold skip_store in IH.
  cbn [skipped set_recvCount set_recvChainKey set_skipped] in IH. rewrite map_size_insert in IH.
  destruct (skipped s !! name); unfold id in *; lia.
Qed.

Lemma skip_value_ends target fuel s r :
  recvCount s = JNum r → - SAFE ≤ r ≤ SAFE - MAX_SKIP → (Z.to_nat MAX_SKIP ≤ fuel)%nat →
  match skip_value fuel s (Some (JNum target)) with
  | Ok s' => (size (skipped s') ≤ size (skipped s) + Z.to_nat MAX_SKIP)%nat
  | Throw er => er = too_many ∨ round_error er
  end.
Proof.
  intros Hs Hr Hf. unfold skip_value. destruct (nonempty (recvChainKey s)); [|lia].
  destruct (truthy _); [|lia]. destruct (js_less_int target) as [t Ht].
  assert (MAX_SKIP = 500) as E5 by done. assert (SAFE = 9007199254740992) as E9 by done.
  rewrite Hs, js_plus_safe by lia. cbn [mbind result_bind]. rewrite Ht by lia. cbn [mbind result_bind].
  destruct (_ <? t) eqn:E; zbool; [by left|].
  pose proof (skip_rounds_ends (Some (JNum target)) t fuel s r Ht ltac:(lia) Hs ltac:(lia) ltac:(lia)) as H'.
  destruct (skip_rounds _ _ _); [lia|by right].
Qed.
End bounds.

(** ** Properties *)

Section properties.
Context `{SC : SubtleCrypto} {numbers : Numbers} {odd_keys : OddKeys} {K : Type} `{KeyStoreContract K}.

(** C2: Refinement of the session manager. Run against any key store that
    honours the [KeyStore] contract, from a store that represents the view
    [v], [initSessionFromBundle], [encrypt] and [decrypt] compute their
    functional descriptions ([initiator_value], [send_value],
    [decrypt_value]): the same result or exception, the session stored under
    the peer and nothing else changed in the view but a consumed one-time
    pre-key; an exception leaves at most an abandoned edit of that session. It
    holds for every envelope, whatever its payload, and for any number of rounds
    given to the loop ([out_of_fuel] when they are used up). *)
Theorem manager_refines fuel p (w : world K) v e (bundle : PreKeyBundle) text envelope :
  idle w v e →
  wp (initSessionFromBundle p bundle) w (λ r w',
    match (if verifyPreKey (b_identityKey bundle) (pspk_publicKey (b_signedPreKey bundle))
                (pspk_signature (b_signedPreKey bundle))
           then match v_identity v with
                | Some ik => initiator_value ik bundle e
                | None => Throw (Error_ (js "[SignalSession] No local identity key — call generateIdentityKeyPair() first"))
                end
           else Throw (Error_ (js "[SignalSession] Invalid signed pre-key signature from " ++ p)))
    with
    | Ok s => r = Ok tt ∧ idle w' (set_sessions <[p := s]> v) (S (S e))
    | Throw er => r = Throw er ∧ ∃ e', idle w' v e'
    end) ∧
  wp (encrypt p text) w (λ r w',
    match (match v_sessions v !! p with
           | Some s => send_value s text e
           | None => Throw (no_session p)
           end) with
    | Ok (s', (payload, ty)) =>
        r = (λ c, mkEnvelope ty c (nullish 0 (v_regId v))) <$> btoa (stringify payload) ∧
        idle w' (set_sessions <[p := s']> v) (S e)
    | Throw er => r = Throw er ∧ ∃ v' e', idle w' v' e' ∧ ks_touch p v v'
    end) ∧
  wp (decrypt fuel p envelope) w (λ r w',
    match decrypt_value fuel p envelope v e with
    | (v1, Ok (m, (s', mk, e'))) =>
        r = open_message mk m ∧ idle w' (set_sessions <[p := s']> v1) e'
    | (v1, Throw er) => r = Throw er ∧ ∃ v' e', idle w' v' e' ∧ ks_touch p v1 v'
    end).
Proof.
  intros Hi. split; [by apply initSessionFromBundle_runs|].
  split; [by apply encrypt_runs|by apply decrypt_runs].
Qed.


(** C5: [skipMessageKeys] terminates. Run alone on a session whose count is a safe
    integer with room for [MAX_SKIP] more, up to any integer target, the loop ends
    by itself within [MAX_SKIP] rounds, and saves at most that many keys. *)
Theorem skipMessageKeys_terminates fuel target r p l s v e (w : world K) :
  editing w p l s v e → recvCount s = JNum r → - SAFE ≤ r ≤ SAFE - MAX_SKIP → (Z.to_nat MAX_SKIP ≤ fuel)%nat →
  wp (skipMessageKeys fuel l (Some (JNum target))) w (λ res w', res ≠ Throw out_of_fuel ∧
    (res = Ok tt → ∃ s', editing w' p l s' v e ∧
      (size (skipped s') ≤ size (skipped s) + Z.to_nat MAX_SKIP)%nat)).
Proof.
  intros He Hs Hr Hf. eapply wp_mono; [by apply skipMessageKeys_runs|]. intros res w'.
  pose proof (skip_value_ends target fuel s r Hs Hr Hf) as Hends.
  destruct (skip_value _ _ _) as [s'|er]; cbn.
  - intros [-> He']. split; [done|]. intros _. by exists s'.
  - intros [-> _]. split; [|done]. intros [= ->]. by destruct Hends as [|[|[|]]].
Qed.
End properties.
