(* ===== verification/Ratchet.v ===== *)
(** * The Double Ratchet of two sessions

    What [session.ts] promises: two parties that established a session can
    exchange messages, and each delivered message of the conversation opens to
    the text that was sent. First the receiving and the sending side of one
    session, as invariants of a session value over its chains; then the
    relation between the two sessions of a conversation. *)

From S2P Require Import Prelude JsString Utf Encoding Json Platform Dynamic Types Async Crypto KeyStore Session.

(** Splitting at the first occurrence of a separator. *)
Lemma app_sep_inj (c : Z) (a b x y : list Z) :
  c ∉ a → c ∉ b → a ++ c :: x = b ++ c :: y → a = b ∧ x = y.
Proof.
  revert b; induction a as [|d a IH]; intros [|d' b] Ha Hb H; cbn in H; simplify_eq; try done.
  - by destruct Hb; left.
  - by destruct Ha; left.
  - apply not_elem_of_cons in Ha as [? Ha], Hb as [? Hb].
    by destruct (IH b Ha Hb) as [-> ->].
Qed.

Lemma js_toString_inj m n : js_toString m = js_toString n → m = n.
Proof.
  intros H. pose proof (json_roundtrip (JNum m) eq_refl) as Hm. cbn [stringify] in Hm.
  rewrite H in Hm. pose proof (json_roundtrip (JNum n) eq_refl) as Hn. cbn [stringify] in Hn.
  congruence.
Qed.

Lemma hexkey_nonempty x : is_hexkey x → nonempty (Some x) = Some x.
Proof.
  intros (b & Hb & Hl & ->). pose proof (bufToHex_length b Hb) as H. rewrite Hl in H.
  by destruct (bufToHex b).
Qed.

Section chains.
Context `{SC : SubtleCrypto} `{!WebCryptoLaws SC} {numbers : Numbers}.

(** ** A symmetric chain *)

(** The message key of a chain key, and the chain key after it. *)
Definition key_of (ck : jsstr) : list Z :=
  match kdfChainKey ck with Ok (mk, _) => mk | Throw _ => [] end.
Definition next_of (ck : jsstr) : jsstr :=
  match kdfChainKey ck with Ok (_, ck') => ck' | Throw _ => [] end.

(** The chain that starts at [C]: its key number [n], and message key number [n]. *)
Definition chain (C : jsstr) (n : nat) : jsstr := Nat.iter n next_of C.
Definition mkey (C : jsstr) (n : Z) : list Z := key_of (chain C (Z.to_nat n)).

Lemma kdf_step ck : is_hexkey ck →
  kdfChainKey ck = Ok (key_of ck, next_of ck) ∧ is_key (key_of ck) ∧ is_hexkey (next_of ck).
Proof.
  intros Hck. destruct (kdfChainKey_ok ck Hck) as (mk & ck' & E & ? & ?).
  unfold key_of, next_of. by rewrite E.
Qed.

Lemma chain_hex C n : is_hexkey C → is_hexkey (chain C n).
Proof. intros HC. induction n as [|n IH]; [done|]. by apply kdf_step. Qed.

Lemma chain_kdf C n : is_hexkey C →
  kdfChainKey (chain C n) = Ok (key_of (chain C n), chain C (S n)).
Proof. intros HC. by apply kdf_step, chain_hex. Qed.

Lemma mkey_key C n : is_hexkey C → is_key (mkey C n).
Proof. intros HC. by apply kdf_step, chain_hex. Qed.

Lemma mkey_hex C n : is_hexkey C → hexToBuf (bufToHex (mkey C n)) = mkey C n.
Proof. intros HC. apply hex_roundtrip. by apply mkey_key. Qed.

(** ** Names of saved keys *)

Definition name (i : nat) (n : Z) : jsstr := pub_text i ++ [58] ++ js_toString n.

Lemma skipped_name_pub i n : Z.abs n ≤ SAFE → skipped_name (Some (JStr (pub_text i))) (Some (JNum n)) = Ok (name i n).
Proof.
  intros Hn. unfold skipped_name. cbn [value_toString json_toString mbind result_bind]. unfold integer_toString.
  change 9007199254740992 with SAFE. by zdecide.
Qed.

Lemma pub_text_inj `{!FreshKeys SC} i j : pub_text i = pub_text j → i = j.
Proof.
  intros H. apply fresh_keys. by apply bufToBase64_inj in H; try apply law_raw_bytes.
Qed.

Lemma name_inj `{!FreshKeys SC} i j m n : name i m = name j n → i = j ∧ m = n.
Proof.
  assert (∀ i, 58 ∉ pub_text i) as Hc.
  { intros k Hk. pose proof (pub_text_chars k) as Hf. rewrite Forall_forall in Hf.
    apply list_elem_of_In in Hk. apply Hf in Hk. lia. }
  unfold name. cbn [app].
  intros [H1 H2]%app_sep_inj; try apply Hc. by apply pub_text_inj in H1; apply js_toString_inj in H2.
Qed.

(** ** The receiving side *)

(** The number of messages received on a chain, when it is a number. *)
Definition count (s : RatchetSession) : Z := match recvCount s with JNum n => n | _ => 0 end.

(** Counts stay below this bound, so that they are safe [MAX_SKIP] ahead, too. *)
Definition REACH : Z := SAFE - MAX_SKIP.

(** The rounds the loop may need. *)
Class EnoughFuel (fuel : nat) : Prop := enough_fuel : (Z.to_nat MAX_SKIP ≤ fuel)%nat.

Lemma reach_safe : REACH + 500 = SAFE ∧ MAX_SKIP = 500 ∧ 1000 < REACH.
Proof. done. Qed.

(** [s] receives on the chain [C] of the peer's ratchet key number [t]; every
    saved key is one of a message of an older chain, or of one of this chain
    that was skipped. *)
Record receiving (s : RatchetSession) (t : nat) (C : jsstr) : Prop := {
  rc_their : theirRatchetPublic s = Some (JStr (pub_text t));
  rc_chain : recvChainKey s = Some (chain C (Z.to_nat (count s)));
  rc_number : recvCount s = JNum (count s);
  rc_count : 0 ≤ count s ≤ REACH;
  rc_hex : is_hexkey C;
  rc_skipped k h : skipped s !! k = Some h →
    ∃ i n, k = name i n ∧ ((i < t)%nat ∨ i = t ∧ n < count s);
}.

(** What receiving leaves alone. *)
Definition send_side (s : RatchetSession) :=
  (rootKey s, sendChainKey s, sendCount s, prevSendCount s, ourRatchetPublic s,
   ourRatchetPrivate s, isInitiator s, pendingPreKeyMsg s).

(** The keys of messages [a], ..., [b - 1] of the chain are saved in [s'];
    everything else is as in [s]. *)
Definition saved (t : nat) (C : jsstr) (a b : Z) (s s' : RatchetSession) : Prop :=
  (∀ j, a ≤ j < b → skipped s' !! name t j = Some (bufToHex (mkey C j))) ∧
  (∀ x, (∀ j, a ≤ j < b → x ≠ name t j) → skipped s' !! x = skipped s !! x).

Context `{!FreshKeys SC}.

(** One round of the loop. *)
Lemma skip_store_chain s t C :
  receiving s t C → count s < REACH →
  let s' := skip_store (name t (count s)) (mkey C (count s)) (chain C (S (Z.to_nat (count s)))) (JNum (count s + 1)) s in
  receiving s' t C ∧ count s' = count s + 1 ∧ send_side s' = send_side s ∧
  saved t C (count s) (count s + 1) s s'.
Proof.
  intros [Ht Hc Hn Hr HC Hs] Hlt. unfold skip_store. cbv zeta. set (c := count s) in *.
  split; [split; cbn; auto|split; [done|split; [done|]]].
  - by replace (Z.to_nat (c + 1)) with (S (Z.to_nat c)) by lia.
  - lia.
  - intros k h [[<- _]|[_ Hk]]%lookup_insert_Some.
    + exists t, c. split; [done|]. lia.
    + destruct (Hs k h Hk) as (i & n & -> & Hi). exists i, n. split; [done|].
      destruct Hi as [|[-> ?]]; [by left|right; lia].
  - split; cbn.
    + intros j Hj. replace j with c by lia. by rewrite lookup_insert_eq.
    + intros x Hx. rewrite lookup_insert_ne; [done|]. intros <-. by apply (Hx c); [lia|].
Qed.

Lemma skip_rounds_chain k fuel s t C :
  receiving s t C → count s + Z.of_nat k ≤ REACH → (k ≤ fuel)%nat →
  ∃ s', skip_rounds fuel s (Some (JNum (count s + Z.of_nat k))) = Ok s' ∧ receiving s' t C ∧
    count s' = count s + Z.of_nat k ∧ send_side s' = send_side s ∧ saved t C (count s) (count s') s s'.
Proof.
  pose proof reach_safe as Hreach. revert fuel s; induction k as [|k IH]; intros fuel s Hr Hk Hf.
  { exists s. pose proof (rc_count _ _ _ Hr). rewrite Z.add_0_r. split.
    - assert (∀ f, skip_rounds f s (Some (JNum (count s))) = Ok s) as E; [|apply E].
      intros []; cbn [skip_rounds]; rewrite (rc_number _ _ _ Hr), js_less_safe by lia; by rewrite Z.ltb_irrefl.
    - split; [done|]. split; [done|]. split; [done|]. split; [lia|done]. }
  destruct fuel as [|fuel]; [lia|]. pose proof (rc_count _ _ _ Hr) as Hc. cbn [skip_rounds].
  rewrite (rc_number _ _ _ Hr), js_less_safe by lia. zdecide. cbn [mbind result_bind].
  unfold kdfRecvChain. rewrite (rc_chain _ _ _ Hr). cbn [throw_none mbind result_bind].
  rewrite chain_kdf by apply Hr. cbn [mbind result_bind].
  rewrite (rc_their _ _ _ Hr), skipped_name_pub by lia. cbn [mbind result_bind].
  rewrite js_increment_safe by lia. cbn [mbind result_bind].
  destruct (skip_store_chain s t C Hr ltac:(lia)) as (Hr1 & Hn1 & He1 & Hs1 & Hs1').
  destruct (IH fuel _ Hr1 ltac:(lia) ltac:(lia)) as (s' & E & Hr' & Hn' & He' & Hs' & Hs'').
  rewrite Hn1 in E, Hn'. replace (count s + 1 + Z.of_nat k) with (count s + Z.of_nat (S k)) in E, Hn' by lia.
  exists s'. split; [exact E|]. split; [done|]. split; [done|]. rewrite He'. split; [done|].
  rewrite Hn', Hn1 in *. split.
  - intros j Hj. destruct (decide (j = count s)) as [->|].
    + rewrite Hs''; [apply Hs1; lia|]. intros i Hi [_ ?]%name_inj. lia.
    + apply Hs'. lia.
  - intros x Hx. rewrite Hs'', Hs1'; [done|..]; intros j Hj; apply Hx; lia.
Qed.

Lemma skip_rounds_none fuel s t C target :
  receiving s t C → 0 ≤ target ≤ count s → skip_rounds fuel s (Some (JNum target)) = Ok s.
Proof.
  intros Hr Ht. pose proof (rc_count _ _ _ Hr). pose proof reach_safe.
  destruct fuel; cbn [skip_rounds]; rewrite (rc_number _ _ _ Hr), js_less_safe by lia; by zdecide.
Qed.

Context {fuel : nat} `{!EnoughFuel fuel}.

Lemma truthy_pub i : truthy (Some (JStr (pub_text i))) = true.
Proof. cbn. by rewrite bool_decide_false by apply pub_text_nonempty. Qed.

(** [skipMessageKeys] up to a message within reach. *)
Lemma skip_value_chain s t C target :
  receiving s t C → target ≤ count s + MAX_SKIP → 0 ≤ target ≤ REACH →
  ∃ s', skip_value fuel s (Some (JNum target)) = Ok s' ∧ receiving s' t C ∧
    count s' = Z.max (count s) target ∧ send_side s' = send_side s ∧
    saved t C (count s) (count s') s s'.
Proof.
  intros Hr Hm Ht. unfold skip_value. rewrite (rc_chain _ _ _ Hr), (rc_their _ _ _ Hr), truthy_pub.
  rewrite hexkey_nonempty by apply chain_hex, Hr. pose proof (rc_count _ _ _ Hr) as Hc. pose proof reach_safe.
  rewrite (rc_number _ _ _ Hr), js_plus_safe by lia. cbn [mbind result_bind].
  rewrite js_less_safe by lia. zdecide. cbn [mbind result_bind].
  destruct (decide (target ≤ count s)).
  - exists s. split; [eapply skip_rounds_none; [exact Hr|lia]|]. split; [done|]. split; [lia|].
    split; [done|]. split; [lia|done].
  - destruct (skip_rounds_chain (Z.to_nat (target - count s)) fuel s t C Hr) as (s' & E & ? & Hn & ?);
      [lia|pose proof (enough_fuel (fuel := fuel)); lia|].
    replace (count s + Z.of_nat (Z.to_nat (target - count s))) with target in E, Hn by lia.
    exists s'. split; [done|]. split; [done|]. split; [lia|done].
Qed.

(** Message [n] of the chain has not been received: it lies ahead, or its
    key is saved. *)
Definition awaited (s : RatchetSession) (t : nat) (C : jsstr) (n : Z) : Prop :=
  0 ≤ n < REACH ∧ (count s ≤ n ∨ skipped s !! name t n = Some (bufToHex (mkey C n))).

(** Receiving message [n] of the current chain yields its key, and every
    other awaited message is still awaited. *)
Lemma message_key_chain s t C n :
  receiving s t C → awaited s t C n → n ≤ count s + MAX_SKIP →
  ∃ s', message_key_value fuel s (Some (JStr (pub_text t))) (Some (JNum n)) = Ok (s', mkey C n) ∧ receiving s' t C ∧
    send_side s' = send_side s ∧ count s' = Z.max (count s) (n + 1) ∧
    ∀ m, m ≠ n → awaited s t C m → awaited s' t C m.
Proof.
  intros Hr [Hn Ha] Hm. pose proof reach_safe. unfold message_key_value.
  rewrite skipped_name_pub by lia. cbn [mbind result_bind].
  assert (skipped s !! name t n ≠ None → n < count s) as Hlt.
  { intros Hne. destruct (skipped s !! name t n) as [h|] eqn:E; [|done].
    destruct (rc_skipped _ _ _ Hr _ _ E) as (i & m & [-> ->]%name_inj & Hi). lia. }
  destruct (skipped s !! name t n) as [h|] eqn:E.
  - assert (n < count s) by by apply Hlt.
    destruct Ha as [|Ha]; [lia|]. injection Ha as ->. rewrite mkey_hex by apply Hr.
    eexists. split; [reflexivity|]. destruct Hr as [Ht Hc Hcn Hc0 HC Hs].
    split; [split; cbn; auto|split; [done|split; [unfold count in *; cbn; lia|]]].
    + intros k h [_ Hk]%lookup_delete_Some. eauto.
    + intros m Hmn [Hm0 Hma]. split; [done|]. cbn.
      destruct Hma as [|Hma]; [by left|right]. rewrite lookup_delete_ne; [done|].
      by intros [_ ->]%name_inj.
  - destruct Ha as [Ha|]; [|done].
    destruct (skip_value_chain s t C n Hr Hm ltac:(lia)) as (s1 & -> & Hr1 & Hc1 & He1 & Hs1 & Hs1').
    cbn [mbind result_bind]. rewrite (rc_chain _ _ _ Hr1).
    rewrite hexkey_nonempty by apply chain_hex, Hr. rewrite chain_kdf by apply Hr.
    cbn [mbind result_bind mret result_ret]. rewrite js_plus_safe by lia. cbn [mbind result_bind mret result_ret].
    assert (count s1 = n) as En by lia. rewrite En in Hs1, Hs1' |- *.
    eexists. split; [reflexivity|].
    destruct Hr1 as [Ht Hc Hcn Hc0 HC Hs].
    split; [split; cbn; auto|split; [exact He1|split; [cbn; lia|]]].
    + by replace (Z.to_nat (n + 1)) with (S (Z.to_nat n)) by lia.
    + lia.
    + intros k h Hk. destruct (Hs k h Hk) as (i & m & -> & Hi). exists i, m.
      split; [done|]. destruct Hi as [|[-> ?]]; [by left|right; cbn; lia].
    + intros m Hmn [Hm0 Hma]. split; [done|]. cbn. destruct (decide (n < m)); [left; cbn; lia|right].
      destruct (decide (count s ≤ m)); [apply Hs1; lia|].
      destruct Hma as [|Hma]; [lia|]. rewrite Hs1'; [done|].
      intros j Hj [_ ->]%name_inj. lia.
Qed.

(** ** The sending side *)

(** [s] sends on the chain [C] of its own ratchet key number [p]. *)
Record sending (s : RatchetSession) (p : nat) (C : jsstr) : Prop := {
  sd_public : ourRatchetPublic s = pub_text p;
  sd_private : ourRatchetPrivate s = jwk_text p;
  sd_chain : sendChainKey s = Some (chain C (Z.to_nat (sendCount s)));
  sd_count : 0 ≤ sendCount s ≤ REACH;
  sd_prev : 0 ≤ prevSendCount s ≤ REACH;
  sd_hex : is_hexkey C;
}.

(** What sending leaves alone. *)
Definition recv_side (s : RatchetSession) :=
  (theirRatchetPublic s, recvChainKey s, recvCount s, skipped s).

Lemma receiving_ext s s' t C : recv_side s' = recv_side s → receiving s t C → receiving s' t C.
Proof.
  intros E [? ? ? ? ? Hs]. injection E as E1 E2 E3 E4. assert (count s' = count s) as Ec by (unfold count; by rewrite E3).
  split; rewrite ?E1, ?E2, ?E3, ?Ec; try done. intros k h. rewrite E4. apply Hs.
Qed.

Lemma sending_ext s s' p C : send_side s' = send_side s → sending s p C → sending s' p C.
Proof. intros E [? ? ? ? ? ?]. injection E as E1 E2 E3 E4 E5 E6 _ _. split; congruence. Qed.

Lemma awaited_ext s s' t C n : recv_side s' = recv_side s → awaited s t C n → awaited s' t C n.
Proof. intros E. injection E as E1 E2 E3 E4. unfold awaited, count. by rewrite E3, E4. Qed.

(** A message: the text that was sent and what went on the wire. *)
Abbreviation message := (jsstr * WireMessage)%type.

(** Under this key the message opens to its text. *)
Definition opens (mk : list Z) (f : message) : Prop :=
  text_decode <$> aesGcmDecrypt mk (w_ct f.2) (w_iv f.2) = Ok (text_decode (text_encode f.1)).

(** [send_value] never fails on a session that has a chain; the message is the
    next of the chain and opens under its key. *)
Lemma send_chain s p C text e :
  sending s p C → sendCount s < REACH → is_js text →
  ∃ s' m,
    send_value s text e = Ok (s', match is_first s with
      | Some pk => (preKeyWire_json (mkPreKeyWire (pp_identityKey pk) (pp_ephemeralKey pk)
                      (pp_spkId pk) (pp_opkId pk) m), 1)
      | None => (wire_json m, 2)
      end) ∧
    w_h m = mkHeader (pub_text p) (sendCount s) (prevSendCount s) ∧
    is_bytes (w_ct m) ∧ is_bytes (w_iv m) ∧
    opens (mkey C (sendCount s)) (text, m) ∧
    sending s' p C ∧ sendCount s' = sendCount s + 1 ∧ prevSendCount s' = prevSendCount s ∧
    rootKey s' = rootKey s ∧ recv_side s' = recv_side s ∧ isInitiator s' = isInitiator s ∧
    pendingPreKeyMsg s' = match is_first s with Some _ => None | None => pendingPreKeyMsg s end.
Proof.
  intros [Hpub Hpriv Hch Hc Hpv HC] Hlt Htext. pose proof reach_safe. unfold send_value. rewrite Hch.
  rewrite hexkey_nonempty by by apply chain_hex. rewrite chain_kdf by done.
  cbn [mbind result_bind]. rewrite to_double_safe by lia.
  fold (mkey C (sendCount s)). destruct (mkey_key C (sendCount s) HC) as [Hb Hl].
  rewrite slice_all by done. destruct (law_random e 12) as [Hrb Hrl].
  destruct (law_aes (mkey C (sendCount s)) (randomBytes e 12) (text_encode text))
    as (ke & kd & ct & Hke & Hkd & He & Hct & Hd); try done; [by apply text_encode_bytes|].
  rewrite Hke; cbn [mbind result_bind throw_none]. rewrite He; cbn [mbind result_bind throw_none].
  set (m := mkWire _ (bufToBase64 ct) _).
  exists (set_pendingPreKeyMsg (match is_first s with Some _ => None | None => pendingPreKeyMsg s end)
    (set_sendCount (sendCount s + 1) (set_sendChainKey (Some (chain C (S (Z.to_nat (sendCount s))))) s))), m.
  assert (∀ bs, is_bytes bs → is_bytes (bufToBase64 bs)) as Hbb.
  { intros bs Hbs. eapply List.Forall_impl, bufToBase64_chars, Hbs. unfold is_byte. cbn. lia. }
  split; [by destruct (is_first s)|]. split; [by rewrite <-Hpub|].
  split; [by apply Hbb|]. split; [by apply Hbb|]. split.
  { unfold opens, aesGcmDecrypt, aesGcmDecrypt_of, m. cbn [snd fst w_ct w_iv].
    rewrite slice_all, Hkd by done. cbn [mbind result_bind throw_none].
    rewrite (base64_roundtrip _ Hrb). cbn [mbind result_bind].
    rewrite (base64_roundtrip _ Hct). cbn [mbind result_bind]. by rewrite Hd. }
  split; [|by destruct s]. split; cbn; try done; [|lia].
  by replace (Z.to_nat (sendCount s + 1)) with (S (Z.to_nat (sendCount s))) by lia.
Qed.

(** ** The DH ratchet step *)

(** A session that has not received anything yet. *)
Definition recv_idle (s : RatchetSession) : Prop :=
  recvChainKey s = None ∧ recvCount s = JNum 0 ∧ skipped s = ∅.

Lemma root_ok rk i j :
  ∃ rk' ck, kdfRootKey rk (dh_secret i j) = Ok (rk', ck) ∧ is_hexkey ck.
Proof.
  destruct (kdfRootKey_ok rk (dh_secret i j)) as (rk' & ck & ? & ? & ?); [apply dh_secret_key|].
  eauto.
Qed.

Lemma ratchet_chain s q p e pn R C :
  ourRatchetPrivate s = jwk_text q → 0 ≤ sendCount s ≤ REACH → 0 ≤ pn ≤ REACH →
  recv_idle s ∨ (∃ t Ct, receiving s t Ct ∧ (t < p)%nat ∧ pn ≤ count s + MAX_SKIP) →
  kdfRootKey (rootKey s) (dh_secret q p) = Ok (R, C) →
  ∃ s' C', ratchet_value fuel s (Some (JStr (pub_text p))) (Some (JNum pn)) (dh_pair e) = Ok s' ∧
    receiving s' p C ∧ count s' = 0 ∧ sending s' e C' ∧ sendCount s' = 0 ∧
    prevSendCount s' = sendCount s ∧ kdfRootKey R (dh_secret e p) = Ok (rootKey s', C') ∧
    isInitiator s' = isInitiator s ∧ pendingPreKeyMsg s' = pendingPreKeyMsg s.
Proof.
  intros Hpriv Hsc Hpr Hrecv Hroot.
  assert (∃ s1, skip_value fuel s (Some (JNum pn)) = Ok s1 ∧ send_side s1 = send_side s ∧
    ∀ k h, skipped s1 !! k = Some h → ∃ i n, k = name i n ∧ (i < p)%nat)
    as (s1 & Hskip & Hside & Hold).
  { destruct Hrecv as [(Hn & Hc & Hs)|(t & Ct & Hr & Htp & Hpn)].
    - exists s. split; [by unfold skip_value; rewrite Hn|]. split; [done|]. by rewrite Hs.
    - destruct (skip_value_chain s t Ct pn Hr Hpn Hpr) as (s1 & ? & Hr1 & _ & ? & _).
      exists s1. split; [done|]. split; [done|]. intros k h Hk.
      destruct (rc_skipped _ _ _ Hr1 _ _ Hk) as (i & n & -> & Hi). exists i, n.
      split; [done|]. lia. }
  injection Hside as E1 E2 E3 E4 E5 E6 E7 E8.
  destruct (root_ok R e p) as (R' & C' & Hroot' & HC').
  destruct (kdfRootKey_ok (rootKey s) (dh_secret q p)) as (R0 & C0 & Hroot0 & _ & HC);
    [apply dh_secret_key|]. rewrite Hroot in Hroot0. injection Hroot0 as <- <-.
  unfold ratchet_value. rewrite Hskip. cbn [mbind result_bind].
  cbn [value_toString json_toString].
  rewrite E6, Hpriv, dh_of_ok. cbn [mbind result_bind]. rewrite E1, Hroot. cbn [mbind result_bind].
  change (privateKeyJwk (dh_pair e)) with (jwk_text e). rewrite dh_of_ok.
  cbn [mbind result_bind]. rewrite Hroot'. cbn [mbind result_bind mret result_ret].
  eexists _, C'. split; [reflexivity|].
  pose proof reach_safe. split; [split; cbn; try done|]. { intros k h Hk. destruct (Hold k h Hk) as (i & n & -> & ?).
    exists i, n. split; [done|]. by left. }
  split; [done|]. split; [split; cbn; (done || lia || congruence)|].
  split; [done|]. split; [exact E3|]. by repeat split.
Qed.

(** ** Two sessions of one conversation *)

Abbreviation rk_of f := (h_rk (w_h (snd f))) (only parsing).
Abbreviation n_of f := (h_n (w_h (snd f))) (only parsing).
Abbreviation pn_of f := (h_pn (w_h (snd f))) (only parsing).

(** [f], on its way to [s], is an unreceived message of the chain that [s] receives on. *)
Definition pending_on (s : RatchetSession) (t : nat) (C : jsstr) (f : message) : Prop :=
  rk_of f = pub_text t → awaited s t C (n_of f) ∧ opens (mkey C (n_of f)) f.

(** [f] was sent by [s] on its sending chain. *)
Definition sent_on (s : RatchetSession) (p : nat) (C : jsstr) (f : message) : Prop :=
  rk_of f = pub_text p →
  0 ≤ n_of f < sendCount s ∧ pn_of f = prevSendCount s ∧ opens (mkey C (n_of f)) f.

(** The messages under way one way: numbered apart, and sent with a ratchet
    key no newer than draw [i]. *)
Definition in_flight (i : nat) (fs : list message) : Prop :=
  NoDup (map (λ f, (rk_of f, n_of f)) fs) ∧
  Forall (λ f, ∃ j, rk_of f = pub_text j ∧ (j ≤ i)%nat) fs.

(** [P] has made the latest ratchet step, with key [p] and sending chain
    [CP]; [Q] has not yet heard of [p], and its own key is [q], with sending
    chain [CQ]. [fPQ] and [fQP] are the messages under way, [e] the next draw. *)
Record ahead (P Q : RatchetSession) (e : nat) (fPQ fQP : list message) (p q : nat)
    (CP CQ : jsstr) : Prop := {
  ah_fresh : (q < p < e)%nat;
  ah_sending : sending P p CP;
  ah_their : theirRatchetPublic P = Some (JStr (pub_text q));
  ah_public : ourRatchetPublic Q = pub_text q;
  ah_private : ourRatchetPrivate Q = jwk_text q;
  ah_count : 0 ≤ sendCount Q ≤ REACH;
  ah_root : kdfRootKey (rootKey Q) (dh_secret q p) = Ok (rootKey P, CP);
  ah_forth : in_flight p fPQ ∧ Forall (sent_on P p CP) fPQ;
  ah_back : in_flight q fQP ∧ Forall (sent_on Q q CQ) fQP;
  (** what [Q] still receives on an older chain of [P] *)
  ah_older :
    recv_idle Q ∧ theirRatchetPublic Q ≠ Some (JStr (pub_text p)) ∧
      Forall (λ f, rk_of f = pub_text p) fPQ ∨
    ∃ t CT, receiving Q t CT ∧ (t < p)%nat ∧ Forall (pending_on Q t CT) fPQ;
  (** what [P] receives from [Q] *)
  ah_current :
    recv_idle P ∧ sendChainKey Q = None ∧ fQP = [] ∨
    receiving P q CQ ∧ sending Q q CQ ∧ count P ≤ sendCount Q ∧
      Forall (pending_on P q CQ) fQP;
}.

(** The two sessions of a conversation, whoever is ahead. *)
Definition conversing (A B : RatchetSession) (e : nat) (fAB fBA : list message) : Prop :=
  (∃ p q CP CQ, ahead A B e fAB fBA p q CP CQ) ∨
  (∃ p q CP CQ, ahead B A e fBA fAB p q CP CQ).

Lemma conversing_sym A B e fAB fBA : conversing A B e fAB fBA → conversing B A e fBA fAB.
Proof. intros [?|?]; [by right|by left]. Qed.

(** *** Sending *)

Lemma in_flight_cons i f fs :
  in_flight i fs → (∃ j, rk_of f = pub_text j ∧ (j ≤ i)%nat) →
  Forall (λ g, rk_of g = rk_of f → n_of g ≠ n_of f) fs → in_flight i (f :: fs).
Proof.
  intros [Hd Hi] Hf Hn. split; [|by apply Forall_cons_2]. cbn. apply NoDup_cons_2; [|done].
  intros Hin. apply list_elem_of_fmap in Hin as (g & Eg & Hg).
  rewrite Forall_forall in Hn. apply list_elem_of_In in Hg. specialize (Hn g Hg).
  injection Eg as E1 E2. by apply Hn.
Qed.

(** The new message of a sender joins those under way. *)
Lemma sent_fresh s s' p C f fs :
  in_flight p fs → Forall (sent_on s p C) fs →
  w_h f.2 = mkHeader (pub_text p) (sendCount s) (prevSendCount s) →
  0 ≤ sendCount s → opens (mkey C (sendCount s)) f →
  sendCount s' = sendCount s + 1 → prevSendCount s' = prevSendCount s →
  in_flight p (f :: fs) ∧ Forall (sent_on s' p C) (f :: fs).
Proof.
  intros Hi Hs Hh Hc Ho En Epn. split.
  - apply in_flight_cons; [done|rewrite Hh; by exists p|].
    eapply List.Forall_impl, Hs. intros g Hg E. rewrite Hh in E |- *. cbn in E |- *.
    specialize (Hg E). lia.
  - apply Forall_cons_2.
    + intros _. rewrite Hh, En, Epn. cbn. repeat split; (lia || done).
    + eapply List.Forall_impl, Hs. intros g Hg E. specialize (Hg E). rewrite En, Epn.
      destruct Hg as (? & ? & ?). repeat split; (lia || done).
Qed.

Lemma recv_idle_ext s s' : recv_side s' = recv_side s → recv_idle s → recv_idle s'.
Proof. intros E. injection E as E1 E2 E3 E4. unfold recv_idle. by rewrite E2, E3, E4. Qed.

Lemma pending_ext s s' t C fs :
  recv_side s' = recv_side s → Forall (pending_on s t C) fs → Forall (pending_on s' t C) fs.
Proof.
  intros E. apply List.Forall_impl. intros f Hf Ht. destruct (Hf Ht) as [? ?].
  split; [by eapply awaited_ext|done].
Qed.

(** The outcome of [send_value] that the relation keeps track of. *)
Record sent (s s' : RatchetSession) (text : jsstr) (m : WireMessage) : Prop := {
  st_header : ∃ i, h_rk (w_h m) = pub_text i;
  st_ct : is_bytes (w_ct m);
  st_iv : is_bytes (w_iv m);
  st_chain : sendChainKey s' ≠ None;
  st_count : sendCount s' = sendCount s + 1 ∧ 0 ≤ sendCount s;
  st_number : h_n (w_h m) = sendCount s;
  st_initiator : isInitiator s' = isInitiator s;
  st_pending : pendingPreKeyMsg s'
               = match is_first s with Some _ => None | None => pendingPreKeyMsg s end;
  st_prev : prevSendCount s' = prevSendCount s;
}.

Definition send_result (s s' : RatchetSession) (m : WireMessage)
    : result (RatchetSession * (json * Z)) :=
  Ok (s', match is_first s with
          | Some pk => (preKeyWire_json (mkPreKeyWire (pp_identityKey pk) (pp_ephemeralKey pk)
                          (pp_spkId pk) (pp_opkId pk) m), 1)
          | None => (wire_json m, 2)
          end).

Lemma ahead_send P Q e fPQ fQP p q CP CQ text :
  ahead P Q e fPQ fQP p q CP CQ → sendCount P < REACH → is_js text →
  ∃ P' m, send_value P text e = send_result P P' m ∧ sent P P' text m ∧
    ahead P' Q (S e) ((text, m) :: fPQ) fQP p q CP CQ.
Proof.
  intros [Hf Hs Ht Hpub Hpriv Hcount Hroot [Hfl Hfs] Hback Holder Hcur] Hlt Htext.
  destruct (send_chain P p CP text e Hs Hlt Htext)
    as (P' & m & Hsend & Hh & Hct & Hiv & Ho & Hs' & Hn & Hpn & Hrk & Hrecv & Hi & Hp).
  exists P', m. split; [exact Hsend|]. pose proof Hrecv as Hr. injection Hr as E1 E2 E3 E4.
  split.
  { split; try done; [rewrite Hh; by exists p|by rewrite (sd_chain _ _ _ Hs')| |by rewrite Hh].
    split; [done|apply Hs]. }
  split; try done.
  - lia.
  - by rewrite E1.
  - by rewrite Hrk.
  - by apply (sent_fresh P); [..|apply Hs| | |].
  - destruct Holder as [(? & ? & ?)|(t & CT & Hrt & Htp & Hpend)]; [left|right].
    { split; [done|]. split; [done|]. apply Forall_cons_2; [|done]. cbn [snd]. by rewrite Hh. }
    exists t, CT. split; [done|]. split; [done|]. apply Forall_cons_2; [|done].
    intros E. cbn [snd] in E. rewrite Hh in E. apply pub_text_inj in E. lia.
  - destruct Hcur as [(Hidle & ? & ?)|(Hr & Hsq & Hc & Hpend)]; [left|right].
    + split; [by eapply recv_idle_ext|done].
    + assert (count P' = count P) as -> by (unfold count; by rewrite E3). split; [by eapply receiving_ext|]. split; [done|]. split; [done|].
      by eapply pending_ext.
Qed.

Lemma behind_send P Q e fPQ fQP p q CP CQ text :
  ahead P Q e fPQ fQP p q CP CQ → sendChainKey Q ≠ None → sendCount Q < REACH → is_js text →
  ∃ Q' m, send_value Q text e = send_result Q Q' m ∧ sent Q Q' text m ∧
    ahead P Q' (S e) fPQ ((text, m) :: fQP) p q CP CQ.
Proof.
  intros [Hf Hs Ht Hpub Hpriv Hcount Hroot Hforth [Hfl Hfs] Holder Hcur] Hsome Hlt Htext.
  destruct Hcur as [(_ & ? & _)|(Hr & Hsq & Hc & Hpend)]; [done|].
  destruct (send_chain Q q CQ text e Hsq Hlt Htext)
    as (Q' & m & Hsend & Hh & Hct & Hiv & Ho & Hs' & Hn & Hpn & Hrk & Hrecv & Hi & Hp).
  exists Q', m. split; [exact Hsend|]. pose proof Hrecv as Hr'. injection Hr' as E1 E2 E3 E4.
  split.
  { split; try done; [rewrite Hh; by exists q|by rewrite (sd_chain _ _ _ Hs')| |by rewrite Hh].
    split; [done|apply Hsq]. }
  split; try done.
  - lia.
  - apply Hs'.
  - apply Hs'.
  - apply Hs'.
  - by rewrite Hrk.
  - by apply (sent_fresh Q); [..|apply Hsq| | |].
  - destruct Holder as [(? & ? & ?)|(t & CT & Hrt & Htp & Hpt)].
    + left. split; [by eapply recv_idle_ext|by rewrite E1].
    + right. exists t, CT. split; [by eapply receiving_ext|]. split; [done|].
      by eapply pending_ext.
  - right. split; [done|]. split; [done|]. split; [lia|]. apply Forall_cons_2; [|done].
    intros _. cbn [snd]. rewrite Hh. cbn [h_n]. split; [|exact Ho].
    split; [pose proof (sd_count _ _ _ Hsq); lia|by left].
Qed.

(** *** Receiving *)

(** The order in which messages may arrive: any order within a chain, up to
    [MAX_SKIP] messages ahead, but no message of a chain that is over. *)
Definition deliverable (Y X : RatchetSession) (h : RatchetHeader) : Prop :=
  if is_string (h_rk h) (theirRatchetPublic Y) then h_n h ≤ count Y + MAX_SKIP
  else h_rk h = ourRatchetPublic X ∧ h_pn h ≤ count Y + MAX_SKIP ∧ h_n h ≤ MAX_SKIP.

(** A key that is a string is compared by its characters. *)
Lemma their_key_known made their rk : their = Some (JStr rk) → their_key_changed made their (Some (JStr rk)) = false.
Proof. intros ->. unfold their_key_changed. cbn. by rewrite bool_decide_true. Qed.

Lemma their_key_new made their rk : their ≠ Some (JStr rk) → their_key_changed made their (Some (JStr rk)) = true.
Proof.
  intros Hne. unfold their_key_changed. destruct their as [[]|]; try done. cbn.
  rewrite bool_decide_false; [done|]. congruence.
Qed.

Lemma in_flight_rest i f fs rest :
  fs ≡ₚ f :: rest → in_flight i fs →
  in_flight i rest ∧ Forall (λ g, rk_of g = rk_of f → n_of g ≠ n_of f) rest.
Proof.
  intros Hp [Hd Hi]. unfold in_flight.
  assert (NoDup (map (λ f, (rk_of f, n_of f)) (f :: rest))) as Hd'
    by by rewrite <-(fmap_Permutation _ _ _ Hp).
  rewrite Hp in Hi. apply Forall_cons_1 in Hi as [_ Hi]. cbn in Hd'.
  inversion Hd' as [|? ? Hn Hd2]; subst. split; [done|].
  apply List.Forall_forall. intros g Hg E1 E2. apply Hn.
  apply list_elem_of_fmap. exists g. split; [by rewrite E1, E2|by apply list_elem_of_In].
Qed.

(** Receiving a message of the current chain. *)
Lemma receive_current made s t C f rest e :
  receiving s t C → rk_of f = pub_text t → n_of f ≤ count s + MAX_SKIP →
  pending_on s t C f → Forall (pending_on s t C) rest →
  Forall (λ g, rk_of g = rk_of f → n_of g ≠ n_of f) rest →
  ∃ s', receive_value fuel made s (header_value (w_h f.2)) e = Ok (s', mkey C (n_of f), e) ∧
    opens (mkey C (n_of f)) f ∧ receiving s' t C ∧ send_side s' = send_side s ∧
    count s' = Z.max (count s) (n_of f + 1) ∧ Forall (pending_on s' t C) rest.
Proof.
  intros Hr Hrk Hn Hf Hrest Hne. destruct (Hf Hrk) as [Ha Ho].
  destruct (message_key_chain s t C (n_of f) Hr Ha Hn) as (s' & Hm & Hr' & Hside & Hc & Hk).
  exists s'. unfold receive_value, header_value. cbn [r_rk r_n r_pn].
  rewrite Hrk, their_key_known by by rewrite (rc_their _ _ _ Hr). rewrite Hm. split; [done|]. split; [done|]. split; [done|]. split; [done|]. split; [done|].
  rewrite !List.Forall_forall in *. intros g Hg Eg. destruct (Hrest g Hg Eg) as [Hga Hgo].
  split; [|done]. apply Hk; [|done]. apply Hne; [done|congruence].
Qed.

Lemma sent_on_ext s s' p C fs :
  send_side s' = send_side s → Forall (sent_on s p C) fs → Forall (sent_on s' p C) fs.
Proof.
  intros E. injection E as E1 E2 E3 E4 E5 E6 _ _. apply List.Forall_impl.
  intros f Hf Ht. unfold sent_on in *. rewrite E3, E4. by apply Hf.
Qed.

Lemma Forall_rest {A} (P : A → Prop) f fs rest :
  fs ≡ₚ f :: rest → Forall P fs → P f ∧ Forall P rest.
Proof. intros Hp H. rewrite Hp in H. by apply Forall_cons_1 in H. Qed.

(** The one ahead receives on the current chain. *)
Lemma ahead_receive made P Q e fPQ fQP p q CP CQ f rest :
  ahead P Q e fPQ fQP p q CP CQ → fQP ≡ₚ f :: rest → deliverable P Q (w_h f.2) →
  ∃ P' mk, receive_value fuel made P (header_value (w_h f.2)) e = Ok (P', mk, e) ∧ opens mk f ∧
    send_side P' = send_side P ∧ ahead P' Q e fPQ rest p q CP CQ.
Proof.
  intros [Hf Hs Ht Hpub Hpriv Hcount Hroot [Hfl Hfs] [Hbl Hbs] Holder Hcur] Hp Hd.
  destruct (in_flight_rest _ _ _ _ Hp Hbl) as [Hbl' Hne].
  destruct (Forall_rest _ _ _ _ Hp Hbs) as [Hbf Hbs'].
  destruct Hcur as [(_ & _ & ->)|(Hr & Hsq & Hc & Hpend)];
    [by apply Permutation_nil_cons in Hp|].
  destruct (Forall_rest _ _ _ _ Hp Hpend) as [Hpf Hpend'].
  assert (rk_of f = pub_text q ∧ n_of f ≤ count P + MAX_SKIP) as [Hrk Hn].
  { unfold deliverable in Hd. destruct (is_string _ _) eqn:E; [apply is_string_true in E; split; [congruence|done]|].
    destruct Hd as (E' & _). rewrite E', Hpub in E. by rewrite (proj2 (is_string_true _ _) Ht) in E. }
  destruct (receive_current made P q CQ f rest e Hr Hrk Hn Hpf Hpend' Hne)
    as (P' & Hrecv & Ho & Hr' & Hside & Hc' & Hpend'').
  exists P', (mkey CQ (n_of f)). split; [done|]. split; [done|]. split; [done|].
  pose proof Hside as Hside'. injection Hside' as E1 E2 E3 E4 E5 E6 E7 E8.
  split; try done.
  - by eapply sending_ext.
  - apply Hr'.
  - by rewrite E1.
  - split; [done|]. by eapply sent_on_ext.
  - right. split; [done|]. split; [done|]. split; [|done].
    destruct (Hbf Hrk) as (? & _). lia.
Qed.

(** The one behind receives on a chain it knows. *)
Lemma behind_receive_older made P Q e fPQ fQP p q CP CQ f rest :
  ahead P Q e fPQ fQP p q CP CQ → fPQ ≡ₚ f :: rest →
  theirRatchetPublic Q = Some (JStr (rk_of f)) → n_of f ≤ count Q + MAX_SKIP →
  ∃ Q' mk, receive_value fuel made Q (header_value (w_h f.2)) e = Ok (Q', mk, e) ∧ opens mk f ∧
    send_side Q' = send_side Q ∧ ahead P Q' e rest fQP p q CP CQ.
Proof.
  intros [Hf Hs Ht Hpub Hpriv Hcount Hroot [Hfl Hfs] [Hbl Hbs] Holder Hcur] Hp Hrk Hn.
  destruct (in_flight_rest _ _ _ _ Hp Hfl) as [Hfl' Hne].
  destruct (Forall_rest _ _ _ _ Hp Hfs) as [Hff Hfs'].
  destruct Holder as [(_ & Hnew & Hall)|(t & CT & Hr & Htp & Hpend)].
  { apply (Forall_rest _ _ _ _ Hp) in Hall as [E _]. by rewrite Hrk, E in Hnew. }
  destruct (Forall_rest _ _ _ _ Hp Hpend) as [Hpf Hpend'].
  assert (rk_of f = pub_text t) as Hrt by (rewrite (rc_their _ _ _ Hr) in Hrk; congruence).
  destruct (receive_current made Q t CT f rest e Hr Hrt Hn Hpf Hpend' Hne)
    as (Q' & Hrecv & Ho & Hr' & Hside & Hc' & Hpend'').
  exists Q', (mkey CT (n_of f)). split; [done|]. split; [done|]. split; [done|].
  pose proof Hside as Hside'. injection Hside' as E1 E2 E3 E4 E5 E6 E7 E8.
  split; try done.
  - congruence.
  - congruence.
  - by rewrite E3.
  - by rewrite E1.
  - split; [done|]. by eapply sent_on_ext.
  - right. by exists t, CT.
  - destruct Hcur as [(? & ? & ?)|(? & Hsq & ? & ?)]; [left; split; [done|]; split; congruence|right].
    rewrite E3. split; [done|]. split; [by eapply sending_ext|done].
Qed.

(** The one behind receives on the new chain: it makes the ratchet step and
    is the one ahead. *)
Lemma behind_receive_new made P Q e fPQ fQP p q CP CQ f rest :
  ahead P Q e fPQ fQP p q CP CQ → fPQ ≡ₚ f :: rest →
  theirRatchetPublic Q ≠ Some (JStr (rk_of f)) → rk_of f = ourRatchetPublic P →
  pn_of f ≤ count Q + MAX_SKIP → n_of f ≤ MAX_SKIP →
  ∃ Q' mk C, receive_value fuel made Q (header_value (w_h f.2)) e = Ok (Q', mk, S e) ∧ opens mk f ∧
    isInitiator Q' = isInitiator Q ∧ pendingPreKeyMsg Q' = pendingPreKeyMsg Q ∧
    ahead Q' P (S e) fQP rest e p C CP.
Proof.
  intros [Hf Hs Ht Hpub Hpriv Hcount Hroot [Hfl Hfs] [Hbl Hbs] Holder Hcur] Hp Hne Hrk Hpn Hn.
  rewrite (sd_public _ _ _ Hs) in Hrk.
  destruct (in_flight_rest _ _ _ _ Hp Hfl) as [Hfl' Hdist].
  destruct (Forall_rest _ _ _ _ Hp Hfs) as [Hff Hfs']. destruct (Hff Hrk) as (Hnf & Hpnf & Hof).
  rewrite (dh_secret_comm q p) in Hroot. rewrite (dh_secret_comm p q) in Hroot.
  pose proof reach_safe. destruct (ratchet_chain Q q p e (pn_of f) (rootKey P) CP Hpriv Hcount) as
    (Q1 & C' & Hrv & Hr1 & Hc1 & Hs1 & Hsc1 & Hps1 & Hroot1 & Hi1 & Hpd1); [rewrite Hpnf; apply Hs| |done|].
  { destruct Holder as [(? & _)|(t & CT & ? & ? & _)]; [by left|right]. by exists t, CT. }
  pose proof (sd_count _ _ _ Hs) as Hsc.
  assert (∀ m, 0 ≤ m < sendCount P → awaited Q1 p CP m) as Haw by (intros m ?; split; [lia|left; lia]).
  destruct (message_key_chain Q1 p CP (n_of f) Hr1) as (Q2 & Hm & Hr2 & Hside & Hc2 & Hk);
    [apply Haw; lia|unfold MAX_SKIP in *; lia|].
  exists Q2, (mkey CP (n_of f)), C'.
  injection (id Hside) as E1 E2 E3 E4 E5 E6 E7 E8. split; [|split; [done|]].
  { unfold receive_value, header_value. cbn [r_rk r_n r_pn]. rewrite their_key_new by done. rewrite Hrk, Hrv.
    cbn [mbind result_bind]. by rewrite Hm. }
  split; [congruence|]. split; [congruence|].
  split.
  - lia.
  - by eapply sending_ext.
  - apply Hr2.
  - apply Hs.
  - apply Hs.
  - apply Hs.
  - rewrite dh_secret_comm, E1. exact Hroot1.
  - split.
    + split; [apply Hbl|]. destruct Hbl as [_ Hbl]. eapply List.Forall_impl, Hbl.
      intros g (j & ? & ?). exists j. split; [done|lia].
    + destruct Hbl as [_ Hbl]. eapply List.Forall_impl, Hbl.
      intros g (j & Eg & ?) E. rewrite Eg in E. apply pub_text_inj in E. lia.
  - by split.
  - destruct Hcur as [(Hidle & _ & ->)|(Hr & Hsq & Hc & Hpend)].
    + left. split; [done|]. split; [|done]. rewrite Ht. intros [= E%pub_text_inj]. lia.
    + right. exists q, CQ. split; [done|]. split; [lia|done].
  - right. split; [done|]. split; [done|]. split; [lia|].
    rewrite !List.Forall_forall in *. intros g Hg Eg. destruct (Hfs' g Hg Eg) as (? & ? & ?).
    split; [|done]. apply Hk; [|apply Haw; lia]. apply Hdist; [done|congruence].
Qed.

(** *** The conversation *)

(** Sending on either side. *)
Lemma conversing_send A B e fAB fBA text :
  conversing A B e fAB fBA → sendChainKey A ≠ None → sendCount A < REACH → is_js text →
  ∃ A' m, send_value A text e = send_result A A' m ∧ sent A A' text m ∧
    conversing A' B (S e) ((text, m) :: fAB) fBA.
Proof.
  intros [(p & q & CP & CQ & Ha)|(p & q & CP & CQ & Ha)] Hc Hlt Ht.
  - destruct (ahead_send _ _ _ _ _ _ _ _ _ text Ha Hlt Ht) as (A' & m & ? & ? & ?).
    exists A', m. split; [done|]. split; [done|]. left. by exists p, q, CP, CQ.
  - destruct (behind_send _ _ _ _ _ _ _ _ _ text Ha Hc Hlt Ht) as (A' & m & ? & ? & ?).
    exists A', m. split; [done|]. split; [done|]. right. by exists p, q, CP, CQ.
Qed.

(** Receiving on either side: the message opens to its text. *)
Lemma conversing_receive made A B e fAB fBA f rest :
  conversing A B e fAB fBA → fAB ≡ₚ f :: rest → deliverable B A (w_h f.2) →
  ∃ B' mk e', receive_value fuel made B (header_value (w_h f.2)) e = Ok (B', mk, e') ∧ opens mk f ∧
    isInitiator B' = isInitiator B ∧ pendingPreKeyMsg B' = pendingPreKeyMsg B ∧
    (sendChainKey B ≠ None → sendChainKey B' ≠ None) ∧
    conversing A B' e' rest fBA.
Proof.
  intros [(p & q & CP & CQ & Ha)|(p & q & CP & CQ & Ha)] Hp Hd.
  - pose proof Hd as Hd'. unfold deliverable in Hd'. destruct (is_string _ _) eqn:E.
    + apply is_string_true in E. destruct (behind_receive_older made _ _ _ _ _ _ _ _ _ _ _ Ha Hp E Hd')
        as (B' & mk & ? & ? & Hside & ?). injection Hside as ? E2 ? ? ? ? ? ?.
      exists B', mk, e. rewrite E2. do 5 (split; [done|]). left. by exists p, q, CP, CQ.
    + destruct Hd' as (? & ? & ?).
      assert (theirRatchetPublic B ≠ Some (JStr (rk_of f))) as E' by (intros E'; by rewrite (proj2 (is_string_true _ _) E') in E).
      destruct (behind_receive_new made _ _ _ _ _ _ _ _ _ _ _ Ha Hp E') as (B' & mk & C & ? & ? & ? & ? & Ha');
        [done..|].
      exists B', mk, (S e). do 4 (split; [done|]). split; [by rewrite (sd_chain _ _ _ (ah_sending _ _ _ _ _ _ _ _ _ Ha'))|].
      right. by exists e, p, C, CP.
  - destruct (ahead_receive made _ _ _ _ _ _ _ _ _ _ _ Ha Hp Hd) as (B' & mk & ? & ? & Hside & ?).
    injection Hside as ? E2 ? ? ? ? ? ?.
    exists B', mk, e. rewrite E2. do 5 (split; [done|]). right. by exists p, q, CP, CQ.
Qed.

(** Losing a message. *)
Lemma conversing_lose A B e fAB fBA f rest :
  conversing A B e fAB fBA → fAB ≡ₚ f :: rest → conversing A B e rest fBA.
Proof.
  intros [(p & q & CP & CQ & Ha)|(p & q & CP & CQ & Ha)] Hp; [left|right];
    exists p, q, CP, CQ; destruct Ha as [? ? ? ? ? ? ? [Hf1 Hf2] [Hb1 Hb2] Ho Hc];
    (split; [done..| | | |]).
  - split; [by eapply in_flight_rest|by eapply Forall_rest].
  - by split.
  - destruct Ho as [(? & ? & ?)|(t & CT & ? & ? & ?)]; [left|right].
    + split; [done|]. split; [done|]. by eapply (Forall_rest _ _ _ _ Hp).
    + exists t, CT. split; [done|]. split; [done|]. by eapply (Forall_rest _ _ _ _ Hp).
  - done.
  - by split.
  - split; [by eapply in_flight_rest|by eapply Forall_rest].
  - done.
  - destruct Hc as [(? & ? & ->)|(? & ? & ? & ?)]; [by apply Permutation_nil_cons in Hp|right].
    split; [done|]. split; [done|]. split; [done|]. by eapply (Forall_rest _ _ _ _ Hp).
Qed.

(** ** Establishing a session *)

(** What the responder's session is before the first message makes it: the
    X3DH secret as root key, the signed pre-key as ratchet key, no chain. *)
Definition unborn (SK : list Z) (spk_public spk_private : jsstr) : RatchetSession :=
  mkSession (bufToHex SK) None None 0 (JNum 0) 0 spk_public spk_private None ∅ false None.

Lemma receive_value_known made s h e :
  theirRatchetPublic s = Some (JStr (h_rk h)) →
  receive_value fuel made s (header_value h) e =
    '(s, mk) ← message_key_value fuel s (Some (JStr (h_rk h))) (Some (JNum (h_n h))); mret (s, mk, e).
Proof. intros E. unfold receive_value. cbn [header_value r_rk r_n]. by rewrite their_key_known. Qed.

Lemma receive_value_new made s h e :
  theirRatchetPublic s ≠ Some (JStr (h_rk h)) →
  receive_value fuel made s (header_value h) e =
    s ← ratchet_value fuel s (Some (JStr (h_rk h))) (Some (JNum (h_pn h))) (dh_pair e);
    '(s, mk) ← message_key_value fuel s (Some (JStr (h_rk h))) (Some (JNum (h_n h))); mret (s, mk, S e).
Proof. intros E. unfold receive_value. cbn [header_value r_rk r_n r_pn]. by rewrite their_key_new. Qed.

Lemma ratchet_value_their s rk pn kp s' :
  ratchet_value fuel s rk pn kp = Ok s' → theirRatchetPublic s' = rk.
Proof.
  unfold ratchet_value. rewrite bind_Ok. intros (s1 & _ & H1). revert H1.
  rewrite bind_Ok. intros (d1 & _ & H2). revert H2.
  rewrite bind_Ok. intros ([rk1 ck1] & _ & H3). revert H3.
  rewrite bind_Ok. intros (d2 & _ & H4). revert H4.
  rewrite bind_Ok. intros ([rk2 ck2] & _ & H5). by injection H5 as <-.
Qed.

(** Making the session is one ratchet step of the unborn one. *)
Lemma responder_is_ratchet ik spk_pub spk_priv opk msg e SK pn :
  x3dhRespond (ik_privateKey ik) spk_priv opk (p_ik msg) (p_ek msg) = Ok SK →
  responder_value ik spk_priv opk (preKeyWire_json msg) e
  = ratchet_value fuel (unborn SK spk_pub spk_priv) (Some (JStr (h_rk (w_h (p_wire msg))))) pn (dh_pair e).
Proof.
  intros HSK. unfold responder_value.
  change (member_text (js "ik") (preKeyWire_json msg)) with (Ok (p_ik msg) : result jsstr).
  change (member_text (js "ek") (preKeyWire_json msg)) with (Ok (p_ek msg) : result jsstr).
  unfold x3dhRespond in HSK. rewrite HSK. unfold ratchet_value, skip_value.
  destruct msg as [???? [[rk n p] ??]]. cbn [mbind result_bind recvChainKey unborn nonempty ourRatchetPrivate rootKey].
  change (get_prop (js "h") (Some (preKeyWire_json ?m))) with (Ok (Some (header_json (w_h (p_wire m)))) : result value).
  cbn [mbind result_bind p_wire w_h].
  change (get_prop (js "rk") (Some (header_json (mkHeader rk n p)))) with (Ok (Some (JStr rk)) : result value).
  cbn [mbind result_bind value_toString json_toString h_rk].
  destruct (dh_of spk_priv _) as [d1|]; [|done]. cbn [mbind result_bind].
  destruct (kdfRootKey (bufToHex SK) d1) as [[rk1 ck1]|]; [|done]. cbn [mbind result_bind].
  destruct (dh_of _ _) as [d2|]; [|done]. cbn [mbind result_bind].
  destruct (kdfRootKey rk1 d2) as [[rk2 ck2]|]; [|done]. reflexivity.
Qed.

(** The bundle a user publishes: identity draw [ib], signed pre-key draw [sb]
    under id [spkId], and possibly a one-time pre-key. *)
Definition published (rid dev : Z) (ib sb : nat) (spkId : Z) (sig : jsstr)
    (opk : option (Z * nat)) : PreKeyBundle :=
  mkBundle rid dev (pub_text ib) (mkPublicSignedPreKey spkId (pub_text sb) sig)
    ((λ o, mkPublicPreKey o.1 (pub_text o.2)) <$> opk).

(** The initiator's session, facing the responder's unborn one. *)
Lemma initiator_ahead ia ib sb spkId sig opk rid dev e :
  (sb < e)%nat →
  ∃ A C, initiator_value (mkIdentity (pub_text ia) (jwk_text ia))
           (published rid dev ib sb spkId sig opk) e = Ok A ∧
    isInitiator A = true ∧ sendCount A = 0 ∧ prevSendCount A = 0 ∧
    pendingPreKeyMsg A
      = Some (mkPending (pub_text ia) (pub_text e) spkId (fst <$> opk)) ∧
    ahead A (unborn (x3dh_secret ia e ib sb (snd <$> opk)) (pub_text sb) (jwk_text sb))
      (S (S e)) [] [] (S e) sb C [].
Proof.
  intros Hsb. unfold initiator_value, published.
  cbn [ik_privateKey b_identityKey b_signedPreKey pspk_publicKey b_oneTimePreKey].
  destruct (x3dh_both ia e ib sb (snd <$> opk)) as (Hx & _ & _).
  replace (ppk_publicKey <$> ((λ o, mkPublicPreKey o.1 (pub_text o.2)) <$> opk))
    with (pub_text <$> (snd <$> opk)) by (by destruct opk).
  change (privateKeyJwk (dh_pair e)) with (jwk_text e). rewrite Hx. cbn [mbind result_bind].
  change (privateKeyJwk (dh_pair (S e))) with (jwk_text (S e)). rewrite dh_ok.
  cbn [mbind result_bind]. set (SK := x3dh_secret _ _ _ _ _).
  destruct (kdfRootKey_ok (bufToHex SK) (dh_secret (S e) sb)) as (rk & ck & Hk & _ & HC);
    [apply dh_secret_key|]. rewrite Hk. cbn [mbind result_bind mret result_ret].
  eexists _, ck. split; [reflexivity|]. do 3 (split; [done|]).
  split; [by destruct opk as [[]|]|]. split; cbn; try done.
  - lia.
  - by rewrite dh_secret_comm.
  - split; [|done]. split; [constructor|constructor].
  - split; [|done]. split; [constructor|constructor].
  - by left.
  - by left.
Qed.
End chains.

(** ** Forged numbers *)

Section forged.
Context `{SC : SubtleCrypto} `{!WebCryptoLaws SC} `{!FreshKeys SC} {numbers : Numbers} {odd_keys : OddKeys}.

(** A double whose successor is itself. *)
Definition STUCK : Z := -100000000000000000.

(** A header anyone can send: the current ratchet key with another number. *)
Definition forged_header (t : nat) (n : Z) : Received := header_value (mkHeader (pub_text t) n 0).

Lemma stuck_less x : Z.abs x ≤ SAFE → js_less (Some (JNum x)) (Some (JNum STUCK)) = Ok false.
Proof.
  intros Hx. unfold js_less. cbn [to_primitive mbind result_bind to_number]. rewrite integer_number_safe by done.
  change (integer_number STUCK) with (JNum STUCK). cbn. f_equal. apply Z.ltb_ge. unfold SAFE, STUCK in *. lia.
Qed.

Lemma stuck_rounds fuel s t ck :
  recvCount s = JNum STUCK → theirRatchetPublic s = Some (JStr (pub_text t)) → recvChainKey s = Some ck → is_hexkey ck →
  skip_rounds fuel s (Some (JNum (STUCK + 320))) = Throw out_of_fuel.
Proof.
  revert s ck. induction fuel as [|fuel IH]; intros s ck Hn Ht Hc Hck; cbn [skip_rounds]; rewrite Hn;
    change (js_less (Some (JNum STUCK)) (Some (JNum (STUCK + 320)))) with (Ok true : result bool);
    cbn [mbind result_bind]; [done|].
  unfold kdfRecvChain. rewrite Hc. cbn [throw_none mbind result_bind].
  destruct (kdfChainKey_ok ck Hck) as (mk & ck' & -> & _ & Hck'). cbn [mbind result_bind].
  rewrite Ht. cbn [skipped_name value_toString json_toString mbind result_bind].
  change (js_increment (JNum STUCK)) with (Ok (JNum STUCK) : result json). cbn [mbind result_bind].
  by eapply IH.
Qed.

(** What the two forged headers make of a session: the first is received, and the
    loop of the second outlasts any fuel. *)
Lemma forged_numbers s t C e :
  receiving s t C → skipped s = ∅ →
  ∃ s1 mk, recvCount s1 = JNum STUCK ∧
    (∀ fuel, receive_value fuel false s (forged_header t STUCK) e = Ok (s1, mk, e)) ∧
    ∀ fuel e', receive_value fuel false s1 (forged_header t (STUCK + 320)) e' = Throw out_of_fuel.
Proof.
  intros Hr Hs. pose proof (rc_count _ _ _ Hr) as Hc. pose proof reach_safe as Hreach.
  destruct (kdfChainKey_ok (chain C (Z.to_nat (count s)))) as (mk & ck & Hk & _ & Hck); [apply chain_hex, Hr|].
  exists (set_recvCount (JNum STUCK) (set_recvChainKey (Some ck) s)), mk.
  assert (∀ n, skipped_name (Some (JStr (pub_text t))) (Some (JNum n)) = Ok (pub_text t ++ [58] ++ integer_toString n))
    as Hname by done.
  split; [done|]. split; intros fuel; [|intros e']; unfold receive_value, forged_header, header_value; cbn [r_rk r_n r_pn h_rk h_n h_pn].
  - rewrite their_key_known by apply Hr. unfold message_key_value. rewrite Hname, Hs. cbn [mbind result_bind].
    rewrite lookup_empty. unfold skip_value. rewrite (rc_chain _ _ _ Hr), (rc_their _ _ _ Hr), truthy_pub.
    rewrite hexkey_nonempty by apply chain_hex, Hr. rewrite (rc_number _ _ _ Hr), (js_plus_safe (count s)) by lia.
    cbn [mbind result_bind]. rewrite stuck_less by lia. cbn [mbind result_bind].
    assert (skip_rounds fuel s (Some (JNum STUCK)) = Ok s) as ->
      by (destruct fuel; cbn [skip_rounds]; rewrite (rc_number _ _ _ Hr), stuck_less; (done || lia)).
    cbn [mbind result_bind]. rewrite (rc_chain _ _ _ Hr), hexkey_nonempty by apply chain_hex, Hr. rewrite Hk. reflexivity.
  - cbn [theirRatchetPublic set_recvCount set_recvChainKey]. rewrite their_key_known by apply Hr.
    unfold message_key_value. rewrite Hname. cbn [mbind result_bind skipped set_recvCount set_recvChainKey].
    rewrite Hs, lookup_empty. unfold skip_value. cbn [recvChainKey theirRatchetPublic recvCount set_recvCount set_recvChainKey].
    rewrite hexkey_nonempty by done. rewrite (rc_their _ _ _ Hr), truthy_pub.
    change (js_plus (Some (JNum STUCK)) MAX_SKIP) with (Ok (JNum (STUCK + 496)) : result json). cbn [mbind result_bind].
    change (js_less (Some (JNum (STUCK + 496))) (Some (JNum (STUCK + 320)))) with (Ok false : result bool).
    cbn [mbind result_bind]. by erewrite stuck_rounds; [|reflexivity|apply Hr|reflexivity|].
Qed.

(** C6: Two forged numbers stop a receiver for ever. The header of a message is not
    authenticated and its number is only cast: a type-2 message with the current
    ratchet key and the number -10^17 is accepted up to AES-GCM, and the session that
    is stored then has a receiving count that is a double whose successor is itself.
    When the next such message comes, with a number less than [MAX_SKIP] further on,
    [decrypt] is still in its loop after any number of rounds. It holds on any key
    store that honours the contract, whatever the ciphertexts are. *)
Theorem forged_numbers_never_end {K} `{KeyStoreContract K} fuel p (w : world K) v e s t C env1 msg1 env2 msg2 :
  idle w v e → v_sessions v !! p = Some s → receiving s t C → skipped s = ∅ →
  env_type env1 ≠ 1 → parse_envelope env1 = Ok msg1 → read_header msg1 = Ok (forged_header t STUCK) →
  env_type env2 ≠ 1 → parse_envelope env2 = Ok msg2 → read_header msg2 = Ok (forged_header t (STUCK + 320)) →
  wp (decrypt fuel p env1) w (λ _ w1,
    (∃ s1, idle w1 (set_sessions <[p := s1]> v) e ∧ recvCount s1 = JNum STUCK) ∧
    ∀ fuel', wp (decrypt fuel' p env2) w1 (λ r _, r = Throw out_of_fuel)).
Proof.
  intros Hi Hp Hr Hs T1 P1 R1 T2 P2 R2. destruct (forged_numbers s t C e Hr Hs) as (s1 & mk & Hn & H1 & H2).
  eapply wp_mono; [by apply (decrypt_runs fuel)|]. intros r w1. unfold decrypt_value, received.
  rewrite P1, (proj2 (Z.eqb_neq _ _) T1), Hp, R1. cbn [mbind result_bind]. rewrite H1. cbn [fmap result_fmap].
  intros [_ Hi1]. split; [by exists s1|]. intros fuel'. eapply wp_mono; [by apply (decrypt_runs fuel')|].
  intros r' w2. unfold decrypt_value, received. rewrite P2, (proj2 (Z.eqb_neq _ _) T2).
  assert (v_sessions (set_sessions <[p := s1]> v) !! p = Some s1) as -> by apply lookup_insert_eq.
  rewrite R2. cbn [mbind result_bind]. rewrite H2. cbn [fmap result_fmap]. by intros [-> _].
Qed.
End forged.
