(* ===== verification/System.v ===== *)
(** * Two devices and a network

    The session managers of two users, each with its own heap and key store,
    and a network that delivers, reorders and loses messages. Devices run the
    programs of Session.v; the theorems say what every delivered message opens
    to. The entropy of both devices is one sequence of draws, so that no two
    key pairs coincide. *)

From S2P Require Import Prelude JsString Utf Encoding Json Platform Dynamic Types Async Crypto KeyStore.
From S2P Require Import Session Ratchet.

(** A device: the user it talks to, its objects and its key store. *)
Record device (K : Type) := mkDevice { d_peer : jsstr; d_heap : heap; d_store : K }.
Arguments mkDevice {K} _ _ _.
Arguments d_peer {K} _.
Arguments d_heap {K} _.
Arguments d_store {K} _.

(** A message under way: the text it was made from and its envelope. *)
Abbreviation packet := (jsstr * EncryptedEnvelope)%type.

(** Alice, Bob, and the packets under way to each. *)
Record sys (K : Type) := mkSys {
  s_next : nat;
  s_alice : device K;
  s_bob : device K;
  s_toBob : list packet;
  s_toAlice : list packet;
}.
Arguments mkSys {K} _ _ _ _ _.
Arguments s_next {K} _.
Arguments s_alice {K} _.
Arguments s_bob {K} _.
Arguments s_toBob {K} _.
Arguments s_toAlice {K} _.

Inductive label :=
  | LSend (text : jsstr) (r : result EncryptedEnvelope)
  | LDeliver (text : jsstr) (r : result jsstr)
  | LLose.

(** The wire message an envelope was made from. *)
Definition text_at (k : jsstr) (v : json) : jsstr := match json_get k v with Some (JStr s) => s | _ => [] end.
Definition number_at (k : jsstr) (v : json) : Z := match json_get k v with Some (JNum n) => n | _ => 0 end.
Definition wire_in (v : json) : WireMessage :=
  let h := match json_get (js "h") v with Some h => h | None => JNull end in
  mkWire (mkHeader (text_at (js "rk") h) (number_at (js "n") h) (number_at (js "pn") h))
    (text_at (js "ct") v) (text_at (js "iv") v).
Definition wire_of (env : EncryptedEnvelope) : WireMessage :=
  wire_in (match parse_envelope env with Ok v => v | Throw _ => JNull end).

Lemma wire_in_wire m : wire_in (wire_json m) = m.
Proof. by destruct m as [[]]. Qed.
Lemma wire_in_preKey m : wire_in (preKeyWire_json m) = p_wire m.
Proof. by destruct m as [???? [[]]]. Qed.

(** Texts that survive UTF-8: well-formed, and not starting with a byte order mark. *)
Definition sendable (text : jsstr) : Prop :=
  is_js text ∧ well_formed text = true ∧ head text ≠ Some 65279.

Lemma sendable_roundtrip text : sendable text → text_decode (text_encode text) = text.
Proof. intros (? & ? & ?). by apply text_roundtrip. Qed.

Section system.
Context `{SC : SubtleCrypto} {numbers : Numbers} {odd_keys : OddKeys} (fuel : nat).
Context {K : Type} `{KeyStoreContract K}.

Definition world_of (e : nat) (d : device K) : world K := mkWorld e (d_heap d) (d_store d).
Definition device_of (peer : jsstr) (w : world K) : device K :=
  mkDevice peer (w_heap w) (w_store w).

Definition holds (d : device K) (v : ks_view) : Prop := ks_rep (d_store d) (d_heap d) v.

(** When a packet may arrive: between established sessions in the order of
    [deliverable]; at a device without a session, only the first message. *)
Definition arrives (receiver sender : device K) (env : EncryptedEnvelope) : Prop :=
  ∃ v, holds receiver v ∧
    match v_sessions v !! d_peer receiver with
    | None => env_type env = 1
    | Some s => ∃ v' s', holds sender v' ∧ v_sessions v' !! d_peer sender = Some s' ∧
        deliverable s s' (w_h (wire_of env))
    end.

(** A chain has room for another message: its number is a safe integer. *)
Definition room (sender : device K) : Prop :=
  ∀ v s, holds sender v → v_sessions v !! d_peer sender = Some s → sendCount s < REACH.

Definition swap (s : sys K) : sys K :=
  mkSys (s_next s) (s_bob s) (s_alice s) (s_toAlice s) (s_toBob s).

Inductive sys_step : sys K → label → sys K → Prop :=
  | step_send e a b toB toA text w r :
      sendable text → room a →
      run (encrypt (d_peer a) text) (world_of e a) = (w, r) →
      sys_step (mkSys e a b toB toA) (LSend text r)
        (mkSys (w_entropy w) (device_of (d_peer a) w) b
           (match r with Ok env => (text, env) :: toB | Throw _ => toB end) toA)
  | step_deliver e a b toB toA text env rest w r :
      toB ≡ₚ (text, env) :: rest → arrives b a env →
      run (decrypt fuel (d_peer b) env) (world_of e b) = (w, r) →
      sys_step (mkSys e a b toB toA) (LDeliver text r)
        (mkSys (w_entropy w) a (device_of (d_peer b) w) rest toA)
  | step_lose e a b toB toA p rest :
      toB ≡ₚ p :: rest →
      sys_step (mkSys e a b toB toA) LLose (mkSys e a b rest toA)
  | step_swap s l s' : sys_step (swap s) l (swap s') → sys_step s l s'.

Inductive reachable (s0 : sys K) : sys K → Prop :=
  | reach_refl : reachable s0 s0
  | reach_step s l s' : reachable s0 s → sys_step s l s' → reachable s0 s'.
End system.

(** ** What holds throughout *)

Section invariant.
Context `{SC : SubtleCrypto} `{!WebCryptoLaws SC} `{!FreshKeys SC}.
Context {numbers : Numbers} {odd_keys : OddKeys} {fuel : nat} `{!EnoughFuel fuel}.
Context {K : Type} `{KeyStoreContract K}.

Definition decode (p : packet) : jsstr * WireMessage := (p.1, wire_of p.2).

(** A packet of an established session. *)
Definition regular (p : packet) : Prop :=
  sendable p.1 ∧ env_type p.2 = 2 ∧ parse_envelope p.2 = Ok (wire_json (wire_of p.2)).

(** The packet that establishes the responder's session. *)
Definition first (ik ek : jsstr) (spkId : Z) (opkId : option Z) (p : packet) : Prop :=
  sendable p.1 ∧ env_type p.2 = 1 ∧ h_n (w_h (wire_of p.2)) = 0 ∧
  parse_envelope p.2 = Ok (preKeyWire_json (mkPreKeyWire ik ek spkId opkId (wire_of p.2))).

Definition established (s : sys K) : Prop :=
  let '(mkSys e a b toB toA) := s in
  ∃ va vb sa sb, holds a va ∧ holds b vb ∧
    v_sessions va !! d_peer a = Some sa ∧ v_sessions vb !! d_peer b = Some sb ∧
    pendingPreKeyMsg sa = None ∧ pendingPreKeyMsg sb = None ∧
    sendChainKey sa ≠ None ∧ sendChainKey sb ≠ None ∧
    conversing sa sb e (map decode toB) (map decode toA) ∧
    Forall regular toB ∧ Forall regular toA.

(** The keys a user holds: identity draw [i], signed pre-key draw [spk] under
    [spkId], and possibly a one-time pre-key. *)
Record keys_of (v : ks_view) (i spk : nat) (spkId : Z) (opk : option (Z * nat)) : Prop := {
  ko_identity : ∃ pub, v_identity v = Some (mkIdentity pub (jwk_text i));
  ko_spk : ∃ pub sig, v_signedPreKeys v !! spkId
    = Some (mkSignedPreKey (mkPreKey spkId pub (jwk_text spk)) sig);
  ko_opk : match opk with
           | Some (id, o) => Z.abs id ≤ SAFE ∧ ∃ pub, v_preKeys v !! id = Some (mkPreKey id pub (jwk_text o))
           | None => True
           end;
  ko_safe : Z.abs spkId ≤ SAFE;
}.

(** Alice has a session with Bob, who has none with her. *)
Definition half (s : sys K) : Prop :=
  let '(mkSys e a b toB toA) := s in
  ∃ va vb sa ia ea ib sb spkId opk p C,
    holds a va ∧ holds b vb ∧
    v_sessions va !! d_peer a = Some sa ∧ v_sessions vb !! d_peer b = None ∧
    keys_of vb ib sb spkId opk ∧
    isInitiator sa = true ∧ prevSendCount sa = 0 ∧
    pendingPreKeyMsg sa = (if sendCount sa =? 0
      then Some (mkPending (pub_text ia) (pub_text ea) spkId (fst <$> opk)) else None) ∧
    ahead sa (unborn (x3dh_secret ia ea ib sb (snd <$> opk)) (pub_text sb) (jwk_text sb)) e
      (map decode toB) [] p sb C [] ∧
    toA = [] ∧
    Forall (λ x, first (pub_text ia) (pub_text ea) spkId (fst <$> opk) x ∨
                 regular x ∧ h_n (w_h (wire_of x.2)) ≠ 0) toB.

Definition good (s : sys K) : Prop := established s ∨ half s ∨ half (swap s).

(** What a step reports in a good state. *)
Definition reported (l : label) : Prop :=
  match l with
  | LSend _ r => (∃ env, r = Ok env) ∨ (∃ p, r = Throw (no_session p))
  | LDeliver text r => r = Ok text
  | LLose => True
  end.

Lemma established_sym s : established s → established (swap s).
Proof.
  destruct s as [e a b toB toA]. intros (va & vb & sa & sb & ? & ? & ? & ? & ? & ? & ? & ? & ? & ? & ?).
  exists vb, va, sb, sa. do 8 (split; [done|]). split; [by apply conversing_sym|done].
Qed.

Lemma good_sym s : good s → good (swap s).
Proof.
  intros [?|[?|?]]; [left; by apply established_sym|right; right|right; by left].
  by destruct s.
Qed.

(** *** The envelopes *)

Lemma wire_bytes s s' text m : sent s s' text m → json_bytes (wire_json m) = true.
Proof.
  intros [(i & Hi) Hct Hiv _ _ _ _ _ _]. destruct m as [[rk n pn] ct iv].
  cbn [w_h w_ct w_iv h_rk] in Hi, Hct, Hiv. subst rk.
  pose proof (proj2 (is_bytes_check _) (pub_text_bytes i)) as H1. revert H1.
  generalize (pub_text i). intros rk H1. apply is_bytes_check in Hct, Hiv.
  unfold wire_json, wire_members, header_json.
  cbn [w_h w_ct w_iv h_rk h_n h_pn json_bytes forallb]. by rewrite H1, Hct, Hiv.
Qed.

Lemma preKeyWire_bytes i j spkId opkId m :
  json_bytes (wire_json m) = true →
  json_bytes (preKeyWire_json (mkPreKeyWire (pub_text i) (pub_text j) spkId opkId m)) = true.
Proof.
  pose proof (proj2 (is_bytes_check _) (pub_text_bytes i)) as H1. revert H1.
  pose proof (proj2 (is_bytes_check _) (pub_text_bytes j)) as H2. revert H2.
  generalize (pub_text i), (pub_text j). intros ik ek H1 H2. unfold wire_json, preKeyWire_json.
  cbn [p_ik p_ek p_spkId p_opkId p_wire json_bytes]. rewrite forallb_app. intros ->.
  rewrite andb_true_r. cbn [forallb json_bytes]. rewrite H1, H2. by destruct opkId.
Qed.

(** The packets of both kinds carry the wire message they were made from. *)
Lemma regular_packet s s' text m rid :
  sent s s' text m → sendable text →
  ∃ env, (λ c, mkEnvelope 2 c rid) <$> btoa (stringify (wire_json m)) = Ok env ∧
    regular (text, env) ∧ wire_of env = m.
Proof.
  intros Hm Ht. destruct (envelope_roundtrip (wire_json m) 2 rid) as (c & Hc & Hp);
    [by eapply wire_bytes|].
  exists (mkEnvelope 2 c rid). rewrite Hc. split; [done|].
  assert (wire_of (mkEnvelope 2 c rid) = m) as E
    by (unfold wire_of; by rewrite Hp, wire_in_wire).
  split; [|done]. split; [done|]. split; [done|]. cbn [snd]. by rewrite Hp, E.
Qed.

Lemma first_packet s s' text m rid i j spkId opkId :
  sent s s' text m → sendable text → h_n (w_h m) = 0 →
  ∃ env, (λ c, mkEnvelope 1 c rid) <$> btoa (stringify
      (preKeyWire_json (mkPreKeyWire (pub_text i) (pub_text j) spkId opkId m))) = Ok env ∧
    first (pub_text i) (pub_text j) spkId opkId (text, env) ∧ wire_of env = m.
Proof.
  intros Hm Ht Hn.
  destruct (envelope_roundtrip (preKeyWire_json (mkPreKeyWire (pub_text i) (pub_text j) spkId opkId m)) 1 rid)
    as (c & Hc & Hp); [by eapply preKeyWire_bytes, wire_bytes|].
  exists (mkEnvelope 1 c rid). rewrite Hc. split; [done|].
  assert (wire_of (mkEnvelope 1 c rid) = m) as E
    by (unfold wire_of; by rewrite Hp, wire_in_preKey).
  split; [|done]. split; [done|]. split; [done|]. cbn [snd]. rewrite Hp, E. by split.
Qed.

(** *** Sending *)

Lemma encrypt_run p text e (d : device K) v s :
  holds d v → v_sessions v !! p = Some s →
  ∃ w r, run (encrypt p text) (world_of e d) = (w, r) ∧ encrypted p v e (send_value s text e) r w.
Proof.
  intros Hv Hs. pose proof (encrypt_runs p text (world_of e d) v e) as Hr.
  rewrite Hs in Hr. unfold wp in Hr. destruct (run _ _) as [w r].
  exists w, r. split; [done|]. apply Hr. by split.
Qed.

Lemma send_established e a b toB toA text w r :
  established (mkSys e a b toB toA) → sendable text → room a →
  run (encrypt (d_peer a) text) (world_of e a) = (w, r) →
  ∃ env, r = Ok env ∧
    established (mkSys (w_entropy w) (device_of (d_peer a) w) b ((text, env) :: toB) toA).
Proof.
  intros (va & vb & sa & sb & Ha & Hb & Hsa & Hsb & Hpa & Hpb & Hca & Hcb & Hconv & HrB & HrA) Ht Hroom Hrun.
  destruct (encrypt_run (d_peer a) text e a va sa Ha Hsa) as (w' & r' & Hrun' & Henc).
  rewrite Hrun in Hrun'. injection Hrun' as <- <-.
  destruct (conversing_send _ _ _ _ _ text Hconv Hca (Hroom _ _ Ha Hsa)) as (sa' & m & Hsend & Hm & Hconv');
    [apply Ht|].
  assert (is_first sa = None) as Hfirst by (unfold is_first; by destruct (_ && _)).
  rewrite Hsend in Henc. unfold send_result in Henc. rewrite Hfirst in Henc.
  destruct Henc as [Hr [Hw He]].
  destruct (regular_packet sa sa' text m (nullish 0 (v_regId va)) Hm Ht) as (env & Henv & Hreg & Hwire).
  exists env. split; [by rewrite Hr|]. rewrite He.
  exists (set_sessions <[d_peer a := sa']> va), vb, sa', sb.
  split; [exact Hw|]. split; [done|]. split; [apply lookup_insert_eq|]. split; [done|].
  split; [by rewrite (st_pending _ _ _ _ Hm), Hfirst|]. split; [done|].
  split; [apply Hm|]. split; [done|]. split; [|split; [by apply Forall_cons_2|done]].
  cbn [map]. unfold decode at 1. cbn [fst snd]. by rewrite Hwire.
Qed.

Lemma send_half_alice e a b toB toA text w r :
  half (mkSys e a b toB toA) → sendable text → room a →
  run (encrypt (d_peer a) text) (world_of e a) = (w, r) →
  ∃ env, r = Ok env ∧
    half (mkSys (w_entropy w) (device_of (d_peer a) w) b ((text, env) :: toB) toA).
Proof.
  intros (va & vb & sa & ia & ea & ib & sb & spkId & opk & p & C & Ha & Hb & Hsa & Hsb & Hkeys &
    Hinit & Hprev & Hpend & Hahead & -> & Hfs) Ht Hroom Hrun.
  destruct (encrypt_run (d_peer a) text e a va sa Ha Hsa) as (w' & r' & Hrun' & Henc).
  rewrite Hrun in Hrun'. injection Hrun' as <- <-.
  destruct (ahead_send _ _ _ _ _ _ _ _ _ text Hahead (Hroom _ _ Ha Hsa)) as (sa' & m & Hsend & Hm & Hahead');
    [apply Ht|].
  rewrite Hsend in Henc. destruct (st_count _ _ _ _ Hm) as [Hn Hn0].
  assert (is_first sa = (if sendCount sa =? 0
      then Some (mkPending (pub_text ia) (pub_text ea) spkId (fst <$> opk)) else None)) as Hfirst.
  { unfold is_first. rewrite Hinit, Hpend. cbn [andb]. by destruct (sendCount sa =? 0). }
  assert (∃ env, r = Ok env ∧ wire_of env = m ∧
    (first (pub_text ia) (pub_text ea) spkId (fst <$> opk) (text, env) ∨
     regular (text, env) ∧ h_n (w_h m) ≠ 0) ∧
    idle w (set_sessions <[d_peer a := sa']> va) (S e)) as (env & -> & Hwire & Hpk & Hw & He).
  { unfold send_result in Henc. rewrite Hfirst in Henc. destruct (sendCount sa =? 0) eqn:E; zbool.
    - destruct Henc as [-> Hw]. cbn [pp_identityKey pp_ephemeralKey pp_spkId pp_opkId] in *.
      destruct (first_packet sa sa' text m (nullish 0 (v_regId va)) ia ea spkId (fst <$> opk))
        as (env & -> & ? & ?); [done..|by rewrite (st_number _ _ _ _ Hm)|].
      exists env. by eauto.
    - destruct Henc as [-> Hw].
      destruct (regular_packet sa sa' text m (nullish 0 (v_regId va)) Hm Ht) as (env & -> & ? & ?).
      exists env. rewrite (st_number _ _ _ _ Hm). by eauto 10. }
  exists env. split; [done|]. rewrite He.
  exists (set_sessions <[d_peer a := sa']> va), vb, sa', ia, ea, ib, sb, spkId, opk, p, C.
  split; [exact Hw|]. split; [done|]. split; [apply lookup_insert_eq|]. split; [done|].
  split; [done|]. split; [by rewrite (st_initiator _ _ _ _ Hm)|].
  split; [by rewrite (st_prev _ _ _ _ Hm)|].
  split; [|split; [|split; [done|]]].
  - rewrite (st_pending _ _ _ _ Hm), Hfirst, Hpend, Hn.
    destruct (sendCount sa =? 0) eqn:E; zbool; by zdecide.
  - cbn [map]. unfold decode at 1. cbn [fst snd]. by rewrite Hwire.
  - apply Forall_cons_2; [|done]. cbn [snd]. by rewrite Hwire.
Qed.

Lemma encrypt_no_session p text e (d : device K) v :
  holds d v → v_sessions v !! p = None →
  ∃ w, run (encrypt p text) (world_of e d) = (w, Throw (no_session p)) ∧ idle w v e.
Proof.
  intros Hv Hs.
  enough (wp (encrypt p text) (world_of e d) (λ r w, r = Throw (no_session p) ∧ idle w v e)) as Hw.
  { apply wp_run in Hw as (w & r & -> & -> & ?). eauto. }
  unfold encrypt. eapply (wp_load p _ _ v e); [by split|]. by rewrite Hs.
Qed.

Lemma send_half_bob e a b toB toA text w r :
  half (mkSys e a b toB toA) →
  run (encrypt (d_peer b) text) (world_of e b) = (w, r) →
  r = Throw (no_session (d_peer b)) ∧
  half (mkSys (w_entropy w) a (device_of (d_peer b) w) toB toA).
Proof.
  intros (va & vb & sa & ia & ea & ib & sb & spkId & opk & p & C & Ha & Hb & Hsa & Hsb & Hrest) Hrun.
  destruct (encrypt_no_session (d_peer b) text e b vb Hb Hsb) as (w' & Hrun' & Hw & He).
  rewrite Hrun in Hrun'. injection Hrun' as <- ->. split; [done|]. rewrite He.
  exists va, vb, sa, ia, ea, ib, sb, spkId, opk, p, C.
  split; [done|]. split; [exact Hw|]. done.
Qed.

(** *** Delivering *)

Lemma decrypt_run p env e (d : device K) v :
  holds d v →
  ∃ w r, run (decrypt fuel p env) (world_of e d) = (w, r) ∧
    match decrypt_value fuel p env v e with
    | (v1, Ok (m, (s', mk, e'))) =>
        r = open_message mk m ∧ idle w (set_sessions <[p := s']> v1) e'
    | (v1, Throw er) => r = Throw er ∧ ∃ v' e', idle w v' e' ∧ ks_touch p v1 v'
    end.
Proof.
  intros Hv. pose proof (decrypt_runs fuel p env (world_of e d) v e) as Hr.
  unfold wp in Hr. destruct (run _ _) as [w r]. exists w, r. split; [done|]. apply Hr. by split.
Qed.

Lemma map_decode_perm toB x rest : toB ≡ₚ x :: rest → map decode toB ≡ₚ decode x :: map decode rest.
Proof. apply (fmap_Permutation decode). Qed.

Lemma deliver_established e a b toB toA text env rest w r :
  established (mkSys e a b toB toA) → toB ≡ₚ (text, env) :: rest → arrives b a env →
  run (decrypt fuel (d_peer b) env) (world_of e b) = (w, r) →
  r = Ok text ∧
  established (mkSys (w_entropy w) a (device_of (d_peer b) w) rest toA).
Proof.
  intros (va & vb & sa & sb & Ha & Hb & Hsa & Hsb & Hpa & Hpb & Hca & Hcb & Hconv & HrB & HrA)
    Hp (vb' & Hb' & Harr) Hrun.
  rewrite (contract_functional _ _ _ _ Hb' Hb), Hsb in Harr.
  destruct Harr as (va' & sa' & Ha' & Hsa' & Hdel).
  rewrite (contract_functional _ _ _ _ Ha' Ha), Hsa in Hsa'. injection Hsa' as <-.
  apply (Forall_rest _ _ _ _ Hp) in HrB as [(Ht & Hty & Hparse) HrB].
  destruct (conversing_receive false _ _ _ _ _ _ _ Hconv (map_decode_perm _ _ _ Hp) Hdel)
    as (sb' & mk & e' & Hrecv & Ho & Hi' & Hp' & Hc' & Hconv').
  cbn [decode fst snd] in *.
  destruct (decrypt_run (d_peer b) env e b vb Hb) as (w' & r' & Hrun' & Hdec).
  rewrite Hrun in Hrun'. injection Hrun' as <- <-. unfold decrypt_value in Hdec.
  rewrite Hparse, Hty in Hdec.
  change (2 =? 1) with false in Hdec. cbv iota in Hdec. unfold received in Hdec.
  rewrite Hsb, read_header_wire in Hdec. cbn [mbind result_bind] in Hdec.
  rewrite Hrecv in Hdec. destruct Hdec as [Hr [Hw' He']].
  split; [by rewrite Hr, open_message_wire, Ho, sendable_roundtrip|]. rewrite He'.
  exists va, (set_sessions <[d_peer b := sb']> vb), sa, sb'.
  split; [done|]. split; [exact Hw'|]. split; [done|]. split; [apply lookup_insert_eq|].
  split; [done|]. split; [congruence|]. split; [done|]. split; [by apply Hc'|]. done.
Qed.

Lemma consume_keys v i spk spkId opk :
  keys_of v i spk spkId opk →
  ∃ v1, consume (Some (match fst <$> opk with Some n => JNum n | None => JNull end)) v
        = Ok (jwk_text <$> (snd <$> opk), v1).
Proof.
  intros [_ _ Ho _]. destruct opk as [[id o]|]; [|by eexists].
  destruct Ho as (Hid & pub & Hpub). eexists. unfold consume, keyed.
  cbn [fmap option_fmap option_map fst snd]. rewrite key_number_safe by done.
  cbn [mbind result_bind]. rewrite Hpub. reflexivity.
Qed.

(** A first message with a new ratchet key, accepted with the right keys,
    is received as by the unborn session. *)
Lemma accept_first v i spk spkId opk ia ea m e s' mk :
  keys_of v i spk spkId opk →
  let msg := mkPreKeyWire (pub_text ia) (pub_text ea) spkId (fst <$> opk) m in
  receive_value fuel true (unborn (x3dh_secret ia ea i spk (snd <$> opk)) (pub_text spk) (jwk_text spk))
    (header_value (w_h m)) e = Ok (s', mk, S e) →
  ∃ v1 s, accept_value (preKeyWire_json msg) v e = (v1, Ok s) ∧
    received fuel true s (preKeyWire_json msg) (S e) = Ok (s', mk, S e).
Proof.
  intros Hk msg Hr. unfold accept_value, addressed, received.
  destruct (ko_identity _ _ _ _ _ Hk) as [pub ->].
  destruct (ko_spk _ _ _ _ _ Hk) as (pub' & sig & Hspk).
  change (get_prop (js "spkId") (Some (preKeyWire_json msg))) with (Ok (Some (JNum spkId)) : result value).
  change (get_prop (js "opkId") (Some (preKeyWire_json msg)))
    with (Ok (Some (match fst <$> opk with Some n => JNum n | None => JNull end)) : result value).
  cbn [mbind result_bind]. unfold keyed. rewrite (key_number_safe spkId) by apply (ko_safe _ _ _ _ _ Hk).
  cbn [mbind result_bind]. rewrite Hspk. cbn [mbind result_bind].
  destruct (consume_keys _ _ _ _ _ Hk) as [v1 ->]. cbn [fmap result_fmap pk_privateKey spk_key].
  destruct (x3dh_both ia ea i spk (snd <$> opk)) as (_ & Hx & _).
  rewrite receive_value_new in Hr by done. apply bind_Ok in Hr as (s & Hrat & Hmk).
  exists v1, s. split.
  - f_equal. erewrite responder_is_ratchet; [exact Hrat|exact Hx].
  - rewrite read_header_preKey. cbn [mbind result_bind p_wire msg].
    rewrite receive_value_known; [exact Hmk|]. by eapply ratchet_value_their.
Qed.

(** The first packet establishes Bob's session. *)
Lemma deliver_half e a b toB toA text env rest w r :
  half (mkSys e a b toB toA) → toB ≡ₚ (text, env) :: rest → arrives b a env →
  run (decrypt fuel (d_peer b) env) (world_of e b) = (w, r) →
  r = Ok text ∧
  established (mkSys (w_entropy w) a (device_of (d_peer b) w) rest toA).
Proof.
  intros (va & vb & sa & ia & ea & ib & sb & spkId & opk & p & C & Ha & Hb & Hsa & Hsb & Hkeys &
    Hinit & Hprev & Hpend & Hahead & -> & Hfs) Hp (vb' & Hb' & Harr) Hrun.
  rewrite (contract_functional _ _ _ _ Hb' Hb), Hsb in Harr.
  apply (Forall_rest _ _ _ _ Hp) in Hfs as [[Hfst|[(_ & Hty & _) _]] Hfs];
    [|cbn [snd] in Hty; by rewrite Hty in Harr].
  destruct Hfst as (Ht & Hty & Hn & Hparse). cbn [fst snd] in *.
  destruct (in_flight_rest _ _ _ _ (map_decode_perm _ _ _ Hp) (proj1 (ah_forth _ _ _ _ _ _ _ _ _ Hahead)))
    as [_ Hdist].
  destruct (Forall_rest _ _ _ _ (map_decode_perm _ _ _ Hp) (proj2 (ah_forth _ _ _ _ _ _ _ _ _ Hahead)))
    as [Hsent _].
  assert (Forall (λ f, h_rk (w_h f.2) = pub_text p) (map decode toB)) as Hrks.
  { destruct (ah_older _ _ _ _ _ _ _ _ _ Hahead) as [(_ & _ & ?)|(t & CT & [Hth _ _ _ _] & _)]; [done|].
    by cbn in Hth. }
  apply (Forall_rest _ _ _ _ (map_decode_perm _ _ _ Hp)) in Hrks as [Hrk Hrks].
  destruct (Hsent Hrk) as (Hn0 & Hpn & _). cbn [decode fst snd] in *.
  pose proof (ah_sending _ _ _ _ _ _ _ _ _ Hahead) as Hsnd.
  destruct (behind_receive_new true _ _ _ _ _ _ _ _ _ _ _ Hahead (map_decode_perm _ _ _ Hp))
    as (Q & mk & C2 & Hrecv & Ho & Hi' & Hp' & Hahead'); try done.
  { cbn [decode snd]. by rewrite Hrk, (sd_public _ _ _ Hsnd). }
  { cbn [decode snd]. rewrite Hpn, Hprev. unfold MAX_SKIP. cbn. lia. }
  { cbn [decode snd]. rewrite Hn. unfold MAX_SKIP. lia. }
  cbn [decode snd fst] in *.
  destruct (decrypt_run (d_peer b) env e b vb Hb) as (w' & r' & Hrun' & Hdec).
  rewrite Hrun in Hrun'. injection Hrun' as <- <-. unfold decrypt_value in Hdec.
  rewrite Hparse, Hty in Hdec. change (1 =? 1) with true in Hdec. cbv iota in Hdec.
  destruct (accept_first _ _ _ _ _ ia ea (wire_of env) e Q mk Hkeys Hrecv) as (v1 & s0 & Hacc & Hrecv').
  rewrite Hacc in Hdec. rewrite Hrecv' in Hdec. destruct Hdec as [Hr [Hw' He']].
  split; [by rewrite Hr, open_message_preKey, Ho, sendable_roundtrip|]. rewrite He'.
  exists va, (set_sessions <[d_peer b := Q]> (set_sessions <[d_peer b := s0]> v1)), sa, Q.
  split; [done|]. split; [exact Hw'|]. split; [done|]. split; [apply lookup_insert_eq|].
  split; [rewrite Hpend; by zdecide|]. split; [done|].
  split; [by rewrite (sd_chain _ _ _ Hsnd)|].
  split; [by rewrite (sd_chain _ _ _ (ah_sending _ _ _ _ _ _ _ _ _ Hahead'))|].
  split; [right; by exists e, p, C2, C|]. split; [|done].
  rewrite !List.Forall_forall in *. intros x Hx.
  destruct (Hfs x Hx) as [(_ & _ & Hxn & _)|[? _]]; [|done]. exfalso.
  assert (In (decode x) (map decode rest)) as Hx' by by apply in_map.
  specialize (Hdist _ Hx'). specialize (Hrks _ Hx'). cbn [decode snd] in *.
  apply Hdist; congruence.
Qed.

(** *** Losing *)

Lemma lose_established e a b toB toA x rest :
  established (mkSys e a b toB toA) → toB ≡ₚ x :: rest → established (mkSys e a b rest toA).
Proof.
  intros (va & vb & sa & sb & ? & ? & ? & ? & ? & ? & ? & ? & Hconv & HrB & ?) Hp.
  exists va, vb, sa, sb. do 8 (split; [done|]).
  split; [by eapply conversing_lose, (map_decode_perm _ _ _ Hp)|].
  split; [by apply (Forall_rest _ _ _ _ Hp)|done].
Qed.

Lemma ahead_lose P Q e fPQ fQP p q CP CQ f rest :
  ahead P Q e fPQ fQP p q CP CQ → fPQ ≡ₚ f :: rest → ahead P Q e rest fQP p q CP CQ.
Proof.
  intros [? ? ? ? ? ? ? [? ?] ? Ho ?] Hp. split; try done.
  - split; [by eapply in_flight_rest|by eapply Forall_rest].
  - destruct Ho as [(? & ? & ?)|(t & CT & ? & ? & ?)]; [left|right].
    + split; [done|]. split; [done|]. by eapply (Forall_rest _ _ _ _ Hp).
    + exists t, CT. split; [done|]. split; [done|]. by eapply (Forall_rest _ _ _ _ Hp).
Qed.

Lemma lose_half e a b toB toA x rest :
  half (mkSys e a b toB toA) → toB ≡ₚ x :: rest → half (mkSys e a b rest toA).
Proof.
  intros (va & vb & sa & ia & ea & ib & sb & spkId & opk & p & C & ? & ? & ? & ? & ? &
    ? & ? & ? & Hahead & ? & Hfs) Hp.
  exists va, vb, sa, ia, ea, ib, sb, spkId, opk, p, C. do 8 (split; [done|]).
  split; [by eapply ahead_lose, (map_decode_perm _ _ _ Hp)|].
  split; [done|]. by apply (Forall_rest _ _ _ _ Hp).
Qed.

(** ** Every step from a good state is good *)

Lemma good_step s l s' : good s → sys_step fuel s l s' → good s' ∧ reported l.
Proof.
  intros Hg Hs. induction Hs as [e a b toB toA text w r Ht Hroom Hrun|e a b toB toA text env rest w r Hp Harr Hrun
    |e a b toB toA x rest Hp|s l s' Hs IH].
  - destruct Hg as [Hg|[Hg|Hg]].
    + destruct (send_established _ _ _ _ _ _ _ _ Hg Ht Hroom Hrun) as (env & -> & ?).
      split; [by left|]. left. eauto.
    + destruct (send_half_alice _ _ _ _ _ _ _ _ Hg Ht Hroom Hrun) as (env & -> & ?).
      split; [right; by left|]. left. eauto.
    + destruct (send_half_bob _ _ _ _ _ _ _ _ Hg Hrun) as (-> & ?).
      split; [right; by right|]. right. eauto.
  - destruct Hg as [Hg|[Hg|Hg]].
    + destruct (deliver_established _ _ _ _ _ _ _ _ _ _ Hg Hp Harr Hrun). split; [by left|done].
    + destruct (deliver_half _ _ _ _ _ _ _ _ _ _ Hg Hp Harr Hrun). split; [by left|done].
    + destruct Hg as (? & ? & ? & ? & ? & ? & ? & ? & ? & ? & ? & _ & _ & _ & _ & _ & _ & _ & _ & _ & E & _).
      cbn in E. subst toB. by apply Permutation_nil_cons in Hp.
  - split; [|done]. destruct Hg as [Hg|[Hg|Hg]].
    + left. by eapply lose_established.
    + right. left. by eapply lose_half.
    + destruct Hg as (? & ? & ? & ? & ? & ? & ? & ? & ? & ? & ? & _ & _ & _ & _ & _ & _ & _ & _ & _ & E & _).
      cbn in E. subst toB. by apply Permutation_nil_cons in Hp.
  - destruct (IH (good_sym _ Hg)) as [Hg' ?]. split; [|done].
    apply good_sym in Hg'. by destruct s'.
Qed.

Lemma good_reachable s0 s : good s0 → reachable fuel s0 s → good s.
Proof. intros Hg Hr. induction Hr; [done|]. by eapply good_step. Qed.

(** ** Starting a conversation *)

(** Alice, with identity draw [ia], holds Bob's published bundle; Bob holds its keys. *)
Record starting (a b : device K) (e ia ib sb : nat) (spkId : Z) (sig : jsstr)
    (opk : option (Z * nat)) : Prop := {
  su_alice : ∃ va, holds a va ∧
    v_identity va = Some (mkIdentity (pub_text ia) (jwk_text ia));
  su_bob : ∃ vb, holds b vb ∧ v_sessions vb !! d_peer b = None ∧ keys_of vb ib sb spkId opk;
  su_signed : verifyPreKey (pub_text ib) (pub_text sb) sig = true;
  su_fresh : (sb < e)%nat;
}.

Lemma start_half a b e ia ib sb spkId sig opk rid dev :
  starting a b e ia ib sb spkId sig opk →
  ∃ w, run (initSessionFromBundle (d_peer a) (published rid dev ib sb spkId sig opk)) (world_of e a)
         = (w, Ok tt) ∧
    half (mkSys (w_entropy w) (device_of (d_peer a) w) b [] []).
Proof.
  intros [(va & Ha & Hia) (vb & Hb & Hn & Hk) Hver Hf].
  pose proof (initSessionFromBundle_runs (d_peer a) (published rid dev ib sb spkId sig opk)
    (world_of e a) va e ltac:(by split)) as Hr.
  set (bundle := published rid dev ib sb spkId sig opk) in *.
  change (verifyPreKey (b_identityKey bundle) (pspk_publicKey (b_signedPreKey bundle))
    (pspk_signature (b_signedPreKey bundle))) with (verifyPreKey (pub_text ib) (pub_text sb) sig) in Hr.
  rewrite Hver, Hia in Hr.
  destruct (initiator_ahead ia ib sb spkId sig opk rid dev e Hf)
    as (A & C & Hinit & Hi & Hc & Hp & Hpd & Hahead).
  fold bundle in Hinit. rewrite Hinit in Hr.
  apply wp_run in Hr as (w & r & Hrun & -> & [Hw He]). exists w. split; [exact Hrun|].
  rewrite He. exists (set_sessions <[d_peer a := A]> va), vb, A, ia, e, ib, sb, spkId, opk, (S e), C.
  split; [exact Hw|]. split; [done|]. split; [apply lookup_insert_eq|]. split; [done|].
  split; [done|]. split; [done|]. split; [done|]. split; [by rewrite Hpd, Hc|].
  split; [exact Hahead|]. by split.
Qed.
End invariant.

(** ** Properties *)

Section properties.
Context `{SC : SubtleCrypto} `{!WebCryptoLaws SC} `{!FreshKeys SC}.
Context {numbers : Numbers} {odd_keys : OddKeys} {fuel : nat} `{!EnoughFuel fuel}.
Context {K : Type} `{KeyStoreContract K}.

(** C1: A conversation works. Alice sets up a session from Bob's published bundle;
    from then on the two send well-formed texts that do not begin with a byte order
    mark, and the network delays, loses and reorders packets: within a ratchet
    chain in any order up to [MAX_SKIP] messages ahead, but none of a chain after
    one of a newer chain, and the first that Bob gets is a packet of type 1. Then
    every delivered packet decrypts to exactly the text that was sent, and
    [encrypt] fails only where there is no session yet. A chain has fewer than
    2^53 - 500 messages ([room]). It holds for every lawful platform and every key
    store that honours the contract, and needs no more than [MAX_SKIP] rounds of a
    loop. *)
Theorem conversation_delivers (a b : device K) e ia ib sb spkId sig opk rid dev :
  starting a b e ia ib sb spkId sig opk →
  ∃ w, run (initSessionFromBundle (d_peer a) (published rid dev ib sb spkId sig opk))
           (world_of e a) = (w, Ok tt) ∧
    ∀ s l s', reachable fuel (mkSys (w_entropy w) (device_of (d_peer a) w) b [] []) s →
      sys_step fuel s l s' →
      match l with
      | LSend _ r => (∃ env, r = Ok env) ∨ (∃ p, r = Throw (no_session p))
      | LDeliver text r => r = Ok text
      | LLose => True
      end.
Proof.
  intros Hst. destruct (start_half a b e ia ib sb spkId sig opk rid dev Hst) as (w & Hrun & Hh).
  exists w. split; [done|]. intros s l s' Hr Hs.
  eapply (good_step s l s'); [|done]. eapply good_reachable; [|exact Hr]. right. by left.
Qed.
End properties.
