(* ===== verification/Scenario.v ===== *)
(** * Concrete runs

    The session managers of two users over a concrete platform and the
    IndexedDB store, evaluated. *)

From S2P Require Import Prelude JsString Utf Encoding Json Platform Dynamic Types Async Crypto Toy KeyStore Session.

(** The runs read integers only. *)
#[global] Instance plain_doubles : Doubles :=
  {| double_toString := id; double_is_zero := λ _, false; double_eqb := λ a b, bool_decide (a = b) |}.
#[global] Instance plain_numbers : Numbers :=
  {| double_integer := λ _, None; double_plus := λ l _, JFrac l; double_ltb := λ _ _, false;
     string_toNumber := λ _, NaN |}.
(** IndexedDB refuses what is no key. *)
#[global] Instance plain_keys : OddKeys :=
  λ v, match v with Some (JStr _) | Some (JFrac _) => None | _ => Some DataError end.

(** The keys a new user makes and publishes: an identity, a signed pre-key
    under id 1 and a one-time pre-key under id 7. *)
Definition register : prog PreKeyBundle :=
  let! ik := await_call generateIdentityKeyPair in
  await_ks (saveIdentityKeyPair ik) ;;;
  await_ks (saveLocalRegistrationId 5) ;;;
  let! spk := await_call (generateSignedPreKeyPair 1 (ik_privateKey ik)) in
  await_ks (storeSignedPreKey spk) ;;;
  let! opk := await_call (generatePreKeyPair 7) in
  await_ks (storePreKey opk) ;;;
  ret (mkBundle 5 1 (ik_publicKey ik)
         (mkPublicSignedPreKey 1 (pk_publicKey (spk_key spk)) (spk_signature spk))
         (Some (mkPublicPreKey 7 (pk_publicKey opk)))).

(** Two users whose programs run one after the other, from one sequence of draws. *)
Record users := mkUsers { u_entropy : nat; u_alice : heap * Idb.IndexedDb; u_bob : heap * Idb.IndexedDb }.

Definition nobody : users := mkUsers 0 (∅, Idb.new) (∅, Idb.new).

Definition as_alice {A} (p : prog A) (u : users) : result A * users :=
  let '(w, r) := run p (mkWorld (u_entropy u) (u_alice u).1 (u_alice u).2) in
  (r, mkUsers (w_entropy w) (w_heap w, w_store w) (u_bob u)).
Definition as_bob {A} (p : prog A) (u : users) : result A * users :=
  let '(w, r) := run p (mkWorld (u_entropy u) (u_bob u).1 (u_bob u).2) in
  (r, mkUsers (w_entropy w) (u_alice u) (w_heap w, w_store w)).

Definition bind_users {A B} (x : result A * users) (k : A → users → B) (d : B) : B :=
  match x with (Ok a, u) => k a u | (Throw _, _) => d end.
Notation "'let@' a , u := x 'in' y" := (bind_users x (λ a u, y) None)
  (at level 200, a pattern, u name, x at level 100, y at level 200).

Definition alice : jsstr := js "alice".
Definition bob : jsstr := js "bob".

(** Both users registered, and Alice's session with Bob. *)
Definition started {B} (k : users → option B) : option B :=
  let@ _, u := as_alice register nobody in
  let@ bundle, u := as_bob register u in
  let@ _, u := as_alice (initSessionFromBundle bob bundle) u in
  k u.

(** Alice's first message, delivered. *)
Definition introduced {B} (k : users → option B) : option B :=
  started (λ u,
    let@ m, u := as_alice (encrypt bob (js "hello")) u in
    let@ _, u := as_bob (decrypt 500 alice m) u in
    k u).

(** A type-1 envelope anyone who knows Bob's signed pre-key id can make: fresh
    public keys and a ciphertext that is no encryption at all. *)
Definition forged : EncryptedEnvelope :=
  let payload := preKeyWire_json (mkPreKeyWire (pub_text 100) (pub_text 101) 1 None
    (mkWire (mkHeader (pub_text 102) 0 0) (bufToBase64 (replicate 20 0))
       (bufToBase64 (replicate 12 0)))) in
  mkEnvelope 1 (match btoa (stringify payload) with Ok c => c | Throw _ => [] end) 5.

(** The message number in an envelope. *)
Definition number_of (r : result EncryptedEnvelope) : option Z :=
  match r with
  | Ok env => match parse_envelope env ≫= read_header with
              | Ok (mkReceived _ (Some (JNum n)) _) => Some n
              | _ => None
              end
  | Throw _ => None
  end.

Definition finished {A} (p : prog A) : option (result A) :=
  match p with Ret r => Some r | Vis _ _ => None end.

(** Two tasks of Alice taking turns at every [await]. *)
Definition alternating : list nat := concat (replicate 20 [0%nat; 1%nat]).

(** ** Properties *)

(** A registration, session setup and two-way exchange run to the end:
    Bob reads Alice's type-1 message, answers, and Alice reads the answer. *)
Theorem exchange_runs :
  introduced (λ u,
    let@ m, u := as_bob (encrypt alice (js "hi")) u in
    let '(r, _) := as_alice (decrypt 500 bob m) u in Some (env_type m, r))
  = Some (2, Ok (js "hi")).
Proof. vm_compute. reflexivity. Qed.

(** A message of a chain that is over breaks the session. Alice's second
    message is delayed until Bob has received one of her next chain; it is still
    decrypted, with its saved key, but [decrypt] has made a ratchet step back
    to the old key first, and Alice's following message no longer decrypts. *)
Theorem late_message_breaks_session :
  introduced (λ u,
    let@ late, u := as_alice (encrypt bob (js "two")) u in
    let@ answer, u := as_bob (encrypt alice (js "answer")) u in
    let@ _, u := as_alice (decrypt 500 bob answer) u in
    let@ m3, u := as_alice (encrypt bob (js "three")) u in
    let@ m4, u := as_alice (encrypt bob (js "four")) u in
    let@ _, u := as_bob (decrypt 500 alice m3) u in
    let '(r_late, u) := as_bob (decrypt 500 alice late) u in
    let '(r_next, _) := as_bob (decrypt 500 alice m4) u in
    Some (r_late, r_next))
  = Some (Ok (js "two"), Throw OperationError).
Proof. vm_compute. reflexivity. Qed.

(** A replayed message breaks the session. The second delivery of a message
    is refused, but only by AES-GCM, after the receiving chain was advanced and
    stored; the next message the sender makes can no longer be decrypted. *)
Theorem replay_breaks_session :
  introduced (λ u,
    let@ m2, u := as_alice (encrypt bob (js "two")) u in
    let@ m3, u := as_alice (encrypt bob (js "three")) u in
    let@ _, u := as_bob (decrypt 500 alice m2) u in
    let '(r_replay, u) := as_bob (decrypt 500 alice m2) u in
    let '(r_next, _) := as_bob (decrypt 500 alice m3) u in
    Some (r_replay, r_next))
  = Some (Throw OperationError, Throw OperationError).
Proof. vm_compute. reflexivity. Qed.

(** An unauthenticated type-1 envelope replaces an established session.
    [decrypt] rejects the forged envelope, but has already stored the session it
    made from it, and Alice's next message cannot be decrypted. *)
Theorem forged_first_message_replaces_session :
  introduced (λ u,
    let '(r_forged, u) := as_bob (decrypt 500 alice forged) u in
    let@ m2, u := as_alice (encrypt bob (js "two")) u in
    let '(r_next, _) := as_bob (decrypt 500 alice m2) u in
    Some (r_forged, r_next))
  = Some (Throw OperationError, Throw OperationError).
Proof. vm_compute. reflexivity. Qed.

(** Two [encrypt] calls for the same peer that overlap use the same message
    number, hence the same message key: both load the session before either
    stores it. *)
Theorem overlapping_encrypts_reuse_number :
  introduced (λ u,
    let '(_, ps) := run_schedule alternating
      [encrypt bob (js "x"); encrypt bob (js "y")]
      (mkWorld (u_entropy u) (u_alice u).1 (u_alice u).2) in
    Some (map (λ p, finished p ≫= number_of) ps))
  = Some [Some 1; Some 1].
Proof. vm_compute. reflexivity. Qed.
