(* ===== verification/AuthStore.v ===== *)
(** * authStore.ts: the signed-in session

    apps/web/src/stores/authStore.ts. The store's [set] replaces the session by
    a new object each time, and the socket hook compares sessions by identity,
    so a session is kept with the identity of its object. What the
    [persist] middleware around the store writes and restores is in Persist. *)

From S2P Require Import Prelude JsString Json Platform Types.

Inductive Tier := free | plus.

#[global] Instance Tier_eq_dec : EqDecision Tier.
Proof. solve_decision. Defined.

(** Numbers are kept as the JSON numbers they came as. *)
Record SupporterState := mkSupporter {
  tier : Tier;
  purchasedExtras : list jsstr;
  buddyCap : option json;
  buddyUsed : json;
  groupChatUnlocked : bool;
  supporterExpiresAt : option jsstr;
}.

Record Session := mkSession {
  token : jsstr;
  profile : OwnProfile;
  supporter : SupporterState;
}.

(** The current session object and the identity the next one gets. *)
Record AuthState := mkAuth {
  session : option (nat * Session);
  nextObject : nat;
}.

Definition emptyAuth : AuthState := mkAuth None 0.

Definition defaultSupporterState : SupporterState := mkSupporter free [] None (JNum 0) false None.

(** [set({ session: {...} })] *)
Definition set_session (s : Session) (st : AuthState) : AuthState :=
  mkAuth (Some (nextObject st, s)) (S (nextObject st)).

Definition login (token : jsstr) (profile : OwnProfile) (st : AuthState) : AuthState :=
  set_session (mkSession token profile defaultSupporterState) st.

Definition logout (st : AuthState) : AuthState := mkAuth None (nextObject st).

(** [Partial<OwnProfile>]: a property is there or not. *)
Record PartialProfile := mkPartialProfile {
  p_winkdId : option jsstr;
  p_displayName : option jsstr;
  p_moodMessage : option jsstr;
  p_status : option UserStatus;
  p_avatarData : option (option jsstr);
  p_sessionToken : option jsstr;
}.

(** [{ ...profile, ...partial }] *)
Definition profile_spread (p : OwnProfile) (q : PartialProfile) : OwnProfile :=
  let u := own_profile p in
  mkOwnProfile
    (mkUserProfile (nullish (winkdId u) (p_winkdId q)) (nullish (displayName u) (p_displayName q))
       (nullish (moodMessage u) (p_moodMessage q)) (nullish (status u) (p_status q))
       (nullish (avatarData u) (p_avatarData q)))
    (nullish (own_sessionToken p) (p_sessionToken q)).

Definition updateProfile (partial : PartialProfile) (st : AuthState) : AuthState :=
  match session st with
  | None => st
  | Some (_, s) => set_session (mkSession (token s) (profile_spread (profile s) partial) (supporter s)) st
  end.

(** The only caller passes every property. *)
Definition setSupporterState (s : SupporterState) (st : AuthState) : AuthState :=
  match session st with
  | None => st
  | Some (_, old) => set_session (mkSession (token old) (profile old) s) st
  end.

(** ** Identities

    A session object is never younger than the counter, so every replacement
    is a different object. *)

Definition fresh_objects (st : AuthState) : Prop :=
  ∀ i s, session st = Some (i, s) → (i < nextObject st)%nat.

Lemma fresh_empty : fresh_objects emptyAuth.
Proof. done. Qed.

Lemma set_session_fresh s st : fresh_objects (set_session s st).
Proof. intros i s' [= <- <-]. cbn. lia. Qed.

Lemma setSupporterState_session s st i old :
  session st = Some (i, old) →
  session (setSupporterState s st) = Some (nextObject st, mkSession (token old) (profile old) s).
Proof. intros H. unfold setSupporterState. by rewrite H. Qed.

Lemma setSupporterState_fresh s st : fresh_objects st → fresh_objects (setSupporterState s st).
Proof.
  intros Hf. unfold setSupporterState. destruct (session st) as [[i old]|] eqn:E; [apply set_session_fresh|].
  intros j q. rewrite E. done.
Qed.
