(* ===== verification/Persist.v ===== *)
(** * The persisted session

    The auth store of apps/web/src/stores/authStore.ts is wrapped in zustand's
    [persist] under the name [winkd-auth]. The middleware is a third-party package
    and a class here, with its documented behaviour as laws: every [set] writes
    [JSON.stringify({ state, version: 0 })], where the store's actions, being
    functions, are left out; and when the page is loaded the stored [state] is
    merged over the initial one, if it has this version: another is discarded,
    since the store gives no [migrate]. An instance that can be evaluated obeys them. *)

From S2P Require Import Prelude JsString Json Platform Types AuthStore.

(** ** The state as JSON *)

Definition status_json (s : UserStatus) : json :=
  JStr (match s with
        | online => js "online" | away => js "away" | busy => js "busy" | invisible => js "invisible"
        end).

Definition or_null {A} (f : A → json) (o : option A) : json :=
  match o with Some a => f a | None => JNull end.

Definition profile_json (p : OwnProfile) : json :=
  let u := own_profile p in
  JObj [(js "winkdId", JStr (winkdId u)); (js "displayName", JStr (displayName u));
        (js "moodMessage", JStr (moodMessage u)); (js "status", status_json (status u));
        (js "avatarData", or_null JStr (avatarData u));
        (js "sessionToken", JStr (own_sessionToken p))].

Definition supporter_json (s : SupporterState) : json :=
  JObj [(js "tier", JStr (match tier s with free => js "free" | plus => js "plus" end));
        (js "purchasedExtras", JArr (map JStr (purchasedExtras s)));
        (js "buddyCap", or_null id (buddyCap s)); (js "buddyUsed", buddyUsed s);
        (js "groupChatUnlocked", JBool (groupChatUnlocked s));
        (js "supporterExpiresAt", or_null JStr (supporterExpiresAt s))].

Definition session_json (s : Session) : json :=
  JObj [(js "token", JStr (token s)); (js "profile", profile_json (profile s));
        (js "supporter", supporter_json (supporter s))].

Definition persisted_state (s : option Session) : json :=
  JObj [(js "state", JObj [(js "session", or_null session_json s)]); (js "version", JNum 0)].

Definition persisted (s : Session) : json := persisted_state (Some s).

(** [existing?.state?.session] of a parsed text. *)
Definition stored_session (v : json) : value := json_get (js "state") v ≫= json_get (js "session").

(** The version number of a parsed text. *)
Definition stored_version (v : json) : value := json_get (js "version") v.

(** A number, or nothing, is never null. *)
Definition session_typed (s : Session) : Prop := buddyCap (supporter s) ≠ Some JNull.

(** The session can be written and read back. *)
Definition storable_session (o : option Session) : Prop :=
  ∀ s, o = Some s → session_typed s ∧ json_ok (persisted s) = true.

(** ** The middleware *)

Class Persist := {
  written : option Session → jsstr;              (** what a [set] leaves in the storage *)
  hydrate : option jsstr → option Session;       (** what a load takes from it *)
}.

Class PersistLaws {P : Persist} : Prop := {
  law_written s : written s = stringify (persisted_state s);
  law_empty : hydrate None = None;
  law_restored raw v s :
    parse_json raw = Ok v → stored_version v = Some (JNum 0) →
    stored_session v = Some (session_json s) → session_typed s → hydrate (Some raw) = Some s;
  law_null raw v :
    parse_json raw = Ok v → stored_version v = Some (JNum 0) → stored_session v = Some JNull → hydrate (Some raw) = None;
  law_object raw v l :
    parse_json raw = Ok v → stored_version v = Some (JNum 0) → stored_session v = Some (JObj l) →
    is_Some (hydrate (Some raw));
  law_discarded raw v n :
    parse_json raw = Ok v → stored_version v = Some (JNum n) → n ≠ 0 → hydrate (Some raw) = None;
}.

(** What was written is read back. *)
Lemma hydrate_written `{PersistLaws} o : storable_session o → hydrate (Some (written o)) = o.
Proof.
  intros Ho. rewrite law_written. destruct o as [s|].
  - destruct (Ho s eq_refl) as [Ht Hj]. by eapply law_restored; [apply json_roundtrip|reflexivity..|].
  - eapply law_null; [by apply json_roundtrip|reflexivity..].
Qed.

(** ** An instance *)

Module Documented.

Definition text_of (v : value) : jsstr := default [] (v ≫= as_str).

Definition decode_status (v : value) : UserStatus :=
  if is_string (js "away") v then away
  else if is_string (js "busy") v then busy
  else if is_string (js "invisible") v then invisible
  else online.

Definition decode_profile (v : json) : OwnProfile :=
  let get k := json_get k v in
  mkOwnProfile
    (mkUserProfile (text_of (get (js "winkdId"))) (text_of (get (js "displayName")))
       (text_of (get (js "moodMessage"))) (decode_status (get (js "status")))
       (get (js "avatarData") ≫= as_str))
    (text_of (get (js "sessionToken"))).

Definition decode_supporter (v : json) : SupporterState :=
  let get k := json_get k v in
  mkSupporter (if is_string (js "plus") (get (js "tier")) then plus else free)
    (match get (js "purchasedExtras") with Some (JArr l) => omap as_str l | _ => [] end)
    (match get (js "buddyCap") with Some JNull => None | o => o end)
    (default JNull (get (js "buddyUsed")))
    (match get (js "groupChatUnlocked") with Some (JBool b) => b | _ => false end)
    (get (js "supporterExpiresAt") ≫= as_str).

Definition decode_session (v : json) : Session :=
  let get k := default JNull (json_get k v) in
  mkSession (text_of (json_get (js "token") v)) (decode_profile (get (js "profile")))
    (decode_supporter (get (js "supporter"))).

#[global] Instance persist : Persist := {
  written s := stringify (persisted_state s);
  hydrate raw :=
    match raw with
    | Some raw =>
        match parse_json raw with
        | Ok v =>
            if match stored_version v with Some (JNum n) => n =? 0 | Some (JFrac _) => false | _ => true end then
              match stored_session v with Some (JObj l) => Some (decode_session (JObj l)) | _ => None end
            else None
        | Throw _ => None
        end
    | None => None
    end;
}.

Lemma decode_profile_json p : decode_profile (profile_json p) = p.
Proof. by destruct p as [[w d m [] []] tok]. Qed.

Lemma decode_supporter_json u : buddyCap u ≠ Some JNull → decode_supporter (supporter_json u) = u.
Proof.
  destruct u as [ti ex cap used g e]. cbn [buddyCap]. intros Hc.
  assert (omap as_str (map JStr ex) = ex) as Hex by (induction ex as [|x ex IH]; [done|cbn; by rewrite IH]).
  unfold decode_supporter.
  assert (json_get (js "purchasedExtras") (supporter_json (mkSupporter ti ex cap used g e)) = Some (JArr (map JStr ex)))
    as -> by done.
  cbv beta zeta. rewrite Hex. by destruct ti, cap as [[]|], e.
Qed.

Lemma decode_encode s : session_typed s → decode_session (session_json s) = s.
Proof.
  destruct s as [t p u]. intros Hc.
  change (mkSession t (decode_profile (profile_json p)) (decode_supporter (supporter_json u)) = mkSession t p u).
  by rewrite decode_profile_json, decode_supporter_json.
Qed.

#[global] Instance persist_laws : PersistLaws.
Proof.
  split.
  - done.
  - done.
  - intros raw v s Hp Hv Hs Ht. cbn. rewrite Hp, Hv, Hs. cbn. f_equal. by apply decode_encode.
  - intros raw v Hp Hv Hs. cbn. by rewrite Hp, Hv, Hs.
  - intros raw v l Hp Hv Hs. cbn. rewrite Hp, Hv, Hs. by eexists.
  - intros raw v n Hp Hv Hn. cbn. rewrite Hp, Hv. by rewrite (proj2 (Z.eqb_neq _ _) Hn).
Qed.

End Documented.
