(* ===== verification/ChatStore.v ===== *)
(** * chatStore.ts: conversations

    apps/web/src/stores/chatStore.ts. The state is the plain object
    [conversations] and the open conversation. A conversation's properties can
    be undefined: spreading a conversation that does not exist gives an object
    without them. [crypto.randomUUID()] and the clock are arguments. *)

From S2P Require Import Prelude JsString Json Platform Types.

(** ** State *)

(** [None] is [undefined]. *)
Record Conversation := mkConversation {
  cv_id : option jsstr;
  cv_contactId : option jsstr;
  cv_messages : option (list Message);
  cv_isShaking : option bool;
}.

(** [activeConversationId] is [None] for [null]. *)
Record ChatState := mkChat {
  conversations : jsmap Conversation;
  activeConversationId : option jsstr;
}.

Definition emptyChat : ChatState := mkChat [] None.

(** What [...conversations[id]!] spreads. *)
Definition spread_conversation (id : jsstr) (s : ChatState) : Conversation :=
  nullish (mkConversation None None None None) (map_get id (conversations s)).

(** [conversations[id]?.messages ?? []] *)
Definition messages_of (id : jsstr) (s : ChatState) : list Message :=
  nullish [] (map_get id (conversations s) ≫= cv_messages).

Definition put_conversation (id : jsstr) (c : Conversation) (s : ChatState) : ChatState :=
  mkChat (map_set id c (conversations s)) (activeConversationId s).

(** ** Opening and closing *)

Definition openConversation (contactId : jsstr) (s : ChatState) : ChatState :=
  match List.find (λ c, bool_decide (cv_contactId c = Some contactId))
          (object_values (conversations s)) with
  | Some existing => mkChat (conversations s) (cv_id existing)
  | None =>
      mkChat (map_set contactId (mkConversation (Some contactId) (Some contactId) (Some []) (Some false))
                (conversations s))
        (Some contactId)
  end.

Definition closeConversation (s : ChatState) : ChatState := mkChat (conversations s) None.

(** ** Sending *)

(** The update of the four senders. *)
Definition append_message (conversationId : jsstr) (msg : Message) (s : ChatState) : ChatState :=
  let c := spread_conversation conversationId s in
  put_conversation conversationId
    (mkConversation (cv_id c) (cv_contactId c)
       (Some (messages_of conversationId s ++ [msg])) (cv_isShaking c)) s.

(** A property [undefined] is not written to JSON. *)
Definition opt_member {A} (k : jsstr) (f : A → json) (p : prop A) : list (jsstr * json) :=
  match p with Val a => [(k, f a)] | _ => [] end.

(** [{ command: "send_message", payload: msg }] *)
Definition send_message_json (m : Message) : json :=
  JObj [(js "command", JStr (js "send_message"));
        (js "payload", JObj (
          [(js "id", JStr (m_id m)); (js "conversationId", JStr (m_conversationId m));
           (js "senderId", JStr (m_senderId m)); (js "type", JStr (m_type m))] ++
          opt_member (js "body") JStr (m_body m) ++
          opt_member (js "mediaData") JStr (m_mediaData m) ++
          opt_member (js "mediaName") JStr (m_mediaName m) ++
          opt_member (js "mediaMime") JStr (m_mediaMime m) ++
          opt_member (js "mediaSize") id (m_mediaSize m) ++
          [(js "sentAt", JStr (m_sentAt m)); (js "delivered", JBool (m_delivered m));
           (js "read", JBool (m_read m))]))].

(** A message the user just wrote. *)
Definition own_message (id now conversationId senderId type : jsstr) : Message :=
  mkMessage id conversationId senderId type now false false
    Absent Absent Absent Absent Absent Absent Absent Absent.

Definition text_message (id now conversationId senderId body : jsstr) : Message :=
  mkMessage id conversationId senderId (js "text") now false false
    (Val body) Absent Absent Absent Absent Absent Absent Absent.

Record Attachment := mkAttachment {
  at_mediaData : jsstr;
  at_mediaName : jsstr;
  at_mediaMime : jsstr;
  at_mediaSize : Z;
  at_body : option jsstr;
}.

Definition attachment_message (id now conversationId senderId : jsstr) (a : Attachment) : Message :=
  mkMessage id conversationId senderId (js "text") now false false
    (Val (nullish (js "📎 " ++ at_mediaName a) (at_body a)))
    (Val (at_mediaData a)) Absent (Val (at_mediaName a)) (Val (at_mediaMime a))
    (Val (JNum (at_mediaSize a))) Absent Absent.

(** Each sender returns the state and the object it passes to [send]. *)
Definition sendText (id now conversationId senderId body : jsstr) (s : ChatState)
    : ChatState * json :=
  let msg := text_message id now conversationId senderId body in
  (append_message conversationId msg s, send_message_json msg).

Definition sendAttachment (id now conversationId senderId : jsstr) (a : Attachment) (s : ChatState)
    : ChatState * json :=
  let msg := attachment_message id now conversationId senderId a in
  (append_message conversationId msg s, send_message_json msg).

Definition sendWinkd (id now conversationId senderId : jsstr) (s : ChatState) : ChatState * json :=
  let msg := own_message id now conversationId senderId (js "winkd") in
  (append_message conversationId msg s, send_message_json msg).

Definition sendNudge (id now conversationId senderId : jsstr) (s : ChatState) : ChatState * json :=
  let msg := own_message id now conversationId senderId (js "nudge") in
  (append_message conversationId msg s, send_message_json msg).

(** ** Receiving *)

(** [nextMessages]: [findIndex], then the [map] that merges at that index, or
    an append. *)
Definition merge_message (message : Message) (existingMessages : list Message) : list Message :=
  match list_find (λ m, m_id m = m_id message) existingMessages with
  | Some (existingIndex, _) => alter (λ m, message_spread m message) existingIndex existingMessages
  | None => existingMessages ++ [message]
  end.

Definition receiveMessage (message : Message) (s : ChatState) : ChatState :=
  let id := m_conversationId message in
  let conv := map_get id (conversations s) in
  put_conversation id
    (mkConversation (Some id)
       (Some (nullish (m_senderId message) (conv ≫= cv_contactId)))
       (Some (merge_message message (messages_of id s)))
       (Some (bool_decide (m_type message = js "winkd")))) s.

Definition set_delivered (m : Message) : Message :=
  mkMessage (m_id m) (m_conversationId m) (m_senderId m) (m_type m) (m_sentAt m) true (m_read m)
    (m_body m) (m_mediaData m) (m_mediaUrl m) (m_mediaName m) (m_mediaMime m) (m_mediaSize m)
    (m_packId m) (m_animationId m).

(** Mapping over messages that are [undefined] throws. *)
Definition markMessageDelivered (conversationId messageId : jsstr) (s : ChatState)
    : result ChatState :=
  match map_get conversationId (conversations s) with
  | None => Ok s
  | Some conv =>
      match cv_messages conv with
      | None => Throw TypeError_
      | Some ms =>
          Ok (put_conversation conversationId
                (mkConversation (cv_id conv) (cv_contactId conv)
                   (Some (map (λ m, if decide (m_id m = messageId) then set_delivered m else m) ms))
                   (cv_isShaking conv)) s)
      end
  end.

Definition clearShaking (conversationId : jsstr) (s : ChatState) : ChatState :=
  let c := spread_conversation conversationId s in
  put_conversation conversationId
    (mkConversation (cv_id c) (cv_contactId c) (cv_messages c) (Some false)) s.

(** ** Facts about merging *)

Abbreviation ids ms := (map m_id ms).

Lemma merge_message_nil message : merge_message message [] = [message].
Proof. done. Qed.

Lemma merge_message_cons message m ms :
  merge_message message (m :: ms) =
    if decide (m_id m = m_id message) then message_spread m message :: ms
    else m :: merge_message message ms.
Proof.
  unfold merge_message. cbn. destruct (decide _); [done|].
  destruct (list_find _ ms) as [[i m']|]; done.
Qed.

Lemma merge_message_ids message ms :
  ids (merge_message message ms) =
    if decide (m_id message ∈ ids ms) then ids ms else ids ms ++ [m_id message].
Proof.
  induction ms as [|m ms IH]; [done|]. rewrite merge_message_cons. cbn [map].
  destruct (decide (m_id m = m_id message)) as [E|E].
  - rewrite decide_True; [|rewrite E; left]. cbn. by rewrite E.
  - cbn. rewrite IH. destruct (decide (_ ∈ ids ms)) as [Hi|Hi].
    + rewrite decide_True; [done|by right].
    + rewrite decide_False; [done|]. rewrite elem_of_cons. naive_solver.
Qed.

Lemma merge_message_new message ms :
  m_id message ∉ ids ms → merge_message message ms = ms ++ [message].
Proof.
  induction ms as [|m ms IH]; [done|]. rewrite merge_message_cons. cbn [map].
  rewrite elem_of_cons. intros H. rewrite decide_False by naive_solver. cbn. rewrite IH; naive_solver.
Qed.

Lemma merge_message_nodup message ms : NoDup (ids ms) → NoDup (ids (merge_message message ms)).
Proof.
  intros Hn. rewrite merge_message_ids. destruct (decide _) as [|Hi]; [done|].
  apply list.NoDup_app. split; [done|]. split; [|apply NoDup_singleton].
  by intros x Hx ->%list_elem_of_singleton.
Qed.

Lemma merge_message_in message ms m :
  NoDup (ids ms) → m ∈ merge_message message ms →
  m ∈ ms ∧ m_id m ≠ m_id message
  ∨ m = message ∧ m_id message ∉ ids ms
  ∨ ∃ m0, m0 ∈ ms ∧ m_id m0 = m_id message ∧ m = message_spread m0 message.
Proof.
  induction ms as [|m0 ms IH]; intros Hn.
  - rewrite merge_message_nil, list_elem_of_singleton. intros ->. right; left.
    split; [done|by apply not_elem_of_nil].
  - rewrite merge_message_cons. cbn [map] in *. inversion Hn as [|? ? Hni Hn']; subst.
    destruct (decide _) as [E|E]; rewrite !elem_of_cons.
    + intros [->|Hm]; [do 2 right; exists m0; split; [by rewrite elem_of_cons; left|done]|].
      left. split; [by right|]. rewrite <-E. intros E'. apply Hni. rewrite <-E'.
      by apply (list_elem_of_fmap_2 m_id).
    + intros [->|Hm]; [by left; split; [left|]|].
      destruct (IH Hn' Hm) as [[? ?]|[[? ?]|(m1 & ? & ? & ?)]].
      * left. split; [by right|done].
      * right; left. split; [done|]. intros [?|?]; [congruence|done].
      * do 2 right. exists m1. split; [by rewrite elem_of_cons; right|done].
Qed.

Lemma message_spread_idem m : message_spread m m = m.
Proof. destruct m as [????????????? ? ?]. unfold message_spread. cbn. f_equal;
  match goal with |- prop_spread ?p ?p = ?p => by destruct p end. Qed.

Lemma prop_spread_assoc {A} (p q r : prop A) :
  prop_spread (prop_spread p q) r = prop_spread p (prop_spread q r).
Proof. by destruct r. Qed.

Lemma message_spread_twice m n : message_spread (message_spread m n) n = message_spread m n.
Proof.
  unfold message_spread. cbn. f_equal; rewrite prop_spread_assoc; f_equal;
    match goal with |- prop_spread ?p ?p = ?p => by destruct p end.
Qed.

Lemma merge_message_twice message ms :
  merge_message message (merge_message message ms) = merge_message message ms.
Proof.
  induction ms as [|m ms IH].
  - rewrite merge_message_nil, merge_message_cons, decide_True by done. by rewrite message_spread_idem.
  - rewrite merge_message_cons. destruct (decide _) as [E|E]; rewrite merge_message_cons.
    + rewrite decide_True by done. by rewrite message_spread_twice.
    + rewrite decide_False by done. by rewrite IH.
Qed.

(** ** Facts about the state *)

Lemma messages_of_put k id c s :
  messages_of k (put_conversation id c s) =
    if decide (k = id) then nullish [] (cv_messages c) else messages_of k s.
Proof.
  unfold messages_of, put_conversation. cbn [conversations]. rewrite map_get_set.
  by destruct (decide (k = id)).
Qed.

Lemma messages_of_receive k m s :
  messages_of k (receiveMessage m s) =
    if decide (k = m_conversationId m) then merge_message m (messages_of k s) else messages_of k s.
Proof.
  unfold receiveMessage. rewrite messages_of_put. destruct (decide _) as [->|]; done.
Qed.

(** ** A stream of received messages *)

(** The distinct elements in the order of their first occurrence. *)
Fixpoint first_occurrences (l : list jsstr) : list jsstr :=
  match l with
  | [] => []
  | x :: l => x :: List.filter (λ y, negb (bool_decide (y = x))) (first_occurrences l)
  end.

(** All copies of one message laid over each other, the latest on top. *)
Definition combined (id : jsstr) (ms : list Message) : option Message :=
  foldl (λ acc m, Some (match acc with Some a => message_spread a m | None => m end)) None
    (List.filter (λ m, bool_decide (m_id m = id)) ms).

Definition in_conversation (k : jsstr) (m : Message) : bool := bool_decide (m_conversationId m = k).

Definition receive_all (msgs : list Message) (s : ChatState) : ChatState :=
  foldl (λ s m, receiveMessage m s) s msgs.

Lemma elem_of_first_occurrences x l : x ∈ first_occurrences l ↔ x ∈ l.
Proof.
  revert x. induction l as [|y l IH]; intros x; cbn; [done|].
  rewrite !elem_of_cons, list_elem_of_In, filter_In, <-list_elem_of_In, IH, negb_true_iff,
    bool_decide_eq_false. destruct (decide (x = y)); naive_solver.
Qed.

Lemma first_occurrences_snoc l x :
  first_occurrences (l ++ [x]) =
    if decide (x ∈ l) then first_occurrences l else first_occurrences l ++ [x].
Proof.
  induction l as [|y l IH]; cbn.
  - rewrite decide_False by apply not_elem_of_nil. done.
  - rewrite IH. destruct (decide (x ∈ l)) as [Hx|Hx].
    + rewrite decide_True by (by right). done.
    + destruct (decide (x = y)) as [->|Hne].
      * rewrite decide_True by left. rewrite List.filter_app. cbn.
        rewrite bool_decide_true by done. cbn. by rewrite app_nil_r.
      * rewrite decide_False by (rewrite elem_of_cons; naive_solver). rewrite List.filter_app. cbn.
        by rewrite bool_decide_false by done.
Qed.

Lemma first_occurrences_nodup l : NoDup l → first_occurrences l = l.
Proof.
  induction l as [|x l IH]; intros Hn; [done|]. inversion Hn as [|? ? Hx Hn']; subst. cbn.
  rewrite IH by done. f_equal. rewrite list_elem_of_In in Hx.
  clear -Hx. induction l as [|y l IH]; [done|]. cbn. rewrite bool_decide_false by (intros ->; apply Hx; by left).
  cbn. rewrite IH; [done|]. intros H. apply Hx. by right.
Qed.

Lemma combined_snoc id ms m :
  combined id (ms ++ [m]) =
    if decide (m_id m = id)
    then Some (match combined id ms with Some a => message_spread a m | None => m end)
    else combined id ms.
Proof.
  unfold combined. rewrite List.filter_app, foldl_app. cbn.
  destruct (decide (m_id m = id)); [by rewrite bool_decide_true|by rewrite bool_decide_false].
Qed.

Lemma combined_none id ms : id ∉ ids ms → combined id ms = None.
Proof.
  induction ms as [|m ms IH] using rev_ind; [done|]. rewrite map_app, elem_of_app.
  cbn. rewrite list_elem_of_singleton. intros H. rewrite combined_snoc, decide_False by naive_solver.
  apply IH. naive_solver.
Qed.

Lemma combined_self ms m : NoDup (ids ms) → m ∈ ms → combined (m_id m) ms = Some m.
Proof.
  induction ms as [|m' ms IH] using rev_ind; intros Hn Hm; [by apply not_elem_of_nil in Hm|].
  rewrite map_app in Hn. apply list.NoDup_app in Hn as (Hn & Hd & _). rewrite combined_snoc.
  apply elem_of_app in Hm as [Hm|Hm].
  - rewrite decide_False; [auto|]. intros E. eapply Hd; [by apply (list_elem_of_fmap_2 m_id)|].
    cbn. rewrite E. by left.
  - apply list_elem_of_singleton in Hm as ->. rewrite decide_True by done.
    rewrite combined_none; [done|]. intros Hi. eapply Hd; [done|by left].
Qed.

(** Merging a list of messages one by one. *)
Lemma merge_all_spec old new :
  NoDup (ids old) →
  let res := foldl (λ ms m, merge_message m ms) old new in
  ids res = first_occurrences (ids (old ++ new)) ∧ NoDup (ids res) ∧
  ∀ m, m ∈ res → combined (m_id m) (old ++ new) = Some m.
Proof.
  intros Hn. cbv zeta. induction new as [|x new (IH1 & IH2 & IH3)] using rev_ind.
  - cbn. rewrite app_nil_r. split; [by rewrite first_occurrences_nodup|]. split; [done|].
    intros m Hm. by apply combined_self.
  - rewrite foldl_app, (assoc_L (++)). cbn [foldl].
    split; [|split; [by apply merge_message_nodup|]].
    + rewrite map_app, merge_message_ids, IH1. cbn [map]. rewrite first_occurrences_snoc.
      destruct (decide _) as [Hi|Hi]; rewrite elem_of_first_occurrences in Hi;
        [by rewrite decide_True|by rewrite decide_False].
    + intros m Hm. rewrite combined_snoc.
      apply merge_message_in in Hm as [[Hm Hne]|[[-> Hi]|(m0 & Hm & E & ->)]]; [..|done].
      * rewrite decide_False by congruence. auto.
      * rewrite decide_True by done. rewrite combined_none; [done|].
        by rewrite <-elem_of_first_occurrences, <-IH1.
      * cbn. rewrite decide_True by done. by rewrite <-E, (IH3 m0 Hm).
Qed.

Lemma receive_all_messages k msgs s :
  messages_of k (receive_all msgs s) =
    foldl (λ ms m, merge_message m ms) (messages_of k s) (List.filter (in_conversation k) msgs).
Proof.
  unfold receive_all. induction msgs as [|m msgs IH] using rev_ind; [done|].
  rewrite foldl_app, List.filter_app, foldl_app. cbn. rewrite messages_of_receive.
  unfold in_conversation at 2. destruct (decide (k = m_conversationId m)) as [->|Hne].
  - rewrite bool_decide_true by done. cbn. by rewrite IH.
  - rewrite bool_decide_false by done. apply IH.
Qed.

(** ** The invariant *)

(** A conversation filed under [k]. *)
Record conversation_ok (k : jsstr) (c : Conversation) : Prop := {
  co_id : cv_id c = Some k;
  co_contact : cv_contactId c = Some k;
  co_messages : ∃ ms, cv_messages c = Some ms ∧ NoDup (ids ms) ∧
    Forall (λ m, m_conversationId m = k) ms;
}.

Record chat_ok (s : ChatState) : Prop := {
  chat_keys : NoDup (keys (conversations s));
  chat_conversations k c : map_get k (conversations s) = Some c → conversation_ok k c;
  chat_active a : activeConversationId s = Some a → is_Some (map_get a (conversations s));
}.

Lemma chat_ok_messages s k : chat_ok s →
  NoDup (ids (messages_of k s)) ∧ Forall (λ m, m_conversationId m = k) (messages_of k s).
Proof.
  intros Hs. unfold messages_of. destruct (map_get k (conversations s)) as [c|] eqn:E; cbn.
  - destruct (co_messages _ _ (chat_conversations _ Hs k c E)) as (ms & -> & ? & ?). done.
  - split; constructor.
Qed.

Lemma chat_ok_put s k c : chat_ok s → conversation_ok k c → chat_ok (put_conversation k c s).
Proof.
  intros Hs Hc. split; cbn.
  - apply keys_set, Hs.
  - intros k' c'. rewrite map_get_set. destruct (decide (k' = k)) as [->|];
      [by intros [= <-]|apply Hs].
  - intros a Ha. rewrite map_get_set. destruct (decide (a = k)); [done|by apply Hs].
Qed.

Lemma chat_ok_active s a :
  chat_ok s → (∀ k, a = Some k → is_Some (map_get k (conversations s))) →
  chat_ok (mkChat (conversations s) a).
Proof. intros [H1 H2 H3] Ha. by split. Qed.

Lemma spread_conversation_ok s k c :
  chat_ok s → map_get k (conversations s) = Some c →
  spread_conversation k s = c ∧ conversation_ok k c.
Proof. intros Hs E. unfold spread_conversation. rewrite E. split; [done|by apply Hs]. Qed.

Lemma append_ok s k msg :
  chat_ok s → is_Some (map_get k (conversations s)) → m_conversationId msg = k →
  m_id msg ∉ ids (messages_of k s) → chat_ok (append_message k msg s).
Proof.
  intros Hs [c Hc] Hk Hni. destruct (spread_conversation_ok s k c Hs Hc) as [E Hok].
  destruct (chat_ok_messages s k Hs) as [Hn Hf].
  unfold append_message. rewrite E. apply chat_ok_put; [done|]. destruct Hok as [Hid Hct _].
  split; cbn; [done..|]. eexists. split; [done|]. rewrite map_app. split.
  - apply list.NoDup_app. split; [done|]. split; [|apply NoDup_singleton].
    by intros x Hx ->%list_elem_of_singleton.
  - apply list.Forall_app. split; [done|]. by apply list.Forall_singleton.
Qed.

(** The server sends a message to its recipient under the sender's id, and
    echoes it to the sender, who has the conversation. *)
Definition from_server (m : Message) (s : ChatState) : Prop :=
  m_senderId m = m_conversationId m ∨ is_Some (map_get (m_conversationId m) (conversations s)).

Lemma receive_ok m s : from_server m s → chat_ok s → chat_ok (receiveMessage m s).
Proof.
  intros Hm Hs. destruct (chat_ok_messages s (m_conversationId m) Hs) as [Hn Hf].
  apply chat_ok_put; [done|]. split; cbn; [done|..].
  - destruct (map_get _ _) as [c|] eqn:E; cbn.
    + by rewrite (co_contact _ _ (chat_conversations _ Hs _ c E)).
    + destruct Hm as [->|[c' Hc]]; [done|congruence].
  - eexists. split; [done|].
    split; [by apply merge_message_nodup|]. apply list.Forall_forall. intros x Hx.
    rewrite list.Forall_forall in Hf.
    apply merge_message_in in Hx as [[Hx _]|[[-> _]|(m0 & _ & _ & ->)]]; [by apply Hf|done..].
Qed.

(** Conversations are filed under their contact, so the search of
    [openConversation] is a lookup. *)
Lemma open_spec contactId s :
  chat_ok s →
  openConversation contactId s =
    match map_get contactId (conversations s) with
    | Some _ => mkChat (conversations s) (Some contactId)
    | None =>
        mkChat (map_set contactId
                  (mkConversation (Some contactId) (Some contactId) (Some []) (Some false))
                  (conversations s)) (Some contactId)
    end.
Proof.
  intros Hs. unfold openConversation. destruct (List.find _ _) as [c|] eqn:E.
  - apply find_some in E as [Hi Hc]. apply bool_decide_eq_true in Hc.
    apply list_elem_of_In, elem_of_object_values in Hi as [k Hk].
    pose proof (map_get_of_elem k c _ (chat_keys _ Hs) Hk) as Hg.
    destruct (chat_conversations _ Hs k c Hg) as [Hid Hct _].
    rewrite Hct in Hc. injection Hc as ->. by rewrite Hg, Hid.
  - destruct (map_get contactId _) as [c|] eqn:Hg; [|done].
    eapply find_none in E; [|apply list_elem_of_In, elem_of_object_values; eexists;
      by apply map_get_elem].
    apply bool_decide_eq_false in E. destruct E. by apply (chat_conversations _ Hs contactId c Hg).
Qed.

Lemma open_ok contactId s : chat_ok s → chat_ok (openConversation contactId s).
Proof.
  intros Hs. rewrite open_spec by done. destruct (map_get contactId _) as [c|] eqn:E.
  - apply chat_ok_active; [done|]. intros k [= <-]. by eexists.
  - split; cbn; [apply keys_set, Hs|..].
    + intros k c. rewrite map_get_set. destruct (decide (k = contactId)) as [->|]; [|apply Hs].
      intros [= <-]. split; cbn; [done..|]. eexists. split; [done|]. split; constructor.
    + intros a [= <-]. rewrite map_get_set, decide_True by done. by eexists.
Qed.

Lemma map_delivered_ids id ms :
  ids (map (λ m, if decide (m_id m = id) then set_delivered m else m) ms) = ids ms.
Proof. induction ms as [|m ms IH]; [done|]. cbn. rewrite IH. by destruct (decide _). Qed.

Lemma delivered_ok k id s s' : chat_ok s → markMessageDelivered k id s = Ok s' → chat_ok s'.
Proof.
  intros Hs. unfold markMessageDelivered. destruct (map_get k _) as [c|] eqn:E; [|by intros [= <-]].
  destruct (chat_conversations _ Hs k c E) as [Hid Hct (ms & Hms & Hn & Hf)]. rewrite Hms.
  intros [= <-]. apply chat_ok_put; [done|]. split; cbn; [done..|]. eexists. split; [done|].
  split; [by rewrite map_delivered_ids|]. apply Forall_map. eapply List.Forall_impl, Hf.
  intros m Hm. unfold compose. by destruct (decide _).
Qed.

Lemma clearShaking_ok k s :
  chat_ok s → is_Some (map_get k (conversations s)) → chat_ok (clearShaking k s).
Proof.
  intros Hs [c Hc]. destruct (spread_conversation_ok s k c Hs Hc) as [E [Hid Hct Hms]].
  unfold clearShaking. rewrite E. by apply chat_ok_put.
Qed.

(** ** Operations as a step relation *)

Inductive chat_op :=
  | Open (contactId : jsstr) | Close
  | Text (id now k sender body : jsstr)
  | Attach (id now k sender : jsstr) (a : Attachment)
  | Winkd (id now k sender : jsstr)
  | Nudge (id now k sender : jsstr)
  | Receive (m : Message)
  | Delivered (k id : jsstr)
  | StopShaking (k : jsstr).

Definition apply_chat (op : chat_op) (s : ChatState) : result ChatState :=
  match op with
  | Open c => Ok (openConversation c s)
  | Close => Ok (closeConversation s)
  | Text id now k sender body => Ok (sendText id now k sender body s).1
  | Attach id now k sender a => Ok (sendAttachment id now k sender a s).1
  | Winkd id now k sender => Ok (sendWinkd id now k sender s).1
  | Nudge id now k sender => Ok (sendNudge id now k sender s).1
  | Receive m => Ok (receiveMessage m s)
  | Delivered k id => markMessageDelivered k id s
  | StopShaking k => Ok (clearShaking k s)
  end.

(** What the chat window does: it sends in a conversation that exists, under a
    new id, and stops the shaking of one that exists. *)
Definition allowed (op : chat_op) (s : ChatState) : Prop :=
  match op with
  | Text id _ k _ _ | Attach id _ k _ _ | Winkd id _ k _ | Nudge id _ k _ =>
      is_Some (map_get k (conversations s)) ∧ id ∉ ids (messages_of k s)
  | StopShaking k => is_Some (map_get k (conversations s))
  | Receive m => from_server m s
  | _ => True
  end.

Inductive chat_reachable : ChatState → Prop :=
  | chat_start : chat_reachable emptyChat
  | chat_step op s s' :
      chat_reachable s → allowed op s → apply_chat op s = Ok s' → chat_reachable s'.

Lemma chat_ok_step op s s' : chat_ok s → allowed op s → apply_chat op s = Ok s' → chat_ok s'.
Proof.
  intros Hs Ha. destruct op; cbn in Ha |- *; try (intros [= <-]).
  - by apply open_ok.
  - by apply chat_ok_active.
  - destruct Ha. by apply append_ok.
  - destruct Ha. by apply append_ok.
  - destruct Ha. by apply append_ok.
  - destruct Ha. by apply append_ok.
  - by apply receive_ok.
  - by apply delivered_ok.
  - by apply clearShaking_ok.
Qed.

Lemma chat_reachable_ok s : chat_reachable s → chat_ok s.
Proof.
  induction 1 as [|op s s' _ IH Ha Hs]; [|by eapply chat_ok_step].
  split; [constructor|done|done].
Qed.

Lemma receive_twice m s : receiveMessage m (receiveMessage m s) = receiveMessage m s.
Proof.
  unfold receiveMessage at 1. rewrite messages_of_receive, decide_True by done.
  rewrite merge_message_twice. unfold receiveMessage, put_conversation. cbn.
  rewrite map_set_set, map_get_set, decide_True by done. done.
Qed.

Lemma delivered_messages k id s s' :
  markMessageDelivered k id s = Ok s' →
  ∀ k', messages_of k' s' =
    if decide (k' = k)
    then map (λ m, if decide (m_id m = id) then set_delivered m else m) (messages_of k' s)
    else messages_of k' s.
Proof.
  unfold markMessageDelivered. intros H k'. destruct (map_get k _) as [c|] eqn:E.
  - destruct (cv_messages c) as [ms|] eqn:Ems; [|done]. injection H as <-.
    rewrite messages_of_put. destruct (decide (k' = k)) as [->|]; [|done].
    unfold messages_of. by rewrite E; cbn; rewrite Ems.
  - injection H as <-. destruct (decide (k' = k)) as [->|]; [|done].
    unfold messages_of. by rewrite E.
Qed.

Lemma map_delivered_notin id ms :
  id ∉ ids ms → map (λ m, if decide (m_id m = id) then set_delivered m else m) ms = ms.
Proof.
  induction ms as [|m ms IH]; [done|]. cbn. rewrite elem_of_cons. intros H.
  rewrite decide_False by naive_solver. rewrite IH by naive_solver. done.
Qed.

Lemma merge_message_last m n ms :
  m_id m ∉ ids ms → m_id n = m_id m →
  merge_message n (ms ++ [m]) = ms ++ [message_spread m n].
Proof.
  intros Hm E. induction ms as [|x ms IH].
  - cbn [app]. by rewrite merge_message_cons, decide_True.
  - cbn [app map] in *. rewrite elem_of_cons in Hm. rewrite merge_message_cons.
    rewrite decide_False by (rewrite E; intros E'; apply Hm; by left).
    by rewrite IH by (intros ?; apply Hm; by right).
Qed.

(** ** Properties *)

(** C38: The store's invariant. In every state reached from the empty store by
    the operations as the program calls them, conversation names are distinct,
    each conversation is filed under its id and its contact, all its messages
    belong to it and have distinct ids, and the open conversation exists; and
    no further operation throws. *)
Theorem chat_invariant s :
  chat_reachable s → chat_ok s ∧ ∀ op, allowed op s → ∃ s', apply_chat op s = Ok s' ∧ chat_ok s'.
Proof.
  intros Hr. pose proof (chat_reachable_ok s Hr) as Hs. split; [done|]. intros op Ha.
  assert (∃ s', apply_chat op s = Ok s') as [s' E].
  { destruct op; cbn; eauto. unfold markMessageDelivered. destruct (map_get k _) as [c|] eqn:E; [|eauto].
    destruct (chat_conversations _ Hs k c E) as [_ _ (ms & -> & _)]. eauto. }
  exists s'. split; [done|]. by eapply chat_ok_step.
Qed.

(** Receiving. After any stream of messages, a conversation lists the
    distinct message ids in the order of their first arrival, after what it had;
    every message is the combination of all its copies, later properties
    winning; and receiving a message again changes nothing. *)
Theorem received_stream k msgs s :
  NoDup (ids (messages_of k s)) →
  let all := messages_of k s ++ List.filter (in_conversation k) msgs in
  let res := messages_of k (receive_all msgs s) in
  ids res = first_occurrences (ids all) ∧ NoDup (ids res) ∧
  (∀ m, m ∈ res → combined (m_id m) all = Some m) ∧
  ∀ m, receive_all [m; m] s = receive_all [m] s.
Proof.
  intros Hn. cbv zeta. rewrite receive_all_messages.
  destruct (merge_all_spec (messages_of k s) (List.filter (in_conversation k) msgs) Hn) as (? & ? & ?).
  repeat (split; [done|]). intros m. apply receive_twice.
Qed.

(** Opening a contact selects the contact's conversation, creates it empty
    when there is none, keeps the messages of every conversation, and opening
    it again changes nothing. *)
Theorem open_conversation contactId s :
  chat_reachable s →
  let s' := openConversation contactId s in
  activeConversationId s' = Some contactId ∧
  (∃ c, map_get contactId (conversations s') = Some c ∧ cv_contactId c = Some contactId) ∧
  (∀ k, messages_of k s' = messages_of k s) ∧
  openConversation contactId s' = s'.
Proof.
  intros Hs%chat_reachable_ok. cbv zeta. pose proof (open_ok contactId s Hs) as Hs'.
  rewrite (open_spec contactId _ Hs'). rewrite (open_spec contactId s Hs) in Hs' |- *.
  destruct (map_get contactId (conversations s)) as [c|] eqn:E; cbn.
  - rewrite E. split; [done|]. split; [|done]. exists c. split; [done|]. by apply (chat_conversations _ Hs contactId c E).
  - rewrite map_get_set, decide_True by done. split; [done|]. split; [by eexists|]. split; [|done].
    intros k. unfold messages_of. cbn. rewrite map_get_set. destruct (decide (k = contactId)) as [->|];
      [by rewrite E|done].
Qed.
