(* ===== verification/ContactsStore.v ===== *)
(** * contactsStore.ts: contacts, unread counts, invitations and blocks

    apps/web/src/stores/contactsStore.ts. The socket hook fills the store from
    parsed JSON without checking it, so the fields that come from there are
    dynamic values, compared with [===]. Unread counts are a plain object keyed
    by contact id. *)

From S2P Require Import Prelude JsString Json Platform Types.

(** ** State *)

Record PendingInvitation := mkInvitation {
  requestId : value;
  fromWinkdId : value;
  fromDisplayName : value;
  fromAvatarData : value;
}.

Record BlockedUser := mkBlocked {
  b_userId : value;
  b_winkdId : value;
  b_displayName : value;
  b_avatarData : value;
  b_blockedAt : value;
}.

(** A contact as the store holds it. *)
Record StoredContact := mkStored {
  sc_id : value;
  sc_winkdId : value;
  sc_displayName : value;
  sc_moodMessage : value;
  sc_status : value;
  sc_avatarData : value;
  sc_requestStatus : value;
  sc_unreadCount : value;
  sc_lastMessageAt : value;
}.

Record ContactsState := mkContacts {
  contacts : list StoredContact;
  unreadCounts : jsmap Z;
  pendingInvitations : list PendingInvitation;
  blockedUsers : list BlockedUser;
}.

Definition emptyContacts : ContactsState := mkContacts [] [] [] [].

Section store.
Context {doubles : Doubles}.

(** ** Contacts *)

Definition with_contacts (f : list StoredContact → list StoredContact) (s : ContactsState)
    : ContactsState :=
  mkContacts (f (contacts s)) (unreadCounts s) (pendingInvitations s) (blockedUsers s).

Definition setContacts (cs : list StoredContact) (s : ContactsState) : ContactsState :=
  with_contacts (λ _, cs) s.

Definition removeContact (id : value) (s : ContactsState) : ContactsState :=
  with_contacts (List.filter (λ c, negb (strict_eq (sc_id c) id))) s.

(** [Partial<Contact>] *)
Record PartialContact := mkPartialContact {
  pc_id : prop json;
  pc_winkdId : prop json;
  pc_displayName : prop json;
  pc_moodMessage : prop json;
  pc_status : prop json;
  pc_avatarData : prop json;
  pc_requestStatus : prop json;
  pc_unreadCount : prop json;
  pc_lastMessageAt : prop json;
}.

(** A property of [{ ...old, ...partial }] *)
Definition spread_value (old : value) (new : prop json) : value :=
  match new with Absent => old | Undef => None | Val v => Some v end.

Definition contact_spread (c : StoredContact) (p : PartialContact) : StoredContact :=
  mkStored (spread_value (sc_id c) (pc_id p)) (spread_value (sc_winkdId c) (pc_winkdId p))
    (spread_value (sc_displayName c) (pc_displayName p))
    (spread_value (sc_moodMessage c) (pc_moodMessage p))
    (spread_value (sc_status c) (pc_status p)) (spread_value (sc_avatarData c) (pc_avatarData p))
    (spread_value (sc_requestStatus c) (pc_requestStatus p))
    (spread_value (sc_unreadCount c) (pc_unreadCount p))
    (spread_value (sc_lastMessageAt c) (pc_lastMessageAt p)).

Definition updateContact (id : value) (p : PartialContact) (s : ContactsState) : ContactsState :=
  with_contacts (map (λ c, if strict_eq (sc_id c) id then contact_spread c p else c)) s.

Definition set_contact_status (st : value) (c : StoredContact) : StoredContact :=
  mkStored (sc_id c) (sc_winkdId c) (sc_displayName c) (sc_moodMessage c) st (sc_avatarData c)
    (sc_requestStatus c) (sc_unreadCount c) (sc_lastMessageAt c).

Definition updateContactStatus (id status : value) (s : ContactsState) : ContactsState :=
  with_contacts (map (λ c, if strict_eq (sc_id c) id then set_contact_status status c else c)) s.

(** [{ ...c, ...contact }] of two complete contacts is the second. *)
Definition addAcceptedContact (contact : StoredContact) (s : ContactsState) : ContactsState :=
  if existsb (λ c, strict_eq (sc_id c) (sc_id contact)) (contacts s)
  then with_contacts (map (λ c, if strict_eq (sc_id c) (sc_id contact) then contact else c)) s
  else with_contacts (λ cs, cs ++ [contact]) s.

(** ** Unread counts *)

Definition with_unread (f : jsmap Z → jsmap Z) (s : ContactsState) : ContactsState :=
  mkContacts (contacts s) (f (unreadCounts s)) (pendingInvitations s) (blockedUsers s).

Definition incrementUnread (id : jsstr) (s : ContactsState) : ContactsState :=
  with_unread (λ m, map_set id (nullish 0 (map_get id m) + 1) m) s.

Definition clearUnread (id : jsstr) (s : ContactsState) : ContactsState :=
  with_unread (map_delete id) s.

(** ** Invitations *)

Definition with_pending (f : list PendingInvitation → list PendingInvitation) (s : ContactsState)
    : ContactsState :=
  mkContacts (contacts s) (unreadCounts s) (f (pendingInvitations s)) (blockedUsers s).

Definition upsertPendingInvitation (i : PendingInvitation) (s : ContactsState) : ContactsState :=
  with_pending
    (λ l, List.filter (λ j, negb (strict_eq (requestId j) (requestId i))) l ++ [i]) s.

Definition removePendingInvitation (id : value) (s : ContactsState) : ContactsState :=
  with_pending (List.filter (λ j, negb (strict_eq (requestId j) id))) s.

Definition clearPendingFromUser (id : value) (s : ContactsState) : ContactsState :=
  with_pending (List.filter (λ j, negb (strict_eq (fromWinkdId j) id))) s.

(** ** Blocks *)

Definition with_blocked (f : list BlockedUser → list BlockedUser) (s : ContactsState)
    : ContactsState :=
  mkContacts (contacts s) (unreadCounts s) (pendingInvitations s) (f (blockedUsers s)).

Definition setBlockedUsers (l : list BlockedUser) (s : ContactsState) : ContactsState :=
  with_blocked (λ _, l) s.

Definition upsertBlockedUser (b : BlockedUser) (s : ContactsState) : ContactsState :=
  with_blocked (λ l, List.filter (λ u, negb (strict_eq (b_userId u) (b_userId b))) l ++ [b]) s.

Definition removeBlockedUser (id : value) (s : ContactsState) : ContactsState :=
  with_blocked (List.filter (λ u, negb (strict_eq (b_userId u) id))) s.

(** ** Operations as data *)

Inductive contacts_op :=
  | SetContacts (cs : list StoredContact)
  | RemoveContact (id : value)
  | UpdateContact (id : value) (p : PartialContact)
  | UpdateStatus (id status : value)
  | AddAccepted (c : StoredContact)
  | IncrementUnread (id : jsstr)
  | ClearUnread (id : jsstr)
  | UpsertPending (i : PendingInvitation)
  | RemovePending (id : value)
  | ClearPending (id : value)
  | SetBlocked (l : list BlockedUser)
  | UpsertBlocked (b : BlockedUser)
  | RemoveBlocked (id : value).

Definition apply_contacts (op : contacts_op) : ContactsState → ContactsState :=
  match op with
  | SetContacts cs => setContacts cs
  | RemoveContact id => removeContact id
  | UpdateContact id p => updateContact id p
  | UpdateStatus id st => updateContactStatus id st
  | AddAccepted c => addAcceptedContact c
  | IncrementUnread id => incrementUnread id
  | ClearUnread id => clearUnread id
  | UpsertPending i => upsertPendingInvitation i
  | RemovePending id => removePendingInvitation id
  | ClearPending id => clearPendingFromUser id
  | SetBlocked l => setBlockedUsers l
  | UpsertBlocked b => upsertBlockedUser b
  | RemoveBlocked id => removeBlockedUser id
  end.

Definition run_contacts (ops : list contacts_op) (s : ContactsState) : ContactsState :=
  foldl (λ s op, apply_contacts op s) s ops.

(** ** Well-formed inputs: ids are strings, lists from the server without repetition *)

Definition string_key {A} (f : A → value) (a : A) : Prop := ∃ s, f a = Some (JStr s).

(** No two entries of a list have the same key. *)
Definition distinct {A} (f : A → value) (l : list A) : Prop :=
  Forall (string_key f) l ∧ NoDup (map f l).

Definition op_ok (op : contacts_op) : Prop :=
  match op with
  | SetContacts cs => distinct sc_id cs
  | UpdateContact _ p => pc_id p = Absent
  | AddAccepted c => string_key sc_id c
  | UpsertPending i => string_key requestId i
  | SetBlocked l => distinct b_userId l
  | UpsertBlocked b => string_key b_userId b
  | _ => True
  end.

Record contacts_ok (s : ContactsState) : Prop := {
  ok_contacts : distinct sc_id (contacts s);
  ok_pending : distinct requestId (pendingInvitations s);
  ok_blocked : distinct b_userId (blockedUsers s);
  ok_unread_keys : NoDup (keys (unreadCounts s));
}.

Lemma strict_eq_string v w s : w = Some (JStr s) → strict_eq v w = true ↔ v = w.
Proof. intros ->. destruct v as [[]|]; cbn; rewrite ?bool_decide_eq_true; naive_solver. Qed.

Lemma strict_neq_string v w s : w = Some (JStr s) → strict_eq v w = false ↔ v ≠ w.
Proof. intros Hw. rewrite <-not_true_iff_false. by rewrite (strict_eq_string v w s). Qed.

Lemma distinct_filter {A} (f : A → value) (p : A → bool) l :
  distinct f l → distinct f (List.filter p l).
Proof.
  intros [Hs Hn]. induction l as [|a l IH]; [done|]. inversion Hs; subst. inversion Hn as [|? ? Hi ?]; subst.
  destruct IH as [Hs' Hn']; [done..|]. cbn. destruct (p a); [|done]. split; [by constructor|].
  cbn. constructor; [|done]. intros Hi'. apply Hi. apply list_elem_of_fmap in Hi' as (b & -> & Hb).
  apply list_elem_of_fmap. exists b. split; [done|].
  apply list_elem_of_In in Hb. apply filter_In in Hb as [Hb _]. by apply list_elem_of_In.
Qed.

Lemma distinct_map {A} (f : A → value) (g : A → A) l :
  (∀ a, f (g a) = f a) → distinct f l → distinct f (map g l).
Proof.
  intros Hg [Hs Hn]. split.
  - apply Forall_map. eapply List.Forall_impl, Hs. intros a [s Hsa]. exists s. unfold compose. by rewrite Hg.
  - rewrite map_map. rewrite (map_ext (λ x, f (g x)) f); done.
Qed.

Lemma distinct_upsert {A} (f : A → value) (a : A) l :
  string_key f a → distinct f l →
  distinct f (List.filter (λ b, negb (strict_eq (f b) (f a))) l ++ [a]).
Proof.
  intros [s Ha] Hl. destruct (distinct_filter f (λ b, negb (strict_eq (f b) (f a))) l Hl) as [Hs Hn].
  split.
  - apply list.Forall_app. split; [done|]. apply list.Forall_singleton. by exists s.
  - rewrite map_app. apply list.NoDup_app. split; [done|]. split; [|apply NoDup_singleton].
    intros x Hx Hx'. apply list_elem_of_singleton in Hx' as ->.
    apply list_elem_of_fmap in Hx as (b & Hb & Hin). apply list_elem_of_In, filter_In in Hin as [_ Hin].
    apply negb_true_iff in Hin. by apply (strict_neq_string _ _ s Ha) in Hin.
Qed.

Lemma distinct_add (c : StoredContact) l :
  string_key sc_id c → distinct sc_id l →
  distinct sc_id (if existsb (λ x, strict_eq (sc_id x) (sc_id c)) l
                  then map (λ x, if strict_eq (sc_id x) (sc_id c) then c else x) l else l ++ [c]).
Proof.
  intros [s Hc] Hl. destruct (existsb _ _) eqn:E.
  - destruct Hl as [Hs Hn]. split.
    + apply Forall_map. eapply List.Forall_impl, Hs. intros a Ha. unfold compose.
      destruct (strict_eq _ _); [by exists s|done].
    + rewrite map_map. erewrite map_ext; [exact Hn|]. intros a. cbn.
      destruct (strict_eq _ _) eqn:Ea; [|done]. by apply (strict_eq_string _ _ s Hc) in Ea.
  - destruct Hl as [Hs Hn]. split.
    + apply list.Forall_app. split; [done|]. apply list.Forall_singleton. by exists s.
    + rewrite map_app. apply list.NoDup_app. split; [done|]. split; [|apply NoDup_singleton].
      intros x Hx Hx'. apply list_elem_of_singleton in Hx' as ->.
      apply list_elem_of_fmap in Hx as (b & Hb & Hin). apply list_elem_of_In in Hin.
      assert (existsb (λ x, strict_eq (sc_id x) (sc_id c)) l = true) as Ht; [|congruence].
      apply existsb_exists. exists b. split; [done|]. by apply (strict_eq_string _ _ s Hc).
Qed.

Lemma contacts_ok_step op s : op_ok op → contacts_ok s → contacts_ok (apply_contacts op s).
Proof.
  intros Ho [Hc Hp Hb Hu]. destruct op; cbn in Ho |- *; split; cbn; try done;
    try (by apply distinct_filter); try (by apply distinct_upsert); try (by apply keys_set);
    try (by apply keys_delete);
    try (unfold addAcceptedContact; destruct (existsb _ _) eqn:E; cbn; done).
  - apply distinct_map; [|done]. intros c. destruct (strict_eq _ _); [|done]. cbn. by rewrite Ho.
  - apply distinct_map; [|done]. intros c. by destruct (strict_eq _ _).
  - pose proof (distinct_add c (contacts s) Ho Hc) as Hd. unfold addAcceptedContact.
    destruct (existsb _ _); done.
Qed.

(** ** The abstract store: four maps keyed by strings *)

Record contacts_spec := mkSpec {
  a_contacts : gmap jsstr StoredContact;
  a_unread : gmap jsstr Z;
  a_pending : gmap jsstr PendingInvitation;
  a_blocked : gmap jsstr BlockedUser;
}.

Definition empty_spec : contacts_spec := mkSpec ∅ ∅ ∅ ∅.

Definition key_of {A} (f : A → value) (a : A) : jsstr := nullish [] (string_value (f a)).

Definition map_of {A} (f : A → value) (l : list A) : gmap jsstr A :=
  list_to_map (map (λ a, (key_of f a, a)) l).

(** An entry is addressed only by a string. *)
Definition at_key {A} (v : value) (g : jsstr → gmap jsstr A → gmap jsstr A) (m : gmap jsstr A)
    : gmap jsstr A :=
  match string_value v with Some s => g s m | None => m end.

Definition spec_contacts (op : contacts_op) (a : contacts_spec) : contacts_spec :=
  let 'mkSpec c u p b := a in
  match op with
  | SetContacts cs => mkSpec (map_of sc_id cs) u p b
  | RemoveContact id => mkSpec (at_key id delete c) u p b
  | UpdateContact id q => mkSpec (at_key id (alter (λ c, contact_spread c q)) c) u p b
  | UpdateStatus id st => mkSpec (at_key id (alter (set_contact_status st)) c) u p b
  | AddAccepted x => mkSpec (<[key_of sc_id x := x]> c) u p b
  | IncrementUnread id => mkSpec c (<[id := nullish 0 (u !! id) + 1]> u) p b
  | ClearUnread id => mkSpec c (delete id u) p b
  | UpsertPending i => mkSpec c u (<[key_of requestId i := i]> p) b
  | RemovePending id => mkSpec c u (at_key id delete p) b
  | ClearPending id => mkSpec c u (filter (λ kv, strict_eq (fromWinkdId kv.2) id = false) p) b
  | SetBlocked l => mkSpec c u p (map_of b_userId l)
  | UpsertBlocked x => mkSpec c u p (<[key_of b_userId x := x]> b)
  | RemoveBlocked id => mkSpec c u p (at_key id delete b)
  end.

(** A list without repeated keys stands for a map. *)
Definition repr {A} (f : A → value) (l : list A) (m : gmap jsstr A) : Prop :=
  distinct f l ∧ ∀ s a, m !! s = Some a ↔ a ∈ l ∧ f a = Some (JStr s).

Record spec_repr (s : ContactsState) (a : contacts_spec) : Prop := {
  sr_contacts : repr sc_id (contacts s) (a_contacts a);
  sr_unread_keys : NoDup (keys (unreadCounts s));
  sr_unread id : map_get id (unreadCounts s) = a_unread a !! id;
  sr_pending : repr requestId (pendingInvitations s) (a_pending a);
  sr_blocked : repr b_userId (blockedUsers s) (a_blocked a);
}.

Lemma elem_of_bfilter {A} (p : A → bool) l x : x ∈ List.filter p l ↔ x ∈ l ∧ p x = true.
Proof. rewrite !list_elem_of_In. apply filter_In. Qed.

Lemma distinct_same {A} (f : A → value) l a b :
  distinct f l → a ∈ l → b ∈ l → f a = f b → a = b.
Proof.
  intros [_ Hn] Ha Hb E. induction l as [|x l IH]; [by apply not_elem_of_nil in Ha|].
  inversion Hn as [|? ? Hx Hn']; subst. rewrite elem_of_cons in Ha, Hb.
  destruct Ha as [->|Ha], Hb as [->|Hb]; try done; [..|by apply IH]; destruct Hx.
  - rewrite E. by apply (list_elem_of_fmap_2 f).
  - rewrite <-E. by apply (list_elem_of_fmap_2 f).
Qed.

Lemma repr_filter {A} (f : A → value) (p : A → bool) (P : jsstr * A → Prop) `{∀ x, Decision (P x)} l m :
  (∀ k a, P (k, a) ↔ p a = true) → repr f l m → repr f (List.filter p l) (filter P m).
Proof.
  intros HP [Hd Hm]. split; [by apply distinct_filter|]. intros s a.
  rewrite map_lookup_filter_Some, Hm, elem_of_bfilter, HP. tauto.
Qed.

Lemma repr_delete {A} (f : A → value) (v : value) l m :
  repr f l m → repr f (List.filter (λ a, negb (strict_eq (f a) v)) l) (at_key v delete m).
Proof.
  intros [Hd Hm]. split; [by apply distinct_filter|]. intros s a. rewrite elem_of_bfilter, negb_true_iff.
  unfold at_key. destruct (string_value v) as [t|] eqn:E.
  - assert (v = Some (JStr t)) as Hv by (destruct v as [[]|]; cbn in E; congruence).
    rewrite lookup_delete_Some, Hm, (strict_neq_string _ _ t Hv), Hv. naive_solver.
  - rewrite Hm. split; [|tauto]. intros [Hi Hf]. split; [|done]. split; [done|].
    rewrite Hf. by destruct v as [[]|].
Qed.

Lemma repr_snoc {A} (f : A → value) (a : A) s l m :
  f a = Some (JStr s) → m !! s = None → repr f l m → repr f (l ++ [a]) (<[s := a]> m).
Proof.
  intros Ha Hs [[Hk Hn] Hm]. split.
  - split; [apply list.Forall_app; split; [done|]; apply list.Forall_singleton; by exists s|].
    rewrite map_app. apply list.NoDup_app. split; [done|]. split; [|apply NoDup_singleton].
    intros x Hx Hx'. apply list_elem_of_singleton in Hx' as ->.
    apply list_elem_of_fmap in Hx as (b & Hb & Hin). assert (m !! s = Some b); [|congruence].
    apply Hm. by rewrite <-Hb.
  - intros t b. rewrite elem_of_app, list_elem_of_singleton. destruct (decide (s = t)) as [<-|Hne].
    + rewrite lookup_insert_eq. split; [by intros [= <-]; auto|]. intros [[Hb| ->] Hf]; [|done].
      assert (m !! s = Some b); [|congruence]. by apply Hm.
    + rewrite lookup_insert_ne, Hm by done. naive_solver.
Qed.

Lemma repr_upsert {A} (f : A → value) (a : A) l m :
  string_key f a → repr f l m →
  repr f (List.filter (λ b, negb (strict_eq (f b) (f a))) l ++ [a]) (<[key_of f a := a]> m).
Proof.
  intros [s Hs] Hr. unfold key_of. rewrite Hs. cbn [string_value nullish].
  rewrite <-insert_delete_eq. apply repr_snoc; [done|apply lookup_delete_eq|].
  exact (repr_delete f (Some (JStr s)) l m Hr).
Qed.

Lemma repr_alter {A} (f : A → value) (g : A → A) v l m :
  (∀ a, f (g a) = f a) → repr f l m →
  repr f (map (λ a, if strict_eq (f a) v then g a else a) l) (at_key v (alter g) m).
Proof.
  intros Hg [Hd Hm]. split; [apply distinct_map; [|done]; intros a; by destruct (strict_eq _ _)|].
  intros s b. rewrite list_elem_of_fmap. unfold at_key.
  destruct (string_value v) as [t|] eqn:E.
  - assert (v = Some (JStr t)) as Hv by (destruct v as [[]|]; cbn in E; congruence).
    rewrite lookup_alter_Some. setoid_rewrite Hm. split.
    + intros [(<- & a & [Hi Hf] & ->)|(Hne & Hi & Hf)].
      * split; [|by rewrite Hg]. exists a. split; [|done].
        by rewrite (proj2 (strict_eq_string (f a) v t Hv)) by congruence.
      * split; [|done]. exists b. split; [|done].
        by rewrite (proj2 (strict_neq_string (f b) v t Hv)) by congruence.
    + intros [(a & -> & Hi) Hf]. destruct (strict_eq (f a) v) eqn:Ea.
      * apply (strict_eq_string _ _ t Hv) in Ea. rewrite Hg in Hf. left. split; [congruence|]. eauto.
      * apply (strict_neq_string _ _ t Hv) in Ea. right. split; [congruence|done].
  - rewrite Hm. split.
    + intros [Hi Hf]. split; [|done]. exists b. rewrite Hf. split; [|done]. by destruct v as [[]|].
    + intros [(a & -> & Hi) Hf]. destruct (strict_eq (f a) v) eqn:Ea; [|done].
      rewrite Hg in Hf. rewrite Hf in Ea. by destruct v as [[]|].
Qed.

Lemma repr_replace {A} (f : A → value) (x : A) l m :
  string_key f x → existsb (λ a, strict_eq (f a) (f x)) l = true → repr f l m →
  repr f (map (λ a, if strict_eq (f a) (f x) then x else a) l) (<[key_of f x := x]> m).
Proof.
  intros [s Hx] He [Hd Hm]. assert (key_of f x = s) as -> by (unfold key_of; by rewrite Hx).
  apply existsb_exists in He as (y & Hy & Ey). apply list_elem_of_In in Hy.
  apply (strict_eq_string _ _ s Hx) in Ey. split.
  - destruct Hd as [Hs Hn]. split.
    + apply Forall_map. eapply List.Forall_impl, Hs. intros a Ha. unfold compose.
      destruct (strict_eq _ _); [by exists s|done].
    + rewrite map_map. erewrite map_ext; [exact Hn|]. intros a. cbn.
      destruct (strict_eq _ _) eqn:Ea; [|done]. apply (strict_eq_string _ _ s Hx) in Ea. congruence.
  - intros t b. rewrite list_elem_of_fmap. destruct (decide (s = t)) as [<-|Hne].
    + rewrite lookup_insert_eq. split.
      * intros [= <-]. split; [|done]. exists y. split; [|done].
        by rewrite (proj2 (strict_eq_string _ _ s Hx) Ey).
      * intros [(a & -> & Hi) Hf]. destruct (strict_eq _ _) eqn:Ea; [done|].
        apply (strict_neq_string _ _ s Hx) in Ea. congruence.
    + rewrite lookup_insert_ne, Hm by done. split.
      * intros [Hi Hf]. split; [|done]. exists b. split; [|done].
        by rewrite (proj2 (strict_neq_string _ _ s Hx)) by congruence.
      * intros [(a & -> & Hi) Hf]. destruct (strict_eq _ _) eqn:Ea; [congruence|done].
Qed.

Lemma repr_of_list {A} (f : A → value) l : distinct f l → repr f l (map_of f l).
Proof.
  induction l as [|a l IH]; intros Hd.
  - split; [done|]. intros s a. cbn. rewrite lookup_empty, elem_of_nil. naive_solver.
  - assert (distinct f l) as Hd' by (destruct Hd as [Hs Hn]; inversion Hs; by inversion Hn).
    destruct (IH Hd') as [_ Hm]. split; [done|]. intros s b. cbn.
    destruct Hd as [Hs Hn]. inversion Hs as [|? ? [t Ht] _]; subst. inversion Hn as [|? ? Hni _]; subst.
    unfold key_of. rewrite Ht. cbn [string_value nullish]. rewrite elem_of_cons.
    destruct (decide (t = s)) as [<-|Hne].
    + rewrite lookup_insert_eq. split; [by intros [= <-]; auto|]. intros [[->|Hb] Hf]; [done|].
      destruct Hni. rewrite Ht, <-Hf. by apply (list_elem_of_fmap_2 f).
    + rewrite lookup_insert_ne, Hm by done. naive_solver.
Qed.

Lemma spec_repr_step op s a :
  op_ok op → spec_repr s a → spec_repr (apply_contacts op s) (spec_contacts op a).
Proof.
  destruct a as [c u p b]. intros Ho [Hc Hk Hu Hp Hb]. cbn in Hc, Hu, Hp, Hb.
  destruct op; cbn in Ho |- *; split; cbn; try done;
    try (by apply repr_delete); try (by apply repr_upsert); try (by apply repr_of_list);
    try (by apply keys_set); try (by apply keys_delete);
    try (unfold addAcceptedContact; destruct (existsb _ _) eqn:E; cbn; done).
  - apply repr_alter; [|done]. intros x. cbn. by rewrite Ho.
  - by apply repr_alter.
  - unfold addAcceptedContact. destruct (existsb _ _) eqn:E; cbn; [by apply repr_replace|].
    destruct Ho as [t Ht]. unfold key_of. rewrite Ht. cbn [string_value nullish].
    apply repr_snoc; [done| |done]. destruct (c !! t) as [y|] eqn:Ey; [|done].
    apply Hc in Ey as [Hy Hf]. exfalso. apply not_true_iff_false in E. apply E, existsb_exists.
    exists y. split; [by apply list_elem_of_In|]. apply (strict_eq_string _ _ t Ht). congruence.
  - intros id'. rewrite map_get_set, Hu. destruct (decide (id' = id)) as [->|];
      [by rewrite lookup_insert_eq|rewrite lookup_insert_ne by done; apply Hu].
  - intros id'. rewrite map_get_delete. destruct (decide (id' = id)) as [->|];
      [by rewrite lookup_delete_eq|rewrite lookup_delete_ne by done; apply Hu].
  - apply repr_filter; [|done]. intros k x. cbn. by rewrite negb_true_iff.
Qed.

Lemma spec_repr_run ops :
  Forall op_ok ops →
  spec_repr (run_contacts ops emptyContacts) (foldl (λ a op, spec_contacts op a) empty_spec ops).
Proof.
  unfold run_contacts. induction ops as [|op ops IH] using rev_ind; intros Ho.
  - assert (∀ A (f : A → value), repr f [] ∅) as Hr.
    { intros A f. split; [split; [by apply list.Forall_nil|by apply NoDup_nil_2]|]. intros s a.
      rewrite lookup_empty, elem_of_nil. naive_solver. }
    split; cbn; try apply Hr; [constructor|]. intros id. by rewrite lookup_empty.
  - apply list.Forall_app in Ho as [Ho Hop]. apply Forall_cons_1 in Hop as [Hop _].
    rewrite !foldl_app. cbn [foldl]. apply spec_repr_step; [done|by apply IH].
Qed.

(** ** Properties *)

(** C39: The contacts store implements four maps keyed by strings. After any
    sequence of its operations on entries whose ids are strings, each list
    holds exactly the entries of the abstract map the same operations build, no
    two entries have the same id (so an upsert replaces and never duplicates),
    and the unread counts are those of the abstract map. *)
Theorem contacts_store_refines (ops : list contacts_op) :
  Forall op_ok ops →
  let s := run_contacts ops emptyContacts in
  let a := foldl (λ a op, spec_contacts op a) empty_spec ops in
  repr sc_id (contacts s) (a_contacts a) ∧
  repr requestId (pendingInvitations s) (a_pending a) ∧
  repr b_userId (blockedUsers s) (a_blocked a) ∧
  ∀ id, map_get id (unreadCounts s) = a_unread a !! id.
Proof. intros Ho. by destruct (spec_repr_run ops Ho) as [? ? ? ? ?]. Qed.

(** An unread count is the number of messages counted since the contact was
    last cleared, whatever else happens in the store between. *)
Theorem unread_counts_since_clear (id : jsstr) (before after : list contacts_op) :
  (∀ op, In op after → op ≠ ClearUnread id) →
  nullish 0 (map_get id (unreadCounts (run_contacts (before ++ ClearUnread id :: after) emptyContacts)))
    = Z.of_nat (length (List.filter
        (λ op, match op with IncrementUnread i => bool_decide (i = id) | _ => false end) after)).
Proof.
  unfold run_contacts. rewrite foldl_app. cbn [foldl].
  generalize (foldl (λ s op, apply_contacts op s) emptyContacts before). intros s0.
  induction after as [|op ops IH] using rev_ind; intros Hno.
  - cbn. by rewrite map_get_delete, decide_True.
  - rewrite foldl_app, List.filter_app, length_app, Nat2Z.inj_add. cbn [foldl].
    rewrite <-IH by (intros o Ho; apply Hno, in_or_app; by left).
    generalize (foldl (λ s op, apply_contacts op s) (apply_contacts (ClearUnread id) s0) ops). intros s.
    assert (op ≠ ClearUnread id) as Hop by (apply Hno, in_or_app; right; by left).
    destruct op; cbn; try lia.
    + unfold addAcceptedContact. destruct (existsb _ _); cbn; lia.
    + rewrite map_get_set. destruct (decide (id = id0)) as [<-|Hne].
      * rewrite bool_decide_true by done. done.
      * rewrite bool_decide_false by done. cbn. lia.
    + rewrite map_get_delete, decide_False by congruence. lia.
Qed.

End store.
