(* ===== verification/Client.v ===== *)
(** * client.ts: the protocol client

    packages/core/src/protocol/client.ts. [WinkdClient] is a state machine
    driven by its methods, by the events of the WebSocket objects it made and
    by the timers it set. A socket keeps delivering events after the client has
    let go of it, so sockets and timers are objects of the state. Each handler
    is the whole closure of the source; what it does to the outside is a list
    of effects. *)

From S2P Require Import Prelude JsString Utf Json Platform Types.

(** ** The platform's objects *)

(** A subscriber of [on], by identity. *)
Abbreviation handler := nat (only parsing).

Inductive effect :=
  | Sent (sock : nat) (text : jsstr)             (** a frame handed to an open socket *)
  | AuthFailure                                  (** [onAuthFailure] is called *)
  | Called (h : handler) (payload : option json) (** a handler is called *)
  | Uncaught (e : js_error).                     (** an exception leaves an event handler *)

(** [class WinkdClient], with the sockets and timers it has made. *)
Record WinkdClient := mkClient {
  ws : option nat;
  handlers : gmap jsstr (list handler);
  reconnectTimer : option nat;
  reconnectDelay : Z;
  authenticated : bool;
  sockets : gmap nat readyState;
  timers : gmap nat Z;
  nextId : nat;
}.

Definition newClient : WinkdClient := mkClient None ∅ None 1000 false ∅ ∅ 0.

(** [JSON.stringify({ type: "auth", token })] *)
Definition auth_frame (token : jsstr) : jsstr :=
  stringify (JObj [(js "type", JStr (js "auth")); (js "token", JStr token)]).

(** [JSON.stringify({ command, payload })] *)
Definition command_frame (command : ClientCommandType) (payload : json) : jsstr :=
  stringify (JObj [(js "command", JStr (command_name command)); (js "payload", payload)]).

Definition is_open (c : WinkdClient) : bool :=
  match ws c with
  | Some i => bool_decide (sockets c !! i = Some OPEN)
  | None => false
  end.

Section client.
Context (sessionToken : jsstr) (onAuthFailure : bool).

(** ** Methods *)

Definition connect (c : WinkdClient) : WinkdClient :=
  if is_open c then c
  else
    let i := nextId c in
    mkClient (Some i) (handlers c) (reconnectTimer c) (reconnectDelay c) false
      (<[i := CONNECTING]> (sockets c)) (timers c) (S i).

(** Closing twice does nothing; the close event comes later. *)
Definition close_socket (c : WinkdClient) : gmap nat readyState :=
  match ws c with
  | Some i =>
      match sockets c !! i with
      | Some CONNECTING | Some OPEN => <[i := CLOSING]> (sockets c)
      | _ => sockets c
      end
  | None => sockets c
  end.

Definition disconnect (c : WinkdClient) : WinkdClient :=
  mkClient None (handlers c) (reconnectTimer c) (reconnectDelay c) false (close_socket c)
    (match reconnectTimer c with Some t => delete t (timers c) | None => timers c end) (nextId c).

Definition send (command : ClientCommandType) (payload : json) (c : WinkdClient) : list effect :=
  if negb (authenticated c) || negb (is_open c) then []
  else match ws c with Some i => [Sent i (command_frame command payload)] | None => [] end.

Definition set_handlers (f : gmap jsstr (list handler) → gmap jsstr (list handler))
    (c : WinkdClient) : WinkdClient :=
  mkClient (ws c) (f (handlers c)) (reconnectTimer c) (reconnectDelay c) (authenticated c)
    (sockets c) (timers c) (nextId c).

(** [Set.add] keeps insertion order and ignores a member. *)
Definition on (event : ServerEventType) (h : handler) (c : WinkdClient) : WinkdClient :=
  let hs := nullish [] (handlers c !! event_name event) in
  set_handlers <[event_name event := if decide (h ∈ hs) then hs else hs ++ [h]]> c.

(** The function [on] returns. *)
Definition unsubscribe (event : ServerEventType) (h : handler) (c : WinkdClient) : WinkdClient :=
  set_handlers (alter (List.filter (λ x, negb (x =? h)%nat)) (event_name event)) c.

Definition dispatch (envelope : json) (c : WinkdClient) : list effect :=
  match json_get (js "event") envelope with
  | Some (JStr event) =>
      match handlers c !! event with
      | Some hs => map (λ h, Called h (json_get (js "payload") envelope)) hs
      | None => []
      end
  | _ => []
  end.

(** The timer runs after the delay at the time it is set. *)
Definition scheduleReconnect (c : WinkdClient) : WinkdClient :=
  let t := nextId c in
  mkClient (ws c) (handlers c) (Some t) (reconnectDelay c) (authenticated c) (sockets c)
    (<[t := reconnectDelay c]> (timers c)) (S t).

(** ** Handlers of a socket's events *)

Definition set_authenticated (b : bool) (c : WinkdClient) : WinkdClient :=
  mkClient (ws c) (handlers c) (reconnectTimer c) (reconnectDelay c) b (sockets c) (timers c)
    (nextId c).
Definition set_delay (d : Z) (c : WinkdClient) : WinkdClient :=
  mkClient (ws c) (handlers c) (reconnectTimer c) d (authenticated c) (sockets c) (timers c)
    (nextId c).
Definition set_socket (i : nat) (r : readyState) (c : WinkdClient) : WinkdClient :=
  mkClient (ws c) (handlers c) (reconnectTimer c) (reconnectDelay c) (authenticated c)
    (<[i := r]> (sockets c)) (timers c) (nextId c).

(** [this.ws!.send(...)]: the client's current socket, whichever it is. *)
Definition onopen (c : WinkdClient) : WinkdClient * list effect :=
  let c := set_delay 1000 c in
  (c, match ws c with
      | None => [Uncaught TypeError_]
      | Some i =>
          match sockets c !! i with
          | Some OPEN => [Sent i (auth_frame sessionToken)]
          | Some CONNECTING => [Uncaught (DOMException_ "InvalidStateError")]
          | _ => []
          end
      end).

Definition onmessage (data : jsstr) (c : WinkdClient) : WinkdClient * list effect :=
  match parse_json data with
  | Throw _ => (c, [])
  | Ok envelope =>
      if negb (authenticated c) then
        match get_prop (js "type") (Some envelope) with
        | Throw _ => (c, [])
        | Ok t =>
            if is_string (js "auth_ok") t then (set_authenticated true c, [])
            else (c, [])
        end
      else
        match get_prop (js "event") (Some envelope) with
        | Throw _ => (c, [])
        | Ok _ => (c, dispatch envelope c)
        end
  end.

Definition onclose (code : Z) (c : WinkdClient) : WinkdClient * list effect :=
  let c := set_authenticated false c in
  if code =? 4001 then (c, if onAuthFailure then [AuthFailure] else [])
  else (scheduleReconnect c, []).

(** The callback of [scheduleReconnect]'s timer. *)
Definition ontimer (c : WinkdClient) : WinkdClient :=
  connect (set_delay (Z.min (reconnectDelay c * 2) 30000) c).

(** ** Events *)

Inductive event :=
  | EConnect | EDisconnect
  | ESend (command : ClientCommandType) (payload : json)
  | EOn (e : ServerEventType) (h : handler)
  | EUnsubscribe (e : ServerEventType) (h : handler)
  | EOpen (sock : nat)
  | EMessage (sock : nat) (data : jsstr)
  | EClose (sock : nat) (code : Z)
  | EError (sock : nat)
  | ETimer (t : nat).

(** What the platform can report: a socket opens once, receives messages
    while it is open, and closes once. *)
Definition enabled (ev : event) (c : WinkdClient) : bool :=
  match ev with
  | EOpen i => bool_decide (sockets c !! i = Some CONNECTING)
  | EMessage i _ => bool_decide (sockets c !! i = Some OPEN)
  | EClose i _ | EError i =>
      match sockets c !! i with Some CLOSED | None => false | _ => true end
  | ETimer t => bool_decide (is_Some (timers c !! t))
  | _ => true
  end.

Definition step (ev : event) (c : WinkdClient) : WinkdClient * list effect :=
  match ev with
  | EConnect => (connect c, [])
  | EDisconnect => (disconnect c, [])
  | ESend command payload => (c, send command payload c)
  | EOn e h => (on e h c, [])
  | EUnsubscribe e h => (unsubscribe e h c, [])
  | EOpen i => onopen (set_socket i OPEN c)
  | EMessage _ data => onmessage data c
  | EClose i code => onclose code (set_socket i CLOSED c)
  | EError _ => (c, [])
  | ETimer t =>
      (ontimer (mkClient (ws c) (handlers c) (reconnectTimer c) (reconnectDelay c)
         (authenticated c) (sockets c) (delete t (timers c)) (nextId c)), [])
  end.

(** A run: the events with their effects, the latest last. *)
Inductive runs (c0 : WinkdClient) : list (event * list effect) → WinkdClient → Prop :=
  | runs_nil : runs c0 [] c0
  | runs_snoc tr c ev c' effs :
      runs c0 tr c → enabled ev c = true → step ev c = (c', effs) →
      runs c0 (tr ++ [(ev, effs)]) c'.

(** The same, computed; [None] when an event was not enabled. *)
Fixpoint run_events (evs : list event) (c : WinkdClient)
    : option (WinkdClient * list (event * list effect)) :=
  match evs with
  | [] => Some (c, [])
  | ev :: evs =>
      if enabled ev c then
        let '(c', effs) := step ev c in
        match run_events evs c' with
        | Some (c'', tr) => Some (c'', (ev, effs) :: tr)
        | None => None
        end
      else None
  end.

Lemma run_events_runs evs c0 tr c c' tr' :
  runs c0 tr c → run_events evs c = Some (c', tr') → runs c0 (tr ++ tr') c'.
Proof.
  revert tr c tr'. induction evs as [|ev evs IH]; cbn; intros tr c tr' Hr H.
  - injection H as <- <-. by rewrite app_nil_r.
  - destruct (enabled ev c) eqn:He; [|done]. destruct (step ev c) as [c1 effs] eqn:Hs.
    destruct (run_events evs c1) as [[c2 tr2]|] eqn:E; [|done]. injection H as <- <-.
    change (tr ++ (ev, effs) :: tr2) with (tr ++ [(ev, effs)] ++ tr2). rewrite (assoc_L (++)).
    eapply IH; [by eapply runs_snoc|done].
Qed.

(** ** One connection at a time

    When the application connects once and never disconnects, the client holds
    the only live socket, sets a timer only when there is none, and is
    authenticated only over a socket that reported [auth_ok]. *)

(** The events of such an application. *)
Definition undisturbed (ev : event) : Prop :=
  match ev with EConnect | EDisconnect => False | _ => True end.

(** The authentication frame was handed to the socket. *)
Definition auth_sent (i : nat) (tr : list (event * list effect)) : Prop :=
  ∃ ev effs, In (ev, effs) tr ∧ In (Sent i (auth_frame sessionToken)) effs.

(** [auth_ok] arrived on the socket, after the authentication frame left on it. *)
Definition confirmed (i : nat) (tr : list (event * list effect)) : Prop :=
  ∃ tr1 data effs tr2 v,
    tr = tr1 ++ (EMessage i data, effs) :: tr2 ∧ parse_json data = Ok v ∧
    is_string (js "auth_ok") (json_get (js "type") v) = true ∧
    auth_sent i tr1.

Definition live (i : nat) (c : WinkdClient) : Prop :=
  ∃ r, sockets c !! i = Some r ∧ r ≠ CLOSED.

Record connected_once (c : WinkdClient) (tr : list (event * list effect)) : Prop := {
  co_live i : live i c → ws c = Some i;
  co_timers t : is_Some (timers c !! t) → (∀ i, ¬ live i c) ∧ ∀ t', is_Some (timers c !! t') → t' = t;
  co_open i : sockets c !! i = Some OPEN → auth_sent i tr;
  co_auth : authenticated c = true →
    ∃ i, ws c = Some i ∧ sockets c !! i = Some OPEN ∧ confirmed i tr;
}.

Lemma confirmed_snoc i tr x : confirmed i tr → confirmed i (tr ++ [x]).
Proof.
  intros (tr1 & data & effs & tr2 & v & -> & ?). exists tr1, data, effs, (tr2 ++ [x]), v.
  by rewrite <-app_assoc.
Qed.

Lemma auth_sent_snoc i tr x : auth_sent i tr → auth_sent i (tr ++ [x]).
Proof. intros (ev & effs & ? & ?). exists ev, effs. split; [|done]. apply in_or_app. by left. Qed.

(** Steps that leave the sockets, the timers and the authentication alone. *)
Lemma connected_once_same c c' tr x :
  connected_once c tr → ws c' = ws c → sockets c' = sockets c → timers c' = timers c →
  (authenticated c' = true → authenticated c = true) → connected_once c' (tr ++ [x]).
Proof.
  intros [Hl Ht Ho Ha] Ew Es Et Ea.
  assert (∀ i, live i c' ↔ live i c) as Hlive by (intros i; unfold live; by rewrite Es).
  split.
  - intros i. rewrite Hlive, Ew. auto.
  - intros t. rewrite Et. intros Hsome. destruct (Ht t Hsome) as [Hno Huniq].
    split; [intros i; rewrite Hlive; auto|auto].
  - intros i. rewrite Es. intros Hi. by apply auth_sent_snoc, Ho.
  - intros Hauth. destruct (Ha (Ea Hauth)) as (i & ? & ? & ?). exists i. rewrite Ew, Es.
    split; [done|]. split; [done|]. by apply confirmed_snoc.
Qed.


(** A live socket is the only one, and there is then no timer. *)
Lemma live_no_timers c tr i : connected_once c tr → live i c → ∀ t, timers c !! t = None.
Proof.
  intros Hc Hi t. destruct (timers c !! t) eqn:E; [|done].
  destruct (co_timers _ _ Hc t) as [Hno _]; [by eexists|]. by destruct (Hno i).
Qed.

Lemma connected_once_open c tr i effs c' :
  connected_once c tr → sockets c !! i = Some CONNECTING →
  onopen (set_socket i OPEN c) = (c', effs) → connected_once c' (tr ++ [(EOpen i, effs)]).
Proof.
  intros Hc Hi. assert (live i c) as Hli by by exists CONNECTING.
  pose proof (co_live _ _ Hc i Hli) as Hw. unfold onopen. cbn [ws sockets set_delay set_socket].
  rewrite Hw, lookup_insert_eq. intros [= <- <-].
  assert (auth_sent i (tr ++ [(EOpen i, [Sent i (auth_frame sessionToken)])])) as Hsent.
  { exists (EOpen i), [Sent i (auth_frame sessionToken)]. split; [apply in_or_app; right; by left|by left]. }
  split; cbn.
  - intros j (r & Hj & Hr). destruct (decide (i = j)) as [->|Hne]; [done|].
    cbn in Hj. rewrite lookup_insert_ne in Hj by done. apply Hc. by exists r.
  - intros t Hsome. rewrite (live_no_timers c tr i Hc Hli t) in Hsome. by destruct Hsome.
  - intros j Hj. destruct (decide (i = j)) as [->|Hne]; [done|].
    rewrite lookup_insert_ne in Hj by done. by apply auth_sent_snoc, Hc.
  - intros Ha. destruct (co_auth _ _ Hc Ha) as (j & Hj & Ho & ?). rewrite Hw in Hj. injection Hj as <-.
    congruence.
Qed.

Lemma onmessage_same data c c' effs :
  onmessage data c = (c', effs) →
  c' = c ∨ authenticated c = false ∧ c' = set_authenticated true c ∧
    ∃ v, parse_json data = Ok v ∧ is_string (js "auth_ok") (json_get (js "type") v) = true.
Proof.
  unfold onmessage. destruct (parse_json data) as [v|]; [|by intros [= <- _]; left].
  destruct (authenticated c); cbn [negb].
  - destruct (get_prop _ (Some v)); by intros [= <- _]; left.
  - unfold get_prop. destruct v; try (cbn; by intros [= <- _]; left).
    destruct (is_string _ _) eqn:E; intros [= <- _]; [right; eauto|by left].
Qed.

Lemma connected_once_message c tr i data effs c' :
  connected_once c tr → sockets c !! i = Some OPEN → onmessage data c = (c', effs) →
  connected_once c' (tr ++ [(EMessage i data, effs)]).
Proof.
  intros Hc Hi Hm. destruct (onmessage_same data c c' effs Hm) as [->|(Ha & -> & v & Hv & Hok)];
    [by eapply connected_once_same|].
  assert (live i c) as Hli by by exists OPEN. destruct Hc as [Hl Ht Ho Hau]. split; cbn.
  - exact Hl.
  - exact Ht.
  - intros j Hj. by apply auth_sent_snoc, Ho.
  - intros _. exists i. split; [by apply Hl|]. split; [done|].
    exists tr, data, effs, [], v. split; [done|]. split; [done|]. split; [done|]. by apply Ho.
Qed.

Lemma connected_once_close c tr i code effs c' :
  connected_once c tr → live i c → onclose code (set_socket i CLOSED c) = (c', effs) →
  connected_once c' (tr ++ [(EClose i code, effs)]).
Proof.
  intros Hc Hli.
  assert (∀ j, ¬ live j (set_socket i CLOSED c)) as Hdead.
  { intros j (r & Hj & Hr). cbn in Hj. destruct (decide (i = j)) as [->|Hne].
    - rewrite lookup_insert_eq in Hj. congruence.
    - rewrite lookup_insert_ne in Hj by done.
      assert (ws c = Some j) as E by (apply Hc; by exists r).
      rewrite (co_live _ _ Hc i Hli) in E. congruence. }
  assert (∀ j, <[i := CLOSED]> (sockets c) !! j = Some OPEN → auth_sent j tr) as Hopen.
  { intros j Hj. destruct (decide (i = j)) as [->|Hne]; [by rewrite lookup_insert_eq in Hj|].
    rewrite lookup_insert_ne in Hj by done. by apply Hc. }
  pose proof (live_no_timers c tr i Hc Hli) as Hnt. unfold onclose.
  destruct (code =? 4001); intros [= <- <-]; split; cbn.
  - intros j Hj. by apply Hdead in Hj.
  - intros t Hs. rewrite Hnt in Hs. by destruct Hs.
  - intros j Hj. by apply auth_sent_snoc, Hopen.
  - done.
  - intros j Hj. by apply Hdead in Hj.
  - intros t Hs. split; [exact Hdead|]. intros t' Hs'.
    assert (∀ u, is_Some (<[nextId c := reconnectDelay c]> (timers c) !! u) → u = nextId c) as Hu.
    { intros u Hsu. destruct (decide (nextId c = u)) as [->|Hne]; [done|].
      rewrite lookup_insert_ne, Hnt in Hsu by done. by destruct Hsu. }
    by rewrite (Hu t Hs), (Hu t' Hs').
  - intros j Hj. by apply auth_sent_snoc, Hopen.
  - done.
Qed.

Lemma connected_once_timer c tr t :
  connected_once c tr → is_Some (timers c !! t) →
  connected_once (step (ETimer t) c).1 (tr ++ [(ETimer t, [])]).
Proof.
  intros Hc Hs. destruct (co_timers _ _ Hc t Hs) as [Hdead Huniq].
  assert (is_open c = false) as Ho.
  { unfold is_open. destruct (ws c) as [i|]; [|done]. apply bool_decide_false. intros E.
    destruct (Hdead i). by exists OPEN. }
  cbn. unfold ontimer, connect. change (is_open _) with (is_open c). rewrite Ho. cbn.
  split; cbn.
  - intros j (r & Hj & Hr). cbn in Hj. destruct (decide (nextId c = j)) as [->|Hne]; [done|].
    rewrite lookup_insert_ne in Hj by done. destruct (Hdead j). by exists r.
  - intros t' Hs'. exfalso. destruct (decide (t = t')) as [->|Hne].
    + rewrite lookup_delete_eq in Hs'. by destruct Hs'.
    + rewrite lookup_delete_ne in Hs' by done. by apply Huniq in Hs'.
  - intros j Hj. destruct (decide (nextId c = j)) as [<-|Hne]; [by rewrite lookup_insert_eq in Hj|].
    rewrite lookup_insert_ne in Hj by done. by apply auth_sent_snoc, Hc.
  - done.
Qed.

Lemma connected_once_step c tr ev c' effs :
  connected_once c tr → undisturbed ev → enabled ev c = true → step ev c = (c', effs) →
  connected_once c' (tr ++ [(ev, effs)]).
Proof.
  intros Hc Hu He Hs. destruct ev; cbn in *; try done.
  - injection Hs as <- <-. by eapply connected_once_same.
  - injection Hs as <- <-. by eapply connected_once_same.
  - injection Hs as <- <-. by eapply connected_once_same.
  - apply bool_decide_eq_true in He. by eapply connected_once_open.
  - apply bool_decide_eq_true in He. by eapply connected_once_message.
  - eapply connected_once_close; [done| |done].
    destruct (sockets c !! sock) as [r|] eqn:E; [|done]. exists r. split; [done|]. by destruct r.
  - injection Hs as <- <-. by eapply connected_once_same.
  - apply bool_decide_eq_true in He. injection Hs as <- <-. by apply (connected_once_timer c tr t).
Qed.

Lemma connected_once_runs tr c :
  runs (connect newClient) tr c → Forall (λ x, undisturbed x.1) tr → connected_once c tr.
Proof.
  intros Hr. induction Hr as [|tr c ev c' effs Hr IH He Hs]; intros Hu.
  - split; cbn.
    + intros i (r & Hi & Hr). cbn in Hi. apply lookup_insert_Some in Hi as [[<- _]|[_ Hi]]; [done|].
      by rewrite lookup_empty in Hi.
    + intros t Ht. rewrite lookup_empty in Ht. by destruct Ht.
    + intros i Hi. apply lookup_insert_Some in Hi as [[_ ?]|[_ Hi]]; [done|].
      by rewrite lookup_empty in Hi.
    + done.
  - apply Forall_app in Hu as [Hu Hev]. apply Forall_cons_1 in Hev as [Hev _].
    eapply connected_once_step; eauto.
Qed.

(** ** Bounds that hold in every run *)

Record timing_ok (c : WinkdClient) : Prop := {
  tk_delay : 1000 ≤ reconnectDelay c ≤ 30000;
  tk_timers t d : timers c !! t = Some d → 1000 ≤ d ≤ 30000;
  tk_handlers e hs : handlers c !! e = Some hs → List.NoDup hs;
}.

Lemma connect_timing c : timing_ok c → timing_ok (connect c).
Proof. intros Hc. unfold connect. destruct (is_open c); [done|]. destruct Hc. by split. Qed.

Lemma timing_step ev c : timing_ok c → timing_ok (step ev c).1.
Proof.
  intros Hc. destruct ev; cbn.
  - by apply connect_timing.
  - destruct Hc as [Hd Ht Hh]. split; cbn; try done. intros u d. destruct (reconnectTimer c); [|apply Ht].
    intros [_ Hu]%lookup_delete_Some. eauto.
  - done.
  - destruct Hc as [Hd Ht Hh]. split; cbn; try done.
    intros e' hs [[<- <-]|[_ He]]%lookup_insert_Some; [|eauto].
    assert (List.NoDup (nullish [] (handlers c !! event_name e))) as Hn.
    { destruct (handlers c !! event_name e) eqn:E; cbn; [by eapply Hh|by apply List.NoDup_nil]. }
    destruct (decide _) as [|Hni]; [done|]. rewrite list_elem_of_In in Hni.
    apply List.NoDup_app; [done|by apply List.NoDup_cons; [intros []|apply List.NoDup_nil]|].
    intros x Hx [<-|[]]. done.
  - destruct Hc as [Hd Ht Hh]. split; cbn; try done. intros e' hs.
    destruct (decide (event_name e = e')) as [<-|Hne].
    + rewrite lookup_alter_eq. destruct (handlers c !! event_name e) eqn:E; cbn; [|done].
      intros [= <-]. apply List.NoDup_filter. by eapply Hh.
    + rewrite lookup_alter_ne by done. apply Hh.
  - destruct Hc as [Hd Ht Hh]. by split; cbn; [lia|..].
  - destruct (onmessage data c) as [c' effs] eqn:E. cbn.
    destruct (onmessage_same data c c' effs E) as [->|(_ & -> & _)]; [done|]. by destruct Hc.
  - unfold onclose. destruct Hc as [Hd Ht Hh]. destruct (code =? 4001); cbn; split; cbn; try done.
    intros t d [[_ <-]|[_ Hu]]%lookup_insert_Some; [done|eauto].
  - done.
  - apply connect_timing. destruct Hc as [Hd Ht Hh]. split; cbn; [lia| |done].
    intros u d [_ Hu]%lookup_delete_Some. eauto.
Qed.

Lemma timing_runs tr c : runs newClient tr c → timing_ok c.
Proof.
  intros Hr. induction Hr as [|tr c ev c' effs Hr IH He Hs].
  - split; cbn; [lia|..]; intros ??; by rewrite lookup_empty.
  - pose proof (timing_step ev c IH) as Ht. by rewrite Hs in Ht.
Qed.

(** ** Properties *)

(** C37: Authentication gates everything. In any run in which the application calls
    connect once, before everything else, and never calls connect or disconnect
    again, whatever its sends, subscriptions and the network do (including any number
    of reconnections): a frame is either the
    authentication frame, sent when its socket opens, or a command, sent only
    on a socket that already reported [auth_ok] after receiving that frame;
    handlers are called only for messages of such a socket; [onAuthFailure] is
    called only by close code 4001; and no exception escapes a socket handler. *)
Theorem client_auth_gate tr ev effs c :
  runs (connect newClient) (tr ++ [(ev, effs)]) c →
  Forall (λ x, undisturbed x.1) (tr ++ [(ev, effs)]) →
  ∀ e, In e effs →
    match e with
    | Sent i text =>
        ev = EOpen i ∧ text = auth_frame sessionToken ∨
        ∃ command payload, ev = ESend command payload ∧
          text = command_frame command payload ∧ confirmed i tr
    | Called h payload => ∃ i data, ev = EMessage i data ∧ confirmed i tr
    | AuthFailure => ∃ i, ev = EClose i 4001
    | Uncaught _ => False
    end.
Proof.
  intros Hr Hu. inversion Hr as [|tr' c1 ev' c' effs' Hr1 He Hs E]; [by destruct tr|].
  apply app_inj_tail in E as [-> [= -> ->]]. subst c'. apply Forall_app in Hu as [Hu _].
  pose proof (connected_once_runs tr c1 Hr1 Hu) as Hc. intros e Hin.
  destruct ev as [| |command payload|e0 h|e0 h|i|i data|i code|i|t]; cbn in He, Hs;
    try (injection Hs as _ <-; done).
  - injection Hs as _ <-. unfold send in Hin.
    destruct (authenticated c1) eqn:Ea; cbn [negb orb] in Hin; [|done].
    destruct (co_auth _ _ Hc Ea) as (j & Hj & Ho & Hconf).
    destruct (is_open c1); cbn [negb] in Hin; [|done]. rewrite Hj in Hin.
    destruct Hin as [<-|[]]. right. eauto 10.
  - apply bool_decide_eq_true in He. unfold onopen in Hs. cbn in Hs.
    rewrite (co_live _ _ Hc i), lookup_insert_eq in Hs by by exists CONNECTING.
    injection Hs as _ <-. destruct Hin as [<-|[]]. by left.
  - apply bool_decide_eq_true in He. unfold onmessage in Hs.
    destruct (parse_json data) as [v|]; [|by injection Hs as _ <-].
    destruct (authenticated c1) eqn:Ea; cbn [negb] in Hs.
    + destruct (co_auth _ _ Hc Ea) as (j & Hj & Ho & Hconf).
      rewrite (co_live _ _ Hc i) in Hj by by exists OPEN. injection Hj as <-.
      destruct (get_prop _ (Some v)); injection Hs as _ <-; [|done]. unfold dispatch in Hin.
      destruct (json_get _ v) as [[]|]; try done. destruct (handlers c1 !! s); [|done].
      apply in_map_iff in Hin as (h & <- & _). eauto.
    + destruct (get_prop _ (Some v)); [destruct (is_string _ _)|]; by injection Hs as _ <-.
  - unfold onclose in Hs. destruct (Z.eqb_spec code 4001) as [->|]; injection Hs as _ <-; [|done].
    destruct onAuthFailure; [|done]. destruct Hin as [<-|[]]. eauto.
Qed.

(** Backoff. In every run, with any mix of events, the delay before a
    reconnection and the delay of every timer set lie between one and thirty
    seconds; [k] failed attempts in a row after an open connection raise the
    delay to exactly [min (1000 * 2^k) 30000]. *)
Theorem reconnect_backoff tr c (k : nat) :
  runs newClient tr c →
  1000 ≤ reconnectDelay c ≤ 30000 ∧
  (∀ t d, timers c !! t = Some d → 1000 ≤ d ≤ 30000) ∧
  reconnectDelay (Nat.iter k ontimer (onopen c).1) = Z.min (1000 * 2 ^ Z.of_nat k) 30000.
Proof.
  intros Hr. destruct (timing_runs tr c Hr) as [Hd Ht _]. split; [done|]. split; [done|].
  induction k as [|k IH]; [done|]. rewrite Nat.iter_succ. unfold ontimer at 1, connect.
  destruct (is_open _); cbn [reconnectDelay set_delay]; rewrite IH;
    rewrite Nat2Z.inj_succ, Z.pow_succ_r by lia; lia.
Qed.

(** Dispatch. In every run, an authenticated client that receives the event
    [e] with payload [v] calls each handler subscribed to [e] exactly once, in
    the order of subscription, with that payload, and calls no other. *)
Theorem dispatch_calls_subscribers tr c e v :
  runs newClient tr c → authenticated c = true → json_ok v = true →
  onmessage (stringify (JObj [(js "event", JStr (event_name e)); (js "payload", v)])) c
    = (c, map (λ h, Called h (Some v)) (nullish [] (handlers c !! event_name e))) ∧
  List.NoDup (nullish [] (handlers c !! event_name e)).
Proof.
  intros Hr Ha Hv. split.
  - unfold onmessage. rewrite json_roundtrip.
    2: { cbn [json_ok forallb]. rewrite Hv. by destruct e. }
    rewrite Ha. cbn [negb get_prop]. unfold dispatch.
    assert (∀ s v, json_get (js "event") (JObj [(js "event", JStr s); (js "payload", v)]) = Some (JStr s)
      ∧ json_get (js "payload") (JObj [(js "event", JStr s); (js "payload", v)]) = Some v) as Hg
      by (intros; split; reflexivity).
    destruct (Hg (event_name e) v) as [-> ->]. by destruct (handlers c !! event_name e).
  - destruct (handlers c !! event_name e) as [hs|] eqn:E; cbn; [|by apply List.NoDup_nil].
    by eapply (timing_runs tr c Hr).
Qed.

End client.

(** [disconnect] does not end the connection: the close event of the socket
    it closed still runs [onclose], which schedules a reconnection, and when
    that timer fires the client has a new socket. *)
Theorem disconnect_reconnects token :
  match run_events token true [EConnect; EOpen 0; EDisconnect; EClose 0 1000; ETimer 1] newClient with
  | Some (c, _) => ws c = Some 2%nat ∧ sockets c !! 2%nat = Some CONNECTING
  | None => False
  end.
Proof. by split. Qed.

(** The close event of an old socket de-authenticates the new one: after
    [disconnect] and [connect], once the new socket is open and confirmed, the
    late close event of the old one makes [send] drop commands although the
    current socket is open. *)
Theorem stale_close_deauthenticates token :
  let ok := stringify (JObj [(js "type", JStr (js "auth_ok"))]) in
  match run_events token true
      [EConnect; EOpen 0; EMessage 0 ok; EDisconnect; EConnect; EOpen 1; EMessage 1 ok;
       EClose 0 1000] newClient with
  | Some (c, _) => ws c = Some 1%nat ∧ is_open c = true ∧ send cmd_send_nudge JNull c = []
  | None => False
  end.
Proof. by repeat split. Qed.
