(* ===== verification/Contacts.v ===== *)
(** * contacts/index.ts: the contact manager

    packages/core/src/contacts/index.ts. The manager's [Map] is a
    [jsmap] of Platform.v; the abstract map it implements is a [gmap]. The QR payload goes through the platform's
    [URL] class, which is a parameter with its documented behaviour on the one
    form of URL the program writes. *)

From S2P Require Import Prelude JsString Utf Platform Types.

(** ** ContactManager *)

Definition ContactManager : Type := jsmap Contact.

Definition addOrUpdate (contact : Contact) (contacts : ContactManager) : ContactManager :=
  map_set (c_id contact) contact contacts.

Definition remove (id : jsstr) (contacts : ContactManager) : ContactManager :=
  map_delete id contacts.

Definition get (id : jsstr) (contacts : ContactManager) : option Contact :=
  map_get id contacts.

Definition with_request (st : ContactRequestStatus) (c : Contact) : bool :=
  bool_decide (c_requestStatus c = st).

Definition with_status (st : UserStatus) (c : Contact) : bool :=
  bool_decide (status (c_profile c) = st).

Definition getAll (contacts : ContactManager) : list Contact :=
  List.filter (with_request accepted) (values contacts).

Definition activeStatuses : list UserStatus := [online; away; busy].

Definition getGrouped (contacts : ContactManager) : GroupedContacts :=
  let accepted := getAll contacts in
  mkGrouped
    (List.filter (with_status online) accepted)
    (List.filter (with_status away) accepted)
    (List.filter (with_status busy) accepted)
    (List.filter (λ c, negb (bool_decide (In (status (c_profile c)) activeStatuses))) accepted).

Definition getPendingInbound (contacts : ContactManager) : list Contact :=
  List.filter (with_request pending_inbound) (values contacts).

(** ** QR codes *)

Record url := mkUrl { protocol : jsstr; hostname : jsstr; pathname : jsstr }.

Definition qr_prefix : jsstr := js "winkd://add/".

Definition qrPayload (winkdId : jsstr) : result jsstr :=
  e ← encodeURIComponent winkdId;
  mret (qr_prefix ++ e).

Section qr.
(** [new URL(raw)], [None] when it throws. *)
Context (parse_url : jsstr → option url).

(** The [try] block; every exception is caught. *)
Definition parseQrPayload (raw : jsstr) : option jsstr :=
  match parse_url raw with
  | None => None
  | Some u =>
      if bool_decide (protocol u ≠ js "winkd:") || bool_decide (hostname u ≠ js "add") then None
      else match decodeURIComponent (js_slice_from (pathname u) 1) with
           | Ok id => Some id
           | Throw _ => None
           end
  end.

(** What the URL standard calls single- and double-dot path segments, which the
    parser resolves. *)
Definition dot_segments : list jsstr :=
  [js "."; js ".."; js "%2e"; js "%2E"; js ".%2e"; js ".%2E"; js "%2e."; js "%2E.";
   js "%2e%2e"; js "%2e%2E"; js "%2E%2e"; js "%2E%2E"].

(** The URL standard on an authority-based URL of an unknown scheme with one
    path segment of unreserved characters and escapes. *)
Definition url_standard : Prop :=
  ∀ e, Forall (λ c, uri_unreserved c = true ∨ c = 37) e → ¬ In e dot_segments →
    parse_url (qr_prefix ++ e) = Some (mkUrl (js "winkd:") (js "add") (47 :: e)).

Lemma hex_upper_unreserved d : 0 ≤ d < 16 → uri_unreserved (hex_upper d) = true.
Proof.
  intros Hd. assert (d ∈ seqZ 0 16) as Hin by (apply elem_of_seqZ; lia). revert d Hd Hin.
  assert (Forall (λ d, uri_unreserved (hex_upper d) = true) (seqZ 0 16)) as Hf
    by (apply (Forall_check (λ d, uri_unreserved (hex_upper d))); [done|vm_compute; reflexivity]).
  intros d _ Hin. apply list_elem_of_In in Hin. rewrite List.Forall_forall in Hf. by apply Hf.
Qed.

Lemma encoded_chars s e :
  is_js s → encodeURIComponent s = Ok e → Forall (λ c, uri_unreserved c = true ∨ c = 37) e.
Proof.
  intros Hs. unfold encodeURIComponent. destruct (well_formed s); [|done]. intros [= <-].
  apply Forall_concat, Forall_map. eapply List.Forall_impl, scalar_values_scalar, Hs.
  intros cp Hcp. unfold compose, uri_encode_cp. destruct (uri_unreserved cp) eqn:E.
  - apply Forall_cons_2; [by left|by apply Forall_nil_2].
  - apply Forall_concat, Forall_map. eapply List.Forall_impl, utf8_of_bytes, Hcp.
    intros b Hb. unfold is_byte in Hb. unfold compose, pct.
    repeat apply Forall_cons_2; try apply Forall_nil_2; [by right|left..];
      apply hex_upper_unreserved; zlia.
Qed.

(** Only the texts [.] and [..] are written as dot segments. *)
Lemma encoded_dot s e :
  is_js s → encodeURIComponent s = Ok e → In e dot_segments → s = js "." ∨ s = js "..".
Proof.
  intros Hs He Hin. pose proof (uri_roundtrip s e Hs He) as Hd. clear He Hs.
  repeat (destruct Hin as [<-|Hin];
    [vm_compute in Hd; injection Hd as <-; first [by left|by right]|]). done.
Qed.

End qr.

Lemma partition4 {A} (p q r s : A → bool) (l : list A) :
  (∀ x, (p x, q x, r x, s x) ∈ [(true, false, false, false); (false, true, false, false);
                                (false, false, true, false); (false, false, false, true)]) →
  List.filter p l ++ List.filter q l ++ List.filter r l ++ List.filter s l ≡ₚ l.
Proof.
  intros H. induction l as [|x l IH]; [done|]. cbn. specialize (H x). rewrite list_elem_of_In in H.
  destruct (p x), (q x), (r x), (s x); try (exfalso; naive_solver);
    (etrans; [|exact (Permutation_skip x _ _ IH)]); cbn [app]; by rewrite <-?Permutation_middle.
Qed.

(** ** Properties *)

Inductive contact_op := AddOrUpdate (c : Contact) | Remove (id : jsstr).

Definition apply_op (m : ContactManager) (o : contact_op) : ContactManager :=
  match o with AddOrUpdate c => addOrUpdate c m | Remove id => remove id m end.

Definition spec_op (m : gmap jsstr Contact) (o : contact_op) : gmap jsstr Contact :=
  match o with AddOrUpdate c => <[c_id c := c]> m | Remove id => delete id m end.

(** [ContactManager] implements a map keyed by contact id: after any
    sequence of [addOrUpdate] and [remove], [get] answers as the abstract map
    does, no id occurs twice, and every contact is filed under its own id. *)
Theorem contact_manager_refines_map (ops : list contact_op) :
  let m := foldl apply_op [] ops in
  let spec := foldl spec_op ∅ ops in
  (∀ id, get id m = spec !! id) ∧ NoDup (keys m) ∧
  ∀ id c, get id m = Some c → c_id c = id.
Proof.
  cbv zeta.
  assert ((∀ id, get id (foldl apply_op [] ops) = foldl spec_op ∅ ops !! id) ∧
    NoDup (keys (foldl apply_op [] ops)) ∧
    ∀ id c, foldl spec_op ∅ ops !! id = Some c → c_id c = id) as (H1 & H2 & H3).
  { induction ops as [|o ops (IH1 & IH2 & IH3)] using rev_ind.
    { cbn. split; [intros id; by rewrite lookup_empty|]. split; [constructor|].
      intros id c. by rewrite lookup_empty. }
    rewrite !foldl_app. destruct o as [c|id0]; cbn [foldl apply_op spec_op]; unfold get, addOrUpdate, remove in *.
    - split; [|split; [by apply keys_set|]].
      + intros id. rewrite map_get_set. destruct (decide (id = c_id c)) as [->|];
          [by rewrite lookup_insert_eq|by rewrite lookup_insert_ne].
      + intros id c'. destruct (decide (c_id c = id)) as [<-|];
          [rewrite lookup_insert_eq; congruence|rewrite lookup_insert_ne by done; apply IH3].
    - split; [|split; [by apply keys_delete|]].
      + intros id. rewrite map_get_delete. destruct (decide (id = id0)) as [->|];
          [by rewrite lookup_delete_eq|by rewrite lookup_delete_ne].
      + intros id c' [_ ?]%lookup_delete_Some. auto. }
  split; [done|]. split; [done|]. intros id c. rewrite H1. apply H3.
Qed.

(** [getGrouped] partitions the accepted contacts: the four groups together
    are a permutation of [getAll], the first three hold exactly one status each,
    and the offline group holds the invisible ones. *)
Theorem getGrouped_partition (m : ContactManager) :
  let g := getGrouped m in
  g_online g ++ g_away g ++ g_busy g ++ g_offline g ≡ₚ getAll m ∧
  Forall (λ c, status (c_profile c) = online) (g_online g) ∧
  Forall (λ c, status (c_profile c) = away) (g_away g) ∧
  Forall (λ c, status (c_profile c) = busy) (g_busy g) ∧
  Forall (λ c, status (c_profile c) = invisible) (g_offline g).
Proof.
  cbv zeta. unfold getGrouped. cbn [g_online g_away g_busy g_offline].
  assert (∀ st l, Forall (λ c, status (c_profile c) = st) (List.filter (with_status st) l)) as Hst.
  { intros st l. apply List.Forall_forall. intros c [_ Hc]%filter_In.
    by apply bool_decide_eq_true in Hc. }
  split; [|split; [apply Hst|split; [apply Hst|split; [apply Hst|]]]].
  - apply partition4. intros c. unfold with_status, activeStatuses.
    rewrite list_elem_of_In. destruct (status (c_profile c)); vm_compute; auto 10.
  - apply List.Forall_forall. intros c [_ Hc]%filter_In. apply negb_true_iff, bool_decide_eq_false in Hc.
    unfold activeStatuses in Hc. destruct (status (c_profile c)); cbn in Hc; naive_solver.
Qed.

(** QR codes round-trip. For a well-formed Winkd id other than [.] and [..],
    over a [URL] class that follows the URL standard, [qrPayload] succeeds and
    [parseQrPayload] of its text returns the id. *)
Theorem qr_roundtrip parse_url (id : jsstr) :
  url_standard parse_url → is_js id → well_formed id = true → id ≠ js "." → id ≠ js ".." →
  ∃ raw, qrPayload id = Ok raw ∧ parseQrPayload parse_url raw = Some id.
Proof.
  intros Hu Hj Hw H1 H2. unfold qrPayload.
  destruct (encodeURIComponent id) as [e|er] eqn:He;
    [|unfold encodeURIComponent in He; by rewrite Hw in He].
  exists (qr_prefix ++ e). split; [done|]. unfold parseQrPayload.
  rewrite Hu; [|by eapply encoded_chars|by intros [?|?]%(encoded_dot id e Hj He)].
  rewrite !bool_decide_false by (cbn; tauto). cbn [orb pathname].
  change (js_slice_from (47 :: e) 1) with (drop (js_index (S (length e)) 1) (47 :: e)).
  replace (js_index (S (length e)) 1) with 1%nat by (unfold js_index; cbn; lia).
  cbn [drop]. by rewrite drop_0, (uri_roundtrip id e).
Qed.
