(* ===== verification/Socket.v ===== *)
(** * useSocket.ts: the socket hook

    apps/web/src/hooks/useSocket.ts. The hook ties the three stores to a
    WebSocket. React runs its effect on the first render and again, after the
    clean-up of the last one, on a render whose session is another object; the
    handlers of a socket are closures over the values of the render that made
    them. A render is an event of its own: it comes some time after the store
    changed. *)

From S2P Require Import Prelude JsString Json Platform Types AuthStore ChatStore ContactsStore.

(** ** Decoding *)

Definition undefined : value := None.

(** [raw.a ?? raw.b ?? d] *)
Definition field2 (a b : jsstr) (d : value) (raw : json) : value :=
  nullish_value (json_get a raw) (nullish_value (json_get b raw) d).

(** [typeof raw.a === t ? raw.a : typeof raw.b === t ? raw.b : undefined] *)
Definition typed2 {A} (t : value → option A) (a b : jsstr) (raw : json) : prop A :=
  match t (json_get a raw) with
  | Some v => Val v
  | None => prop_of_option (t (json_get b raw))
  end.

Section hook.
Context {doubles : Doubles}.

(** The [auth_ok] payload. *)
Definition supporter_of (authPayload : json) : SupporterState :=
  let get k := json_get k authPayload in
  mkSupporter
    (match string_value (get (js "tier")) with
     | Some t => if decide (js_toLowerCase (js_trim t) = js "plus") then plus else free
     | None => free
     end)
    (match get (js "purchased_extras") with
     | Some (JArr l) => omap (λ v, string_value (Some v)) l
     | _ => []
     end)
    (number_value (get (js "buddy_cap")))
    (nullish (JNum 0) (number_value (get (js "buddy_used"))))
    (truthy (get (js "group_chat_unlocked")))
    (string_value (get (js "supporter_expires_at"))).

(** [msg]; [now] is [new Date().toISOString()]. *)
Definition message_of (now : jsstr) (payload : value) : result Message :=
  let raw := match payload with None | Some JNull => JObj [] | Some v => v end in
  let get k := json_get k raw in
  id ← value_toString (nullish_value (get (js "id")) (Some (JStr [])));
  conversationId ← value_toString
    (field2 (js "conversationId") (js "conversation_id") (Some (JStr [])) raw);
  senderId ← value_toString (field2 (js "senderId") (js "sender_id") (Some (JStr [])) raw);
  type ← value_toString (nullish_value (get (js "type")) (Some (JStr [])));
  sentAt ← value_toString (field2 (js "sentAt") (js "sent_at") (Some (JStr now)) raw);
  mret (mkMessage id conversationId senderId type sentAt
    (truthy (get (js "delivered"))) (truthy (get (js "read")))
    (prop_of_option (string_value (get (js "body"))))
    (typed2 string_value (js "mediaData") (js "media_data") raw)
    (typed2 string_value (js "mediaUrl") (js "media_url") raw)
    (typed2 string_value (js "mediaName") (js "media_name") raw)
    (typed2 string_value (js "mediaMime") (js "media_mime") raw)
    (typed2 number_value (js "mediaSize") (js "media_size") raw)
    Absent Absent).

Definition or_null (v : value) : value := nullish_value v (Some JNull).

(** The contact a [contact_accepted] event adds. *)
Definition accepted_contact (payload : value) : result StoredContact :=
  winkd_id ← get_prop (js "winkd_id") payload;
  display_name ← get_prop (js "display_name") payload;
  mood ← get_prop (js "mood_message") payload;
  avatar ← get_prop (js "avatar_data") payload;
  mret (mkStored winkd_id winkd_id display_name (nullish_value mood (Some (JStr [])))
    (Some (JStr (js "online"))) (or_null avatar) (Some (JStr (js "accepted")))
    (Some (JNum 0)) (Some JNull)).

Definition sent_contact (payload : value) : result StoredContact :=
  winkd_id ← get_prop (js "to_winkd_id") payload;
  display_name ← get_prop (js "to_display_name") payload;
  avatar ← get_prop (js "to_avatar_data") payload;
  mret (mkStored winkd_id winkd_id display_name (Some (JStr []))
    (Some (JStr (js "invisible"))) (or_null avatar) (Some (JStr (js "pending_outbound")))
    (Some (JNum 0)) (Some JNull)).

Definition snapshot_contact (contact : json) : result StoredContact :=
  winkd_id ← get_prop (js "winkd_id") (Some contact);
  display_name ← get_prop (js "display_name") (Some contact);
  mood ← get_prop (js "mood_message") (Some contact);
  request_status ← get_prop (js "request_status") (Some contact);
  avatar ← get_prop (js "avatar_data") (Some contact);
  mret (mkStored winkd_id winkd_id display_name (nullish_value mood (Some (JStr [])))
    (Some (JStr (if is_string (js "accepted") request_status then js "online" else js "invisible")))
    (or_null avatar) request_status (Some (JNum 0)) (Some JNull)).

Definition blocked_user (u : value) : result BlockedUser :=
  user_id ← get_prop (js "user_id") u;
  winkd_id ← get_prop (js "winkd_id") u;
  display_name ← get_prop (js "display_name") u;
  avatar ← get_prop (js "avatar_data") u;
  blocked_at ← get_prop (js "blocked_at") u;
  mret (mkBlocked user_id winkd_id display_name (or_null avatar) blocked_at).

(** [payload.k.map(f)]: only an array has a callable [map]. *)
Definition map_array {A} (k : jsstr) (f : json → result A) (payload : value) : result (list A) :=
  l ← get_prop k payload;
  match l with Some (JArr l) => mapM f l | _ => Throw TypeError_ end.

(** ** The message handler *)

Record Stores := mkStores {
  authStore : AuthState;
  chatStore : ChatState;
  contactsStore : ContactsState;
}.

Definition on_auth (f : AuthState → AuthState) (s : Stores) : Stores :=
  mkStores (f (authStore s)) (chatStore s) (contactsStore s).
Definition on_chat (f : ChatState → ChatState) (s : Stores) : Stores :=
  mkStores (authStore s) (f (chatStore s)) (contactsStore s).
Definition on_contacts (f : ContactsState → ContactsState) (s : Stores) : Stores :=
  mkStores (authStore s) (chatStore s) (f (contactsStore s)).

(** What a socket's handlers close over, with the socket's own state. *)
Record Connection := mkConnection {
  k_token : jsstr;                          (** [session.token] *)
  k_winkdId : jsstr;                        (** [session.profile.winkdId] *)
  k_activeConversationId : option jsstr;
  k_authenticated : bool;
  k_state : readyState;
}.

(** [activeConversationId === v] *)
Definition is_active (k : Connection) (v : value) : bool :=
  strict_eq (Some (match k_activeConversationId k with Some a => JStr a | None => JNull end)) v.

Definition handle_message (k : Connection) (now : jsstr) (payload : value) (s : Stores)
    : result Stores :=
  msg ← message_of now payload;
  if bool_decide (m_id msg = [] ∨ m_conversationId msg = [] ∨ m_senderId msg = []) then Ok s
  else
    let s := on_chat (receiveMessage msg) s in
    if negb (bool_decide (m_senderId msg = k_winkdId k)) &&
       negb (is_active k (Some (JStr (m_conversationId msg))))
    then Ok (on_contacts (incrementUnread (m_senderId msg)) s)
    else Ok s.

Definition handle_contact_request (payload : value) (s : Stores) : result Stores :=
  request_id ← get_prop (js "request_id") payload;
  from_winkd_id ← get_prop (js "from_winkd_id") payload;
  from_display_name ← get_prop (js "from_display_name") payload;
  from_avatar_data ← get_prop (js "from_avatar_data") payload;
  mret (on_contacts (upsertPendingInvitation
    (mkInvitation request_id from_winkd_id from_display_name (or_null from_avatar_data))) s).

Definition handle_contact_accepted (payload : value) (s : Stores) : result Stores :=
  winkd_id ← get_prop (js "winkd_id") payload;
  let s := on_contacts (clearPendingFromUser winkd_id) s in
  contact ← accepted_contact payload;
  mret (on_contacts (addAcceptedContact contact) s).

Definition handle_contact_blocked (k : Connection) (payload : value) (s : Stores) : result Stores :=
  request_id ← get_prop (js "request_id") payload;
  winkd_id ← get_prop (js "winkd_id") payload;
  let s := if truthy request_id then on_contacts (removePendingInvitation request_id) s else s in
  user ← blocked_user payload;
  let s := on_contacts (upsertBlockedUser user) s in
  let s := if is_active k winkd_id then on_chat closeConversation s else s in
  mret (on_contacts (removeContact winkd_id) s).

(** A conversation id that is not a string becomes a property name; a message
    id that is not a string equals no message's. *)
Definition handle_delivery_receipt (payload : value) (s : Stores) : result Stores :=
  message_id ← get_prop (js "message_id") payload;
  conversation_id ← get_prop (js "conversation_id") payload;
  if truthy message_id && truthy conversation_id then
    key ← value_toString conversation_id;
    match string_value message_id with
    | Some id => c ← markMessageDelivered key id (chatStore s); mret (on_chat (λ _, c) s)
    | None => _ ← markMessageDelivered key [] (chatStore s); mret s
    end
  else Ok s.

(** The chain of [else if]s on [envelope.event]. *)
Definition handle_event (k : Connection) (now : jsstr) (event payload : value) (s : Stores)
    : result Stores :=
  if is_string (js "message") event then handle_message k now payload s
  else if is_string (js "presence") event then
    userId ← get_prop (js "userId") payload;
    status ← get_prop (js "status") payload;
    mret (on_contacts (updateContactStatus userId status) s)
  else if is_string (js "contact_request") event then handle_contact_request payload s
  else if is_string (js "contact_accepted") event then handle_contact_accepted payload s
  else if is_string (js "contacts_snapshot") event then
    cs ← map_array (js "contacts") snapshot_contact payload;
    mret (on_contacts (setContacts cs) s)
  else if is_string (js "contact_request_rejected") event then
    request_id ← get_prop (js "request_id") payload;
    mret (on_contacts (removePendingInvitation request_id) s)
  else if is_string (js "blocked_list") event then
    us ← map_array (js "users") (λ u, blocked_user (Some u)) payload;
    mret (on_contacts (setBlockedUsers us) s)
  else if is_string (js "contact_blocked") event then handle_contact_blocked k payload s
  else if is_string (js "contact_unblocked") event then
    user_id ← get_prop (js "user_id") payload;
    mret (on_contacts (removeBlockedUser user_id) s)
  else if is_string (js "contact_request_sent") event then
    contact ← sent_contact payload;
    mret (on_contacts (addAcceptedContact contact) s)
  else if is_string (js "delivery_receipt") event then handle_delivery_receipt payload s
  else Ok s.

Definition set_authenticated (k : Connection) : Connection :=
  mkConnection (k_token k) (k_winkdId k) (k_activeConversationId k) true (k_state k).
Definition set_state (r : readyState) (k : Connection) : Connection :=
  mkConnection (k_token k) (k_winkdId k) (k_activeConversationId k) (k_authenticated k) r.

(** The whole [onmessage], inside its [try]. No event throws after it has
    written to a store, so a caught exception leaves the stores as they were. *)
Definition onmessage (data now : jsstr) (k : Connection) (s : Stores) : Connection * Stores :=
  let body : result (Connection * Stores) :=
    envelope ← parse_json data;
    if negb (k_authenticated k) then
      type ← get_prop (js "type") (Some envelope);
      if is_string (js "auth_ok") type
      then Ok (set_authenticated k, on_auth (setSupporterState (supporter_of envelope)) s)
      else Ok (k, s)
    else
      event ← get_prop (js "event") (Some envelope);
      payload ← get_prop (js "payload") (Some envelope);
      s' ← handle_event k now event payload s;
      Ok (k, s') in
  match body with Ok r => r | Throw _ => (k, s) end.

(** ** The hook *)

Record App := mkApp {
  stores : Stores;
  wsRef : option nat;
  conns : gmap nat Connection;
  nextConn : nat;
  deps : option (option nat);      (** the session object the effect last ran for *)
  cleanup : option nat;            (** the socket its clean-up closes *)
}.

Definition initialApp (s : Stores) : App := mkApp s None ∅ 0 None None.

Definition with_stores (s : Stores) (a : App) : App :=
  mkApp s (wsRef a) (conns a) (nextConn a) (deps a) (cleanup a).
Definition with_conn (i : nat) (k : Connection) (a : App) : App :=
  mkApp (stores a) (wsRef a) (<[i := k]> (conns a)) (nextConn a) (deps a) (cleanup a).
Definition with_wsRef (r : option nat) (a : App) : App :=
  mkApp (stores a) r (conns a) (nextConn a) (deps a) (cleanup a).

(** [ws.close()] *)
Definition close_conn (i : nat) (cs : gmap nat Connection) : gmap nat Connection :=
  match cs !! i with
  | Some k => match k_state k with
              | CONNECTING | OPEN => <[i := set_state CLOSING k]> cs
              | _ => cs
              end
  | None => cs
  end.

(** The clean-up the last run of the effect returned. *)
Definition run_cleanup (a : App) : App :=
  match cleanup a with
  | Some i => mkApp (stores a) None (close_conn i (conns a)) (nextConn a) (deps a) None
  | None => a
  end.

(** The effect, with the values of the render. *)
Definition run_effect (a : App) : App :=
  match session (authStore (stores a)) with
  | None => mkApp (stores a) (wsRef a) (conns a) (nextConn a) (Some None) None
  | Some (object, s) =>
      let k := mkConnection (token s) (winkdId (own_profile (profile s)))
                 (activeConversationId (chatStore (stores a))) false CONNECTING in
      let i := nextConn a in
      mkApp (stores a) (Some i) (<[i := k]> (conns a)) (S i) (Some (Some object)) (Some i)
  end.

(** The other dependencies are store actions, which never change. *)
Definition render (a : App) : App :=
  if decide (deps a = Some (fst <$> session (authStore (stores a)))) then a
  else run_effect (run_cleanup a).

Inductive output := Sent (sock : nat) (text : jsstr).

(** The [send] the hook returns. *)
Definition send (payload : json) (a : App) : list output :=
  match wsRef a with
  | Some i =>
      match conns a !! i with
      | Some k => match k_state k with OPEN => [Sent i (stringify payload)] | _ => [] end
      | None => []
      end
  | None => []
  end.

Definition auth_frame (token : jsstr) : jsstr :=
  stringify (JObj [(js "type", JStr (js "auth")); (js "token", JStr token)]).

(** ** Events: renders, the socket's events, and the user's own changes to the stores *)

Inductive event :=
  | ERender
  | EOpen (sock : nat)
  | EMessage (sock : nat) (data now : jsstr)
  | EClose (sock : nat) (code : Z)
  | EError (sock : nat)
  | ELogin (token : jsstr) (profile : OwnProfile)
  | ELogout
  | EProfile (p : PartialProfile)
  | EChat (f : ChatState → ChatState)
  | EContacts (f : ContactsState → ContactsState)
  | ESend (payload : json).

Definition enabled (e : event) (a : App) : bool :=
  let in_state (i : nat) (p : readyState → bool) :=
    match conns a !! i with Some k => p (k_state k) | None => false end in
  match e with
  | EOpen i => in_state i (λ r, bool_decide (r = CONNECTING))
  | EMessage i _ _ => in_state i (λ r, bool_decide (r = OPEN))
  | EClose i _ | EError i => in_state i (λ r, negb (bool_decide (r = CLOSED)))
  | _ => true
  end.

Definition step (e : event) (a : App) : App * list output :=
  match e with
  | ERender => (render a, [])
  | EOpen i =>
      match conns a !! i with
      | Some k => (with_conn i (set_state OPEN k) a, [Sent i (auth_frame (k_token k))])
      | None => (a, [])
      end
  | EMessage i data now =>
      match conns a !! i with
      | Some k =>
          let '(k', s') := onmessage data now k (stores a) in
          (with_stores s' (with_conn i k' a), [])
      | None => (a, [])
      end
  | EClose i code =>
      match conns a !! i with
      | Some k =>
          let a := with_wsRef None (with_conn i (set_state CLOSED k) a) in
          ((if code =? 4001 then with_stores (on_auth logout (stores a)) a else a), [])
      | None => (a, [])
      end
  | EError _ => (with_wsRef None a, [])
  | ELogin t p => (with_stores (on_auth (login t p) (stores a)) a, [])
  | ELogout => (with_stores (on_auth logout (stores a)) a, [])
  | EProfile p => (with_stores (on_auth (updateProfile p) (stores a)) a, [])
  | EChat f => (with_stores (on_chat f (stores a)) a, [])
  | EContacts f => (with_stores (on_contacts f (stores a)) a, [])
  | ESend payload => (a, send payload a)
  end.

Inductive runs (a0 : App) : list (event * list output) → App → Prop :=
  | runs_nil : runs a0 [] a0
  | runs_snoc tr a e a' out :
      runs a0 tr a → enabled e a = true → step e a = (a', out) → runs a0 (tr ++ [(e, out)]) a'.

Fixpoint run_events (es : list event) (a : App) : option (App * list output) :=
  match es with
  | [] => Some (a, [])
  | e :: es =>
      if enabled e a then
        let '(a', out) := step e a in
        match run_events es a' with Some (b, outs) => Some (b, out ++ outs) | None => None end
      else None
  end.

(** The trace of a computed run. *)
Fixpoint trace_of (es : list event) (a : App) : option (App * list (event * list output)) :=
  match es with
  | [] => Some (a, [])
  | e :: es =>
      if enabled e a then
        let '(a', out) := step e a in
        match trace_of es a' with Some (b, tr) => Some (b, (e, out) :: tr) | None => None end
      else None
  end.

Lemma trace_of_runs es a0 tr a b tr' :
  runs a0 tr a → trace_of es a = Some (b, tr') → runs a0 (tr ++ tr') b.
Proof.
  revert tr a tr'. induction es as [|e es IH]; cbn; intros tr a tr' Hr H.
  - injection H as <- <-. by rewrite app_nil_r.
  - destruct (enabled e a) eqn:He; [|done]. destruct (step e a) as [c out] eqn:Hs.
    destruct (trace_of es c) as [[d tr2]|] eqn:E; [|done]. injection H as <- <-.
    change (tr ++ (e, out) :: tr2) with (tr ++ [(e, out)] ++ tr2). rewrite (assoc_L (++)).
    eapply IH; [by eapply runs_snoc|done].
Qed.

(** ** What the handler touches *)

Lemma handle_event_auth k now event payload s s' :
  handle_event k now event payload s = Ok s' → authStore s' = authStore s.
Proof.
  unfold handle_event, handle_message, handle_contact_request, handle_contact_accepted,
    handle_contact_blocked, handle_delivery_receipt, on_contacts, on_chat.
  repeat match goal with
  | |- (if ?b then _ else _) = _ → _ => destruct b
  | |- (let _ := _ in _) = _ → _ => cbv zeta
  | |- (?m ≫= _) = _ → _ => intros (? & _ & Hb)%bind_Ok; revert Hb
  | |- match ?o with Some _ => _ | None => _ end = _ → _ => destruct o
  | |- mret _ = Ok _ → _ => intros [= <-]
  | |- Ok _ = Ok _ → _ => intros [= <-]
  end; cbn; repeat match goal with |- context [if ?b then _ else _] => destruct b end; done.
Qed.

(** What [onmessage] can do: nothing; confirm the authentication; or, once
    confirmed, handle an event. *)
Inductive message_effect (data now : jsstr) (k : Connection) (s : Stores) : Connection → Stores → Prop :=
  | effect_none : message_effect data now k s k s
  | effect_auth envelope :
      k_authenticated k = false → parse_json data = Ok envelope →
      is_string (js "auth_ok") (json_get (js "type") envelope) = true →
      message_effect data now k s (set_authenticated k)
        (on_auth (setSupporterState (supporter_of envelope)) s)
  | effect_event envelope s' :
      k_authenticated k = true → parse_json data = Ok envelope →
      handle_event k now (json_get (js "event") envelope) (json_get (js "payload") envelope) s = Ok s' →
      message_effect data now k s k s'.

Lemma get_prop_json key v w : get_prop key (Some v) = Ok w → w = json_get key v.
Proof. destruct v; cbn; by intros [= <-]. Qed.

Lemma onmessage_effect data now k s k' s' :
  onmessage data now k s = (k', s') → message_effect data now k s k' s'.
Proof.
  unfold onmessage. destruct (parse_json data) as [v|] eqn:Ev; cbn [mbind result_bind]; [|intros [= <- <-]; constructor].
  destruct (k_authenticated k) eqn:Ea; cbn [negb].
  - destruct (get_prop (js "event") (Some v)) as [e|] eqn:Ee; cbn [mbind result_bind]; [|intros [= <- <-]; constructor].
    apply get_prop_json in Ee as ->.
    destruct (get_prop (js "payload") (Some v)) as [p|] eqn:Ep; cbn [mbind result_bind]; [|intros [= <- <-]; constructor].
    apply get_prop_json in Ep as ->.
    destruct (handle_event _ _ _ _ _) as [s1|] eqn:Eh; cbn [mbind result_bind]; intros [= <- <-]; [|constructor].
    by econstructor.
  - destruct (get_prop (js "type") (Some v)) as [t|] eqn:Et; cbn [mbind result_bind]; [|intros [= <- <-]; constructor].
    apply get_prop_json in Et as ->.
    destruct (is_string _ _) eqn:Es; intros [= <- <-]; [by econstructor|constructor].
Qed.

(** ** Runs *)

Abbreviation trace := (list (event * list output)) (only parsing).

Definition opened (i : nat) (token : jsstr) (tr : trace) : Prop :=
  In (EOpen i, [Sent i (auth_frame token)]) tr.

(** The server's [auth_ok] came on the socket after the token was sent on it. *)
Definition confirmed (i : nat) (token : jsstr) (tr : trace) : Prop :=
  ∃ tr1 data now out tr2 envelope,
    tr = tr1 ++ (EMessage i data now, out) :: tr2 ∧ opened i token tr1 ∧
    parse_json data = Ok envelope ∧ is_string (js "auth_ok") (json_get (js "type") envelope) = true.

Lemma opened_snoc i t tr x : opened i t tr → opened i t (tr ++ [x]).
Proof. intros H. by apply in_or_app; left. Qed.

Lemma socket_confirmed_snoc i t tr x : confirmed i t tr → confirmed i t (tr ++ [x]).
Proof.
  intros (tr1 & d & n & o & tr2 & v & -> & H). exists tr1, d, n, o, (tr2 ++ [x]), v.
  split; [by rewrite <-(assoc_L (++))|done].
Qed.

Definition live (k : Connection) : Prop := k_state k = CONNECTING ∨ k_state k = OPEN.

Record hook_ok (a : App) (tr : trace) : Prop := {
  hk_live i k : conns a !! i = Some k → live k → cleanup a = Some i;
  hk_ref i : wsRef a = Some i → cleanup a = Some i;
  hk_fresh i k : conns a !! i = Some k → (i < nextConn a)%nat;
  hk_new i k : conns a !! i = Some k → k_state k = CONNECTING → k_authenticated k = false;
  hk_open i k : conns a !! i = Some k → k_state k = OPEN → opened i (k_token k) tr;
  hk_auth i k : conns a !! i = Some k → k_authenticated k = true → confirmed i (k_token k) tr;
  hk_deps i : cleanup a = Some i → ∃ object, deps a = Some (Some object);
}.

(** The steps that leave the hook alone. *)
Lemma hook_ok_stores s a tr x : hook_ok a tr → hook_ok (with_stores s a) (tr ++ [x]).
Proof.
  intros [H1 H2 H3 H4 H5 H6 H7]. split; cbn; eauto using opened_snoc, socket_confirmed_snoc.
Qed.

Lemma hook_ok_stores_same s a tr : hook_ok a tr → hook_ok (with_stores s a) tr.
Proof. intros [H1 H2 H3 H4 H5 H6 H7]. by split; cbn. Qed.

Lemma hook_ok_ref a tr : hook_ok a tr → hook_ok (with_wsRef None a) tr.
Proof. intros [H1 H2 H3 H4 H5 H6 H7]. by split; cbn. Qed.

Lemma close_conn_lookup i cs j k :
  close_conn i cs !! j = Some k →
  ∃ k0, cs !! j = Some k0 ∧
    (k = k0 ∧ (live k0 → j ≠ i) ∨ j = i ∧ live k0 ∧ k = set_state CLOSING k0).
Proof.
  intros Hj. unfold close_conn in Hj. destruct (cs !! i) as [ki|] eqn:Ei.
  - assert (live ki ∧ <[i := set_state CLOSING ki]> cs !! j = Some k ∨ ¬ live ki ∧ cs !! j = Some k)
      as [[Hl Hj']|[Hl Hj']].
    { unfold live. destruct (k_state ki); naive_solver. }
    + apply lookup_insert_Some in Hj' as [[<- <-]|[Hne Hj']]; [exists ki|exists k]; eauto 6.
    + exists k. split; [done|]. left. split; [done|]. intros Hk ->. congruence.
  - exists k. split; [done|]. left. split; [done|]. intros _ ->. congruence.
Qed.

Lemma hook_ok_cleanup a tr :
  hook_ok a tr → hook_ok (run_cleanup a) tr ∧ (∀ i k, conns (run_cleanup a) !! i = Some k → ¬ live k).
Proof.
  intros Ha. pose proof Ha as [H1 H2 H3 H4 H5 H6 H7]. unfold run_cleanup.
  destruct (cleanup a) as [c|] eqn:Ec.
  - assert (∀ i k, close_conn c (conns a) !! i = Some k → ¬ live k) as Hdead.
    { intros i k (k0 & Hk0 & [[-> Hne]|(-> & _ & ->)])%close_conn_lookup.
      - intros Hl. specialize (H1 i k0 Hk0 Hl). injection H1 as ->. by apply Hne.
      - unfold live. cbn. naive_solver. }
    split; [|done]. split; cbn.
    + intros i k Hk Hl. by destruct (Hdead i k Hk).
    + done.
    + intros i k Hk. apply close_conn_lookup in Hk as (k0 & Hk0 & _). eauto.
    + intros i k Hk Hs. destruct (Hdead i k Hk). by left.
    + intros i k Hk Hs. destruct (Hdead i k Hk). by right.
    + intros i k Hk. apply close_conn_lookup in Hk as (k0 & Hk0 & [[-> _]|(-> & _ & ->)]); cbn; eauto.
    + done.
  - split; [exact Ha|]. intros i k Hk Hl. by specialize (H1 i k Hk Hl).
Qed.

Lemma hook_ok_effect a tr :
  hook_ok a tr → (∀ i k, conns a !! i = Some k → ¬ live k) → wsRef a = None →
  hook_ok (run_effect a) tr.
Proof.
  intros [H1 H2 H3 H4 H5 H6 H7] Hdead Hr.
  unfold run_effect. destruct (session (authStore (stores a))) as [[o s]|].
  - split; cbn.
    + intros i k [[<- _]|[_ Hk]]%lookup_insert_Some Hl; [done|]. by destruct (Hdead i k Hk).
    + done.
    + intros i k [[<- _]|[_ Hk]]%lookup_insert_Some; [lia|]. apply H3 in Hk. lia.
    + intros i k [[_ <-]|[_ Hk]]%lookup_insert_Some; [done|eauto].
    + intros i k [[_ <-]|[_ Hk]]%lookup_insert_Some; [done|eauto].
    + intros i k [[_ <-]|[_ Hk]]%lookup_insert_Some; [done|eauto].
    + eauto.
  - split; cbn; try done.
    + intros i k Hk Hl. by destruct (Hdead i k Hk).
    + congruence.
Qed.

Lemma cleanup_ref a tr : hook_ok a tr → wsRef (run_cleanup a) = None.
Proof.
  intros Ha. unfold run_cleanup. destruct (cleanup a) eqn:E; [done|].
  destruct (wsRef a) as [i|] eqn:Er; [|done]. pose proof (hk_ref _ _ Ha i Er). congruence.
Qed.

Lemma hook_ok_render a tr : hook_ok a tr → hook_ok (render a) tr.
Proof.
  intros Ha. unfold render. destruct (decide _); [done|].
  destruct (hook_ok_cleanup a tr Ha) as [Hc Hdead].
  apply hook_ok_effect; [done|done|by eapply cleanup_ref].
Qed.

Lemma hook_ok_snoc a tr x : hook_ok a tr → hook_ok a (tr ++ [x]).
Proof. intros [H1 H2 H3 H4 H5 H6 H7]. split; eauto using opened_snoc, socket_confirmed_snoc. Qed.

(** Replacing a connection by one that is not more alive. *)
Lemma hook_ok_conn a tr i k k' :
  hook_ok a tr → conns a !! i = Some k → k_token k' = k_token k →
  (live k' → live k) → (k_state k' = CONNECTING → k_authenticated k' = false) →
  (k_state k' = OPEN → opened i (k_token k) tr) →
  (k_authenticated k' = true → confirmed i (k_token k) tr) →
  hook_ok (with_conn i k' a) tr.
Proof.
  intros [H1 H2 H3 H4 H5 H6 H7] Hk Ht Hl Hn Ho Hc. split; cbn; try done.
  - intros j q [[<- <-]|[_ Hq]]%lookup_insert_Some Hlq; eauto.
  - intros j q [[<- <-]|[_ Hq]]%lookup_insert_Some; eauto.
  - intros j q [[<- <-]|[_ Hq]]%lookup_insert_Some; eauto.
  - intros j q [[<- <-]|[_ Hq]]%lookup_insert_Some; [rewrite Ht|]; eauto.
  - intros j q [[<- <-]|[_ Hq]]%lookup_insert_Some; [rewrite Ht|]; eauto.
Qed.

Lemma hook_ok_step a tr e a' out :
  hook_ok a tr → enabled e a = true → step e a = (a', out) → hook_ok a' (tr ++ [(e, out)]).
Proof.
  intros Ha He Hs. destruct e; cbn in He, Hs;
    try (injection Hs as <- <-; by apply hook_ok_stores);
    try (injection Hs as <- <-; by apply hook_ok_snoc).
  - injection Hs as <- <-. by apply hook_ok_snoc, hook_ok_render.
  - destruct (conns a !! sock) as [k|] eqn:E; [|done]. apply bool_decide_eq_true in He.
    injection Hs as <- <-. pose proof (hk_new _ _ Ha sock k E He) as Hn.
    eapply hook_ok_conn; [by apply hook_ok_snoc|done|done|by left|done| |].
    + intros _. by apply in_or_app; right; left.
    + cbn. by rewrite Hn.
  - destruct (conns a !! sock) as [k|] eqn:E; [|done]. apply bool_decide_eq_true in He.
    destruct (onmessage data now k (stores a)) as [k' s'] eqn:Em. injection Hs as <- <-.
    apply hook_ok_stores_same. apply onmessage_effect in Em.
    pose proof (hk_open _ _ Ha sock k E He) as Ho.
    destruct Em as [|v Hf Hv Ht|v s' Hf Hv Hh].
    2: { eapply hook_ok_conn; [by apply hook_ok_snoc|done|done|by right|cbn; congruence|..]; intros _;
         [by apply opened_snoc|]. by exists tr, data, now, [], [], v. }
    all: eapply hook_ok_conn; [by apply hook_ok_snoc|done|done|done|..]; intros H'; [congruence|..];
      [by apply opened_snoc|by apply socket_confirmed_snoc; eapply hk_auth].
  - destruct (conns a !! sock) as [k|] eqn:E; [|done].
    assert (hook_ok (with_wsRef None (with_conn sock (set_state CLOSED k) a)) (tr ++ [(EClose sock code, [])])) as Hc.
    { apply hook_ok_ref. eapply hook_ok_conn; [by apply hook_ok_snoc|done|done|..]; cbn; try done.
      - unfold live. cbn. naive_solver.
      - intros Hau. by apply socket_confirmed_snoc; eapply hk_auth. }
    destruct (code =? 4001); injection Hs as <- <-; [|done].
    destruct Hc as [H1 H2 H3 H4 H5 H6 H7]. by split.
  - injection Hs as <- <-. by apply hook_ok_snoc, hook_ok_ref.
Qed.

Lemma hook_ok_runs s tr a : runs (initialApp s) tr a → hook_ok a tr.
Proof.
  induction 1 as [|tr a e a' out Hr IH He Hs]; [by split|]. by eapply hook_ok_step.
Qed.

(** ** Frames of the server *)

(** What the stores hold for a message relayed by the server: its optional
    properties are all present, some of them [undefined]. *)
Definition relayed (m : Message) : Message :=
  let present {A} (p : prop A) := prop_of_option (prop_get p) in
  mkMessage (m_id m) (m_conversationId m) (m_senderId m) (m_type m) (m_sentAt m) (m_delivered m)
    (m_read m) (present (m_body m)) (present (m_mediaData m)) Undef (present (m_mediaName m))
    (present (m_mediaMime m)) (present (m_mediaSize m)) Absent Absent.

(** The server's frame for a message a client sent. *)
Definition message_frame (m : Message) : json :=
  JObj [(js "event", JStr (js "message"));
        (js "payload", nullish JNull (json_get (js "payload") (send_message_json m)))].

Definition message_ok (m : Message) : Prop :=
  json_ok (message_frame m) = true ∧ (∀ v, m_mediaSize m = Val v → ∃ n, v = JNum n) ∧
  m_id m ≠ [] ∧ m_conversationId m ≠ [] ∧ m_senderId m ≠ [].

(** The payload of [send_message_json]. *)
Lemma message_frame_payload m :
  json_get (js "event") (message_frame m) = Some (JStr (js "message")) ∧
  json_get (js "payload") (message_frame m) = json_get (js "payload") (send_message_json m).
Proof. split; reflexivity. Qed.

Lemma message_of_sent now m :
  (∀ v, m_mediaSize m = Val v → ∃ n, v = JNum n) →
  message_of now (json_get (js "payload") (send_message_json m)) = Ok (relayed m).
Proof.
  intros Hn. destruct m as [mid conv sender type sent d r body md mu mn mm ms p an]. cbn in Hn.
  assert (ms = Absent ∨ ms = Undef ∨ ∃ n, ms = Val (JNum n)) as Hms.
  { destruct ms as [| |v]; auto. destruct (Hn v eq_refl) as [n ->]. eauto. }
  clear Hn. destruct Hms as [->|[->|[n ->]]];
    destruct body, md, mn, mm, d, r; vm_compute; reflexivity.
Qed.

(** The handler of a confirmed socket on a message, however its text is written. *)
Lemma onmessage_message data v now m k s :
  parse_json data = Ok v → (∃ l, v = JObj l) → json_get (js "event") v = Some (JStr (js "message")) →
  message_of now (json_get (js "payload") v) = Ok (relayed m) →
  m_id m ≠ [] → m_conversationId m ≠ [] → m_senderId m ≠ [] → k_authenticated k = true →
  onmessage data now k s =
    (k, let s' := on_chat (receiveMessage (relayed m)) s in
        if decide (m_senderId m = k_winkdId k ∨ k_activeConversationId k = Some (m_conversationId m))
        then s' else on_contacts (incrementUnread (m_senderId m)) s').
Proof.
  intros Hp [l ->] He Hm H1 H2 H3 Hk. unfold onmessage. rewrite Hp, Hk. cbn [mbind result_bind negb get_prop].
  rewrite He. unfold handle_event. rewrite (proj2 (is_string_true _ _) eq_refl).
  unfold handle_message. rewrite Hm. cbn [mbind result_bind].
  rewrite bool_decide_false by (cbn; tauto). cbv zeta.
  assert (is_active k (Some (JStr (m_conversationId m)))
    = bool_decide (k_activeConversationId k = Some (m_conversationId m))) as Ha.
  { unfold is_active, strict_eq. destruct (k_activeConversationId k) as [x|]; [|done].
    apply bool_decide_ext. naive_solver. }
  cbn [m_senderId m_conversationId relayed]. rewrite Ha.
  repeat case_bool_decide; destruct (decide _); naive_solver.
Qed.

(** A relayed message. *)
Lemma onmessage_relayed now m k s :
  message_ok m → k_authenticated k = true →
  onmessage (stringify (message_frame m)) now k s =
    (k, let s' := on_chat (receiveMessage (relayed m)) s in
        if decide (m_senderId m = k_winkdId k ∨ k_activeConversationId k = Some (m_conversationId m))
        then s' else on_contacts (incrementUnread (m_senderId m)) s').
Proof.
  intros (Hj & Hn & H1 & H2 & H3) Hk. destruct (message_frame_payload m) as [He Hp].
  eapply onmessage_message; [by apply json_roundtrip|by eexists|done| |done..].
  rewrite Hp. by apply message_of_sent.
Qed.

(** ** What a well-typed server event does to the stores *)

Definition string_field (k : jsstr) (payload : value) : Prop :=
  ∃ s, get_prop k payload = Ok (Some (JStr s)).

(** The ids the server sends are strings, its lists have no repetition, and its
    messages name their sender as the conversation unless it exists. *)
Definition event_ok (now : jsstr) (event payload : value) (s : Stores) : Prop :=
  (event = Some (JStr (js "message")) →
     ∀ m, message_of now payload = Ok m → from_server m (chatStore s)) ∧
  (event = Some (JStr (js "contact_request")) → string_field (js "request_id") payload) ∧
  (event = Some (JStr (js "contact_accepted")) → string_field (js "winkd_id") payload) ∧
  (event = Some (JStr (js "contacts_snapshot")) →
     ∀ cs, map_array (js "contacts") snapshot_contact payload = Ok cs → distinct sc_id cs) ∧
  (event = Some (JStr (js "blocked_list")) →
     ∀ us, map_array (js "users") (λ u, blocked_user (Some u)) payload = Ok us → distinct b_userId us) ∧
  (event = Some (JStr (js "contact_blocked")) → string_field (js "user_id") payload) ∧
  (event = Some (JStr (js "contact_request_sent")) → string_field (js "to_winkd_id") payload).

Definition stores_ok (s : Stores) : Prop :=
  chat_ok (chatStore s) ∧ contacts_ok (contactsStore s).

Lemma stores_ok_contacts op s :
  op_ok op → stores_ok s → stores_ok (on_contacts (apply_contacts op) s).
Proof. intros Ho [Hc Hs]. split; [done|]. by apply contacts_ok_step. Qed.

Lemma stores_ok_chat f s :
  (chat_ok (chatStore s) → chat_ok (f (chatStore s))) → stores_ok s → stores_ok (on_chat f s).
Proof. intros Hf [Hc Hs]. split; [by apply Hf|done]. Qed.

Lemma accepted_contact_id payload c s :
  get_prop (js "winkd_id") payload = Ok s → accepted_contact payload = Ok c → sc_id c = s.
Proof.
  unfold accepted_contact. intros ->. cbn [mbind result_bind].
  intros (? & _ & (? & _ & (? & _ & [= <-])%bind_Ok)%bind_Ok)%bind_Ok. done.
Qed.

Lemma sent_contact_id payload c s :
  get_prop (js "to_winkd_id") payload = Ok s → sent_contact payload = Ok c → sc_id c = s.
Proof.
  unfold sent_contact. intros ->. cbn [mbind result_bind].
  intros (? & _ & (? & _ & [= <-])%bind_Ok)%bind_Ok. done.
Qed.

Lemma blocked_user_id payload u s :
  get_prop (js "user_id") payload = Ok s → blocked_user payload = Ok u → b_userId u = s.
Proof.
  unfold blocked_user. intros ->. cbn [mbind result_bind].
  intros (? & _ & (? & _ & (? & _ & (? & _ & [= <-])%bind_Ok)%bind_Ok)%bind_Ok)%bind_Ok. done.
Qed.

Lemma handle_message_ok k now payload s s' :
  (∀ m, message_of now payload = Ok m → from_server m (chatStore s)) →
  handle_message k now payload s = Ok s' → stores_ok s → stores_ok s'.
Proof.
  intros Hm (m & Em & H)%bind_Ok Hs. case_bool_decide; [by injection H as <-|]. cbv zeta in H.
  assert (stores_ok (on_chat (receiveMessage m) s)) as Hr.
  { apply stores_ok_chat; [|done]. apply receive_ok. by apply Hm. }
  destruct (_ && _); injection H as <-; [|done]. by apply (stores_ok_contacts (IncrementUnread _)).
Qed.

Lemma handle_contact_accepted_ok payload s s' :
  string_field (js "winkd_id") payload →
  handle_contact_accepted payload s = Ok s' → stores_ok s → stores_ok s'.
Proof.
  intros [w Hw]. unfold handle_contact_accepted. rewrite Hw. cbn [mbind result_bind].
  intros (c & Hc & [= <-])%bind_Ok Hs. apply (stores_ok_contacts (AddAccepted c)).
  - exists w. by apply (accepted_contact_id payload).
  - by apply (stores_ok_contacts (ClearPending _)).
Qed.

Lemma handle_contact_blocked_ok k payload s s' :
  string_field (js "user_id") payload →
  handle_contact_blocked k payload s = Ok s' → stores_ok s → stores_ok s'.
Proof.
  intros [w Hw] (r & _ & (v & _ & (u & Hu & [= <-])%bind_Ok)%bind_Ok)%bind_Ok Hs.
  apply (stores_ok_contacts (RemoveContact v)); [done|].
  assert (stores_ok (on_contacts (upsertBlockedUser u)
    (if truthy r then on_contacts (removePendingInvitation r) s else s))) as Hb.
  { apply (stores_ok_contacts (UpsertBlocked u)); [exists w; by apply (blocked_user_id payload)|].
    destruct (truthy r); [by apply (stores_ok_contacts (RemovePending _))|done]. }
  destruct (is_active k v); [|done]. apply stores_ok_chat; [|done]. intros Hc. by apply chat_ok_active.
Qed.

Lemma handle_delivery_receipt_ok payload s s' :
  handle_delivery_receipt payload s = Ok s' → stores_ok s → stores_ok s'.
Proof.
  intros (mi & _ & (ci & _ & H)%bind_Ok)%bind_Ok Hs. destruct (_ && _); [|by injection H as <-].
  apply bind_Ok in H as (key & _ & H). destruct (string_value mi) as [id|].
  - apply bind_Ok in H as (c & Hc & [= <-]). apply stores_ok_chat; [|done]. intros Hs'.
    by eapply delivered_ok.
  - by apply bind_Ok in H as (c & Hc & [= <-]).
Qed.

Lemma handle_event_ok k now event payload s s' :
  event_ok now event payload s → handle_event k now event payload s = Ok s' →
  stores_ok s → stores_ok s'.
Proof.
  intros (H1 & H2 & H3 & H4 & H5 & H6 & H7) H Hs. unfold handle_event in H.
  destruct (is_string (js "message") event) eqn:E1; [apply is_string_true in E1|clear E1].
  { eapply handle_message_ok; eauto. }
  destruct (is_string (js "presence") event).
  { apply bind_Ok in H as (u & _ & (st & _ & [= <-])%bind_Ok). by apply (stores_ok_contacts (UpdateStatus _ _)). }
  destruct (is_string (js "contact_request") event) eqn:E2; [apply is_string_true in E2|clear E2].
  { unfold handle_contact_request in H. destruct (H2 E2) as [w Hw]. rewrite Hw in H. cbn [mbind result_bind] in H.
    apply bind_Ok in H as (a & _ & (b & _ & (c & _ & [= <-])%bind_Ok)%bind_Ok).
    apply (stores_ok_contacts (UpsertPending _)); [by exists w|done]. }
  destruct (is_string (js "contact_accepted") event) eqn:E3; [apply is_string_true in E3|clear E3].
  { eapply handle_contact_accepted_ok; eauto. }
  destruct (is_string (js "contacts_snapshot") event) eqn:E4; [apply is_string_true in E4|clear E4].
  { apply bind_Ok in H as (cs & Hcs & [= <-]). apply (stores_ok_contacts (SetContacts cs)); [by apply H4|done]. }
  destruct (is_string (js "contact_request_rejected") event).
  { apply bind_Ok in H as (r & _ & [= <-]). by apply (stores_ok_contacts (RemovePending r)). }
  destruct (is_string (js "blocked_list") event) eqn:E5; [apply is_string_true in E5|clear E5].
  { apply bind_Ok in H as (us & Hus & [= <-]). apply (stores_ok_contacts (SetBlocked us)); [by apply H5|done]. }
  destruct (is_string (js "contact_blocked") event) eqn:E6; [apply is_string_true in E6|clear E6].
  { eapply handle_contact_blocked_ok; eauto. }
  destruct (is_string (js "contact_unblocked") event).
  { apply bind_Ok in H as (u & _ & [= <-]). by apply (stores_ok_contacts (RemoveBlocked u)). }
  destruct (is_string (js "contact_request_sent") event) eqn:E7; [apply is_string_true in E7|clear E7].
  { apply bind_Ok in H as (c & Hc & [= <-]). apply (stores_ok_contacts (AddAccepted c)); [|done].
    destruct (H7 E7) as [w Hw]. exists w. by apply (sent_contact_id payload). }
  destruct (is_string (js "delivery_receipt") event); [by eapply handle_delivery_receipt_ok|].
  by injection H as <-.
Qed.

(** ** The reconnection cycle *)

Definition auth_ok_text (data : jsstr) : Prop :=
  ∃ envelope, parse_json data = Ok envelope ∧
    is_string (js "auth_ok") (json_get (js "type") envelope) = true.

(** A socket opens, the server confirms, and React renders. *)
Definition cycle (data now : jsstr) (i : nat) : list event := [EOpen i; EMessage i data now; ERender].

(** The effect has just run for the current session and made socket [i]. *)
Record connecting (t : jsstr) (i : nat) (a : App) : Prop := {
  cn_session : ∃ object s, session (authStore (stores a)) = Some (object, s) ∧ token s = t ∧
    deps a = Some (Some object);
  cn_fresh : fresh_objects (authStore (stores a));
  cn_cleanup : cleanup a = Some i;
  cn_ref : wsRef a = Some i;
  cn_next : nextConn a = S i;
  cn_conn : ∃ k, conns a !! i = Some k ∧ k_state k = CONNECTING ∧ k_authenticated k = false ∧ k_token k = t;
}.

Lemma run_effect_connecting a object s :
  session (authStore (stores a)) = Some (object, s) → fresh_objects (authStore (stores a)) →
  connecting (token s) (nextConn a) (run_effect a).
Proof.
  intros Hs Hf. unfold run_effect. rewrite Hs. split; cbn; try done; [eauto|].
  rewrite lookup_insert_eq. eexists. repeat split; reflexivity.
Qed.

Lemma onmessage_confirms data now k s :
  auth_ok_text data → k_authenticated k = false →
  ∃ sup, onmessage data now k s = (set_authenticated k, on_auth (setSupporterState sup) s).
Proof.
  intros (v & Hv & Ht) Hk. exists (supporter_of v). unfold onmessage. rewrite Hv, Hk.
  cbn [mbind result_bind negb]. assert (get_prop (js "type") (Some v) = Ok (json_get (js "type") v)) as ->.
  { destruct v; try done; cbn in Ht; discriminate. }
  cbn [mbind result_bind]. by rewrite Ht.
Qed.

(** One cycle closes the confirmed socket and makes another. *)
Lemma cycle_runs data now t i a :
  auth_ok_text data → connecting t i a →
  ∃ a', run_events (cycle data now i) a = Some (a', [Sent i (auth_frame t)]) ∧
    connecting t (S i) a' ∧
    (∃ k, conns a' !! i = Some k ∧ k_state k = CLOSING ∧ k_authenticated k = true) ∧
    ∀ j, (j < i)%nat → conns a' !! j = conns a !! j.
Proof.
  intros Hd [(o & s & Hs & Ht & Hdeps) Hf Hc Hr Hn (k & Hk & Hst & Hau & Hkt)].
  destruct (onmessage_confirms data now (set_state OPEN k) (stores a) Hd Hau) as [sup Hm].
  set (a1 := with_stores (on_auth (setSupporterState sup) (stores a))
               (with_conn i (set_authenticated (set_state OPEN k)) (with_conn i (set_state OPEN k) a))).
  assert (session (authStore (stores a1)) = Some (nextObject (authStore (stores a)),
            mkSession (token s) (profile s) sup)) as Hs1 by exact (setSupporterState_session sup _ o s Hs).
  assert (render a1 = run_effect (run_cleanup a1)) as Hren.
  { unfold render. rewrite Hs1, decide_False; [done|]. cbn. rewrite Hdeps. intros [= E].
    specialize (Hf o s Hs). lia. }
  assert (run_cleanup a1 = mkApp (stores a1) None (close_conn i (conns a1)) (S i) (deps a1) None) as Hcl.
  { unfold run_cleanup, a1. cbn. by rewrite Hc, Hn. }
  exists (run_effect (run_cleanup a1)). split.
  - unfold cycle. cbn [run_events enabled step]. rewrite Hk, Hst. cbn [bool_decide].
    rewrite bool_decide_true by done. cbn [conns with_conn]. rewrite lookup_insert_eq. cbn [k_state set_state].
    rewrite bool_decide_true by done. change (stores (with_conn i _ a)) with (stores a).
    rewrite Hm. fold a1.
    by rewrite Hren, Hkt.
  - rewrite Hcl. split; [|split].
    + rewrite <-Ht. change (token s) with (token (mkSession (token s) (profile s) sup)).
      eapply (run_effect_connecting (mkApp _ _ _ (S i) _ _)); [exact Hs1|].
      by apply setSupporterState_fresh.
    + unfold run_effect. cbn [stores]. rewrite Hs1. cbn [conns nextConn]. rewrite lookup_insert_ne by lia.
      unfold close_conn. cbn. rewrite lookup_insert_eq. cbn. rewrite lookup_insert_eq. by eexists.
    + intros j Hj. unfold run_effect. cbn [stores]. rewrite Hs1. cbn [conns nextConn]. rewrite lookup_insert_ne by lia.
      unfold close_conn. cbn. rewrite lookup_insert_eq. cbn. by rewrite !lookup_insert_ne by lia.
Qed.

Lemma hook_run_events_app es1 es2 a :
  run_events (es1 ++ es2) a =
    match run_events es1 a with
    | Some (b, outs) =>
        match run_events es2 b with Some (c, outs') => Some (c, outs ++ outs') | None => None end
    | None => None
    end.
Proof.
  revert a. induction es1 as [|e es1 IH]; intros a; cbn.
  - by destruct (run_events es2 a) as [[c o]|].
  - destruct (enabled e a); [|done]. destruct (step e a) as [b o]. rewrite IH.
    destruct (run_events es1 b) as [[c o']|]; [|done].
    destruct (run_events es2 c) as [[d o'']|]; [|done]. by rewrite (assoc_L (++)).
Qed.

Lemma cycles_run data now t n i a :
  auth_ok_text data → connecting t i a →
  ∃ a', run_events (concat (map (cycle data now) (seq i n))) a =
      Some (a', map (λ j, Sent j (auth_frame t)) (seq i n)) ∧
    connecting t (i + n) a' ∧
    (∀ j, (i ≤ j < i + n)%nat → ∃ k, conns a' !! j = Some k ∧ k_state k = CLOSING ∧ k_authenticated k = true) ∧
    ∀ j, (j < i)%nat → conns a' !! j = conns a !! j.
Proof.
  intros Hd. revert i a. induction n as [|n IH]; intros i a Hc.
  - exists a. rewrite Nat.add_0_r. split; [done|]. split; [done|]. split; [lia|done].
  - destruct (cycle_runs data now t i a Hd Hc) as (b & Hb & Hcb & (k & Hk) & Hold).
    destruct (IH (S i) b Hcb) as (c & Hr & Hcc & Hcl & Hold').
    exists c. cbn [seq map concat]. rewrite hook_run_events_app, Hb, Hr. split; [done|].
    split; [by rewrite <-Nat.add_succ_comm|]. split.
    + intros j Hj. destruct (decide (j = i)) as [->|]; [|apply Hcl; lia].
      exists k. by rewrite Hold' by lia.
    + intros j Hj. rewrite Hold' by lia. by apply Hold.
Qed.

(** ** Properties *)

(** C40: Safety of the hook. In every run from any stores, with any renders,
    logins, store changes and network events: at most one socket is connecting
    or open; what [send] transmits goes to such a socket, as the JSON text of
    its argument, after the authentication frame of that socket; and a message
    changes the chat or the contacts only on a socket whose [auth_ok] came
    earlier, after its token was sent. *)
Theorem socket_run_safety s tr a :
  runs (initialApp s) tr a →
  (∀ i j k l, conns a !! i = Some k → conns a !! j = Some l → live k → live l → i = j) ∧
  (∀ payload i text, In (Sent i text) (send payload a) →
     text = stringify payload ∧
     ∃ k, conns a !! i = Some k ∧ k_state k = OPEN ∧ opened i (k_token k) tr) ∧
  (∀ i data now a' out,
     enabled (EMessage i data now) a = true → step (EMessage i data now) a = (a', out) →
     (chatStore (stores a') = chatStore (stores a) ∧ contactsStore (stores a') = contactsStore (stores a))
     ∨ ∃ k, conns a !! i = Some k ∧ confirmed i (k_token k) tr).
Proof.
  intros Ha%hook_ok_runs. split; [|split].
  - intros i j k l Hi Hj Hk Hl. pose proof (hk_live _ _ Ha i k Hi Hk) as E.
    rewrite (hk_live _ _ Ha j l Hj Hl) in E. by injection E.
  - intros payload i text. unfold send. destruct (wsRef a) as [r|]; [|done].
    destruct (conns a !! r) as [k|] eqn:E; [|done]. destruct (k_state k) eqn:Es; try done.
    intros [[= <- <-]|[]]. split; [done|]. exists k. split; [done|]. split; [done|]. by eapply hk_open.
  - intros i data now a' out He Hs. cbn in Hs. destruct (conns a !! i) as [k|] eqn:E.
    2: { injection Hs as <- _. by left. }
    destruct (onmessage data now k (stores a)) as [k' s'] eqn:Em. injection Hs as <- _.
    apply onmessage_effect in Em. destruct Em as [| |v s' Hk _ _]; [by left|by left|].
    right. exists k. split; [done|]. by eapply hk_auth.
Qed.

(** A message a client sent, relayed by the server, comes back as the same
    message: the handler of a confirmed socket adds it to its conversation, and
    counts it as unread for its sender exactly when the sender is not the user
    and the conversation is not the one that was open when the effect ran. *)
Theorem incoming_message now m k s :
  message_ok m → k_authenticated k = true →
  onmessage (stringify (message_frame m)) now k s =
    (k, let s' := on_chat (receiveMessage (relayed m)) s in
        if decide (m_senderId m = k_winkdId k ∨ k_activeConversationId k = Some (m_conversationId m))
        then s' else on_contacts (incrementUnread (m_senderId m)) s').
Proof. apply onmessage_relayed. Qed.

(** Server events keep the stores well formed. If the ids of an event are
    strings and its lists do not repeat one, no message, well formed or not,
    breaks the invariants of the chat and contacts stores. *)
Theorem server_events_keep_invariants data now k s k' s' :
  (∀ v, parse_json data = Ok v →
     event_ok now (json_get (js "event") v) (json_get (js "payload") v) s) →
  stores_ok s → onmessage data now k s = (k', s') → stores_ok s'.
Proof.
  intros He Hs Hm%onmessage_effect. destruct Hm as [|v _ Hv _|v s' _ Hv Hh]; [done|done|].
  eapply handle_event_ok; [by apply He|done|done].
Qed.

(** The session is over when the server says so: after a close with code
    4001 nobody is signed in, and after the next render no socket is connecting
    or open and [send] transmits nothing. *)
Theorem close_4001_signs_out s tr a i :
  runs (initialApp s) tr a → enabled (EClose i 4001) a = true →
  let a' := render (step (EClose i 4001) a).1 in
  session (authStore (stores a')) = None ∧
  (∀ j k, conns a' !! j = Some k → ¬ live k) ∧
  ∀ payload, send payload a' = [].
Proof.
  intros Ha%hook_ok_runs He. destruct (step (EClose i 4001) a) as [b out] eqn:Hs.
  pose proof (hook_ok_step a tr _ b out Ha He Hs) as Hb. cbv zeta. cbn [fst].
  assert (session (authStore (stores b)) = None) as Hn.
  { cbn in Hs, He. destruct (conns a !! i) as [k|]; [|done]. by injection Hs as <- _. }
  assert (∀ c tr', hook_ok c tr' → session (authStore (stores c)) = None → cleanup c = None →
    session (authStore (stores c)) = None ∧ (∀ j k, conns c !! j = Some k → ¬ live k) ∧
    ∀ payload, send payload c = []) as Hfin.
  { intros c tr' Hc Hcs Hcc. split; [done|]. split.
    - intros j k Hk Hl. pose proof (hk_live _ _ Hc j k Hk Hl). congruence.
    - intros payload. unfold send. destruct (wsRef c) as [r|] eqn:E; [|done].
      pose proof (hk_ref _ _ Hc r E). congruence. }
  eapply Hfin; [by apply hook_ok_render| |].
  - unfold render. rewrite Hn. destruct (decide _); [done|]. unfold run_effect, run_cleanup.
    destruct (cleanup b); cbn; by rewrite Hn.
  - unfold render. rewrite Hn. destruct (decide _) as [Hd|Hd].
    + destruct (cleanup b) as [c|] eqn:Ec; [|done]. destruct (hk_deps _ _ Hb c Ec) as [o Ho].
      cbn in Hd. congruence.
    + unfold run_effect, run_cleanup. destruct (cleanup b); cbn; by rewrite Hn.
Qed.

(** The reconnection loop. [auth_ok] replaces the session object, which is a
    dependency of the effect, so a signed-in application never keeps a confirmed
    connection: for every [n], [n] confirmations in a row make [n] sockets that
    are each closed by the next render, and leave a socket that is connecting
    and not confirmed. *)
Theorem reconnect_loop s object sess data now n :
  session (authStore s) = Some (object, sess) → fresh_objects (authStore s) → auth_ok_text data →
  ∃ a, run_events (ERender :: concat (map (cycle data now) (seq 0 n))) (initialApp s)
         = Some (a, map (λ j, Sent j (auth_frame (token sess))) (seq 0 n)) ∧
    (∀ j, (j < n)%nat → ∃ k, conns a !! j = Some k ∧ k_state k = CLOSING ∧ k_authenticated k = true) ∧
    ∃ k, conns a !! n = Some k ∧ k_state k = CONNECTING ∧ k_authenticated k = false.
Proof.
  intros Hs Hf Hd. pose proof (run_effect_connecting (initialApp s) object sess Hs Hf) as Hc.
  destruct (cycles_run data now _ n _ _ Hd Hc) as (a & Hr & Hca & Hcl & _).
  exists a. cbn [run_events enabled step]. unfold render. rewrite decide_False by done.
  cbn [nextConn initialApp] in Hr. change (run_cleanup (initialApp s)) with (initialApp s).
  rewrite Hr. split; [done|]. split; [intros j Hj; apply Hcl; cbn; lia|].
  destruct (cn_conn _ _ _ Hca) as (k & ? & ? & ? & _). by exists k.
Qed.

End hook.

(** ** Two runs *)

Definition alice_profile : OwnProfile :=
  mkOwnProfile (mkUserProfile (js "alice#1") (js "Alice") [] online None) (js "t").

(** Alice has just signed in. *)
Definition signed_in : Stores := mkStores (login (js "t") alice_profile emptyAuth) emptyChat emptyContacts.

Definition auth_ok_data : jsstr := stringify (JObj [(js "type", JStr (js "auth_ok"))]).

(** The close event of a socket the clean-up closed clears [wsRef], which
    already holds the next socket: once that one is open, [send] drops every
    frame although the connection is up. *)
Theorem stale_close_drops_sends `{!Doubles} :
  match run_events [ERender; EOpen 0; EMessage 0 auth_ok_data []; ERender; EOpen 1; EClose 0 1000]
          (initialApp signed_in) with
  | Some (a, _) =>
      (k_state <$> conns a !! 1%nat) = Some OPEN ∧ wsRef a = None ∧ ∀ payload, send payload a = []
  | None => False
  end.
Proof. vm_compute. by repeat split. Qed.

Definition bob_says (text : jsstr) : Message :=
  text_message (js "m1") (js "2026") (js "bob#2") (js "bob#2") text.

(** The handler uses the conversation that was open when the effect ran. A
    message for the conversation Alice opened afterwards, and is looking at,
    is counted as unread. *)
Theorem stale_active_conversation `{!Doubles} :
  let connected := mkConnection (js "t") (js "alice#1") None true OPEN in
  let s := on_chat (openConversation (js "bob#2")) signed_in in
  let s' := (onmessage (stringify (message_frame (bob_says (js "hi")))) [] connected s).2 in
  activeConversationId (chatStore s') = Some (js "bob#2") ∧
  map_get (js "bob#2") (unreadCounts (contactsStore s')) = Some 1.
Proof. vm_compute. by split. Qed.
