(* ===== verification/Emoji.v ===== *)
(** * Emoticons: picker, assets and rich text

    apps/web/src/components/emojiAssets.ts, EmojiPicker.tsx (its data and its
    logic; its markup is in Chrome.v) and RichEmojiText.tsx. Each regular expression is the matching
    function it denotes; [RichEmojiText] is modelled up to the list of pieces it
    renders. *)

From S2P Require Import Prelude JsString Matching Json Platform Types AuthStore.

(** ** emojiAssets.ts *)

Definition MSN_EMOTICON_BASE_URL : jsstr :=
  js "https://github.com/bernzrdo/msn-emoticons/raw/main/original".
Definition CLASSIC_TOKEN_PREFIX : jsstr := js ":classic-".
Definition SPIKEY_TOKEN_PREFIX : jsstr := js ":spikey-".

(** [[a-z0-9-]] *)
Definition token_char (c : Z) : bool :=
  ((97 <=? c) && (c <=? 122)) || is_digit c || (c =? 45).

(** [/^:[a-z0-9-]+:$/] *)
Definition is_token (s : jsstr) : bool :=
  match s with
  | 58 :: r =>
      match rev r with
      | 58 :: inner => negb (bool_decide (inner = [])) && forallb token_char inner
      | _ => false
      end
  | _ => false
  end.

Definition getEmojiAssetUrlFromToken (token : jsstr) : option jsstr :=
  let normalized := js_toLowerCase (js_trim token) in
  if negb (is_token normalized) then None
  else if js_startsWith normalized CLASSIC_TOKEN_PREFIX && js_endsWith normalized (js ":") then
    let slug := js_slice normalized (Z.of_nat (length CLASSIC_TOKEN_PREFIX)) (-1) in
    if decide (slug = []) then None else Some (MSN_EMOTICON_BASE_URL ++ js "/" ++ slug ++ js ".png")
  else if js_startsWith normalized SPIKEY_TOKEN_PREFIX && js_endsWith normalized (js ":") then
    let slug := js_slice normalized (Z.of_nat (length SPIKEY_TOKEN_PREFIX)) (-1) in
    if decide (slug = []) then None else Some (js "/emoji-packs/spikey/" ++ slug ++ js ".png")
  else None.

(** ** EmojiPicker.tsx: the data *)

Inductive EmojiItem :=
  | UnicodeItem (value : jsstr)
  | ClassicItem (name filename : jsstr)
  | SpikeyItem (name filename : jsstr).

Record Category := mkCategory { label : jsstr; emojis : list EmojiItem }.

Definition classic (name filename : string) : EmojiItem := ClassicItem (js name) (js filename).
Definition unicode (values : list string) : list EmojiItem := map (λ v, UnicodeItem (js v)) values.
Definition spikey (name filename : string) : EmojiItem := SpikeyItem (js name) (js filename).

Definition CATEGORIES : list Category :=
  [mkCategory (js "Classic") [
     classic "Smile" "smile";
     classic "Open-mouthed smile" "open-mouthed-smile";
     classic "Winking smile" "winking-smile";
     classic "Surprised smile" "surprised-smile";
     classic "Smile with tongue out" "smile-with-tongue-out";
     classic "Hot smile" "hot-smile";
     classic "Angry smile" "angry-smile";
     classic "Embarrassed smile" "embarrassed-smile";
     classic "Confused smile" "confused-smile";
     classic "Sad smile" "sad-smile";
     classic "Crying face" "crying-face";
     classic "Disappointed smile" "disappointed-smile";
     classic "Devil" "devil";
     classic "Angel" "angel";
     classic "Red heart" "red-heart";
     classic "Broken heart" "broken-heart";
     classic "Messenger" "messenger";
     classic "Cat face" "cat-face";
     classic "Dog face" "dog-face";
     classic "Sleeping half-moon" "sleeping-half-moon";
     classic "Star" "star";
     classic "Filmstrip" "filmstrip";
     classic "Note" "note";
     classic "E-mail" "e-mail";
     classic "Red rose" "red-rose";
     classic "Wilted rose" "wilted-rose";
     classic "Clock" "clock";
     classic "Red lips" "red-lips";
     classic "Gift with a bow" "gift-with-a-bow";
     classic "Birthday cake" "birthday-cake";
     classic "Camera" "camera";
     classic "Light bulb" "light-bulb";
     classic "Coffee cup" "coffee-cup";
     classic "Telephone receiver" "telephone-receiver";
     classic "Left hug" "left-hug";
     classic "Right hug" "right-hug";
     classic "Beer mug" "beer-mug";
     classic "Martini glass" "martini-glass";
     classic "Boy" "boy";
     classic "Girl" "girl";
     classic "Thumbs up" "thumbs-up";
     classic "Thumbs down" "thumbs-down";
     classic "Vampire bat" "vampire-bat";
     classic "Goat" "goat";
     classic "Sun" "sun";
     classic "Rainbow" "rainbow";
     classic "Don't tell anyone smile" "dont-tell-anyone-smile";
     classic "Baring teeth smile" "baring-teeth-smile";
     classic "Nerd smile" "nerd-smile";
     classic "Sarcastic smile" "sarcastic-smile";
     classic "Secret telling smile" "secret-telling-smile";
     classic "Sick smile" "sick-smile";
     classic "Snail" "snail";
     classic "Turtle" "turtle";
     classic "Plate" "plate";
     classic "Bowl" "bowl";
     classic "Pizza" "pizza";
     classic "Soccer ball" "soccer-ball";
     classic "Auto" "auto";
     classic "Airplane" "airplane";
     classic "Umbrella" "umbrella";
     classic "Island with a palm tree" "island-with-a-palm-tree";
     classic "Computer" "computer";
     classic "Mobile phone" "mobile-phone";
     classic "Be right back" "be-right-back";
     classic "Storm cloud" "storm-cloud";
     classic "High five" "high-five";
     classic "Money" "money";
     classic "Black sheep" "black-sheep";
     classic "I don't know smile" "i-dont-know-smile";
     classic "Thinking smile" "thinking-smile";
     classic "Lightning" "lightning";
     classic "Party smile" "party-smile";
     classic "Eye-rolling smile" "eye-rolling-smile";
     classic "Sleepy smile" "sleepy-smile";
     classic "Bunny" "bunny"];
   mkCategory (js "Smileys") (unicode [
     "😀"; "😁"; "😂"; "🤣"; "😃"; "😄"; "😅"; "😆"; "😉"; "😊";
     "😋"; "😎"; "😍"; "🥰"; "😘"; "😗"; "😙"; "😚"; "🙂"; "🤗";
     "🤩"; "🤔"; "🤨"; "😐"; "😑"; "😶"; "🙄"; "😏"; "😣"; "😥";
     "😮"; "🤐"; "😯"; "😪"; "😫"; "🥱"; "😴"; "😌"; "😛"; "😜";
     "😝"; "🤤"; "😒"; "😓"; "😔"; "😕"; "🙃"; "🤑"; "😲"; "☹️";
     "🙁"; "😖"; "😞"; "😟"; "😤"; "😢"; "😭"; "😦"; "😧"; "😨";
     "😩"; "🤯"; "😬"; "😰"; "😱"; "🥵"; "🥶"; "😳"; "🤪"; "😵";
     "🤠"; "🥴"; "😷"; "🤒"; "🤕"; "🤧"; "🥳"; "🥸"; "🤡"; "👹"]);
   mkCategory (js "Gestures") (unicode [
     "👍"; "👎"; "👌"; "✌️"; "🤞"; "🤟"; "🤘"; "🤙"; "👈"; "👉";
     "👆"; "🖕"; "👇"; "☝️"; "👋"; "🤚"; "🖐️"; "✋"; "🖖"; "👏";
     "🙌"; "🤲"; "🤝"; "🙏"; "✍️"; "💪"; "🦾"; "🦵"; "🦶"; "👂";
     "🦻"; "👃"; "👀"; "👁️"; "👅"; "👄"; "💋"; "🫀"; "🫁"; "🧠"]);
   mkCategory (js "Hearts") (unicode [
     "❤️"; "🧡"; "💛"; "💚"; "💙"; "💜"; "🖤"; "🤍"; "🤎"; "💔";
     "❣️"; "💕"; "💞"; "💓"; "💗"; "💖"; "💘"; "💝"; "💟"; "☮️";
     "✝️"; "☪️"; "🔯"; "♈"; "♉"; "♊"; "♋"; "♌"; "♍"; "♎"]);
   mkCategory (js "People") (unicode [
     "👶"; "🧒"; "👦"; "👧"; "🧑"; "👱"; "👨"; "🧔"; "👩"; "🧓";
     "👴"; "👵"; "🙍"; "🙎"; "🙅"; "🙆"; "💁"; "🙋"; "🧏"; "🙇";
     "🤦"; "🤷"; "💆"; "💇"; "🚶"; "🧍"; "🧎"; "🏃"; "💃"; "🕺";
     "👫"; "👬"; "👭"; "💑"; "💏"; "👪"; "🧑‍🤝‍🧑"]);
   mkCategory (js "Nature") (unicode [
     "🐶"; "🐱"; "🐭"; "🐹"; "🐰"; "🦊"; "🐻"; "🐼"; "🐨"; "🐯";
     "🦁"; "🐮"; "🐷"; "🐸"; "🐵"; "🙈"; "🙉"; "🙊"; "🐔"; "🐧";
     "🐦"; "🐤"; "🦆"; "🦅"; "🦉"; "🦇"; "🐺"; "🐗"; "🐴"; "🦄";
     "🐝"; "🐛"; "🦋"; "🐌"; "🐞"; "🐜"; "🦟"; "🦗"; "🕷️"; "🦂";
     "🌸"; "🌼"; "🌻"; "🌹"; "🥀"; "🌷"; "🌱"; "🌿"; "☘️"; "🍀";
     "🎋"; "🎍"; "🍃"; "🍂"; "🍁"; "🍄"; "🌾"; "💐"; "🌲"; "🌳"]);
   mkCategory (js "Food") (unicode [
     "🍎"; "🍊"; "🍋"; "🍇"; "🍓"; "🫐"; "🍈"; "🍑"; "🍒"; "🍍";
     "🥭"; "🍅"; "🍆"; "🥑"; "🥦"; "🥬"; "🥒"; "🌶️"; "🫑"; "🧄";
     "🧅"; "🥔"; "🍠"; "🥐"; "🥯"; "🍞"; "🥖"; "🥨"; "🧀"; "🥚";
     "🍳"; "🧈"; "🥞"; "🧇"; "🥓"; "🥩"; "🍗"; "🍖"; "🦴"; "🌭";
     "🍔"; "🍟"; "🍕"; "🫓"; "🥪"; "🥙"; "🧆"; "🌮"; "🌯"; "🫔";
     "🥗"; "🍜"; "🍝"; "🍛"; "🍲"; "🍣"; "🍱"; "🥟"; "🦪"; "🍤";
     "☕"; "🫖"; "🍵"; "🧃"; "🥤"; "🧋"; "🍺"; "🍻"; "🥂"; "🍷"]);
   mkCategory (js "Activities") (unicode [
     "⚽"; "🏀"; "🏈"; "⚾"; "🥎"; "🎾"; "🏐"; "🏉"; "🥏"; "🎱";
     "🏓"; "🏸"; "🏒"; "🥅"; "⛳"; "🎿"; "🛷"; "🥌"; "🎯"; "🎱";
     "🎮"; "🎲"; "🎭"; "🎨"; "🎬"; "🎤"; "🎧"; "🎼"; "🎹"; "🥁";
     "🎷"; "🎺"; "🎸"; "🪕"; "🎻"; "🎵"; "🎶"; "🎙️"; "📻"; "🎚️"]);
   mkCategory (js "Travel") (unicode [
     "🚗"; "🚕"; "🚙"; "🚌"; "🚎"; "🏎️"; "🚓"; "🚑"; "🚒"; "🚐";
     "🛻"; "🚚"; "🚛"; "🚜"; "🏍️"; "🛵"; "🚲"; "🛴"; "🛹"; "🛼";
     "✈️"; "🚀"; "🛸"; "🚂"; "🚢"; "🛥️"; "🚁"; "🪂"; "🛶"; "⛵";
     "🌍"; "🌎"; "🌏"; "🗺️"; "🧭"; "🏔️"; "🌋"; "🗻"; "🏕️"; "🏖️"]);
   mkCategory (js "Objects") (unicode [
     "💡"; "🔦"; "🕯️"; "💰"; "💵"; "💳"; "📱"; "💻"; "⌨️"; "🖥️";
     "🖨️"; "🖱️"; "💾"; "💿"; "📀"; "📷"; "📸"; "📹"; "🎥"; "📽️";
     "📞"; "☎️"; "📟"; "📠"; "📺"; "📻"; "🎙️"; "📡"; "🔋"; "🪫";
     "🔌"; "💡"; "🔦"; "🕯️"; "🪔"; "🧯"; "🛢️"; "💸"; "📦"; "📫";
     "📮"; "🗳️"; "✏️"; "📝"; "📖"; "📚"; "📋"; "📅"; "📆"; "📇";
     "🗂️"; "🗒️"; "📰"; "📜"; "📄"; "📃"; "🗑️"; "🔒"; "🔓"; "🔑"]);
   mkCategory (js "Symbols") (unicode [
     "✅"; "❌"; "❎"; "🔴"; "🟠"; "🟡"; "🟢"; "🔵"; "🟣"; "⚫";
     "⚪"; "🟤"; "🔶"; "🔷"; "🔸"; "🔹"; "🔺"; "🔻"; "💠"; "🔘";
     "🔲"; "🔳"; "▪️"; "▫️"; "◾"; "◽"; "◼️"; "◻️"; "🟥"; "🟧";
     "🟨"; "🟩"; "🟦"; "🟪"; "⬛"; "⬜"; "🔥"; "💧"; "🌊"; "⭐";
     "🌟"; "✨"; "💫"; "⚡"; "☁️"; "🌈"; "❄️"; "☃️"; "⛄"; "🌊";
     "🎉"; "🎊"; "🎈"; "🎀"; "🎁"; "🏆"; "🥇"; "🥈"; "🥉"; "🎖️"])].

Definition SPIKEY_CATEGORY : Category :=
  mkCategory (js "Spikey") [
     spikey "Spikey Smile" "Smile.png";
     spikey "Spikey Laugh" "Laugh.png";
     spikey "Spikey Smirk" "Smirk.png";
     spikey "Spikey Love" "Love.png";
     spikey "Spikey Hug" "Hug.png";
     spikey "Spikey Party" "Party.png";
     spikey "Spikey Heart" "Heart.png";
     spikey "Spikey Music" "Music.png"].

(** ** EmojiPicker.tsx: the logic *)

(** [session?.supporter]; a tier is its own lower-case text. *)
Definition spikeyUnlocked (s : option SupporterState) : bool :=
  let purchasedExtras := map js_toLowerCase (match s with Some s => purchasedExtras s | None => [] end) in
  (match s with Some s => bool_decide (tier s = plus) | None => false end)
  || bool_decide (js "emoji-pack-spikey" ∈ purchasedExtras)
  || bool_decide (js "emoji_pack_spikey" ∈ purchasedExtras)
  || bool_decide (js "spikey" ∈ purchasedExtras).

Definition categories (s : option SupporterState) : list Category :=
  if spikeyUnlocked s then CATEGORIES ++ [SPIKEY_CATEGORY] else CATEGORIES.

(** The items shown for a search text and a category. *)
Definition filtered (s : option SupporterState) (search : jsstr) (activeCategory : nat) : list EmojiItem :=
  let q := js_toLowerCase (js_trim search) in
  if decide (q = []) then
    match categories s !! activeCategory with Some c => emojis c | None => [] end
  else
    List.filter (λ item,
      match item with
      | ClassicItem name _ | SpikeyItem name _ => js_includes (js_toLowerCase name) q
      | UnicodeItem _ => true
      end) (concat (map emojis (categories s))).

Definition getPreview (item : EmojiItem) : jsstr :=
  match item with
  | ClassicItem _ filename => MSN_EMOTICON_BASE_URL ++ js "/" ++ filename ++ js ".png"
  | SpikeyItem _ filename => js "/emoji-packs/spikey/" ++ filename
  | UnicodeItem value => value
  end.

(** [filename.replace(/\.png$/i, "")] *)
Definition without_png (filename : jsstr) : jsstr :=
  if js_endsWith (js_toLowerCase filename) (js ".png")
  then take (length filename - 4) filename else filename.

Definition getInsertValue (item : EmojiItem) : jsstr :=
  match item with
  | ClassicItem _ filename => js ":classic-" ++ filename ++ js ": "
  | SpikeyItem _ filename => js ":spikey-" ++ js_toLowerCase (without_png filename) ++ js ": "
  | UnicodeItem value => value
  end.

(** ** RichEmojiText.tsx *)

(** [[a-z0-9-]] under the [i] flag. *)
Definition token_char_i (c : Z) : bool := token_char c || ((65 <=? c) && (c <=? 90)).

(** A literal under the [i] flag: the rest of the text after it. *)
Fixpoint eat_i (w s : jsstr) : option jsstr :=
  match w, s with
  | [], _ => Some s
  | x :: w, c :: s =>
      if (c =? x) || ((97 <=? x) && (x <=? 122) && (c =? x - 32)) then eat_i w s else None
  | _, [] => None
  end.

(** [w[^\s]+] at the head of [s]: the length of the match. *)
Definition match_word (w s : jsstr) : option nat :=
  match eat_i w s with
  | Some r => match span non_space r with O => None | S n => Some (length w + S n)%nat end
  | None => None
  end.

(** [INLINE_TOKEN_REGEX] at the head of [s]. *)
Definition match_inline (s : jsstr) : option nat :=
  first_some [match_word (js "https://") s; match_word (js "http://") s;
              match_word (js "/emoji-packs/") s; match_word (js "/msn-emoticons/") s;
              colon_token token_char_i s].

(** [text.split(INLINE_TOKEN_REGEX)] *)
Definition split_inline (text : jsstr) : list jsstr := split_matches match_inline text.

(** The characters of [TRAILING_PUNCTUATION_REGEX]. *)
Definition is_punctuation (c : Z) : bool :=
  bool_decide (c ∈ [41; 44; 46; 59; 58; 33; 63; 39; 34; 96]).

Fixpoint drop_while (p : Z → bool) (s : jsstr) : jsstr :=
  match s with c :: r => if p c then drop_while p r else s | [] => [] end.

(** [replace(TRAILING_PUNCTUATION_REGEX, "")] *)
Definition strip_punctuation (s : jsstr) : jsstr := rev (drop_while is_punctuation (rev s)).

(** [.] does not match a line terminator. *)
Definition is_line_end (c : Z) : bool := (c =? 10) || (c =? 13) || (c =? 8232) || (c =? 8233).

(** [\.(?:png|gif|webp)(?:\?|$)] at the head of [s]. *)
Definition ext_here (s : jsstr) : bool :=
  existsb (λ e, js_startsWith s e &&
             match drop (length e) s with [] => true | c :: _ => c =? 63 end)
    [js ".png"; js ".gif"; js ".webp"].

(** [.+\.(?:png|gif|webp)(?:\?|$)] at the head of [s]. *)
Fixpoint image_name (started : bool) (s : jsstr) : bool :=
  (started && ext_here s) ||
  match s with c :: r => negb (is_line_end c) && image_name true r | [] => false end.

Definition image_after (w s : jsstr) : bool :=
  match after w s with Some r => image_name false r | None => false end.

(** [^https?:\/\/] *)
Definition after_scheme (s : jsstr) : option jsstr :=
  first_some [after (js "https://") s; after (js "http://") s].

Definition isInlineEmojiAsset (token : jsstr) : bool :=
  match getEmojiAssetUrlFromToken token with Some _ => true | None =>
    let normalized := js_toLowerCase token in
    image_after (js "/emoji-packs/") normalized
    || image_after (js "/msn-emoticons/") normalized
    || match after_scheme normalized with
       | None => false
       | Some r =>
           image_after (js "github.com/bernzrdo/msn-emoticons/raw/main/original/") r
           || (let n := span (λ c, negb (c =? 47) && non_space c) r in
               negb (n =? 0)%nat &&
               (image_after (js "/emoji-packs/") (drop n r) || image_after (js "/msn-emoticons/") (drop n r)))
       end
  end.

Definition splitInlineEmojiToken (rawToken : jsstr) : option jsstr * jsstr :=
  let trimmed := js_trim rawToken in
  if isInlineEmojiAsset trimmed then (Some trimmed, [])
  else
    let withoutPunctuation := strip_punctuation trimmed in
    if bool_decide (withoutPunctuation = []) || negb (isInlineEmojiAsset withoutPunctuation)
    then (None, [])
    else (Some withoutPunctuation, js_slice_from trimmed (Z.of_nat (length withoutPunctuation))).

(** A rendered piece: a text, or an image with the text after it; the token the
    image stands for is kept. *)
Inductive piece :=
  | TextPiece (text : jsstr)
  | EmojiPiece (asset src trailingText : jsstr).

#[global] Instance piece_eq_dec : EqDecision piece.
Proof. solve_decision. Defined.

Definition render_token (token : jsstr) : piece :=
  match splitInlineEmojiToken token with
  | (Some asset, trailingText) =>
      EmojiPiece asset (nullish asset (getEmojiAssetUrlFromToken asset)) trailingText
  | (None, _) => TextPiece token
  end.

Definition renderRichEmojiText (text : jsstr) : list piece :=
  map render_token (List.filter (λ t, negb (bool_decide (t = []))) (split_inline text)).

(** ** Facts about splitting and trimming *)

Lemma eat_i_length w s r : eat_i w s = Some r → length s = (length w + length r)%nat.
Proof.
  revert s. induction w as [|x w IH]; intros [|c s]; cbn; try done; [by intros [= <-]..|].
  destruct (_ || _); [|done]. intros H%IH. lia.
Qed.

#[export] Instance match_inline_progress : Progress match_inline.
Proof.
  intros s n. assert (∀ w, match_word w s = Some n → (0 < n ≤ length s)%nat) as Hw.
  { intros w. unfold match_word. destruct (eat_i w s) as [r|] eqn:E; [|done].
    apply eat_i_length in E. pose proof (span_le non_space r). destruct (span _ _); [done|].
    intros [= <-]. lia. }
  intros H%first_some_elem.
  repeat (destruct H as [H|H]; [try by eapply Hw|]); [|done]. by apply colon_token_progress in H.
Qed.

Lemma split_inline_concat s : concat (split_inline s) = s.
Proof. apply split_matches_concat, _. Qed.

Definition visible (s : jsstr) : jsstr := List.filter non_space s.

Lemma visible_app s t : visible (s ++ t) = visible s ++ visible t.
Proof. apply List.filter_app. Qed.

Lemma visible_rev s : visible (rev s) = rev (visible s).
Proof.
  induction s as [|c s IH]; [done|]. cbn [rev]. rewrite visible_app, IH. unfold visible.
  cbn [List.filter]. destruct (non_space c); [done|]. by rewrite app_nil_r.
Qed.

Lemma visible_drop_space s : visible (drop_space s) = visible s.
Proof.
  induction s as [|c s IH]; [done|]. cbn [drop_space]. destruct (is_space c) eqn:E; [|done].
  rewrite IH. unfold visible. cbn. unfold non_space at 2. by rewrite E.
Qed.

Lemma visible_trim s : visible (js_trim s) = visible s.
Proof. unfold js_trim. by rewrite visible_rev, visible_drop_space, visible_rev, rev_involutive, visible_drop_space. Qed.

Lemma strip_punctuation_prefix s : ∃ t, s = strip_punctuation s ++ t.
Proof.
  unfold strip_punctuation. assert (∀ l, ∃ t, l = t ++ drop_while is_punctuation l) as Hd.
  { induction l as [|c l [t IH]]; [by exists []|]. cbn. destruct (is_punctuation c).
    - exists (c :: t). cbn. by rewrite <-IH.
    - by exists []. }
  destruct (Hd (rev s)) as [t Ht]. exists (rev t).
  rewrite <-rev_app_distr, <-Ht. by rewrite rev_involutive.
Qed.

Lemma slice_after_prefix (w q s : jsstr) : s = w ++ q → w ++ js_slice_from s (Z.of_nat (length w)) = s.
Proof.
  intros ->. f_equal. unfold js_slice_from, js_index. rewrite (proj2 (Z.ltb_ge _ _)) by lia.
  rewrite Nat2Z.id, length_app, Nat.min_l by lia. apply drop_app_length.
Qed.

(** The text a piece stands for. *)
Definition shown (p : piece) : jsstr :=
  match p with TextPiece t => t | EmojiPiece asset _ trailingText => asset ++ trailingText end.

Lemma shown_token t : visible (shown (render_token t)) = visible t.
Proof.
  unfold render_token, splitInlineEmojiToken. destruct (isInlineEmojiAsset (js_trim t)).
  - cbn. rewrite app_nil_r. apply visible_trim.
  - destruct (bool_decide _ || _); cbn; [done|].
    destruct (strip_punctuation_prefix (js_trim t)) as [q Hq].
    rewrite <-(visible_trim t). f_equal. by apply (slice_after_prefix _ q).
Qed.

(** ** Properties *)

(** Rendering keeps the text. The pieces rendered for a text stand, in order,
    for all its characters: reading the texts and the tokens behind the images
    gives back the text, up to white space, for every text. *)
Theorem rich_text_keeps_text (text : jsstr) :
  concat (split_inline text) = text ∧
  visible (concat (map shown (renderRichEmojiText text))) = visible text.
Proof.
  split; [apply split_inline_concat|].
  rewrite <-(split_inline_concat text) at 2. unfold renderRichEmojiText.
  induction (split_inline text) as [|t l IH]; [done|]. cbn [List.filter concat]. rewrite visible_app.
  case_bool_decide as E; cbn [negb].
  - subst t. exact IH.
  - cbn [map concat]. by rewrite visible_app, shown_token, IH.
Qed.

Definition is_classic (item : EmojiItem) : bool :=
  match item with ClassicItem _ _ => true | _ => false end.

(** Every classic emoticon of the picker round-trips: the text the picker
    inserts is rendered as one image, whose source is the picker's preview, and
    a space. *)
Theorem classic_emoji_roundtrip :
  Forall (λ item,
    renderRichEmojiText (getInsertValue item) =
      [EmojiPiece (js_trim (getInsertValue item)) (getPreview item) []; TextPiece (js " ")])
    (List.filter is_classic (concat (map emojis CATEGORIES))) ∧
  length (List.filter is_classic (concat (map emojis CATEGORIES))) = 76%nat.
Proof.
  split; [|vm_compute; reflexivity]. apply List.Forall_forall. intros item Hi.
  assert (forallb (λ item, bool_decide (renderRichEmojiText (getInsertValue item) =
      [EmojiPiece (js_trim (getInsertValue item)) (getPreview item) []; TextPiece (js " ")]))
    (List.filter is_classic (concat (map emojis CATEGORIES))) = true) as Hb by (vm_compute; reflexivity).
  rewrite forallb_forall in Hb. by apply Hb, bool_decide_eq_true in Hi.
Qed.

(** The spikey emoticons do not: the inserted token is lower-case, so the
    image rendered for it has a lower-case file name, and no spikey item's image
    is the file the picker previews. *)
Theorem spikey_emoji_other_file :
  Forall (λ item, ∃ src,
    renderRichEmojiText (getInsertValue item) =
      [EmojiPiece (js_trim (getInsertValue item)) src []; TextPiece (js " ")] ∧
    src ≠ getPreview item ∧ js_toLowerCase (getPreview item) = src)
    (emojis SPIKEY_CATEGORY).
Proof.
  repeat (apply Forall_cons_2; [eexists; split; [vm_compute; reflexivity|]; split; [vm_compute; discriminate|vm_compute; reflexivity]|]).
  apply Forall_nil_2.
Qed.

(** Spikey emoticons are offered exactly to those who have them: for every
    search and category, a spikey item is shown only when the pack is unlocked,
    by the plus tier or by a purchase; without a search the last category then
    shows them all. *)
Theorem spikey_offered_when_unlocked s search category item :
  (In item (filtered s search category) →
   match item with SpikeyItem _ _ => spikeyUnlocked s = true | _ => True end) ∧
  (spikeyUnlocked s = true →
   filtered s [] (length CATEGORIES) = emojis SPIKEY_CATEGORY).
Proof.
  assert (∀ c i, In c CATEGORIES → In i (emojis c) → match i with SpikeyItem _ _ => False | _ => True end) as Hno.
  { assert (forallb (λ i, match i with SpikeyItem _ _ => false | _ => true end)
              (concat (map emojis CATEGORIES)) = true) as Hb by (vm_compute; reflexivity).
    intros c i Hc Hi. rewrite forallb_forall in Hb.
    assert (In i (concat (map emojis CATEGORIES))) as Hin
      by (apply in_concat; exists (emojis c); split; [by apply in_map|done]).
    specialize (Hb i Hin). by destruct i. }
  assert (∀ c i, In c (categories s) → In i (emojis c) →
    match i with SpikeyItem _ _ => spikeyUnlocked s = true | _ => True end) as Hcat.
  { intros c i Hc Hi. unfold categories in Hc. destruct (spikeyUnlocked s); [by destruct i|].
    specialize (Hno c i Hc Hi). by destruct i. }
  split.
  - unfold filtered. destruct (decide _).
    + destruct (categories s !! category) as [c|] eqn:E; [|done]. intros Hi.
      eapply Hcat; [|done]. apply list_elem_of_In. by eapply list_elem_of_lookup_2.
    + intros [Hi _]%filter_In. apply in_concat in Hi as (l & Hl & Hi).
      apply in_map_iff in Hl as (c & <- & Hc). by eapply Hcat.
  - intros Hu. unfold filtered, categories. rewrite Hu. vm_compute. reflexivity.
Qed.
