(* ===== verification/Bubble.v ===== *)
(** * MessageBubble.tsx: how a message is shown

    apps/web/src/components/MessageBubble.tsx and the library's ChatBubble.tsx
    (packages/ui), up to the list of parts and the attachment they render: the
    markup is in Widgets.v. The component has its own copies of two functions of
    RichEmojiText.tsx, which differ from the originals. *)

From S2P Require Import Prelude JsString Matching Json Platform Types Emoji.

(** ** The text's parts *)

(** [URL_REGEX] at the head of a text. *)
Definition match_url : jsstr → option nat :=
  orelse (word_after (js "https://")) (orelse (word_after (js "http://"))
    (orelse (word_after (js "/emoji-packs/")) (orelse (word_after (js "/msn-emoticons/"))
      (colon_token token_char)))).

(** A test at some position of the text, its end included. *)
Fixpoint anywhere (p : jsstr → bool) (s : jsstr) : bool :=
  p s || match s with [] => false | _ :: r => anywhere p r end.

(** [(\.gif|\.webp|\.png|\.jpg|\.jpeg)(\?|$)] at the head. *)
Definition image_extension (s : jsstr) : bool :=
  existsb (λ e, match after e s with Some [] => true | Some (c :: _) => c =? 63 | None => false end)
    (map js [".gif"; ".webp"; ".png"; ".jpg"; ".jpeg"]%string).

Definition isImageAssetUrl (rawUrl : jsstr) : bool :=
  match getEmojiAssetUrlFromToken rawUrl with Some _ => true | None =>
    let normalized := js_toLowerCase rawUrl in
    anywhere image_extension normalized || js_includes normalized (js "/media")
  end.

(** [/https?:\/\/(?:www\.)?(?:giphy\.com|tenor\.com)\//i] at the head: its words. *)
Definition gif_site (s : jsstr) : bool :=
  existsb (λ w, bool_decide (is_Some (eat_i w s)))
    (map js ["https://www.giphy.com/"; "https://www.tenor.com/"; "https://giphy.com/"; "https://tenor.com/";
             "http://www.giphy.com/"; "http://www.tenor.com/"; "http://giphy.com/"; "http://tenor.com/"]%string).

Definition shouldHideCompanionGifLink (rawUrl : jsstr) : bool := anywhere gif_site rawUrl.

Definition isInlineEmojiAsset (rawUrl : jsstr) : bool :=
  match getEmojiAssetUrlFromToken rawUrl with Some _ => true | None =>
    let normalized := js_toLowerCase rawUrl in
    js_startsWith normalized (js "/emoji-packs/") || js_startsWith normalized (js "/msn-emoticons/")
    || js_includes normalized (js "/emoji-packs/") || js_includes normalized (js "/msn-emoticons/")
    || js_includes normalized (js "/msn-emoticons/raw/main/original/")
  end.

Definition splitInlineEmojiToken (rawUrl : jsstr) : option jsstr * jsstr :=
  let trimmed := js_trim rawUrl in
  if isInlineEmojiAsset trimmed && isImageAssetUrl trimmed then (Some trimmed, [])
  else
    let withoutPunctuation := strip_punctuation trimmed in
    if bool_decide (withoutPunctuation = []) || negb (isInlineEmojiAsset withoutPunctuation)
       || negb (isImageAssetUrl withoutPunctuation)
    then (None, [])
    else (Some withoutPunctuation, js_slice_from trimmed (Z.of_nat (length withoutPunctuation))).

Inductive part :=
  | TextPart (text : jsstr)
  | InlineImage (asset : jsstr) (pieces : list piece) (trailingText : jsstr)
  | ImagePart (src : jsstr)
  | HiddenLink (url : jsstr)
  | LinkPart (href : jsstr).

(** One element of [bodyParts]. *)
Definition render_part (hasImageAssets : bool) (p : jsstr) : part :=
  if bool_decide (all_matches match_url p = []) then TextPart p
  else if isImageAssetUrl p then
    match splitInlineEmojiToken p with
    | (Some asset, trailingText) =>
        InlineImage asset (renderRichEmojiText (nullish asset (getEmojiAssetUrlFromToken asset))) trailingText
    | (None, _) => ImagePart p
    end
  else if hasImageAssets && shouldHideCompanionGifLink p then HiddenLink p
  else LinkPart p.

Definition body_parts (body : jsstr) : list part :=
  let bodyParts := split_matches match_url body in
  let imageUrls := List.filter isImageAssetUrl (all_matches match_url body) in
  map (render_part (negb (bool_decide (imageUrls = [])))) bodyParts.

(** ** The attachment *)

Inductive Preview :=
  | ImagePreview (src alt : jsstr)
  | FramePreview (src title : jsstr)
  | NoPreview.

(** [mv_separated]: the attachment is set off from a text above it. *)
Record Media := mkMedia {
  mv_separated : bool;
  mv_name : jsstr;
  mv_size : jsstr;
  mv_preview : Preview;
  mv_href : jsstr;
}.

(** [a || b] for strings that may be [undefined]. *)
Definition or_string (a b : option jsstr) : option jsstr :=
  match a with Some (_ :: _) => a | _ => b end.

(** [(num / den).toFixed(1)] of a number at least zero: the nearest tenth, the
    larger of two. *)
Definition toFixed1 (num den : Z) : jsstr :=
  let tenths := (20 * num + den) / (2 * den) in
  js_toString (tenths / 10) ++ js "." ++ js_toString (tenths mod 10).

Section bubble.
Context {doubles : Doubles}.
(** The text of a size that was written with a fraction or an exponent. *)
Context (format_double : jsstr → jsstr).

(** The divisions by 1024 are exact for the integers a double holds. *)
Definition formatBytes (bytes : value) : jsstr :=
  match bytes with
  | Some (JNum n) =>
      if n =? 0 then []
      else if n <? 1024 then js_toString n ++ js " B"
      else if n <? 1024 * 1024 then toFixed1 n 1024 ++ js " KB"
      else toFixed1 n (1024 * 1024) ++ js " MB"
  | Some (JFrac l) => if double_is_zero l then [] else format_double l
  | _ => []
  end.

Definition canInlinePreview (mediaMime : jsstr) : bool :=
  js_startsWith mediaMime (js "image/") || js_startsWith mediaMime (js "video/")
  || js_startsWith mediaMime (js "audio/") || bool_decide (mediaMime = js "application/pdf")
  || js_startsWith mediaMime (js "text/").

Definition media_view (message : Message) (body : jsstr) : option Media :=
  match or_string (prop_get (m_mediaData message)) (prop_get (m_mediaUrl message)) with
  | None | Some [] => None
  | Some mediaSrc =>
      let mediaMime := nullish [] (or_string (prop_get (m_mediaMime message)) None) in
      let mediaName := nullish (js "attachment") (or_string (prop_get (m_mediaName message)) None) in
      Some (mkMedia (negb (bool_decide (js_trim body = []))) mediaName
        (if truthy (prop_get (m_mediaSize message))
         then js "(" ++ formatBytes (prop_get (m_mediaSize message)) ++ js ")" else [])
        (if canInlinePreview mediaMime then
           if js_startsWith mediaMime (js "image/") then ImagePreview mediaSrc mediaName
           else FramePreview mediaSrc mediaName
         else NoPreview)
        mediaSrc)
  end.

(** ** The bubble *)

Inductive bubble :=
  | WinkdBanner (text : jsstr)
  | NudgeBanner (text : jsstr)
  | SystemLine (body : option jsstr)
  | TextBubble (mine : bool) (parts : list part) (media : option Media).

(** [None] is [null]; splitting a body that is [undefined] throws. *)
Definition MessageBubble (message : Message) (isMe : bool) : result (option bubble) :=
  if decide (m_type message = js "winkd") then
    Ok (Some (WinkdBanner (if isMe then js "💥 You sent a Winkd!"
                           else js "💥 sent you a Winkd! Your window is shaking!")))
  else if decide (m_type message = js "nudge") then
    Ok (Some (NudgeBanner (if isMe then js "🫸 You sent a nudge." else js "🫸 sent you a nudge.")))
  else if decide (m_type message = js "system") then Ok (Some (SystemLine (prop_get (m_body message))))
  else if decide (m_type message = js "text") then
    match prop_get (m_body message) with
    | None => Throw TypeError_
    | Some body => Ok (Some (TextBubble isMe (body_parts body) (media_view message body)))
    end
  else Ok None.

(** The bubble of packages/ui, which shows the body as it is. *)
Inductive chat_bubble :=
  | ChatSystem (body : option jsstr)
  | ChatBanner (text : jsstr)
  | ChatText (mine : bool) (body : option jsstr).

Definition ChatBubble (message : Message) (isMine : bool) : option chat_bubble :=
  if decide (m_type message = js "system") then Some (ChatSystem (prop_get (m_body message)))
  else if decide (m_type message = js "winkd") then
    Some (ChatBanner (if isMine then js "💥 You sent a Winkd!"
                      else js "💥 Someone sent you a Winkd! Your window is shaking!"))
  else if decide (m_type message = js "nudge") then
    Some (ChatBanner (if isMine then js "🫸 You nudged!" else js "🫸 You were nudged!"))
  else if decide (m_type message = js "text") then Some (ChatText isMine (prop_get (m_body message)))
  else None.

End bubble.

(** ** Facts about matches *)

#[export] Instance match_url_progress : Progress match_url.
Proof. unfold match_url. apply _. Qed.
#[export] Instance match_url_extensible : Extensible match_url.
Proof. unfold match_url. apply _. Qed.
#[export] Instance match_url_self : SelfMatching match_url.
Proof. unfold match_url. apply _. Qed.

Definition spaceless (s : jsstr) : bool := forallb non_space s.

Lemma spaceless_app s t : spaceless (s ++ t) = spaceless s && spaceless t.
Proof. apply forallb_app. Qed.

Lemma spaceless_forall p s :
  (∀ c, p c = true → non_space c = true) → Forall (λ c, p c = true) s → spaceless s = true.
Proof. intros Hp H. apply forallb_forall. rewrite List.Forall_forall in H. auto. Qed.

Lemma token_char_nonspace c : token_char c = true → non_space c = true.
Proof.
  unfold token_char, is_digit, non_space. intros H. apply negb_true_iff.
  unfold is_space. rewrite !orb_true_iff, !andb_true_iff, !Z.leb_le, Z.eqb_eq in H.
  rewrite !orb_false_iff, !andb_false_iff, !Z.eqb_neq, !Z.leb_gt. lia.
Qed.

Lemma word_after_spaceless w s n :
  spaceless w = true → word_after w s = Some n → spaceless (take n s) = true.
Proof.
  intros Hw (r & -> & _ & ->)%word_after_spec. rewrite take_app_add, spaceless_app, Hw.
  by apply (spaceless_forall non_space), take_span.
Qed.

Lemma colon_token_spaceless s n : colon_token token_char s = Some n → spaceless (take n s) = true.
Proof.
  intros (w & r & -> & _ & Hw & _ & ->)%colon_token_spec.
  replace (length w + 2)%nat with (S (length (w ++ [58]))) by (rewrite length_app; cbn; lia).
  replace (w ++ 58 :: r) with ((w ++ [58]) ++ r) by (by rewrite <-(assoc_L (++))).
  change (spaceless (58 :: take (length (w ++ [58])) ((w ++ [58]) ++ r)) = true).
  rewrite take_app_length. change (spaceless ([58] ++ w ++ [58]) = true).
  rewrite !spaceless_app, (spaceless_forall token_char w token_char_nonspace Hw). reflexivity.
Qed.

Lemma match_url_spaceless s n : match_url s = Some n → spaceless (take n s) = true.
Proof.
  unfold match_url, orelse.
  repeat match goal with
  | |- match word_after ?w s with _ => _ end = _ → _ => destruct (word_after w s) eqn:?
  end; [intros [= <-]; eapply word_after_spaceless; [|eassumption]; vm_compute; reflexivity..|]. apply colon_token_spaceless.
Qed.

Lemma spaceless_trim s : spaceless s = true → js_trim s = s.
Proof.
  assert (∀ t, spaceless t = true → drop_space t = t) as Hd.
  { intros [|c t]; cbn; [done|]. unfold non_space. by destruct (is_space c). }
  intros H. unfold js_trim. rewrite (Hd s H), Hd, rev_involutive; [done|].
  unfold spaceless in *. rewrite forallb_forall in *. intros c Hc. apply H. by apply in_rev.
Qed.

(** ** Facts about parts *)

(** The text a part stands for. *)
Definition source (p : part) : jsstr :=
  match p with
  | TextPart t => t
  | InlineImage asset _ trailingText => asset ++ trailingText
  | ImagePart u | HiddenLink u | LinkPart u => u
  end.

Lemma includes_app s t w : js_includes s w = true → js_includes (s ++ t) w = true.
Proof.
  induction s as [|c s IH]; cbn [js_includes app].
  - rewrite orb_false_r. intros H. apply (startsWith_app [] t) in H. cbn [app] in H.
    destruct t; cbn [js_includes]; by rewrite H.
  - rewrite !orb_true_iff. intros [H|H]; [left; by apply (startsWith_app (c :: s))|right; auto].
Qed.

Lemma strip_punctuation_last s q c : strip_punctuation s = q ++ [c] → is_punctuation c = false.
Proof.
  unfold strip_punctuation. assert (∀ l, match drop_while is_punctuation l with
    | d :: _ => is_punctuation d = false | [] => True end) as Hd.
  { induction l as [|d l IH]; cbn; [done|]. by destruct (is_punctuation d) eqn:E. }
  specialize (Hd (rev s)). destruct (drop_while _ _) as [|d l]; cbn; [by intros H%app_cons_not_nil|].
  by intros [_ [= ->]]%app_inj_2.
Qed.

Lemma is_token_spec s : is_token s = true →
  ∃ w, s = 58 :: w ++ [58] ∧ w ≠ [] ∧ Forall (λ c, token_char c = true) w.
Proof.
  unfold is_token. destruct s as [|c r]; [done|].
  destruct (decide (c = 58)) as [->|Hc]; [|by repeat (destruct c as [|c|c]; try done)].
  destruct (rev r) as [|d inner] eqn:E; [done|].
  destruct (decide (d = 58)) as [->|Hd]; [|by repeat (destruct d as [|d|d]; try done)].
  intros [Hne Hw]%andb_true_iff. apply negb_true_iff, bool_decide_eq_false in Hne.
  exists (rev inner). split_and!.
  - f_equal. rewrite <-(rev_involutive r), E. done.
  - intros H. apply Hne. by rewrite <-(rev_involutive inner), H.
  - apply Forall_rev. apply List.Forall_forall. by apply forallb_forall.
Qed.

Lemma emoji_token s url : getEmojiAssetUrlFromToken s = Some url →
  is_token (js_toLowerCase (js_trim s)) = true.
Proof. unfold getEmojiAssetUrlFromToken. by destruct (is_token _). Qed.

Lemma lower_unit_colon c : lower_unit c = 58 → c = 58.
Proof. unfold lower_unit. repeat case_match; zbool; lia. Qed.

(** Stripping the punctuation never uncovers an emoji: the branch that keeps it
    as trailing text is not reached. *)
Lemma no_trailing_text u a tr :
  spaceless u = true → isImageAssetUrl u = true → splitInlineEmojiToken u = (Some a, tr) →
  a = u ∧ tr = [].
Proof.
  intros Hs Hi. unfold splitInlineEmojiToken. rewrite (spaceless_trim u Hs), Hi, andb_true_r.
  destruct (isInlineEmojiAsset u) eqn:Eu; [by intros [= <- <-]|].
  destruct (isInlineEmojiAsset (strip_punctuation u)) eqn:Eq; [|by rewrite orb_true_r].
  exfalso. destruct (strip_punctuation_prefix u) as [t Ht]. revert Eq Eu Hs. unfold isInlineEmojiAsset.
  destruct (getEmojiAssetUrlFromToken u); [done|].
  destruct (getEmojiAssetUrlFromToken (strip_punctuation u)) as [url|] eqn:Ee.
  - intros _ _ Hs. apply emoji_token, is_token_spec in Ee as (w & Ew & _).
    rewrite Ht, spaceless_app, andb_true_iff in Hs. destruct Hs as [Hs _].
    rewrite (spaceless_trim _ Hs) in Ew.
    destruct (strip_punctuation u) as [|c q _] eqn:E using rev_ind; [done|].
    apply strip_punctuation_last in E. unfold js_toLowerCase in Ew. rewrite map_app in Ew.
    change (58 :: w ++ [58]) with ((58 :: w) ++ [58]) in Ew.
    apply app_inj_2 in Ew as [_ [= Ec%lower_unit_colon]]; [|done]. subst c. done.
  - intros Hq Hu _. assert (js_toLowerCase u = js_toLowerCase (strip_punctuation u) ++ js_toLowerCase t) as El.
    { rewrite Ht at 1. apply map_app. }
    rewrite El in Hu. revert Hq Hu. generalize (js_toLowerCase (strip_punctuation u)), (js_toLowerCase t).
    intros x y. rewrite !orb_true_iff, !orb_false_iff.
    intros Hx ((((H1 & H2) & H3) & H4) & H5).
    destruct Hx as [[[[H|H]|H]|H]|H];
      first [apply (startsWith_app x y) in H|apply (includes_app x y) in H]; congruence.
Qed.

Lemma render_part_source h u :
  all_matches match_url u = [] ∨ spaceless u = true → source (render_part h u) = u.
Proof.
  intros Hu. unfold render_part. case_bool_decide as Em; [done|].
  destruct Hu as [?|Hs]; [done|]. destruct (isImageAssetUrl u) eqn:Ei.
  - destruct (splitInlineEmojiToken u) as [[a|] tr] eqn:Es; [|done].
    destruct (no_trailing_text u a tr Hs Ei Es) as [-> ->]. cbn. by rewrite app_nil_r.
  - by destruct (_ && _).
Qed.

(** What a part shows is what its text is. *)
Definition part_ok (all : list part) (p : part) : Prop :=
  match p with
  | TextPart t => all_matches match_url t = []
  | InlineImage asset _ trailingText =>
      match_url asset = Some (length asset) ∧ isImageAssetUrl asset = true ∧ trailingText = []
  | ImagePart u => match_url u = Some (length u) ∧ isImageAssetUrl u = true
  | HiddenLink u =>
      match_url u = Some (length u) ∧ shouldHideCompanionGifLink u = true ∧
      ∃ q, In q all ∧ isImageAssetUrl (source q) = true
  | LinkPart u => match_url u = Some (length u) ∧ isImageAssetUrl u = false
  end.

Lemma whole_match_spaceless u : match_url u = Some (length u) → spaceless u = true.
Proof. intros H. rewrite <-(firstn_all u). by apply match_url_spaceless. Qed.

Lemma body_parts_elem body u :
  u ∈ split_matches match_url body → all_matches match_url u = [] ∨ match_url u = Some (length u).
Proof.
  apply (alternating_elem (λ t, all_matches match_url t = []) (λ t, match_url t = Some (length t))).
  apply split_matches_classified; apply _.
Qed.

Lemma body_parts_source body u :
  u ∈ split_matches match_url body → ∀ h, source (render_part h u) = u.
Proof.
  intros Hu h. apply render_part_source.
  destruct (body_parts_elem body u Hu) as [?|?%whole_match_spaceless]; auto.
Qed.

Lemma body_parts_ok body : Forall (part_ok (body_parts body)) (body_parts body).
Proof.
  unfold body_parts. set (h := negb _). apply List.Forall_forall. intros p (u & <- & Hu)%in_map_iff.
  apply list_elem_of_In in Hu. unfold render_part at 2. case_bool_decide as Em; [done|].
  destruct (body_parts_elem body u Hu) as [?|Hm]; [done|].
  destruct (isImageAssetUrl u) eqn:Ei.
  - destruct (splitInlineEmojiToken u) as [[a|] tr] eqn:Es; [|done].
    by destruct (no_trailing_text u a tr (whole_match_spaceless u Hm) Ei Es) as [-> ->].
  - destruct (h && shouldHideCompanionGifLink u) eqn:Eh; [|done].
    apply andb_true_iff in Eh as [Eh Es]. cbn. split_and!; [done..|].
    unfold h in Eh. apply negb_true_iff, bool_decide_eq_false in Eh.
    destruct (List.filter _ _) as [|v l] eqn:Ef; [done|].
    assert (In v (v :: l)) as Hv by (by left). rewrite <-Ef, filter_In in Hv. destruct Hv as [Hv Hi].
    rewrite <-split_matches_odds, <-list_elem_of_In in Hv by apply _. apply odds_elem in Hv.
    exists (render_part h v). split; [apply in_map; by apply list_elem_of_In|].
    by rewrite (body_parts_source body v Hv).
Qed.

Lemma body_parts_concat body : concat (map source (body_parts body)) = body.
Proof.
  unfold body_parts. set (h := negb _). rewrite map_map, (map_ext_in _ id).
  - rewrite map_id. apply split_matches_concat, _.
  - intros u Hu. apply (body_parts_source body). by apply list_elem_of_In.
Qed.

(** ** Emoji tokens *)

Lemma eat_i_self w r : eat_i w (w ++ r) = Some r.
Proof. induction w as [|c w IH]; cbn; [done|]. by rewrite Z.eqb_refl. Qed.

Lemma match_word_self w r : r ≠ [] → spaceless r = true → match_word w (w ++ r) = Some (length (w ++ r)).
Proof.
  intros Hr Hs. unfold match_word. rewrite eat_i_self, span_all.
  - destruct r; [done|]. by rewrite length_app.
  - apply List.Forall_forall. by apply forallb_forall.
Qed.

Lemma image_name_png started slug :
  slug ≠ [] ∨ started = true → Forall (λ c, is_line_end c = false) slug →
  image_name started (slug ++ js ".png") = true.
Proof.
  intros Hs Hl. revert started Hs. induction Hl as [|c slug Hc _ IH]; intros started Hs.
  - destruct Hs as [?| ->]; [done|]. vm_compute. reflexivity.
  - cbn [app image_name]. rewrite Hc, (IH true); [by rewrite orb_true_r|by right].
Qed.

(** The images the tokens stand for. *)
Inductive asset_url : jsstr → Prop :=
  | asset_classic slug : slug ≠ [] → Forall (λ c, token_char c = true) slug →
      asset_url (MSN_EMOTICON_BASE_URL ++ js "/" ++ slug ++ js ".png")
  | asset_spikey slug : slug ≠ [] → Forall (λ c, token_char c = true) slug →
      asset_url (js "/emoji-packs/spikey/" ++ slug ++ js ".png").

Lemma slug_chars w k :
  Forall (λ c, token_char c = true) w →
  Forall (λ c, token_char c = true) (js_slice (58 :: w ++ [58]) (Z.of_nat (S k)) (-1)).
Proof.
  intros Hw. unfold js_slice.
  assert (js_index (length (58 :: w ++ [58])) (-1) = S (length w)) as ->.
  { unfold js_index. cbn [Z.ltb Z.compare]. cbn. rewrite length_app. cbn. lia. }
  set (from := js_index _ _). assert (from = 0 ∨ ∃ j, from = S j)%nat as [E|[j ->]] by (destruct from; eauto).
  - exfalso. subst from. unfold js_index in E. rewrite (proj2 (Z.ltb_ge _ _)) in E by lia. cbn in E. lia.
  - cbn [drop Nat.sub]. rewrite <-skipn_firstn_comm, take_app_length. by apply Forall_drop.
Qed.

Lemma emoji_asset_url s url : getEmojiAssetUrlFromToken s = Some url → asset_url url.
Proof.
  intros H. pose proof (emoji_token _ _ H) as Ht. apply is_token_spec in Ht as (w & Ew & _ & Hw).
  revert H. unfold getEmojiAssetUrlFromToken. destruct (is_token _); [|done]. cbn [negb].
  rewrite Ew. set (p1 := js_startsWith _ _ && _). set (p2 := js_startsWith _ _ && _).
  cbv zeta. change (Z.of_nat (length CLASSIC_TOKEN_PREFIX)) with (Z.of_nat 9).
  change (Z.of_nat (length SPIKEY_TOKEN_PREFIX)) with (Z.of_nat 8).
  destruct p1; [|destruct p2; [|done]]; (destruct (decide _) as [|Hne]; [done|]); intros [= <-];
    constructor; try done; by apply slug_chars.
Qed.

Lemma token_char_lower c : token_char c = true → lower_unit c = c.
Proof.
  unfold token_char, lower_unit, is_digit. rewrite !orb_true_iff, !andb_true_iff, !Z.leb_le, Z.eqb_eq.
  intros H. repeat case_match; zbool; lia.
Qed.

Lemma token_char_line_end c : token_char c = true → is_line_end c = false.
Proof.
  unfold token_char, is_line_end, is_digit.
  rewrite !orb_true_iff, !andb_true_iff, !Z.leb_le, Z.eqb_eq, !orb_false_iff, !Z.eqb_neq. lia.
Qed.

Lemma lower_fixed s : forallb (λ c, lower_unit c =? c) s = true → js_toLowerCase s = s.
Proof.
  intros H. unfold js_toLowerCase. rewrite <-(map_id s) at 2. apply map_ext_in. intros c Hc.
  rewrite forallb_forall in H. by apply Z.eqb_eq, H.
Qed.

Lemma slug_fixed slug :
  Forall (λ c, token_char c = true) slug → forallb (λ c, lower_unit c =? c) slug = true.
Proof.
  intros H. apply forallb_forall. rewrite List.Forall_forall in H. intros c Hc.
  apply Z.eqb_eq, token_char_lower. auto.
Qed.

Lemma slug_png_after started p slug :
  Forall (λ c, is_line_end c = false) p → slug ≠ [] → Forall (λ c, token_char c = true) slug →
  image_name started (p ++ slug ++ js ".png") = true.
Proof.
  intros Hp Hne Hs. rewrite (assoc_L (++)). apply image_name_png.
  - left. by intros [_ ?]%app_eq_nil.
  - apply list.Forall_app. split; [done|].
    eapply Forall_impl; [exact token_char_line_end|exact Hs].
Qed.

Lemma png_spaceless (p slug : jsstr) :
  Forall (λ c, token_char c = true) slug → spaceless p = true → spaceless (p ++ slug ++ js ".png") = true.
Proof.
  intros Hs Hp. rewrite !spaceless_app, Hp, (spaceless_forall _ _ token_char_nonspace Hs). reflexivity.
Qed.

Lemma png_lower (p slug : jsstr) :
  Forall (λ c, token_char c = true) slug → forallb (λ c, lower_unit c =? c) p = true →
  js_toLowerCase (p ++ slug ++ js ".png") = p ++ slug ++ js ".png".
Proof. intros Hs Hp. apply lower_fixed. rewrite !forallb_app, Hp, (slug_fixed _ Hs). reflexivity. Qed.

(** Only what begins with a colon is a token. *)
Lemma no_colon_no_token u :
  js_toLowerCase u = u → js_startsWith u [58] = false → spaceless u = true →
  getEmojiAssetUrlFromToken u = None.
Proof.
  intros Hl Hc Hs. unfold getEmojiAssetUrlFromToken. rewrite (spaceless_trim u Hs), Hl.
  destruct (is_token u) eqn:E; [|done]. apply is_token_spec in E as (w & -> & _). done.
Qed.

Lemma asset_url_facts url : asset_url url →
  url ≠ [] ∧ spaceless url = true ∧ js_toLowerCase url = url ∧ match_inline url = Some (length url) ∧
  js_startsWith url [58] = false ∧ Emoji.isInlineEmojiAsset url = true.
Proof.
  destruct 1 as [slug Hne Hs|slug Hne Hs]; [rewrite (assoc_L (++))|];
    match goal with |- ?p ++ _ ++ _ ≠ [] ∧ _ => set (pre := p) end;
    assert (spaceless (pre ++ slug ++ js ".png") = true) as H1 by (by apply png_spaceless);
    assert (js_toLowerCase (pre ++ slug ++ js ".png") = pre ++ slug ++ js ".png") as H2 by (by apply png_lower);
    assert (js_startsWith (pre ++ slug ++ js ".png") [58] = false) as H3 by reflexivity;
    pose proof (slug_png_after false [] slug (@Forall_nil _ _) Hne Hs : image_name false (slug ++ js ".png") = true) as Hi;
    (split; [done|split; [done|split; [done|]]]).
  - change pre with (js "https://" ++ js "github.com/bernzrdo/msn-emoticons/raw/main/original/") in *.
    rewrite <-(assoc_L (++)) in *. split; [|split; [done|]].
    + unfold match_inline. rewrite match_word_self; [done..|]. rewrite spaceless_app in H1.
      by apply andb_true_iff in H1 as [_ H1].
    + unfold Emoji.isInlineEmojiAsset. rewrite no_colon_no_token by done. rewrite H2. unfold after_scheme, image_after.
      rewrite (proj2 (after_spec (js "https://") _ _) eq_refl). cbn [first_some].
      rewrite (proj2 (after_spec (js "github.com/bernzrdo/msn-emoticons/raw/main/original/") _ _) eq_refl).
      rewrite Hi. by rewrite !orb_true_r.
  - change pre with (js "/emoji-packs/" ++ js "spikey/") in *.
    rewrite <-(assoc_L (++)) in *. split; [|split; [done|]].
    + unfold match_inline. change (match_word (js "https://") _) with (@None nat).
      change (match_word (js "http://") _) with (@None nat). cbn [first_some].
      rewrite match_word_self; [done..|]. rewrite spaceless_app in H1.
      by apply andb_true_iff in H1 as [_ H1].
    + unfold Emoji.isInlineEmojiAsset. rewrite no_colon_no_token by done. rewrite H2. unfold image_after.
      rewrite (proj2 (after_spec (js "/emoji-packs/") _ _) eq_refl). rewrite (slug_png_after false (js "spikey/")); [done| |done..].
      apply (Forall_check (λ c, negb (is_line_end c))); [intros c; by apply negb_true_iff|]. vm_compute. reflexivity.
Qed.

(** The image of a token is rendered as that image. *)
Lemma rich_asset url : asset_url url → renderRichEmojiText url = [EmojiPiece url url []].
Proof.
  intros (Hne & Hs & Hl & Hm & Hc & Hi)%asset_url_facts.
  unfold renderRichEmojiText, split_inline. rewrite (split_matches_whole match_inline url Hne Hm).
  cbn [List.filter]. rewrite bool_decide_true, (bool_decide_false (url = [])) by done. cbn [negb map]. f_equal.
  unfold render_token, Emoji.splitInlineEmojiToken. rewrite (spaceless_trim url Hs), Hi.
  destruct (getEmojiAssetUrlFromToken url) as [v|] eqn:E; [|done].
  apply emoji_token, is_token_spec in E as (w & E & _).
  rewrite (spaceless_trim url Hs), Hl in E. rewrite E in Hc. done.
Qed.

(** ** Properties *)

Section properties.
Context {doubles : Doubles} (format_double : jsstr → jsstr).

(** C35: A text message is shown with its whole text: the parts of the bubble stand,
    in order, for every character of the body; a part shown as plain text has no
    link or image in it, a part shown as an image or a link is one whole match; and
    the only text that is not visible is a link to giphy or tenor in a message that
    shows an image. *)
Theorem bubble_keeps_text message me body :
  m_type message = js "text" → prop_get (m_body message) = Some body →
  ∃ parts,
    MessageBubble format_double message me = Ok (Some (TextBubble me parts (media_view format_double message body))) ∧
    concat (map source parts) = body ∧ Forall (part_ok parts) parts.
Proof.
  intros Ht Hb. exists (body_parts body). unfold MessageBubble. rewrite Ht, Hb.
  split; [reflexivity|]. split; [apply body_parts_concat|apply body_parts_ok].
Qed.

(** Every emoji token in a body is shown as exactly one image, the one the
    token stands for, and as nothing else. *)
Theorem emoji_in_bubble body token url :
  In token (all_matches match_url body) → getEmojiAssetUrlFromToken token = Some url →
  In (InlineImage token [EmojiPiece url url []] []) (body_parts body).
Proof.
  intros Hi Hu. rewrite <-split_matches_odds, <-list_elem_of_In in Hi by apply _.
  assert (match_url token = Some (length token)) as Hm.
  { eapply (alternating_odds _ (λ t, match_url t = Some (length t))); [|exact Hi].
    apply split_matches_classified; apply _. }
  apply odds_elem, list_elem_of_In in Hi. pose proof (whole_match_spaceless token Hm) as Hs.
  apply in_map_iff. exists token. split; [|done]. unfold render_part.
  rewrite bool_decide_false by (apply all_matches_head; [apply _|by eexists]).
  unfold isImageAssetUrl at 1, splitInlineEmojiToken. rewrite (spaceless_trim token Hs).
  unfold isInlineEmojiAsset, isImageAssetUrl. rewrite Hu. cbn [andb].
  rewrite Hu. f_equal. apply rich_asset. by eapply emoji_asset_url.
Qed.

(** When a message cannot be shown: a text message without a body throws, and
    no other message does. *)
Theorem bubble_throws message me e :
  MessageBubble format_double message me = Throw e ↔
  m_type message = js "text" ∧ prop_get (m_body message) = None ∧ e = TypeError_.
Proof.
  unfold MessageBubble.
  repeat (destruct (decide _) as [E|_]; [split; [done|]; rewrite E; intros [H _]; vm_compute in H; discriminate H|]).
  destruct (decide _) as [E|E]; [|naive_solver].
  destruct (prop_get _); [naive_solver|]. split; [intros [= <-]; done|]. by intros (_ & _ & ->).
Qed.

(** The size shown for an attachment of a kibibyte or more is within a twentieth
    of a unit of the size; below a mebibyte the unit is KB. *)
Theorem formatBytes_rounds n :
  1024 ≤ n →
  ∃ tenths unit suffix,
    formatBytes format_double (Some (JNum n)) =
      js_toString (tenths / 10) ++ js "." ++ js_toString (tenths mod 10) ++ suffix ∧
    (unit = 1024 ∧ suffix = js " KB" ∧ n < 1048576 ∨ unit = 1048576 ∧ suffix = js " MB" ∧ 1048576 ≤ n) ∧
    Z.abs (20 * n - 2 * unit * tenths) ≤ unit.
Proof.
  intros Hn. unfold formatBytes, toFixed1. rewrite (proj2 (Z.eqb_neq _ _)) by lia.
  rewrite (proj2 (Z.ltb_ge _ _)) by lia. destruct (Z.ltb_spec n (1024 * 1024)).
  - eexists _, 1024, _. rewrite <-!(assoc_L (++)). split; [reflexivity|]. split; [left; split_and!; [done..|lia]|]. zlia.
  - eexists _, 1048576, _. rewrite <-!(assoc_L (++)). split; [reflexivity|]. split; [right; split_and!; [done..|lia]|].
    zlia.
Qed.

(** A time of day is not left as it is: its minutes become a link. *)
Theorem times_become_links :
  body_parts (js "at 10:30:45") = [TextPart (js "at 10"); LinkPart (js ":30:"); TextPart (js "45")] ∧
  renderRichEmojiText (js "at 10:30:45") =
    [TextPiece (js "at 10"); TextPiece (js ":30:"); TextPiece (js "45")].
Proof. split; vm_compute; reflexivity. Qed.

(** An emoticon's address before a full stop is a link in a message, although
    the code for the punctuation is there; the preview shows the image. *)
Theorem punctuated_asset_is_linked :
  let u := js "/emoji-packs/spikey/hug.png" in
  body_parts (u ++ js ".") = [TextPart []; LinkPart (u ++ js "."); TextPart []] ∧
  renderRichEmojiText (u ++ js ".") = [EmojiPiece u u (js ".")].
Proof. split; vm_compute; reflexivity. Qed.

(** The two bubbles show a message alike: both nothing, or both the same kind of
    thing, with the body unless it is missing. *)
Theorem chat_bubble_agrees message me :
  match ChatBubble message me, MessageBubble format_double message me with
  | None, Ok None => True
  | Some (ChatSystem b), Ok (Some (SystemLine b')) => b = b'
  | Some (ChatBanner _), Ok (Some (WinkdBanner _ | NudgeBanner _)) => True
  | Some (ChatText mine (Some body)), Ok (Some (TextBubble mine' parts _)) =>
      mine = mine' ∧ parts = body_parts body
  | Some (ChatText _ None), Throw _ => True
  | _, _ => False
  end.
Proof.
  assert (js "winkd" ≠ js "system" ∧ js "nudge" ≠ js "system" ∧ js "text" ≠ js "system" ∧
          js "nudge" ≠ js "winkd" ∧ js "text" ≠ js "winkd" ∧ js "text" ≠ js "nudge")
    as (? & ? & ? & ? & ? & ?) by (vm_compute; split_and!; discriminate).
  unfold ChatBubble, MessageBubble.
  repeat (destruct (decide _)); try congruence; try done. by destruct (prop_get (m_body message)).
Qed.

End properties.
