(* ===== verification/Roster.v ===== *)
(** * The contact list

    What apps/web/src/components/Sidebar.tsx shows of the contacts store: the
    groups, the search and the pending requests, with ContactItem.tsx and the
    avatar of packages/ui. A view is the data that is shown; the markup is in
    Widgets.v and SidebarMarkup.v. Contacts come from the server unchecked, so a view may throw. *)

From S2P Require Import Prelude JsString Json Platform Types ContactsStore Emoji.

(** ** tokens/colors.ts and Avatar.tsx *)

Definition color_online : jsstr := js "#00CC00".
Definition color_away : jsstr := js "#FFAA00".
Definition color_busy : jsstr := js "#DD2020".
Definition color_offline : jsstr := js "#AAAAAA".

Definition GRADIENT_PAIRS : list (jsstr * jsstr) :=
  map (λ p, (js p.1, js p.2))
    [("#4a90e2", "#1a5acc"); ("#7b5ea7", "#4a2d7a"); ("#e25c5c", "#a02020");
     ("#3aab6e", "#1a7040"); ("#e2904a", "#a05020"); ("#4ac4e2", "#1a80a0")]%string.

(** Destructuring the [undefined] of an index out of range throws; a
    [charCodeAt] out of range is [NaN], and the first one is not. *)
Definition gradientForInitials (initials : jsstr) : result jsstr :=
  let idx := Z.rem (nth 0 initials 0 + nth 1 initials 0) (Z.of_nat (length GRADIENT_PAIRS)) in
  match (if idx <? 0 then None else GRADIENT_PAIRS !! Z.to_nat idx) with
  | Some (from, to) => Ok (js "linear-gradient(135deg, " ++ from ++ js ", " ++ to ++ js ")")
  | None => Throw TypeError_
  end.

(** [STATUS_DOT_COLOR[key]]: the inherited properties of an object are no
    colours, and style nothing. *)
Definition STATUS_DOT_COLOR (status : jsstr) : option jsstr :=
  if decide (status = js "online") then Some color_online
  else if decide (status = js "away") then Some color_away
  else if decide (status = js "busy") then Some color_busy
  else if decide (status = js "invisible") then Some color_offline
  else None.

Inductive Picture :=
  | ImagePicture (src alt : jsstr)
  | InitialsPicture (text background : jsstr).

Record AvatarView := mkAvatar { av_picture : Picture; av_dot : option (option jsstr) }.

(** [v.m(...)] for a method of strings: JSON has no other value with it. *)
Definition as_string (v : value) : result jsstr :=
  match v with Some (JStr s) => Ok s | _ => Throw TypeError_ end.

(** What React throws for an object among an element's children. *)
Definition invalid_child : js_error := Error_ (js "Objects are not valid as a React child").

(** [text.split(re)] of [renderRichEmojiText] *)
Definition rich_value (v : value) : result (list piece) := s ← as_string v; mret (renderRichEmojiText s).

Section roster.
Context {doubles : Doubles}.
(** [toUpperCase] of one code unit, and [toLowerCase] of a text. *)
Context (upper : Z → jsstr) (lower : jsstr → jsstr).

(** [avatarData && !startsWith("data:") && !startsWith("http") ? ... : avatarData],
    [None] when it is falsy. *)
Definition normalizedAvatarData (avatarData : value) : result (option jsstr) :=
  if truthy avatarData then
    s ← as_string avatarData;
    mret (Some (if js_startsWith s (js "data:") || js_startsWith s (js "http") then s
                else js "data:image/png;base64," ++ s))
  else Ok None.

Definition initials_of (displayName : jsstr) : jsstr :=
  concat (take 2 (map (λ w, match w with [] => [] | c :: _ => upper c end) (js_split 32 displayName))).

(** [status ? STATUS_DOT_COLOR[status] : colors.offline], and the dot itself only
    for a truthy status. What is no text is converted to the name of a property. *)
Definition status_dot (status : value) : result (option (option jsstr)) :=
  if truthy status then key ← value_toString status; mret (Some (STATUS_DOT_COLOR key)) else Ok None.

Definition Avatar (displayName avatarData status : value) : result AvatarView :=
  data ← normalizedAvatarData avatarData;
  name ← as_string displayName;
  let initials := initials_of name in
  background ← match data with
    | Some _ => Ok []
    | None => gradientForInitials (match initials with [] => js "??" | _ => initials end)
    end;
  dot ← status_dot status;
  mret (mkAvatar
    (match data with
     | Some src => ImagePicture src name
     | None => InitialsPicture (match initials with [] => js "?" | _ => initials end) background
     end) dot).

(** The texts React shows for a child [{v}]: none for [undefined], [null] and
    booleans; the elements of an array are children. *)
Fixpoint json_child (v : json) : result (list jsstr) :=
  match v with
  | JNull | JBool _ => Ok []
  | JNum n => Ok [js_toString n]
  | JFrac l => Ok [double_toString l]
  | JStr s => Ok [s]
  | JArr l =>
      let fix children (l : list json) : result (list jsstr) :=
        match l with
        | [] => Ok []
        | v :: l => s ← json_child v; ss ← children l; mret (s ++ ss)
        end in
      children l
  | JObj _ => Throw invalid_child
  end.
Definition child (v : value) : result (list jsstr) :=
  match v with None => Ok [] | Some v => json_child v end.

(** ** ContactItem.tsx *)

Record ItemView := mkItem {
  iv_contact : StoredContact;
  iv_selected : bool;
  iv_avatar : AvatarView;
  iv_mood : option (list piece);
  iv_badge : option jsstr;
}.

Definition badge (unreadCount : Z) : option jsstr :=
  if 0 <? unreadCount then Some (if 99 <? unreadCount then js "99+" else js_toString unreadCount) else None.

(** [contact.moodMessage && ...]: a falsy mood is not shown as a mood. *)
Definition mood_view (mood : value) : result (option (list piece)) :=
  if truthy mood then m ← rich_value mood; mret (Some m) else Ok None.

Definition ContactItem (contact : StoredContact) (isSelected : bool) (unreadCount : Z) : result ItemView :=
  avatar ← Avatar (sc_displayName contact) (sc_avatarData contact) (sc_status contact);
  mood ← mood_view (sc_moodMessage contact);
  mret (mkItem contact isSelected avatar mood (badge unreadCount)).

(** ** Sidebar.tsx: the lists *)

Inductive UIGroup := GroupOnline | GroupAway | GroupOffline.

Definition UI_GROUPS : list (UIGroup * jsstr * (StoredContact → bool)) :=
  [(GroupOnline, js "Online", λ c, is_string (js "online") (sc_status c));
   (GroupAway, js "Away / Busy",
     λ c, is_string (js "away") (sc_status c) || is_string (js "busy") (sc_status c));
   (GroupOffline, js "Offline", λ c, is_string (js "invisible") (sc_status c))].

(** [collapsed], and the header's [setCollapsed]. *)
Definition Collapsed := UIGroup → bool.
Definition initialCollapsed : Collapsed :=
  λ g, match g with GroupOnline | GroupAway => false | GroupOffline => true end.

#[export] Instance UIGroup_eq_dec : EqDecision UIGroup.
Proof. solve_decision. Defined.

Definition toggle (key : UIGroup) (c : Collapsed) : Collapsed :=
  λ g, if decide (g = key) then negb (c g) else c g.

(** A [filter] whose test may throw. *)
Fixpoint filter_result {A} (f : A → result bool) (l : list A) : result (list A) :=
  match l with
  | [] => Ok []
  | x :: l => b ← f x; r ← filter_result f l; Ok (if b : bool then x :: r else r)
  end.

Definition acceptedContacts (cs : ContactsState) : list StoredContact :=
  List.filter (λ c, is_string (js "accepted") (sc_requestStatus c)) (contacts cs).
Definition pendingOutbound (cs : ContactsState) : list StoredContact :=
  List.filter (λ c, is_string (js "pending_outbound") (sc_requestStatus c)) (contacts cs).

(** [filteredAccepted] and [filteredPendingOut]. *)
Definition searched (searchQuery : jsstr) (l : list StoredContact) : result (list StoredContact) :=
  if decide (searchQuery = []) then Ok l
  else filter_result (λ c, name ← as_string (sc_displayName c);
                           Ok (js_includes (lower name) (lower searchQuery))) l.

(** A group that is shown: its label, the number in its header, and its items
    unless it is collapsed. *)
Record GroupView := mkGroup {
  gv_key : UIGroup;
  gv_label : list piece;
  gv_count : nat;
  gv_items : option (list ItemView);
}.

Record RosterView := mkRoster {
  rv_groups : list GroupView;
  rv_pending : list (AvatarView * value);
  rv_empty : bool;
}.

(** [unreadCounts[contact.id] ?? 0] *)
Definition unread_of (cs : ContactsState) (id : value) : result Z :=
  key ← value_toString id; mret (M := result) (nullish 0 (map_get key (unreadCounts cs))).

Definition contact_item (activeConversationId : option jsstr) (cs : ContactsState) (c : StoredContact)
    : result ItemView :=
  n ← unread_of cs (sc_id c);
  let active := Some (match activeConversationId with Some a => JStr a | None => JNull end) in
  ContactItem c (strict_eq active (sc_id c)) n.

Definition group_view (activeConversationId : option jsstr) (cs : ContactsState) (collapsed : Collapsed)
    (filteredAccepted : list StoredContact) (g : UIGroup * jsstr * (StoredContact → bool))
    : result (option GroupView) :=
  let '(key, label, filter) := g in
  let group := List.filter filter filteredAccepted in
  match group with
  | [] => Ok None
  | _ =>
      items ← (if collapsed key then Ok None
               else items ← mapM (contact_item activeConversationId cs) group; mret (Some items));
      mret (Some (mkGroup key (renderRichEmojiText label) (length group) items))
  end.

Definition pending_view (c : StoredContact) : result (AvatarView * value) :=
  a ← Avatar (sc_displayName c) (sc_avatarData c) (Some (JStr (js "invisible")));
  mret (a, sc_displayName c).

(** The [null]s of a list of views are not shown. *)
Definition shown_views {A} (l : list (option A)) : list A := omap id l.

Definition Roster (activeConversationId : option jsstr) (searchQuery : jsstr) (collapsed : Collapsed)
    (cs : ContactsState) : result RosterView :=
  filteredAccepted ← searched searchQuery (acceptedContacts cs);
  filteredPendingOut ← searched searchQuery (pendingOutbound cs);
  groups ← mapM (group_view activeConversationId cs collapsed filteredAccepted) UI_GROUPS;
  pending ← mapM pending_view filteredPendingOut;
  mret (mkRoster (shown_views groups) pending
    (bool_decide (filteredAccepted = []) && bool_decide (filteredPendingOut = []))).

(** The label of the button that opens the invitations. *)
Definition invitations_label (cs : ContactsState) : option jsstr :=
  let n := length (pendingInvitations cs) in
  if (0 <? n)%nat
  then Some (js_toString (Z.of_nat n) ++ js " Pending Invitation" ++ (if (1 <? n)%nat then js "s" else []))
  else None.

(** A row of the two dialogs: a user, and the id that its buttons send. *)
Record UserRow := mkRow {
  row_id : value;
  row_avatar : AvatarView;
  row_name : value;
  row_winkdId : list jsstr;
}.

Definition user_row (id name data winkdId : value) : result UserRow :=
  a ← Avatar name data (Some (JStr (js "invisible")));
  w ← child winkdId;
  mret (mkRow id a name w).

Definition invitation_view (i : PendingInvitation) : result UserRow :=
  user_row (requestId i) (fromDisplayName i) (fromAvatarData i) (fromWinkdId i).
Definition blocked_view (b : BlockedUser) : result UserRow :=
  user_row (b_userId b) (b_displayName b) (b_avatarData b) (b_winkdId b).

End roster.

(** ** Facts *)

Lemma mapM_total {A B} (f : A → result B) (l : list A) :
  (∀ x, x ∈ l → ∃ y, f x = Ok y) → ∃ ys, mapM f l = Ok ys.
Proof.
  induction l as [|x l IH]; intros H; [by exists []|].
  destruct (H x) as [y Hy]; [left|]. destruct IH as [ys Hys]; [intros z Hz; apply H; by right|].
  exists (y :: ys). cbn. by rewrite Hy, Hys.
Qed.

Lemma mapM_ok_cons {A B} (f : A → result B) x l ys :
  mapM f (x :: l) = Ok ys → ∃ y ys', f x = Ok y ∧ mapM f l = Ok ys' ∧ ys = y :: ys'.
Proof. cbn. intros (y & Hy & (s & Hs & [= <-])%bind_Ok)%bind_Ok. eauto. Qed.

Lemma filter_result_Ok {A} (f : A → result bool) (g : A → bool) l r :
  (∀ x b, f x = Ok b → g x = b) → filter_result f l = Ok r → r = List.filter g l.
Proof.
  intros Hg. revert r. induction l as [|x l IH]; cbn; intros r; [by intros [= <-]|].
  intros (b & Hb & (s & Hs & [= <-])%bind_Ok)%bind_Ok. by rewrite (Hg _ _ Hb), (IH s Hs).
Qed.

Lemma filter_result_total {A} (f : A → result bool) l :
  (∀ x, x ∈ l → ∃ b, f x = Ok b) → ∃ r, filter_result f l = Ok r.
Proof.
  induction l as [|x l IH]; intros H; [by exists []|].
  destruct (H x) as [b Hb]; [left|]. destruct IH as [r Hr]; [intros z Hz; apply H; by right|].
  eexists. cbn. by rewrite Hb, Hr.
Qed.

Lemma filter_In_elem {A} (f : A → bool) l x : x ∈ List.filter f l → x ∈ l ∧ f x = true.
Proof. rewrite !list_elem_of_In. apply filter_In. Qed.

Lemma gradient_total initials :
  Forall (λ c, 0 ≤ c) initials →
  ∃ p, p ∈ GRADIENT_PAIRS ∧
    gradientForInitials initials = Ok (js "linear-gradient(135deg, " ++ p.1 ++ js ", " ++ p.2 ++ js ")").
Proof.
  intros H. assert (∀ i, 0 ≤ nth i initials 0) as Hn.
  { intros i. destruct (nth_in_or_default i initials 0) as [Hi| ->]; [|lia].
    rewrite List.Forall_forall in H. auto. }
  unfold gradientForInitials. pose proof (Hn 0%nat). pose proof (Hn 1%nat).
  change (Z.of_nat (length GRADIENT_PAIRS)) with 6. set (s := nth 0 initials 0 + nth 1 initials 0).
  pose proof (Z.rem_bound_pos s 6 ltac:(lia) ltac:(lia)). rewrite (proj2 (Z.ltb_ge _ _)) by lia.
  destruct (lookup_lt_is_Some_2 GRADIENT_PAIRS (Z.to_nat (Z.rem s 6))) as [[x y] E].
  { change (length GRADIENT_PAIRS) with 6%nat. lia. }
  rewrite E. exists (x, y). split; [by eapply list_elem_of_lookup_2|done].
Qed.

Section facts.
Context {doubles : Doubles} (upper : Z → jsstr) (lower : jsstr → jsstr).
Context (upper_units : ∀ c, Forall (λ u, 0 ≤ u) (upper c)).

(** A value that is missing or [null], or a text. *)
Definition maybe_text (v : value) : Prop := truthy v = false ∨ ∃ s, v = Some (JStr s).
Definition text (v : value) : Prop := ∃ s, v = Some (JStr s).
(** A value with a name as a property key. *)
Definition readable (v : value) : Prop := ∃ key, value_toString v = Ok key.

Lemma readable_text s : readable (Some (JStr s)).
Proof. by exists s. Qed.

Lemma status_dot_total status : readable status → ∃ d, status_dot status = Ok d.
Proof. intros [key H]. unfold status_dot. rewrite H. destruct (truthy status); by eexists. Qed.

Lemma initials_units name : Forall (λ u, 0 ≤ u) (initials_of upper name).
Proof.
  unfold initials_of. generalize (js_split 32 name). intros l.
  assert (∀ n, Forall (λ u, 0 ≤ u) (concat (take n (map (λ w, match w with [] => [] | c :: _ => upper c end) l)))) as H; [|apply H].
  induction l as [|w l IH]; intros [|n]; cbn; try constructor. apply list.Forall_app. split; [|apply IH].
  destruct w; [constructor|apply upper_units].
Qed.

Lemma Avatar_total name data status :
  text name → maybe_text data → readable status → ∃ v, Avatar upper name data status = Ok v.
Proof.
  intros [s ->] Hd [d' Hdot]%status_dot_total. unfold Avatar, normalizedAvatarData.
  assert (∀ i, Forall (λ u, 0 ≤ u) i → ∃ b,
    gradientForInitials (match i with [] => js "??" | _ => i end) = Ok b) as Hg.
  { intros [|c i] Hi; edestruct gradient_total as (p & _ & ->); [|by eexists|exact Hi|by eexists].
    apply (Forall_check (λ c, 0 <=? c)); [intros c; by apply Z.leb_le|]. vm_compute. reflexivity. }
  destruct (Hg (initials_of upper s) (initials_units s)) as [b Hb]. cbv zeta.
  destruct (truthy data) eqn:E.
  - destruct Hd as [?|[d ->]]; [congruence|]. cbn. rewrite Hdot. by eexists.
  - cbn. rewrite Hb. cbn. rewrite Hdot. by eexists.
Qed.

Lemma child_total v : maybe_text v → ∃ l, child v = Ok l.
Proof.
  intros [H|[s ->]]; [|by eexists]. destruct v as [[]|]; cbn in *; try done; by eexists.
Qed.

Lemma user_row_total id name data winkdId :
  text name → maybe_text data → maybe_text winkdId → ∃ r, user_row upper id name data winkdId = Ok r.
Proof.
  intros Hn Hd Hw. unfold user_row. destruct (Avatar_total name data _ Hn Hd (readable_text (js "invisible"))) as [a ->].
  destruct (child_total _ Hw) as [w Hc]. cbn. rewrite Hc. by eexists.
Qed.

(** A contact whose texts are texts, and whose status has a name. *)
Record contact_typed (c : StoredContact) : Prop := {
  ct_id : text (sc_id c);
  ct_name : text (sc_displayName c);
  ct_mood : maybe_text (sc_moodMessage c);
  ct_avatar : maybe_text (sc_avatarData c);
  ct_status : readable (sc_status c);
}.

Lemma contact_item_total active cs c : contact_typed c → ∃ v, contact_item upper active cs c = Ok v.
Proof.
  intros [[i Hi] Hn Hm Ha Hs]. unfold contact_item, unread_of. rewrite Hi. cbn.
  unfold ContactItem. destruct (Avatar_total _ _ (sc_status c) Hn Ha Hs) as [v Hv]. rewrite Hv. cbn.
  unfold mood_view. destruct Hm as [-> |[m ->]]; cbn; [by eexists|]. destruct (negb _); by eexists.
Qed.

Lemma searched_total q l :
  Forall (λ c, text (sc_displayName c)) l → ∃ r, searched lower q l = Ok r.
Proof.
  intros H. unfold searched. destruct (decide _); [by eexists|]. apply filter_result_total.
  intros c Hc%list_elem_of_In. rewrite List.Forall_forall in H. destruct (H c Hc) as [s ->]. by eexists.
Qed.

(** The contacts a search shows. *)
Definition name_matches (q : jsstr) (c : StoredContact) : bool :=
  bool_decide (q = []) ||
  match sc_displayName c with Some (JStr s) => js_includes (lower s) (lower q) | _ => false end.

Lemma searched_Ok q l r : searched lower q l = Ok r → r = List.filter (name_matches q) l.
Proof.
  unfold searched, name_matches. destruct (decide (q = [])) as [Hq|Hq].
  - intros [= <-]. rewrite bool_decide_true by done. cbn.
    induction l as [|x l IH]; cbn; [done|by rewrite <-IH].
  - rewrite bool_decide_false by done. apply filter_result_Ok. intros c b. cbn.
    destruct (sc_displayName c) as [[]|]; cbn; naive_solver.
Qed.

(** The members of a group, and the statuses that have a group. *)
Definition group_filter (g : UIGroup) (c : StoredContact) : bool :=
  match g with
  | GroupOnline => is_string (js "online") (sc_status c)
  | GroupAway => is_string (js "away") (sc_status c) || is_string (js "busy") (sc_status c)
  | GroupOffline => is_string (js "invisible") (sc_status c)
  end.

Definition members (q : jsstr) (cs : ContactsState) (g : UIGroup) : list StoredContact :=
  List.filter (group_filter g) (List.filter (name_matches q) (acceptedContacts cs)).

Definition known_status (c : StoredContact) : Prop :=
  ∃ s, sc_status c = Some (JStr s) ∧ s ∈ [js "online"; js "away"; js "busy"; js "invisible"].

Lemma group_filter_unique c : known_status c → exists! g, group_filter g c = true.
Proof.
  intros (s & Hs & Hin). unfold group_filter. rewrite Hs. cbn.
  rewrite !elem_of_cons, elem_of_nil in Hin.
  destruct Hin as [->|[->|[->|[->|[]]]]]; [exists GroupOnline|exists GroupAway|exists GroupAway|exists GroupOffline];
    (split; [vm_compute; reflexivity|]); intros []; vm_compute; done.
Qed.

Lemma group_filter_known g c : group_filter g c = true → known_status c.
Proof.
  clear upper_units. unfold group_filter, known_status. destruct g; rewrite ?orb_true_iff, !is_string_true; intros H;
    repeat destruct H as [H|H]; (eexists; split; [exact H|set_solver]).
Qed.

(** ** Properties *)

(** What a group of the view must show. *)
Definition group_shows (active : option jsstr) (q : jsstr) (collapsed : Collapsed) (cs : ContactsState)
    (key : UIGroup) (v : option GroupView) : Prop :=
  match v with
  | None => members q cs key = []
  | Some g =>
      gv_key g = key ∧ gv_count g = length (members q cs key) ∧ members q cs key ≠ [] ∧
      match gv_items g with
      | None => collapsed key = true
      | Some items =>
          collapsed key = false ∧ mapM (contact_item upper active cs) (members q cs key) = Ok items
      end
  end.

Lemma group_view_shows active q collapsed cs key label f v :
  (∀ c, f c = group_filter key c) →
  group_view upper active cs collapsed (List.filter (name_matches q) (acceptedContacts cs)) (key, label, f) = Ok v →
  group_shows active q collapsed cs key v.
Proof.
  intros Hf. unfold group_view. rewrite (List.filter_ext f (group_filter key)) by done.
  fold (members q cs key). unfold group_shows. destruct (members q cs key) as [|c l] eqn:E; [by intros [= <-]|].
  intros (items & Hi & [= <-])%bind_Ok. cbn. split_and!; [done..|].
  destruct (collapsed key); [by injection Hi as <-|]. by apply bind_Ok in Hi as (its & Hi & [= <-]).
Qed.

(** C36: What the contact list shows of the accepted contacts that match the
    search. When the list can be shown, its groups are Online, Away and Offline,
    those without members left out; a contact whose status is one of online, away,
    busy and invisible is a member of exactly one group, and a contact with any
    other status, which includes "offline", of none; the number beside a label is
    the number of its members, and an open group lists them all in the order of the
    store. The notice that there are no contacts is shown exactly when neither an
    accepted contact nor one that was asked and has not answered matches the search. *)
Theorem roster_shows_contacts active q collapsed cs r :
  Roster upper lower active q collapsed cs = Ok r →
  (∃ a b c, rv_groups r = shown_views [a; b; c] ∧
     group_shows active q collapsed cs GroupOnline a ∧ group_shows active q collapsed cs GroupAway b ∧
     group_shows active q collapsed cs GroupOffline c) ∧
  (∀ c, In c (acceptedContacts cs) → name_matches q c = true →
     (known_status c → exists! g, In c (members q cs g)) ∧
     (¬ known_status c → ∀ g, ¬ In c (members q cs g))) ∧
  (rv_empty r = true ↔ ∀ c, In c (acceptedContacts cs) ∨ In c (pendingOutbound cs) → name_matches q c = false).
Proof.
  unfold Roster. intros (fa & Hfa%searched_Ok & (fp & Hfp%searched_Ok & (gs & Hg & (ps & Hp & [= <-])%bind_Ok)%bind_Ok)%bind_Ok)%bind_Ok.
  subst fa fp. split; [|split].
  - apply mapM_ok_cons in Hg as (a & l & Ha & Hg & ->). apply mapM_ok_cons in Hg as (b & l' & Hb & Hg & ->).
    apply mapM_ok_cons in Hg as (c & l2 & Hc & [= <-] & ->).
    exists a, b, c. split; [done|]. split_and!; (eapply group_view_shows; [|eassumption]); done.
  - intros c Hc Hn. split; [intros Hk; destruct (group_filter_unique c Hk) as (g & Hgf & Hu); exists g; split|].
    + unfold members. by rewrite !filter_In.
    + intros g' Hi. apply Hu. by apply filter_In in Hi as [_ Hi].
    + intros Hk g [_ Hg']%filter_In. by destruct Hk; apply (group_filter_known g).
  - cbn [rv_empty]. rewrite andb_true_iff, !bool_decide_eq_true.
    assert (∀ l, List.filter (name_matches q) l = [] ↔ ∀ c, In c l → name_matches q c = false) as He.
    { intros l. induction l as [|c l IH]; cbn; [naive_solver|]. destruct (name_matches q c) eqn:E; [|naive_solver].
      split; [done|]. intros H. rewrite H in E by auto. done. }
    rewrite !He. naive_solver.
Qed.

(** The contact list never fails for contacts whose names are texts and whose
    moods and pictures are texts or absent: every search and every choice of
    collapsed groups gives a view. *)
Theorem roster_total active q collapsed cs :
  Forall contact_typed (contacts cs) → ∃ r, Roster upper lower active q collapsed cs = Ok r.
Proof.
  intros Hc. rewrite List.Forall_forall in Hc.
  assert (∀ f, Forall (λ c, text (sc_displayName c)) (List.filter f (contacts cs))) as Hn.
  { intros f. apply List.Forall_forall. intros c [Hi _]%filter_In. by apply Hc. }
  unfold Roster. destruct (searched_total q (acceptedContacts cs) (Hn _)) as [fa Hfa].
  destruct (searched_total q (pendingOutbound cs) (Hn _)) as [fp Hfp]. rewrite Hfa, Hfp. cbn [mbind result_bind].
  apply searched_Ok in Hfa as ->. apply searched_Ok in Hfp as ->.
  destruct (mapM_total (group_view upper active cs collapsed (List.filter (name_matches q) (acceptedContacts cs))) UI_GROUPS)
    as [gs ->].
  { intros [[key label] f] _. unfold group_view. destruct (List.filter f _) as [|c0 l] eqn:E; [by eexists|].
    destruct (collapsed key); [by eexists|].
    destruct (mapM_total (contact_item upper active cs) (c0 :: l)) as [items ->]; [|by eexists].
    intros c Hi. apply contact_item_total, Hc. rewrite <-E in Hi. apply filter_In_elem in Hi as [Hi _].
    apply filter_In_elem in Hi as [Hi _]. apply filter_In_elem in Hi as [Hi _]. by apply list_elem_of_In. }
  destruct (mapM_total (pending_view upper) (List.filter (name_matches q) (pendingOutbound cs))) as [ps ->]; [|by eexists].
  intros c Hi. apply filter_In_elem in Hi as [Hi _]. apply filter_In_elem in Hi as [Hi _].
  destruct (Hc c) as [_ H1 _ H2]; [by apply list_elem_of_In|]. unfold pending_view.
  destruct (Avatar_total _ _ _ H1 H2 (readable_text (js "invisible"))) as [v ->]. by eexists.
Qed.

End facts.
