(* ===== verification/Sidebar.v ===== *)
(** * Sidebar.tsx: status, contacts, requests and QR codes

    The handlers of apps/web/src/components/Sidebar.tsx. A handler is a function
    of the stores and of the panel's local state; the objects it passes to
    [send] are its output. *)

From S2P Require Import Prelude JsString Utf Json Platform Types AuthStore ChatStore ContactsStore Contacts.

(** [{ command, payload }] *)
Definition command (name : jsstr) (payload : list (jsstr * json)) : json :=
  JObj [(js "command", JStr name); (js "payload", JObj payload)].

(** ** Status and profile *)

Definition STATUS_CYCLE : list UserStatus := [online; away; busy; invisible].

(** [indexOf], plus one, modulo the length. *)
Definition next_status (s : UserStatus) : UserStatus :=
  let idx := match list_find (λ x, x = s) STATUS_CYCLE with Some (i, _) => Z.of_nat i | None => -1 end in
  nullish online (STATUS_CYCLE !! Z.to_nat ((idx + 1) mod Z.of_nat (length STATUS_CYCLE))).

Definition status_text (s : UserStatus) : jsstr :=
  match s with
  | online => js "online" | away => js "away" | busy => js "busy" | invisible => js "invisible"
  end.

Definition no_change : PartialProfile := mkPartialProfile None None None None None None.

(** The panel is rendered only for a session, whose profile it closes over. *)
Definition cycleStatus (profile : OwnProfile) (st : AuthState) : AuthState * list json :=
  let next := next_status (status (own_profile profile)) in
  (updateProfile (mkPartialProfile None None None (Some next) None None) st,
   [command (js "set_status") [(js "status", JStr (status_text next))]]).

Definition handleProfileSave (displayName moodMessage : jsstr) (st : AuthState) : AuthState * list json :=
  (updateProfile (mkPartialProfile None (Some displayName) (Some moodMessage) None None None) st,
   [command (js "set_display_name") [(js "display_name", JStr displayName)];
    command (js "set_mood") [(js "mood", JStr moodMessage)]]).

(** ** Contacts and invitations *)

Definition handleContactClick (id : jsstr) (chat : ChatState) (cs : ContactsState)
    : ChatState * ContactsState :=
  (openConversation id chat, clearUnread id cs).

Section invitations.
Context {doubles : Doubles}.

(** A member that is [undefined] is left out of the JSON. *)
Definition member (k : jsstr) (v : value) : list (jsstr * json) :=
  match v with Some v => [(k, v)] | None => [] end.

Definition request_command (name : jsstr) (requestId : value) : json :=
  command name (member (js "request_id") requestId).

Definition handleApprove (requestId : value) (cs : ContactsState) : ContactsState * list json :=
  (removePendingInvitation requestId cs, [request_command (js "accept_contact") requestId]).
Definition handleReject (requestId : value) (cs : ContactsState) : ContactsState * list json :=
  (removePendingInvitation requestId cs, [request_command (js "reject_contact") requestId]).
Definition handleBlock (requestId : value) (cs : ContactsState) : ContactsState * list json :=
  (removePendingInvitation requestId cs, [request_command (js "block_contact") requestId]).

End invitations.

Definition handleUnblock (userId : value) : list json :=
  [command (js "unblock_contact") (member (js "user_id") userId)].

(** ** Adding a contact *)

Inductive AddMode := ById | ByQr.

Record AddContact := mkAdd {
  showAddContact : bool;
  addContactMode : AddMode;
  addContactInput : jsstr;
  qrScanInput : jsstr;
  qrScanHint : jsstr;
  addContactError : jsstr;
  addContactSent : bool;
}.

Definition closeAddContact (_ : AddContact) : AddContact := mkAdd false ById [] [] [] [] false.

(** [/^[^#]+#\d{4}$/] *)
Definition is_winkd_id (s : jsstr) : bool :=
  let n := (length s - 5)%nat in
  (1 <=? n)%nat && forallb (λ c, negb (c =? 35)) (take n s) &&
  match drop n s with
  | [h; a; b; c; d] => (h =? 35) && is_digit a && is_digit b && is_digit c && is_digit d
  | _ => false
  end.

Definition sendContactRequest (candidate : jsstr) (a : AddContact) : AddContact * list json :=
  let trimmed := js_trim candidate in
  if negb (is_winkd_id trimmed) then
    (mkAdd (showAddContact a) (addContactMode a) (addContactInput a) (qrScanInput a) (qrScanHint a)
       (js "Must be in format username#1234") (addContactSent a), [])
  else
    (mkAdd (showAddContact a) (addContactMode a) (addContactInput a) (qrScanInput a) (qrScanHint a)
       [] true,
     [command (js "add_contact") [(js "winkd_id", JStr trimmed)]]).

Definition handleAddContact (a : AddContact) : AddContact * list json :=
  sendContactRequest (addContactInput a) a.

Definition parseQrToWinkdId (raw : jsstr) : result (option jsstr) :=
  let text := js_trim raw in
  if decide (text = []) then Ok None
  else if is_winkd_id text then Ok (Some text)
  else
    let prefix := js "winkd://add/" in
    if js_startsWith (js_toLowerCase text) prefix then
      decoded ← decodeURIComponent (js_slice_from text (Z.of_nat (length prefix)));
      mret (if is_winkd_id decoded then Some decoded else None)
    else Ok None.

(** An exception leaves the handler before any state is set. *)
Definition handleUseQrPayload (a : AddContact) : result AddContact :=
  parsed ← parseQrToWinkdId (qrScanInput a);
  mret (match parsed with
        | None =>
            mkAdd (showAddContact a) (addContactMode a) (addContactInput a) (qrScanInput a) []
              (js "That QR payload is invalid. Expected winkd://add/username%231234") (addContactSent a)
        | Some id =>
            mkAdd (showAddContact a) ById id (qrScanInput a) (js "Parsed Winkd ID: " ++ id) []
              (addContactSent a)
        end).

Definition myQrData (winkdId : jsstr) : result jsstr :=
  e ← encodeURIComponent winkdId;
  mret (js "winkd://add/" ++ e).

(** ** Facts *)

Lemma next_status_cycle s : Nat.iter 4 next_status s = s.
Proof. destruct s; vm_compute; reflexivity. Qed.

Lemma updateProfile_session p st i s :
  session st = Some (i, s) →
  session (updateProfile p st) =
    Some (nextObject st, mkSession (token s) (profile_spread (profile s) p) (supporter s)).
Proof. intros H. unfold updateProfile. by rewrite H. Qed.

Lemma unreserved_plain c : uri_unreserved c = true ∨ c = 37 → is_space c = false ∧ c ≠ 35.
Proof.
  intros [H| ->]; [|split; [reflexivity|discriminate]]. unfold uri_unreserved in H. split; [|lia].
  apply not_true_iff_false. unfold is_space. lia.
Qed.

Lemma lower_prefix_same w s :
  Forall (λ c, lower_unit c = c) w → js_startsWith (js_toLowerCase (w ++ s)) w = true.
Proof.
  intros Hw. unfold js_toLowerCase. rewrite map_app.
  assert (map lower_unit w = w) as ->.
  { induction Hw as [|c w Hc _ IH]; [done|]. cbn. by rewrite Hc, IH. }
  clear Hw. induction w as [|c w IH]; [by destruct (map _ s)|]. cbn. by rewrite Z.eqb_refl.
Qed.

Lemma winkd_id_hash s : is_winkd_id s = true → In 35 s.
Proof.
  unfold is_winkd_id. intros H. apply andb_true_iff in H as [_ H].
  rewrite <-(take_drop (length s - 5) s). apply in_or_app. right.
  destruct (drop _ s) as [|h [|a [|b [|c [|d [|]]]]]]; try done.
  left. lia.
Qed.

(** ** Properties *)

(** The status button walks through the four statuses: four presses return
    to the first one, and each press puts the new status into the session and
    tells the server the same status. *)
Theorem status_cycle_agrees st i s :
  session st = Some (i, s) →
  let '(st', frames) := cycleStatus (profile s) st in
  ∃ i' s', session st' = Some (i', s') ∧
    status (own_profile (profile s')) = next_status (status (own_profile (profile s))) ∧
    frames = [command (js "set_status")
                [(js "status", JStr (status_text (status (own_profile (profile s')))))]] ∧
    token s' = token s ∧ Nat.iter 4 next_status (status (own_profile (profile s))) = status (own_profile (profile s)).
Proof.
  intros Hs. unfold cycleStatus. do 2 eexists. split; [by apply (updateProfile_session _ _ i)|].
  split; [done|]. split; [done|]. split; [done|]. apply next_status_cycle.
Qed.

(** The sidebar's QR codes round-trip: for every Winkd id of the form the
    panel accepts, the data of the user's own code is read back as the id, so
    scanning a code and submitting it asks the server for exactly that id. *)
Theorem sidebar_qr_roundtrip (id raw : jsstr) :
  is_js id → is_winkd_id id = true → js_trim id = id → myQrData id = Ok raw →
  qrPayload id = Ok raw ∧ parseQrToWinkdId raw = Ok (Some id) ∧
  ∀ a, qrScanInput a = raw →
    ∃ a', handleUseQrPayload a = Ok a' ∧
      (handleAddContact a').2 = [command (js "add_contact") [(js "winkd_id", JStr id)]].
Proof.
  intros Hj Hid Htrim Hraw.
  assert (qrPayload id = Ok raw) as Hq by exact Hraw.
  assert (parseQrToWinkdId raw = Ok (Some id)) as Hp.
  { unfold myQrData in Hraw. destruct (encodeURIComponent id) as [e|] eqn:He; [|done].
    assert (raw = js "winkd://add/" ++ e) as -> by (by injection Hraw).
    pose proof (encoded_chars (λ _, None) id e Hj He) as Hc.
    assert (js_trim (js "winkd://add/" ++ e) = js "winkd://add/" ++ e) as Ht.
    { apply trim_nonspace. apply list.Forall_app. split; [by vm_compute; repeat constructor|].
      eapply List.Forall_impl, Hc. intros c Hcc. by apply unreserved_plain. }
    unfold parseQrToWinkdId. rewrite Ht, decide_False by done.
    assert (is_winkd_id (js "winkd://add/" ++ e) = false) as ->.
    { apply not_true_iff_false. intros [H|H]%winkd_id_hash%in_app_or.
      - vm_compute in H. intuition discriminate.
      - rewrite List.Forall_forall in Hc. by destruct (unreserved_plain 35 (Hc 35 H)). }
    rewrite lower_prefix_same by (vm_compute; repeat constructor).
    assert (js_slice_from (js "winkd://add/" ++ e) (Z.of_nat (length (js "winkd://add/"))) = e) as ->.
    { unfold js_slice_from, js_index. rewrite (proj2 (Z.ltb_ge _ _)) by lia.
      rewrite Nat2Z.id, length_app, Nat.min_l by lia. by rewrite drop_app_length. }
    rewrite (uri_roundtrip id e Hj He). cbn [mbind result_bind]. by rewrite Hid. }
  split; [done|]. split; [done|]. intros a Ha. unfold handleUseQrPayload. rewrite Ha, Hp.
  eexists. split; [reflexivity|]. unfold handleAddContact, sendContactRequest. cbn [addContactInput].
  by rewrite Htrim, Hid.
Qed.

(** A request is only sent for a text of the form [username#1234], trimmed;
    any other text sends nothing and shows an error. *)
Theorem contact_request_format candidate a :
  (is_winkd_id (js_trim candidate) = true →
     ∃ a', sendContactRequest candidate a =
       (a', [command (js "add_contact") [(js "winkd_id", JStr (js_trim candidate))]]) ∧
       addContactSent a' = true ∧ addContactError a' = []) ∧
  (is_winkd_id (js_trim candidate) = false →
     ∃ a', sendContactRequest candidate a = (a', []) ∧ addContactError a' ≠ [] ∧
       addContactSent a' = addContactSent a) ∧
  (is_winkd_id (js_trim candidate) = true ↔
     ∃ name digits, js_trim candidate = name ++ 35 :: digits ∧ name ≠ [] ∧ ¬ In 35 name ∧
       length digits = 4%nat ∧ forallb is_digit digits = true).
Proof.
  unfold sendContactRequest. generalize (js_trim candidate). intros s. split; [|split].
  - intros ->. by eexists.
  - intros ->. by eexists.
  - unfold is_winkd_id. split.
    + intros H. apply andb_true_iff in H as [H Hd]. apply andb_true_iff in H as [Hn Hf].
      destruct (drop (length s - 5) s) as [|h [|a0 [|b [|c [|d [|]]]]]] eqn:Ed; try done.
      exists (take (length s - 5) s), [a0; b; c; d].
      assert (h = 35) as -> by lia. split; [by rewrite <-Ed, take_drop|]. split.
      { intros E. apply (f_equal length) in E. rewrite length_take in E. cbn in E. apply Nat.leb_le in Hn. lia. }
      split; [|split; [done|cbn in Hd |- *; by destruct (is_digit a0), (is_digit b), (is_digit c), (is_digit d)]].
      intros Hin. rewrite forallb_forall in Hf. by specialize (Hf 35 Hin).
    + intros (name & ds & -> & Hne & Hni & Hl & Hd). rewrite length_app. cbn [length]. rewrite Hl.
      replace (length name + 5 - 5)%nat with (length name) by lia.
      rewrite take_app_length, drop_app_length. destruct name as [|x name]; [done|].
      destruct ds as [|a0 [|b [|c [|d [|]]]]]; try done.
      assert (forallb (λ c, negb (c =? 35)) (x :: name) = true) as ->.
      { apply forallb_forall. intros y Hy. apply negb_true_iff, Z.eqb_neq. by intros ->. }
      cbn in Hd |- *. by destruct (is_digit a0), (is_digit b), (is_digit c), (is_digit d).
Qed.

(** A code with a bad escape is not reported as invalid: the reader throws,
    outside any [try], where the manager of packages/core answers null. *)
Theorem bad_escape_throws parse_url a :
  qrScanInput a = js "winkd://add/%" →
  handleUseQrPayload a = Throw URIError_ ∧
  (url_standard parse_url → parse_url (js "winkd://add/%") = Some (mkUrl (js "winkd:") (js "add") (js "/%")) ∧
   parseQrPayload parse_url (js "winkd://add/%") = None).
Proof.
  intros Ha. split; [unfold handleUseQrPayload; rewrite Ha; vm_compute; reflexivity|].
  intros Hu. assert (parse_url (js "winkd://add/%") = Some (mkUrl (js "winkd:") (js "add") (js "/%"))) as E.
  { apply (Hu [37]); [by constructor; [right|]|]. vm_compute. intuition discriminate. }
  split; [done|]. unfold parseQrPayload. rewrite E. vm_compute. reflexivity.
Qed.
