(* ===== verification/ChatWindow.v ===== *)
(** * ChatWindow.tsx: composing, attachments and buttons

    The handlers of apps/web/src/components/ChatWindow.tsx. The window is
    rendered for a conversation and a session; its handlers close over the
    conversation's id and the user's own id. *)

From S2P Require Import Prelude JsString Json Platform Types ChatStore.

Definition BLOCKED_ATTACHMENT_EXTENSIONS : list jsstr :=
  map js ["exe"; "msi"; "bat"; "cmd"; "com"; "scr"; "pif"; "jar"; "vbs"; "vbe"; "js"; "jse"; "wsf";
          "wsh"; "ps1"; "psm1"; "hta"; "reg"; "scf"; "lnk"; "dll"; "sys"; "iso"; "img"; "apk"; "app";
          "dmg"; "pkg"; "deb"; "rpm"; "sh"]%string.

Definition MAX_ATTACHMENT_BYTES : Z := 3 * 1024 * 1024.

Definition fileExtension (fileName : jsstr) : jsstr :=
  let parts := js_split 46 fileName in
  if (1 <? length parts)%nat then js_toLowerCase (List.last parts []) else [].

(** The window's local state and the chat store. *)
Record Window := mkWindow {
  chat : ChatState;
  inputValue : jsstr;
  attachmentError : option jsstr;
}.

Section window.
Context (conversationId me : jsstr).

(** [id] and [now] are the message's fresh id and time. *)
Definition handleSend (id now : jsstr) (w : Window) : Window * list json :=
  let body := js_trim (inputValue w) in
  if decide (body = []) then (w, [])
  else
    let '(chat', payload) := sendText id now conversationId me body (chat w) in
    (mkWindow chat' [] (attachmentError w), [payload]).

(** Enter sends, shift-Enter does not; [true] when the default is prevented. *)
Definition handleKeyDown (key : jsstr) (shiftKey : bool) (id now : jsstr) (w : Window)
    : Window * list json * bool :=
  if bool_decide (key = js "Enter") && negb shiftKey
  then (handleSend id now w, true) else (w, [], false).

Record File := mkFile { f_name : jsstr; f_size : Z; f_type : jsstr }.

Definition set_error (e : option jsstr) (w : Window) : Window := mkWindow (chat w) (inputValue w) e.

Definition blocked_message : jsstr :=
  js "This file type is blocked for safety. Executables and scripts are not allowed.".
Definition size_message : jsstr := js "File is too large. Current attachment limit is 3 MB.".
Definition read_message : jsstr := js "Could not read that file. Try again.".

(** The part of [handleAttachmentSelect] before the file is read: the picked
    file and the input at that time, when it goes on. *)
Definition attachment_check (picked : option File) (w : Window) : Window * option (File * jsstr) :=
  match picked with
  | None => (w, None)
  | Some f =>
      if decide (fileExtension (f_name f) ∈ BLOCKED_ATTACHMENT_EXTENSIONS)
      then (set_error (Some blocked_message) w, None)
      else if MAX_ATTACHMENT_BYTES <? f_size f then (set_error (Some size_message) w, None)
      else (w, Some (f, inputValue w))
  end.

(** [a || b] on strings. *)
Definition or_else (a b : jsstr) : jsstr := if decide (a = []) then b else a.

(** The rest, when the reader reports: [read] is the data URL, or [None] after
    an error. The input is the one the handler closed over. *)
Definition attachment_read (f : File) (input : jsstr) (read : option jsstr) (id now : jsstr) (w : Window)
    : Window * list json :=
  match read with
  | None => (set_error (Some read_message) w, [])
  | Some mediaData =>
      let '(chat', payload) :=
        sendAttachment id now conversationId me
          (mkAttachment mediaData (f_name f) (or_else (f_type f) (js "application/octet-stream"))
             (f_size f) (Some (or_else (js_trim input) (js "📎 " ++ f_name f)))) (chat w) in
      (mkWindow chat' [] None, [payload])
  end.

(** Both parts, for a window that does not change while the file is read. *)
Definition handleAttachmentSelect (picked : option File) (read : option jsstr) (id now : jsstr) (w : Window)
    : Window * list json :=
  match attachment_check picked w with
  | (w, None) => (w, [])
  | (w, Some (f, input)) => attachment_read f input read id now w
  end.

(** Both file buttons. *)
Definition handleFilePick (w : Window) : Window := set_error None w.
Definition handlePhotoPick (w : Window) : Window := set_error None w.

(** ** The toolbar, the header's button and the emoji picker *)

Inductive button := BWinkd | BNudge | BWinks | BEmoticons | BFormat | BBackground | BDraw | BBlock.

(** [showEmojiPicker] is the second component; [contactWinkdId] is the property
    of the contact the window shows, left out of the JSON when it is [undefined]. *)
Definition press (b : button) (contactWinkdId : value) (id now : jsstr) (wp : Window * bool)
    : (Window * bool) * list json :=
  let '(w, picker) := wp in
  let sent (r : ChatState * json) := (mkWindow r.1 (inputValue w) (attachmentError w), picker, [r.2]) in
  match b with
  | BWinkd => sent (sendWinkd id now conversationId me (chat w))
  | BNudge => sent (sendNudge id now conversationId me (chat w))
  | BWinks => (w, picker, [])
  | BEmoticons => (w, negb picker, [])
  | BFormat =>
      (set_error (Some (js "Text formatting controls are not hooked up in this React view yet.")) w, picker, [])
  | BBackground =>
      (set_error (Some (js "Chat background picker is available in app.html and will be wired here next.")) w,
       picker, [])
  | BDraw =>
      (set_error (Some (js "Draw & send is available in app.html and will be wired here next.")) w, picker, [])
  | BBlock =>
      (w, picker,
       [JObj [(js "command", JStr (js "block_user"));
              (js "payload", JObj (match contactWinkdId with
                                   | Some v => [(js "winkd_id", v)] | None => [] end))]])
  end.

(** [onSelect] appends to the input of the moment; the picker stays open. *)
Definition select_emoji (emoji : jsstr) (w : Window) : Window :=
  mkWindow (chat w) (inputValue w ++ emoji) (attachmentError w).

(** ** Facts *)

Lemma js_split_last sep base ext :
  ¬ In sep ext → List.last (js_split sep (base ++ sep :: ext)) [] = ext ∧
  (1 < length (js_split sep (base ++ sep :: ext)))%nat.
Proof.
  intros Hext.
  assert (js_split sep ext = [ext]) as He.
  { induction ext as [|c ext IH]; [done|]. cbn. destruct (Z.eqb_spec c sep) as [->|]; [by destruct Hext; left|].
    rewrite IH; [done|]. intros H. apply Hext. by right. }
  assert (∀ s, js_split sep s ≠ []) as Hne.
  { intros s. induction s as [|c s IH]; cbn; [done|]. destruct (c =? sep); [done|]. by destruct (js_split sep s). }
  induction base as [|c base [IH1 IH2]]; cbn [app js_split].
  - rewrite Z.eqb_refl, He. cbn. split; [done|lia].
  - pose proof (Hne (base ++ sep :: ext)) as Hn. revert IH1 IH2 Hn.
    destruct (js_split sep (base ++ sep :: ext)) as [|p [|q ps]]; cbn; intros IH1 IH2 Hn; [done|lia|].
    destruct (c =? sep); cbn; split; [done|lia|done|lia].
Qed.

Lemma js_split_nosep sep s : ¬ In sep s → js_split sep s = [s].
Proof.
  induction s as [|c s IH]; intros H; [done|]. cbn. destruct (Z.eqb_spec c sep) as [->|]; [by destruct H; left|].
  rewrite IH; [done|]. intros Hi. apply H. by right.
Qed.

Lemma fileExtension_spec base ext :
  ¬ In 46 ext → fileExtension (base ++ 46 :: ext) = js_toLowerCase ext.
Proof.
  intros He. destruct (js_split_last 46 base ext He) as [Hl Hn]. unfold fileExtension.
  rewrite (proj2 (Nat.ltb_lt _ _) Hn). by rewrite Hl.
Qed.

Lemma fileExtension_none name : ¬ In 46 name → fileExtension name = [].
Proof. intros H. unfold fileExtension. by rewrite js_split_nosep. Qed.

(** ** Properties *)

(** The attachment gate. A file whose extension, in any case, is on the
    blocked list, or that is larger than 3 MiB, is never sent and adds no
    message; any other file that can be read is sent as exactly one message,
    with its name, size, data and a non-empty text; a file that cannot be read
    sends nothing; and every refusal shows an error. *)
Theorem attachment_gate base ext size type read id now w :
  ¬ In 46 ext →
  let f := mkFile (base ++ 46 :: ext) size type in
  let '(w', frames) := handleAttachmentSelect (Some f) read id now w in
  if bool_decide (js_toLowerCase ext ∈ BLOCKED_ATTACHMENT_EXTENSIONS) || (3145728 <? size) then
    frames = [] ∧ chat w' = chat w ∧ is_Some (attachmentError w')
  else match read with
  | None => frames = [] ∧ chat w' = chat w ∧ is_Some (attachmentError w')
  | Some mediaData =>
      ∃ msg, frames = [send_message_json msg] ∧
        messages_of conversationId (chat w') = messages_of conversationId (chat w) ++ [msg] ∧
        (∀ k, k ≠ conversationId → messages_of k (chat w') = messages_of k (chat w)) ∧
        m_mediaData msg = Val mediaData ∧ m_mediaName msg = Val (f_name f) ∧
        m_mediaSize msg = Val (JNum size) ∧ (∃ body, m_body msg = Val body ∧ body ≠ []) ∧
        attachmentError w' = None ∧ inputValue w' = []
  end.
Proof.
  intros He. cbv zeta. unfold handleAttachmentSelect, attachment_check. cbn [f_name f_size].
  rewrite fileExtension_spec by done. change MAX_ATTACHMENT_BYTES with 3145728.
  destruct (decide _) as [Hd|Hd]; [rewrite bool_decide_true by done|rewrite bool_decide_false by done];
    cbn [orb]; [by split_and!; [..|eexists]|].
  destruct (3145728 <? size); [by split_and!; [..|eexists]|].
  destruct read as [mediaData|]; cbn; [|by split_and!; [..|eexists]].
  eexists. split; [reflexivity|]. unfold append_message. rewrite messages_of_put, decide_True by done.
  split; [done|]. split; [intros k Hk; by rewrite messages_of_put, decide_False by done|].
  split_and!; try done. eexists. split; [reflexivity|]. unfold or_else.
  destruct (decide (js_trim _ = [])); [vm_compute; discriminate|done].
Qed.

(** Composing. Sending a text of white space does nothing; any other text is
    sent once, trimmed, as the last message of the conversation, and empties the
    input; the keyboard sends on Enter without shift and on no other key. *)
Theorem compose_sends_once id now w key shift :
  (js_trim (inputValue w) = [] → handleSend id now w = (w, [])) ∧
  (js_trim (inputValue w) ≠ [] →
     let '(w', frames) := handleSend id now w in
     let msg := text_message id now conversationId me (js_trim (inputValue w)) in
     frames = [send_message_json msg] ∧ inputValue w' = [] ∧
     messages_of conversationId (chat w') = messages_of conversationId (chat w) ++ [msg] ∧
     ∀ k, k ≠ conversationId → messages_of k (chat w') = messages_of k (chat w)) ∧
  ((handleKeyDown key shift id now w).1.2 ≠ [] → key = js "Enter" ∧ shift = false).
Proof.
  unfold handleSend. split; [|split].
  - intros E. by rewrite decide_True.
  - intros E. rewrite decide_False by done. cbn. split; [done|]. split; [done|].
    unfold append_message. rewrite messages_of_put, decide_True by done. split; [done|].
    intros k Hk. by rewrite messages_of_put, decide_False by done.
  - unfold handleKeyDown. case_bool_decide; destruct shift; done.
Qed.

(** The buttons: a winkd or a nudge is one message of that type at the end of the
    conversation and leaves the input alone; no other button adds a message. *)
Theorem buttons_send b cid id now w picker :
  let '(w', _, frames) := press b cid id now (w, picker) in
  inputValue w' = inputValue w ∧
  match b with
  | BWinkd | BNudge =>
      ∃ m, frames = [send_message_json m] ∧ m_type m = (if b is BWinkd then js "winkd" else js "nudge") ∧
        messages_of conversationId (chat w') = messages_of conversationId (chat w) ++ [m] ∧
        ∀ k, k ≠ conversationId → messages_of k (chat w') = messages_of k (chat w)
  | BBlock => length frames = 1%nat ∧ chat w' = chat w
  | _ => frames = [] ∧ chat w' = chat w
  end.
Proof.
  destruct b; cbn; try done; (split; [done|]); eexists; (split; [reflexivity|]); (split; [reflexivity|]);
    unfold append_message; (split; [by rewrite messages_of_put, decide_True|]);
    intros k Hk; by rewrite messages_of_put, decide_False.
Qed.

End window.
