(* ===== verification/Html.v ===== *)
(** * Rendered markup

    What a component returns: a tree of elements with their attributes and
    handlers. A handler is the list of the component's actions it performs.
    Attributes are kept as written; of the styles, those that depend on the state.
    [Widget] is an element of another component, by its properties. What a user can
    do with a tree ([offered]) follows HTML: a disabled control has no handlers, a
    text is typed up to its [maxLength], a form is submitted by an enabled submit
    button when its fields are valid. A value is too short only when it was the
    user who changed it last, and not a script: the flag [edited] of an element is
    this note of the browser, not an attribute of the source. No handler of these trees is inside an
    element with another handler for the same event. *)

From S2P Require Import Prelude JsString.

Inductive attr (A : Type) :=
  | Attr (name : string) (v : jsstr)
  | Flag (name : string) (b : bool)
  | Num (name : string) (n : Z)
  | Style (name : string) (v : jsstr)
  | OnClick (h : list A)
  | OnChange (h : jsstr → list A)
  | OnKeyDown (h : jsstr → bool → list A)   (** [e.key], [e.shiftKey] *)
  | OnPick (h : list A)                     (** [onChange] of a file input *)
  | OnSubmit (h : list A).
Arguments Attr {A}.
Arguments Flag {A}.
Arguments Num {A}.
Arguments Style {A}.
Arguments OnClick {A}.
Arguments OnChange {A}.
Arguments OnKeyDown {A}.
Arguments OnPick {A}.
Arguments OnSubmit {A}.

Inductive html (W A : Type) :=
  | Text (s : jsstr)
  | Widget (w : W)
  | Element (tag : string) (attrs : list (attr A)) (children : list (html W A)).
Arguments Text {W A}.
Arguments Widget {W A}.
Arguments Element {W A}.

(** What a gesture of the user calls: a change with the field's [maxLength]. *)
Inductive handler (A : Type) :=
  | HClick (h : list A)
  | HPick (h : list A)
  | HKey (h : jsstr → bool → list A)
  | HChange (m : option Z) (h : jsstr → list A)
  | HSubmit (h : list A).
Arguments HClick {A}.
Arguments HPick {A}.
Arguments HKey {A}.
Arguments HChange {A}.
Arguments HSubmit {A}.

(** [{b && ...}], and a text child that is written in the source. *)
Definition show_if {T} (b : bool) (l : list T) : list T := if b then l else [].
Definition text {W A} (s : string) : html W A := Text (js s).
(** [x] unless [b]. *)
Definition unless {T} (b : bool) (x : T) : list T := if b then [] else [x].
(** [{s && ...}] for a string. *)
Definition nonempty (s : jsstr) : bool := negb (bool_decide (s = [])).

Section tree.
Context {W A : Type}.
Implicit Types (h : html W A) (attrs : list (attr A)).

(** The elements of a tree, outermost first. *)
Fixpoint elements h : list (string * list (attr A) * list (html W A)) :=
  match h with
  | Element tag attrs children => (tag, attrs, children) :: flat_map elements children
  | _ => []
  end.

(** The text a reader sees, without that of other components. *)
Fixpoint text_content h : jsstr :=
  match h with
  | Text s => s
  | Widget _ => []
  | Element _ _ children => flat_map text_content children
  end.

Fixpoint widgets h : list W :=
  match h with
  | Text _ => []
  | Widget w => [w]
  | Element _ _ children => flat_map widgets children
  end.

Definition flag (name : string) attrs : bool :=
  existsb (λ a, match a with Flag n b => bool_decide (n = name) && b | _ => false end) attrs.
Definition number (name : string) attrs : option Z :=
  head (omap (λ a, match a with Num n v => if decide (n = name) then Some v else None | _ => None end) attrs).
Definition attribute (name : string) attrs : option jsstr :=
  head (omap (λ a, match a with Attr n v => if decide (n = name) then Some v else None | _ => None end) attrs).

(** A field's constraints, for the value it shows. *)
Definition valid (e : string * list (attr A) * list (html W A)) : bool :=
  let '(tag, attrs, _) := e in
  match attribute "value" attrs with
  | Some v =>
      (negb (flag "required" attrs) || nonempty v) &&
      (negb (flag "edited" attrs) || bool_decide (v = []) || (Z.to_nat (nullish 0%Z (number "minLength" attrs)) <=? length v)%nat)
  | None => true
  end.

Definition is_submit (e : string * list (attr A) * list (html W A)) : bool :=
  bool_decide (e.1.1 = "button"%string) && bool_decide (attribute "type" e.1.2 = Some (js "submit")).

Definition has_submit (l : list (html W A)) : bool :=
  existsb (λ b, is_submit b && negb (flag "disabled" b.1.2)) (flat_map elements l).
Definition all_valid (l : list (html W A)) : bool := forallb valid (flat_map elements l).
Definition can_submit (children : list (html W A)) : bool := has_submit children && all_valid children.

(** What a user can do to a tree. *)
Definition handlers_of (e : string * list (attr A) * list (html W A)) : list (handler A) :=
  let '(_, attrs, children) := e in
  if flag "disabled" attrs then []
  else omap (λ a, match a with
                  | OnClick x => Some (HClick x)
                  | OnPick x => Some (HPick x)
                  | OnKeyDown f => Some (HKey f)
                  | OnChange f => Some (HChange (number "maxLength" attrs) f)
                  | OnSubmit x => if can_submit children then Some (HSubmit x) else None
                  | _ => None
                  end) attrs.

Definition handlers h : list (handler A) := flat_map handlers_of (elements h).

(** The actions of a gesture. *)
Inductive offered h : list A → Prop :=
  | offered_click acts : In (HClick acts) (handlers h) → offered h acts
  | offered_pick acts : In (HPick acts) (handlers h) → offered h acts
  | offered_submit acts : In (HSubmit acts) (handlers h) → offered h acts
  | offered_key f key shift : In (HKey f) (handlers h) → offered h (f key shift)
  | offered_change m f s :
      In (HChange m f) (handlers h) → (∀ n, m = Some n → Z.of_nat (length s) ≤ n) → offered h (f s).

(** The same, by the handlers. *)
Definition gesture (x : handler A) (acts : list A) : Prop :=
  match x with
  | HClick a | HPick a | HSubmit a => acts = a
  | HKey f => ∃ key shift, acts = f key shift
  | HChange m f => ∃ s, (∀ n, m = Some n → Z.of_nat (length s) ≤ n) ∧ acts = f s
  end.

Lemma offered_gesture h acts : offered h acts ↔ ∃ x, In x (handlers h) ∧ gesture x acts.
Proof.
  split.
  - intros []; eexists; (split; [eassumption|]); cbn; naive_solver.
  - intros ([] & Hx & Hg); cbn in Hg; [subst; by constructor..| | |subst; by constructor].
    + destruct Hg as (key & shift & ->). by constructor.
    + destruct Hg as (s & Hn & ->). by econstructor.
Qed.

(** ** Computing the handlers *)

Lemma flat_map_flat_map {X Y Z} (f : Y → list Z) (g : X → list Y) l :
  flat_map f (flat_map g l) = flat_map (λ x, flat_map f (g x)) l.
Proof. induction l as [|x l IH]; cbn; [done|]. by rewrite flat_map_app, IH. Qed.

Lemma handlers_Element tag attrs children :
  handlers (Element tag attrs children) =
    handlers_of (tag, attrs, children) ++ flat_map handlers children.
Proof. unfold handlers. cbn [elements flat_map]. by rewrite flat_map_flat_map. Qed.

Lemma handlers_plain tag children : handlers (Element tag [] children) = flat_map handlers children.
Proof. rewrite handlers_Element. done. Qed.

Lemma has_submit_app l k : has_submit (l ++ k) = has_submit l || has_submit k.
Proof. unfold has_submit. by rewrite flat_map_app, existsb_app. Qed.

Lemma all_valid_app l k : all_valid (l ++ k) = all_valid l && all_valid k.
Proof. unfold all_valid. by rewrite flat_map_app, forallb_app. Qed.

Lemma flat_map_map_silent {X Y Z} (f : Y → list Z) (g : X → Y) l :
  (∀ x, f (g x) = []) → flat_map f (map g l) = [].
Proof. intros H. induction l as [|x l IH]; cbn; [done|]. by rewrite H. Qed.

Lemma flat_map_show_if {X Y} (f : X → list Y) b l :
  flat_map f (show_if b l) = show_if b (flat_map f l).
Proof. by destruct b. Qed.

End tree.

#[global] Arguments handlers : simpl never.

(** ** Markup inside another component's *)

Lemma html_nested_ind {W A} (P : html W A → Prop) :
  (∀ s, P (Text s)) → (∀ w, P (Widget w)) →
  (∀ tag attrs children, Forall P children → P (Element tag attrs children)) → ∀ h, P h.
Proof.
  intros Ht Hw He. fix IH 1. intros [s|w|tag attrs children]; [apply Ht|apply Hw|]. apply He.
  induction children as [|c children IHc]; constructor; [apply IH|exact IHc].
Qed.

(** The actions of a component are some of the actions of the one around it. *)
Section lift.
Context {W A B : Type} (f : A → B).

Definition attr_map (a : attr A) : attr B :=
  match a with
  | Attr n v => Attr n v
  | Flag n b => Flag n b
  | Num n k => Num n k
  | Style n v => Style n v
  | OnClick h => OnClick (map f h)
  | OnChange h => OnChange (λ v, map f (h v))
  | OnKeyDown h => OnKeyDown (λ k s, map f (h k s))
  | OnPick h => OnPick (map f h)
  | OnSubmit h => OnSubmit (map f h)
  end.

Fixpoint html_map (h : html W A) : html W B :=
  match h with
  | Text s => Text s
  | Widget w => Widget w
  | Element tag attrs children => Element tag (map attr_map attrs) (map html_map children)
  end.

Definition handler_map (h : handler A) : handler B :=
  match h with
  | HClick h => HClick (map f h)
  | HPick h => HPick (map f h)
  | HKey h => HKey (λ k s, map f (h k s))
  | HChange m h => HChange m (λ v, map f (h v))
  | HSubmit h => HSubmit (map f h)
  end.

Definition element_map (e : string * list (attr A) * list (html W A)) :=
  (e.1.1, map attr_map e.1.2, map html_map e.2).

Lemma elements_map h : elements (html_map h) = map element_map (elements h).
Proof.
  induction h as [s|w|tag attrs children IH] using html_nested_ind; [done..|]. cbn. f_equal.
  induction IH as [|c children Hc _ IH]; cbn; [done|]. by rewrite map_app, Hc, IH.
Qed.

Lemma flag_map name attrs : flag name (map attr_map attrs) = flag name attrs.
Proof. unfold flag. induction attrs as [|a attrs IH]; cbn; [done|]. rewrite IH. by destruct a. Qed.

Lemma number_map name attrs : number name (map attr_map attrs) = number name attrs.
Proof.
  unfold number. induction attrs as [|a attrs IH]; [done|].
  destruct a; cbn in *; try exact IH. by destruct (decide _).
Qed.

Lemma attribute_map name attrs : attribute name (map attr_map attrs) = attribute name attrs.
Proof.
  unfold attribute. induction attrs as [|a attrs IH]; [done|].
  destruct a; cbn in *; try exact IH. by destruct (decide _).
Qed.

Lemma elements_all_map {T} (g : string * list (attr B) * list (html W B) → list T) l :
  flat_map g (flat_map elements (map html_map l)) = flat_map (λ e, g (element_map e)) (flat_map elements l).
Proof.
  induction l as [|h l IH]; cbn; [done|]. rewrite !flat_map_app, IH, elements_map. f_equal.
  induction (elements h) as [|e es IHe]; cbn; [done|by rewrite IHe].
Qed.

Lemma existsb_elements_map p l :
  existsb p (flat_map elements (map html_map l)) = existsb (λ e, p (element_map e)) (flat_map elements l).
Proof.
  induction l as [|h l IH]; cbn; [done|]. rewrite !existsb_app, IH, elements_map. f_equal.
  induction (elements h) as [|e es IHe]; cbn; [done|by rewrite IHe].
Qed.

Lemma forallb_elements_map p l :
  forallb p (flat_map elements (map html_map l)) = forallb (λ e, p (element_map e)) (flat_map elements l).
Proof.
  induction l as [|h l IH]; cbn; [done|]. rewrite !forallb_app, IH, elements_map. f_equal.
  induction (elements h) as [|e es IHe]; cbn; [done|by rewrite IHe].
Qed.

Lemma forallb_same {X} (p q : X → bool) l : (∀ x, p x = q x) → forallb p l = forallb q l.
Proof. intros H. induction l as [|x l IH]; cbn; [done|by rewrite H, IH]. Qed.
Lemma existsb_same {X} (p q : X → bool) l : (∀ x, p x = q x) → existsb p l = existsb q l.
Proof. intros H. induction l as [|x l IH]; cbn; [done|by rewrite H, IH]. Qed.

Lemma can_submit_map l : can_submit (map html_map l) = can_submit l.
Proof.
  unfold can_submit, has_submit, all_valid. rewrite existsb_elements_map, forallb_elements_map. f_equal.
  - apply existsb_same. intros [[tag attrs] children]. unfold is_submit, element_map. cbn [fst snd].
    by rewrite attribute_map, flag_map.
  - apply forallb_same. intros [[tag attrs] children]. unfold valid, element_map. cbn [fst snd].
    by rewrite attribute_map, !flag_map, number_map.
Qed.

Lemma handlers_of_map e : handlers_of (element_map e) = map handler_map (handlers_of e).
Proof.
  destruct e as [[tag attrs] children]. unfold handlers_of, element_map. cbn [fst snd].
  rewrite flag_map, number_map, can_submit_map. destruct (flag "disabled" attrs); [done|].
  set (n := number _ _). set (b := can_submit _). clearbody n b.
  induction attrs as [|a attrs IH]; [done|].
  destruct a; [exact IH..| | | | |]; try (cbn; f_equal; exact IH).
  destruct b; [cbn; f_equal; exact IH|exact IH].
Qed.

Lemma handlers_map h : handlers (html_map h) = map handler_map (handlers h).
Proof.
  unfold handlers. rewrite elements_map. induction (elements h) as [|e es IH]; cbn [map flat_map]; [done|].
  by rewrite map_app, handlers_of_map, IH.
Qed.

Lemma gesture_map x acts : gesture (handler_map x) acts → ∃ acts', acts = map f acts' ∧ gesture x acts'.
Proof. destruct x; cbn; naive_solver. Qed.

End lift.

(** Into the children of elements without attributes, and over lists of them. *)
Ltac plain := repeat first
  [ rewrite handlers_plain | rewrite flat_map_app | rewrite flat_map_show_if | rewrite app_nil_r
  | progress cbn [flat_map app] ].
