(* ===== verification/Widgets.v ===== *)
(** * Small elements

    The markup of packages/ui's Avatar.tsx and ChatBubble.tsx, and of
    apps/web/src/components' RichEmojiText.tsx, ContactItem.tsx and
    MessageBubble.tsx, for the views of Roster.v, Emoji.v and Bubble.v. *)

From S2P Require Import Prelude JsString Json Platform Types ContactsStore Emoji Bubble Roster Html.

Section widgets.
Context {W A : Type}.
Abbreviation node := (html W A) (only parsing).

(** The text of a value whose use as a string has not thrown. *)
Definition name_text (v : value) : jsstr := nullish [] (string_value v).

(** ** Avatar.tsx *)

(** [Math.round] of a product, for the sizes the program uses: 18, 28, 30, 32, 40. *)
Definition dotSize (size : Z) : Z := (28 * size + 50) / 100.
Definition dotOffset (size : Z) : Z := - ((2 * dotSize size + 5) / 10).
Definition initialsSize (size : Z) : Z := (35 * size + 50) / 100.

Definition avatar_dot (size : Z) (color : option jsstr) : node :=
  Element "div"
    ([Num "bottom" (dotOffset size); Num "right" (dotOffset size);
      Num "width" (dotSize size); Num "height" (dotSize size)] ++
     match color with Some c => [Style "background" c] | None => [] end) [].

Definition avatar_element (size : Z) (a : AvatarView) : node :=
  let inner background := [Num "width" size; Num "height" size] ++ background ++ [Num "fontSize" (initialsSize size)] in
  Element "div" [Num "width" size; Num "height" size]
    ([match av_picture a with
      | ImagePicture src alt => Element "div" (inner []) [Element "img" [Attr "src" src; Attr "alt" alt] []]
      | InitialsPicture s background => Element "div" (inner [Style "background" background]) [Text s]
      end] ++
     match av_dot a with Some color => [avatar_dot size color] | None => [] end).

(** ** RichEmojiText.tsx *)

Definition piece_element (size : Z) (p : piece) : node :=
  match p with
  | TextPiece token => Element "span" [] [Text token]
  | EmojiPiece _ resolvedAsset trailingText =>
      Element "span" []
        [Element "img" [Attr "src" resolvedAsset; Attr "alt" (js "emoji"); Num "width" size; Num "height" size] [];
         Text trailingText]
  end.

Definition rich_text (size : Z) (ps : list piece) : list node := map (piece_element size) ps.

(** ** ContactItem.tsx *)

(** [{mood && <div>...</div>}]: a falsy number is shown, other falsy values are not. *)
Definition mood_element {doubles : Doubles} (mood : value) (shown : option (list piece)) : list node :=
  match shown, mood with
  | Some ps, _ => [Element "div" [] (rich_text 13 ps)]
  | None, Some (JNum n) => [Text (js_toString n)]
  | None, Some (JFrac l) => [Text (double_toString l)]
  | None, _ => []
  end.

Definition item_element {doubles : Doubles} (onClick : list A) (hovered : bool) (v : ItemView) : node :=
  Element "div"
    [OnClick onClick;
     Style "background" (if iv_selected v then js "rgba(26,90,204,0.38)"
                         else if hovered then js "rgba(26,90,204,0.18)" else js "transparent")]
    ([avatar_element 32 (iv_avatar v);
      Element "div" []
        (Element "div" [] [Text (name_text (sc_displayName (iv_contact v)))] ::
         mood_element (sc_moodMessage (iv_contact v)) (iv_mood v))] ++
     match iv_badge v with Some b => [Element "div" [] [Text b]] | None => [] end).

(** ** MessageBubble.tsx *)

Definition part_element (p : part) : list node :=
  match p with
  | TextPart t => [Element "span" [] [Text t]]
  | InlineImage _ pieces trailingText => [Element "span" [] (rich_text 20 pieces ++ [Text trailingText])]
  | ImagePart src => [Element "img" [Attr "src" src; Attr "alt" (js "Shared media")] []]
  | HiddenLink _ => []
  | LinkPart href =>
      [Element "a" [Attr "href" href; Attr "target" (js "_blank"); Attr "rel" (js "noreferrer")] [Text href]]
  end.

Definition preview_element (p : Preview) : node :=
  match p with
  | ImagePreview src alt => Element "img" [Attr "src" src; Attr "alt" alt] []
  | FramePreview src title => Element "iframe" [Attr "src" src; Attr "title" title] []
  | NoPreview => Element "div" [] [text "Inline preview not available for this format. Download to open."]
  end.

Definition media_element (m : Media) : node :=
  let gap := if mv_separated m then 8 else 0 in
  Element "div"
    [Num "marginTop" gap;
     Style "borderTop" (if mv_separated m then js "1px solid rgba(80,120,180,0.2)" else js "none");
     Num "paddingTop" gap]
    [Element "div" [] [Text (js "📎 " ++ mv_name m ++ js " " ++ mv_size m)];
     preview_element (mv_preview m);
     Element "a" [Attr "href" (mv_href m); Attr "download" (mv_name m); Attr "target" (js "_blank");
                  Attr "rel" (js "noreferrer")] [text "Download file"]].

Definition bubble_style (mine : bool) : list (attr A) :=
  if mine then
    [Style "background" (js "rgba(190,215,255,1)"); Style "border" (js "1px solid rgba(100,160,240,0.5)");
     Num "borderBottomRightRadius" 2; Style "alignSelf" (js "flex-end")]
  else
    [Style "background" (js "rgba(228,238,255,1)"); Style "border" (js "1px solid rgba(160,190,240,0.6)");
     Num "borderBottomLeftRadius" 2; Style "alignSelf" (js "flex-start")].

Definition body_child (body : option jsstr) : list node :=
  match body with Some b => [Text b] | None => [] end.

Definition bubble_element (b : option bubble) : list node :=
  match b with
  | None => []
  | Some (WinkdBanner t) | Some (NudgeBanner t) => [Element "div" [] [Text t]]
  | Some (SystemLine body) => [Element "div" [] (body_child body)]
  | Some (TextBubble mine parts media) =>
      [Element "div" (bubble_style mine)
         (flat_map part_element parts ++
          match media with Some m => [media_element m] | None => [] end)]
  end.

(** ** ChatBubble.tsx *)

(** Of tokens/colors.ts. *)
Definition bubbleMe : jsstr := js "rgba(190,215,255,1)".
Definition bubbleMeBorder : jsstr := js "rgba(100,160,240,0.5)".
Definition bubbleThem : jsstr := js "rgba(228,238,255,1)".
Definition bubbleThemBorder : jsstr := js "rgba(160,190,240,0.6)".

Definition chat_bubble_style (mine : bool) : list (attr A) :=
  if mine then
    [Num "borderBottomRightRadius" 2; Style "background" bubbleMe;
     Style "border" (js "1px solid " ++ bubbleMeBorder); Style "alignSelf" (js "flex-end")]
  else
    [Num "borderBottomLeftRadius" 2; Style "background" bubbleThem;
     Style "border" (js "1px solid " ++ bubbleThemBorder); Style "alignSelf" (js "flex-start")].

Definition chat_bubble_element (b : option chat_bubble) : list node :=
  match b with
  | None => []
  | Some (ChatSystem body) => [Element "div" [] (body_child body)]
  | Some (ChatBanner t) => [Element "div" [] [Text t]]
  | Some (ChatText mine body) => [Element "div" (chat_bubble_style mine) (body_child body)]
  end.

(** ** None of them can be acted on, but for the contact that is clicked *)

Lemma avatar_silent size a : handlers (avatar_element size a) = [].
Proof. by destruct a as [[] [[]|]]. Qed.

Lemma rich_silent size ps : flat_map handlers (rich_text size ps) = [].
Proof. apply flat_map_map_silent. by intros []. Qed.

Lemma mood_silent {doubles : Doubles} mood ps : flat_map handlers (mood_element mood ps) = [].
Proof.
  unfold mood_element. destruct ps as [ps|]; [by plain; rewrite rich_silent|]. by destruct mood as [[]|].
Qed.

Lemma item_handlers {doubles : Doubles} acts hovered v : handlers (item_element acts hovered v) = [HClick acts].
Proof.
  unfold item_element. rewrite handlers_Element. cbn [handlers_of flag existsb omap list_omap]. cbn [orb].
  plain. rewrite avatar_silent, mood_silent. by destruct (iv_badge v).
Qed.

Lemma part_silent p : flat_map handlers (part_element p) = [].
Proof. destruct p; try done. unfold part_element. plain. by rewrite rich_silent. Qed.

Lemma parts_silent ps : flat_map handlers (flat_map part_element ps) = [].
Proof. rewrite flat_map_flat_map. induction ps as [|p ps IH]; cbn; [done|]. by rewrite part_silent. Qed.

Lemma bubble_silent b : flat_map handlers (bubble_element b) = [].
Proof.
  destruct b as [[| |[]|mine parts media]|]; try done. unfold bubble_element. cbn [flat_map].
  rewrite handlers_Element, flat_map_app, parts_silent. destruct mine, media as [[? ? ? [] ?]|]; done.
Qed.

End widgets.
