(* ===== verification/Chrome.v ===== *)
(** * The frame of the application

    The markup of components/StatusBar.tsx, WinkdToolbar.tsx, AeroWindow.tsx and
    EmojiPicker.tsx (apps/web/src), and of packages/ui's StatusPill.tsx. Their
    callbacks are parameters: the actions of the component that uses them. *)

From S2P Require Import Prelude JsString Json Platform Types AuthStore Emoji Html.

Section chrome.
Context {W A : Type}.
Abbreviation node := (html W A) (only parsing).

(** ** StatusBar.tsx *)

(** Properties that are not given are [None]. *)
Definition StatusBar (isEncrypted : option bool) (extra : option jsstr) : node :=
  Element "div" []
    (show_if (nullish true isEncrypted) [Element "span" [] [text "🔒 End-to-end encrypted"]] ++
     match extra with
     | Some e => show_if (nonempty e) [Element "span" [] [Text e]]
     | None => []
     end).

Lemma status_bar_silent e x : handlers (StatusBar e x) = [].
Proof. unfold StatusBar. plain. destruct (nullish true e), x as [x|]; try done; by destruct (nonempty x). Qed.

(** ** WinkdToolbar.tsx *)

Inductive variant := VWinkd | VNudge | VDefault.

Definition baseBg (v : variant) : jsstr :=
  match v with
  | VWinkd => js "linear-gradient(180deg, #fff8d0 0%, #ffe880 100%)"
  | VNudge => js "linear-gradient(180deg, #d8ffd8 0%, #a0f0a0 100%)"
  | VDefault => js "linear-gradient(180deg, rgba(220,235,255,0.88) 0%, rgba(180,210,255,0.75) 100%)"
  end.

Definition hoverBg (v : variant) : jsstr :=
  match v with
  | VWinkd => js "linear-gradient(180deg, #fffae0 0%, #ffec90 100%)"
  | VNudge => js "linear-gradient(180deg, #e8ffe8 0%, #b8f8b8 100%)"
  | VDefault => js "linear-gradient(180deg, rgba(230,242,255,0.95) 0%, rgba(195,220,255,0.85) 100%)"
  end.

(** [hovered] is whether the pointer is over the button. *)
Definition ToolbarBtn (label : string) (onClick : list A) (v : variant) (disabled : option bool)
    (hovered : bool) : node :=
  let off := nullish false disabled in
  Element "button"
    [Attr "type" (js "button"); OnClick onClick; Flag "disabled" off;
     Style "background" (if off then js "rgba(180,200,230,0.25)" else if hovered then hoverBg v else baseBg v);
     Style "color" (if off then js "rgba(120,150,190,0.45)" else js "#1a2a40");
     Style "cursor" (if off then js "not-allowed" else js "pointer");
     Style "boxShadow" (if hovered && negb off then js "0 1px 3px rgba(0,0,50,0.15)" else js "none")]
    [text label].

(** The seven callbacks, and which button the pointer is over. *)
Record ToolbarProps := mkToolbar {
  onWinkd : list A; onNudge : list A; onWinks : list A; onEmoticons : list A;
  onFormat : list A; onBackground : list A; onDraw : list A;
  toolbarDisabled : option bool }.

Definition WinkdToolbar (t : ToolbarProps) (over : option nat) : node :=
  let btn i label onClick v := ToolbarBtn label onClick v (toolbarDisabled t) (bool_decide (over = Some i)) in
  Element "div" []
    [btn 0%nat "💥 Winkd!" (onWinkd t) VWinkd;
     btn 1%nat "🫸 Nudge" (onNudge t) VNudge;
     Element "div" [] [];
     btn 2%nat "✨ Winks" (onWinks t) VDefault;
     btn 3%nat "😄 Emoticons" (onEmoticons t) VDefault;
     btn 4%nat "A" (onFormat t) VDefault;
     Element "div" [] [];
     btn 5%nat "🖼️ BG" (onBackground t) VDefault;
     btn 6%nat "✏️ Draw" (onDraw t) VDefault].

(** A disabled toolbar offers nothing; an enabled one its seven callbacks. *)
Lemma toolbar_handlers t over :
  handlers (WinkdToolbar t over) =
    if nullish false (toolbarDisabled t) then []
    else map HClick [onWinkd t; onNudge t; onWinks t; onEmoticons t; onFormat t; onBackground t; onDraw t].
Proof.
  unfold WinkdToolbar. plain.
  assert (∀ l h v o, handlers (ToolbarBtn l h v (toolbarDisabled t) o : node) = unless (nullish false (toolbarDisabled t)) (HClick h))
    as Hb by (intros; unfold ToolbarBtn; rewrite handlers_Element; by destruct (toolbarDisabled t) as [[]|]).
  rewrite !Hb. by destruct (toolbarDisabled t) as [[]|].
Qed.

(** ** AeroWindow.tsx *)

(** The label and the colour of the window controls, which have no handlers. *)
Definition CONTROL_BUTTONS : list (jsstr * jsstr) :=
  map (λ p, (js p.1, js p.2)) [("−", "#4a8ad4"); ("□", "#4a8ad4"); ("✕", "#c84040")]%string.

Definition control_button (b : jsstr * jsstr) : node :=
  Element "button"
    [Attr "type" (js "button");
     Style "background" (js "linear-gradient(180deg, " ++ b.2 ++ js "cc 0%, " ++ b.2 ++ js " 100%)")]
    [Text b.1].

Definition AeroWindow (title : jsstr) (icon : option jsstr) (children : list node) : node :=
  Element "div" []
    [Element "div" []
       ([Element "div" [] []] ++
        match icon with
        | Some i => show_if (nonempty i) [Element "img" [Attr "src" i; Attr "alt" []] []]
        | None => []
        end ++
        [Element "span" [] [Text title];
         Element "div" [] (map control_button CONTROL_BUTTONS)]);
     Element "div" [] children].

(** The window's controls do nothing. *)
Lemma window_handlers title icon children :
  handlers (AeroWindow title icon children) = flat_map handlers children.
Proof. unfold AeroWindow. plain. destruct icon as [i|]; [destruct (nonempty i)|]; done. Qed.

(** ** StatusPill.tsx *)

(** Background, border colour and colour; [textGhost] is colors.ts's. *)
Definition textGhost : jsstr := js "rgba(220,238,255,0.75)".
Definition PILL_STYLES (s : UserStatus) : jsstr * jsstr * jsstr :=
  match s with
  | online => (js "rgba(0,200,0,0.18)", js "rgba(0,180,0,0.45)", js "#c0ffb0")
  | away => (js "rgba(255,170,0,0.18)", js "rgba(220,140,0,0.45)", js "#ffe8a0")
  | busy => (js "rgba(220,40,40,0.18)", js "rgba(200,30,30,0.45)", js "#ffb0b0")
  | invisible => (js "rgba(170,170,170,0.14)", js "rgba(150,150,150,0.38)", textGhost)
  end.

Definition LABELS (s : UserStatus) : jsstr :=
  match s with
  | online => js "Online" | away => js "Away" | busy => js "Busy" | invisible => js "Invisible"
  end.

Definition StatusPill (s : UserStatus) (active : option bool) (onClick : option (UserStatus → list A)) : node :=
  let '(background, borderColor, color) := PILL_STYLES s in
  Element "button"
    ([Style "background" background; Style "borderColor" borderColor; Style "color" color] ++
     show_if (nullish false active)
       [Style "filter" (js "brightness(1.3)"); Style "boxShadow" (js "0 0 6px rgba(255,255,255,0.2)")] ++
     [OnClick (match onClick with Some f => f s | None => [] end)] ++
     match active with Some b => [Attr "aria-pressed" (if b then js "true" else js "false")] | None => [] end)
    [Text (LABELS s)].

(** ** EmojiPicker.tsx *)

Section picker.
Context (supporter : option SupporterState).
(** The picker's own state and setters, and its callbacks. *)
Context (activeCategory : nat) (search : jsstr).
Context (setActiveCategory : nat → A) (setSearch : jsstr → A) (onSelect : jsstr → list A)
        (onClose : option (list A)).

Definition item_name (item : EmojiItem) : jsstr :=
  match item with ClassicItem name _ | SpikeyItem name _ => name | UnicodeItem value => value end.

(** The picture of a tab: that of the category's first item. An empty category,
    of which there is none, would throw. *)
Definition tab_picture (cat : Category) : list node :=
  match emojis cat with
  | (ClassicItem _ _ | SpikeyItem _ _) as item :: _ =>
      [Element "img" [Attr "src" (getPreview item); Attr "alt" (label cat)] []]
  | UnicodeItem value :: _ => [Text value]
  | [] => []
  end.

Definition category_tab (idx : nat) (cat : Category) : node :=
  let on := bool_decide (idx = activeCategory) in
  Element "button"
    [Attr "type" (js "button"); Attr "title" (label cat); OnClick [setActiveCategory idx];
     Style "border" (if on then js "1px solid rgba(26,90,204,0.5)" else js "1px solid transparent");
     Style "background" (if on then js "rgba(26,90,204,0.15)" else js "transparent")]
    (tab_picture cat).

Definition emoji_button (item : EmojiItem) : node :=
  Element "button"
    [Attr "type" (js "button"); Attr "title" (item_name item); OnClick (onSelect (getInsertValue item))]
    [match item with
     | UnicodeItem value => Element "span" [] [Text value]
     | _ => Element "img" [Attr "src" (getPreview item); Attr "alt" (item_name item);
                           Attr "loading" (js "lazy")] []
     end].

Definition picker_header : node :=
  Element "div" []
    ([Element "span" [] [text "Emoticons"]] ++
     match onClose with
     | Some h => [Element "button" [Attr "type" (js "button"); OnClick h] [text "✕"]]
     | None => []
     end).

Definition EmojiPicker : node :=
  Element "div" []
    ([picker_header;
      Element "div" []
        [Element "input"
           [Attr "type" (js "text"); Attr "placeholder" (js "Search…"); Attr "value" search;
            OnChange (λ v, [setSearch v])] []]] ++
     show_if (bool_decide (js_trim search = []))
       [Element "div" [] (imap category_tab (categories supporter))] ++
     [Element "div" [] (map emoji_button (filtered supporter search activeCategory))]).

(** Every emoticon that is shown inserts its own value; the tabs are there for a
    blank search only. *)
Lemma emoji_picker_handlers :
  handlers EmojiPicker =
    match onClose with Some h => [HClick h] | None => [] end ++
    [HChange None (λ v, [setSearch v])] ++
    show_if (bool_decide (js_trim search = []))
      (imap (λ idx _, HClick [setActiveCategory idx]) (categories supporter)) ++
    map (λ item, HClick (onSelect (getInsertValue item))) (filtered supporter search activeCategory).
Proof.
  assert (∀ items, flat_map handlers (map emoji_button items) = map (λ item, HClick (onSelect (getInsertValue item))) items) as He.
  { intros items. induction items as [|i items IH]; cbn [map flat_map]; [done|]. rewrite IH. by destruct i. }
  assert (∀ f (cats : list Category), flat_map handlers (imap (λ i c, category_tab (f i) c) cats)
    = imap (λ i _, HClick [setActiveCategory (f i)]) cats) as Ht.
  { intros f cats. revert f. induction cats as [|c cats IH]; intros f; cbn [imap flat_map]; [done|].
    pose proof (IH (λ i, f (S i))) as E. unfold compose in *. rewrite E.
    unfold category_tab, tab_picture. destruct (emojis c) as [|[]]; done. }
  unfold EmojiPicker. plain. rewrite He, (Ht (λ i, i)).
  assert (handlers picker_header = match onClose with Some h => [HClick h] | None => [] end) as ->
    by (unfold picker_header; by destruct onClose).
  by rewrite <-!app_assoc.
Qed.
End picker.
End chrome.
