(* ===== verification/Login.v ===== *)
(** * LoginPage.tsx: signing in

    The state machine of apps/web/src/pages/LoginPage.tsx. A submission is one
    request: the handler runs to its [fetch], and the rest runs when the reply
    comes, with the values the handler closed over. What the handler reads from
    a reply is a parameter of the reply's event, typed as the code casts it. *)

From S2P Require Import Prelude JsString Json Platform Types AuthStore Persist.

Inductive Mode := LoginMode | RegisterMode | TotpMode.

#[global] Instance Mode_eq_dec : EqDecision Mode.
Proof. solve_decision. Defined.

Record Form := mkForm {
  mode : Mode;
  username : jsstr;
  email : jsstr;
  password : jsstr;
  error : jsstr;
  loading : bool;
  challengeToken : jsstr;
  totpCode : jsstr;
}.

Definition initialForm : Form := mkForm LoginMode [] [] [] [] false [] [].

Definition set_mode (m : Mode) (f : Form) : Form :=
  mkForm m (username f) (email f) (password f) (error f) (loading f) (challengeToken f) (totpCode f).
Definition set_error (e : jsstr) (f : Form) : Form :=
  mkForm (mode f) (username f) (email f) (password f) e (loading f) (challengeToken f) (totpCode f).
Definition set_loading (b : bool) (f : Form) : Form :=
  mkForm (mode f) (username f) (email f) (password f) (error f) b (challengeToken f) (totpCode f).
Definition set_challenge (t : jsstr) (f : Form) : Form :=
  mkForm (mode f) (username f) (email f) (password f) (error f) (loading f) t (totpCode f).
Definition set_code (c : jsstr) (f : Form) : Form :=
  mkForm (mode f) (username f) (email f) (password f) (error f) (loading f) (challengeToken f) c.

(** ** Replies *)

(** The fields of a session reply. *)
Record LoginReply := mkReply {
  r_session_token : jsstr;
  r_winkd_id : jsstr;
  r_display_name : jsstr;
  r_mood_message : jsstr;
  r_avatar_data : option jsstr;
}.

(** The reply of the first step: also the two challenge fields. *)
Record LoginData := mkData {
  d_totp_required : bool;
  d_challenge_token : option jsstr;
  d_reply : LoginReply;
}.

(** A request: it fails ([fetch] or [json()] rejects), the server answers with
    an error status and perhaps an [error] text, or it answers. *)
Inductive reply (A : Type) :=
  | Failed
  | Refused (error : option jsstr)
  | Answered (data : A).
Arguments Failed {A}.
Arguments Refused {A} error.
Arguments Answered {A} data.

(** ** Completing a login *)

(** The stored profile: [JSON.parse(raw)?.state?.session?.profile]. *)
Definition stored_profile (raw : jsstr) : result value :=
  existing ← parse_json raw;
  let opt (k : jsstr) (v : value) := v ≫= json_get k in
  mret (opt (js "profile") (opt (js "session") (opt (js "state") (Some existing)))).

(** A stored status outside the type, which the store never writes, counts as
    absent. *)
Definition user_status (v : value) : option UserStatus :=
  if is_string (js "online") v then Some online
  else if is_string (js "away") v then Some away
  else if is_string (js "busy") v then Some busy
  else if is_string (js "invisible") v then Some invisible
  else None.

(** The avatar and the status kept from the last session of the same user. *)
Definition kept (storage : option jsstr) (winkd_id : jsstr) : option jsstr * UserStatus :=
  match storage with
  | None => (None, online)
  | Some raw =>
      if decide (raw = []) then (None, online)
      else match stored_profile raw with
           | Ok (Some p) =>
               if is_string winkd_id (json_get (js "winkdId") p)
               then (string_value (json_get (js "avatarData") p),
                     nullish online (user_status (json_get (js "status") p)))
               else (None, online)
           | _ => (None, online)
           end
  end.

Definition completeLogin (storage : option jsstr) (data : LoginReply) (st : AuthState) : AuthState :=
  let '(avatarData, status) := kept storage (r_winkd_id data) in
  let avatarData := match r_avatar_data data with Some a => Some a | None => avatarData end in
  login (r_session_token data)
    (mkOwnProfile
       (mkUserProfile (r_winkd_id data) (r_display_name data) (r_mood_message data) status avatarData)
       (r_session_token data)) st.

(** ** The handlers *)

(** The request body of [handleSubmit]. *)
Definition submit_body (f : Form) : json :=
  JObj ([(js "username", JStr (username f)); (js "password", JStr (password f))] ++
        match mode f with
        | LoginMode => []
        | _ =>
            (js "display_name", JStr (username f)) ::
            (if bool_decide (mode f = RegisterMode) && negb (bool_decide (js_trim (email f) = []))
             then [(js "email", JStr (js_trim (email f)))] else [])
        end).

Definition submit_endpoint (f : Form) : jsstr :=
  match mode f with LoginMode => js "/api/auth/login" | _ => js "/api/auth/register" end.

Inductive request :=
  | Submit (endpoint : jsstr) (body : json) (m : Mode)   (** and the mode it closed over *)
  | Challenge (body : json).

Definition handleSubmit (f : Form) : Form * request :=
  (set_loading true (set_error [] f), Submit (submit_endpoint f) (submit_body f) (mode f)).

Definition refused_message (m : Mode) (e : option jsstr) : jsstr :=
  let fallback :=
    match m with
    | LoginMode => js "Invalid username or password."
    | _ => js "Registration failed. Try a different username."
    end in
  match e with
  | Some e => if js_includes e (js "taken") || js_includes e (js "registered") then e else fallback
  | None => fallback
  end.

(** The rest of [handleSubmit]; [finally] ends the loading. *)
Definition submit_reply (storage : option jsstr) (m : Mode) (r : reply LoginData) (f : Form) (st : AuthState)
    : Form * AuthState :=
  match r with
  | Failed => (set_loading false (set_error (js "Could not connect to server. Is it running?") f), st)
  | Refused e => (set_loading false (set_error (refused_message m e) f), st)
  | Answered data =>
      match d_totp_required data, d_challenge_token data with
      | true, Some ((_ :: _) as token) =>
          (set_loading false (set_code [] (set_mode TotpMode (set_challenge token f))), st)
      | _, _ => (set_loading false f, completeLogin storage (d_reply data) st)
      end
  end.

Definition handleTotpSubmit (f : Form) : Form * request :=
  (set_loading true (set_error [] f),
   Challenge (JObj [(js "challenge_token", JStr (challengeToken f)); (js "code", JStr (totpCode f))])).

Definition totp_reply (storage : option jsstr) (r : reply LoginReply) (f : Form) (st : AuthState)
    : Form * AuthState :=
  match r with
  | Failed => (set_loading false (set_error (js "Could not connect to server.") f), st)
  | Refused _ =>
      (set_loading false (set_code [] (set_error (js "Invalid code. Try again or use a backup code.") f)), st)
  | Answered data => (set_loading false f, completeLogin storage data st)
  end.

(** The button back to the password. *)
Definition back (f : Form) : Form := set_challenge [] (set_error [] (set_mode LoginMode f)).

(** ** Runs *)

Record Page := mkPage {
  form : Form;
  authState : AuthState;
  pending : list request;      (** requests without a reply *)
}.

Inductive event :=
  | EInput (f : Form → Form)            (** typing: see [typing] *)
  | ETab (m : Mode)
  | EBack
  | ESubmit
  | ETotpSubmit
  | EReply (i : nat) (storage : option jsstr) (r : reply LoginData)
  | ETotpReply (i : nat) (storage : option jsstr) (r : reply LoginReply).

(** Typing changes only the texts of the form. *)
Definition typing (g : Form → Form) : Prop :=
  ∀ f, mode (g f) = mode f ∧ loading (g f) = loading f ∧ challengeToken (g f) = challengeToken f.

(** What the page offers: the tabs and the password form outside the second
    step, the code form and the way back inside it, and a submit button that is
    disabled while loading. *)
Definition enabled (e : event) (p : Page) : Prop :=
  match e with
  | EInput g => typing g
  | ETab m => mode (form p) ≠ TotpMode ∧ m ≠ TotpMode
  | EBack => mode (form p) = TotpMode
  | ESubmit => mode (form p) ≠ TotpMode ∧ loading (form p) = false
  | ETotpSubmit => mode (form p) = TotpMode ∧ loading (form p) = false
  | EReply i _ _ => ∃ a b m, pending p !! i = Some (Submit a b m)
  | ETotpReply i _ _ => ∃ b, pending p !! i = Some (Challenge b)
  end.

Definition remove_at (i : nat) (l : list request) : list request := take i l ++ drop (S i) l.

Definition step (e : event) (p : Page) : Page :=
  match e with
  | EInput g => mkPage (g (form p)) (authState p) (pending p)
  | ETab m => mkPage (set_error [] (set_mode m (form p))) (authState p) (pending p)
  | EBack => mkPage (back (form p)) (authState p) (pending p)
  | ESubmit => let '(f, r) := handleSubmit (form p) in mkPage f (authState p) (pending p ++ [r])
  | ETotpSubmit => let '(f, r) := handleTotpSubmit (form p) in mkPage f (authState p) (pending p ++ [r])
  | EReply i storage r =>
      match pending p !! i with
      | Some (Submit _ _ m) =>
          let '(f, st) := submit_reply storage m r (form p) (authState p) in
          mkPage f st (remove_at i (pending p))
      | _ => p
      end
  | ETotpReply i storage r =>
      let '(f, st) := totp_reply storage r (form p) (authState p) in
      mkPage f st (remove_at i (pending p))
  end.

Inductive reachable (st0 : AuthState) : list event → Page → Prop :=
  | reach_start : reachable st0 [] (mkPage initialForm st0 [])
  | reach_step es e p :
      reachable st0 es p → enabled e p → reachable st0 (es ++ [e]) (step e p).

(** ** Reading back what the store wrote *)

Lemma stored_profile_persisted s :
  json_ok (persisted s) = true →
  stored_profile (stringify (persisted s)) = Ok (Some (profile_json (profile s))).
Proof. intros H. unfold stored_profile. by rewrite json_roundtrip by done. Qed.

Lemma kept_persisted s :
  json_ok (persisted s) = true →
  let u := own_profile (profile s) in
  kept (Some (stringify (persisted s))) (winkdId u) = (avatarData u, status u).
Proof.
  intros H. cbv zeta. unfold kept. rewrite decide_False by done. rewrite stored_profile_persisted by done.
  destruct s as [t [[w d m st av] tok] sup]. cbn [profile own_profile winkdId avatarData status].
  assert (json_get (js "winkdId") (profile_json (mkOwnProfile (mkUserProfile w d m st av) tok)) = Some (JStr w)) as -> by done.
  rewrite (proj2 (is_string_true w _) eq_refl).
  assert (json_get (js "avatarData") (profile_json (mkOwnProfile (mkUserProfile w d m st av) tok))
    = Some (or_null JStr av)) as -> by done.
  assert (json_get (js "status") (profile_json (mkOwnProfile (mkUserProfile w d m st av) tok))
    = Some (status_json st)) as -> by done.
  destruct av, st; reflexivity.
Qed.

(** ** Invariants of the page *)

(** The event is the server's acceptance of a login with this token. *)
Definition grants (e : event) (t : jsstr) : Prop :=
  match e with
  | EReply _ _ (Answered d) =>
      r_session_token (d_reply d) = t ∧
      (d_totp_required d = true → d_challenge_token d = None ∨ d_challenge_token d = Some [])
  | ETotpReply _ _ (Answered d) => r_session_token d = t
  | _ => False
  end.

(** A reply asked for the second step with this challenge. *)
Definition challenges (e : event) (t : jsstr) : Prop :=
  match e with
  | EReply _ _ (Answered d) => d_totp_required d = true ∧ d_challenge_token d = Some t ∧ t ≠ []
  | _ => False
  end.

Record page_ok (st0 : AuthState) (es : list event) (p : Page) : Prop := {
  po_one : (length (pending p) ≤ 1)%nat;
  po_loading : loading (form p) = negb (bool_decide (pending p = []));
  po_challenge : mode (form p) = TotpMode → ∃ e, In e es ∧ challenges e (challengeToken (form p));
  po_session i s : session (authState p) = Some (i, s) →
    session st0 = Some (i, s) ∨ ∃ e, In e es ∧ grants e (token s);
}.

Lemma challenges_nonempty e t : challenges e t → t ≠ [].
Proof. destruct e; try done. destruct r; try done. by intros (_ & _ & ?). Qed.

Lemma pending_single p i r :
  (length (pending p) ≤ 1)%nat → pending p !! i = Some r → i = 0%nat ∧ pending p = [r].
Proof.
  destruct (pending p) as [|q [|q' l]]; cbn; [done| |lia]. intros _. destruct i; [|done].
  by intros [= ->].
Qed.

Lemma grants_snoc es e st0 s i :
  (session st0 = Some (i, s) ∨ ∃ e, In e es ∧ grants e (token s)) →
  session st0 = Some (i, s) ∨ ∃ e', In e' (es ++ [e]) ∧ grants e' (token s).
Proof. intros [?|(e' & ? & ?)]; [by left|]. right. exists e'. split; [apply in_or_app; by left|done]. Qed.

Lemma challenges_snoc es e t :
  (∃ e, In e es ∧ challenges e t) → ∃ e', In e' (es ++ [e]) ∧ challenges e' t.
Proof. intros (e' & ? & ?). exists e'. split; [apply in_or_app; by left|done]. Qed.

Lemma completeLogin_session storage d st :
  ∃ i s, session (completeLogin storage d st) = Some (i, s) ∧ token s = r_session_token d.
Proof. unfold completeLogin. destruct (kept _ _). by do 2 eexists. Qed.

(** The rest of the first step. *)
Lemma submit_reply_spec storage m r f st f' st' :
  submit_reply storage m r f st = (f', st') →
  loading f' = false ∧
  ((mode f' = mode f ∧ challengeToken f' = challengeToken f) ∨
   (∃ t, ∀ i, challenges (EReply i storage r) t ∧ challengeToken f' = t)) ∧
  (st' = st ∨ ∃ i s, session st' = Some (i, s) ∧ ∀ j, grants (EReply j storage r) (token s)).
Proof.
  unfold submit_reply. destruct r as [|e|[tr ct d]].
  - intros [= <- <-]. cbn. auto.
  - intros [= <- <-]. cbn. auto.
  - cbn. destruct (completeLogin_session storage d st) as (i & s & Hs & Ht).
    destruct tr; [destruct ct as [[|c l]|]|]; intros [= <- <-]; cbn.
    2: { split; [done|]. split; [|by left]. right. by exists (c :: l). }
    all: split; [done|]; split; [by left|]; right; exists i, s; split; [done|]; intros j; cbn;
      rewrite Ht; naive_solver.
Qed.

Lemma totp_reply_spec storage r f st f' st' :
  totp_reply storage r f st = (f', st') →
  loading f' = false ∧ mode f' = mode f ∧ challengeToken f' = challengeToken f ∧
  (st' = st ∨ ∃ i s, session st' = Some (i, s) ∧ ∀ j, grants (ETotpReply j storage r) (token s)).
Proof.
  unfold totp_reply. destruct r as [|e|d]; intros [= <- <-]; cbn; split_and!; auto.
  destruct (completeLogin_session storage d st) as (i & s & Hs & Ht). right. eauto.
Qed.

Lemma page_ok_step st0 es p e : page_ok st0 es p → enabled e p → page_ok st0 (es ++ [e]) (step e p).
Proof.
  intros [H1 H2 H3 H4] He. destruct e as [g|m| | | |i storage r|i storage r]; cbn in He.
  - destruct (He (form p)) as (Em & El & Ec). split; cbn; [done|congruence| |by intros; eapply grants_snoc, H4].
    rewrite Em, Ec. intros Hm. by apply challenges_snoc, H3.
  - destruct He as [He1 He2]. split; cbn; [done..| |by intros; eapply grants_snoc, H4]. done.
  - split; cbn; [done..|done|by intros; eapply grants_snoc, H4].
  - destruct He as [He Hl]. rewrite Hl in H2. destruct (pending p) as [|] eqn:E; [|done].
    split; cbn; rewrite ?E; cbn; [lia|done|done|by intros; eapply grants_snoc, H4].
  - destruct He as [He Hl]. rewrite Hl in H2. destruct (pending p) as [|] eqn:E; [|done].
    split; cbn; rewrite ?E; cbn; [lia|done| |by intros; eapply grants_snoc, H4].
    intros _. by apply challenges_snoc, H3.
  - destruct He as (a & b & m & Hi). cbn [step]. rewrite Hi.
    destruct (pending_single p i _ H1 Hi) as [-> Hp].
    destruct (submit_reply storage m r (form p) (authState p)) as [f' st'] eqn:Es.
    destruct (submit_reply_spec _ _ _ _ _ _ _ Es) as (Hl & Hm & Hs).
    split; cbn; rewrite ?Hp; cbn; [lia|done|..].
    + intros Hmode. destruct Hm as [[Em Ec]|(t & Ht)].
      * rewrite Ec. apply challenges_snoc, H3. congruence.
      * destruct (Ht 0%nat) as [Hc ->]. eexists. split; [apply in_or_app; right; by left|done].
    + intros i s Hi'. destruct Hs as [->|(i' & s' & Hs & Hg)]; [by eapply grants_snoc, H4|].
      right. rewrite Hs in Hi'. injection Hi' as <- <-. eexists.
      split; [apply in_or_app; right; by left|apply Hg].
  - destruct He as (b & Hi). cbn [step].
    destruct (pending_single p i _ H1 Hi) as [-> Hp].
    destruct (totp_reply storage r (form p) (authState p)) as [f' st'] eqn:Es.
    destruct (totp_reply_spec _ _ _ _ _ _ Es) as (Hl & Hm & Hc & Hs).
    split; cbn; rewrite ?Hp; cbn; [lia|done|..].
    + rewrite Hm, Hc. intros Hmode. by apply challenges_snoc, H3.
    + intros i s Hi'. destruct Hs as [->|(i' & s' & Hs & Hg)]; [by eapply grants_snoc, H4|].
      right. rewrite Hs in Hi'. injection Hi' as <- <-. eexists.
      split; [apply in_or_app; right; by left|apply Hg].
Qed.

Lemma login_reachable_ok st0 es p : reachable st0 es p → page_ok st0 es p.
Proof.
  induction 1 as [|es e p Hr IH He]; [|by apply page_ok_step].
  split; cbn; [lia|done|done|]. intros i s Hs. by left.
Qed.

(** Equality of two updates of a form, field by field. *)
Ltac form_eq :=
  unfold set_loading, set_code, set_error;
  cbn [mode username email password error loading challengeToken totpCode]; reflexivity.

Lemma refused_message_nonempty m e : refused_message m e ≠ [].
Proof.
  unfold refused_message. destruct e as [[|c e]|]; [destruct m; vm_compute; discriminate| |
    destruct m; vm_compute; discriminate].
  destruct (_ || _); [discriminate|destruct m; vm_compute; discriminate].
Qed.

(** ** Properties *)

(** Signing in is the server's decision. In every run of the page, a new
    session carries the token of a reply that accepted the login, either
    directly, without a pending second factor, or in the second step; the code
    form is shown only after the server issued a challenge, and submits that
    challenge's token, which is not empty; and no two requests overlap. *)
Theorem login_run_safety st0 es p :
  reachable st0 es p →
  (∀ i s, session (authState p) = Some (i, s) →
     session st0 = Some (i, s) ∨ ∃ e, In e es ∧ grants e (token s)) ∧
  (mode (form p) = TotpMode →
     challengeToken (form p) ≠ [] ∧ (∃ e, In e es ∧ challenges e (challengeToken (form p))) ∧
     (handleTotpSubmit (form p)).2 =
       Challenge (JObj [(js "challenge_token", JStr (challengeToken (form p)));
                        (js "code", JStr (totpCode (form p)))])) ∧
  (length (pending p) ≤ 1)%nat ∧ (loading (form p) = false ↔ pending p = []).
Proof.
  intros [H1 H2 H3 H4]%login_reachable_ok. split; [done|]. split; [|split; [done|]].
  - intros Hm. destruct (H3 Hm) as (e & He & Hc). split; [by eapply challenges_nonempty|].
    split; [by exists e|done].
  - rewrite H2. rewrite negb_false_iff. apply bool_decide_eq_true.
Qed.

(** A failed submission changes nothing but the form's error: nobody is
    signed in, the texts and the mode stay, the loading ends, and an error is
    shown; in the second step a refusal also clears the code. *)
Theorem login_errors storage m (r : reply LoginData) (r' : reply LoginReply) f st :
  (∀ d, r ≠ Answered d) → (∀ d, r' ≠ Answered d) →
  (let '(f', st') := submit_reply storage m r f st in
   st' = st ∧ error f' ≠ [] ∧ f' = set_loading false (set_error (error f') f)) ∧
  (let '(f', st') := totp_reply storage r' f st in
   st' = st ∧ error f' ≠ [] ∧
   f' = set_loading false (set_code (match r' with Refused _ => [] | _ => totpCode f end)
          (set_error (error f') f))).
Proof.
  intros Hr Hr'. split.
  - destruct r as [|e|d]; [| |by destruct (Hr d)]; cbn [submit_reply].
    + split; [reflexivity|]. split; [vm_compute; discriminate|]. form_eq.
    + split; [reflexivity|]. split; [apply refused_message_nonempty|]. form_eq.
  - destruct r' as [|e|d]; [| |by destruct (Hr' d)]; cbn [totp_reply].
    + split; [reflexivity|]. split; [vm_compute; discriminate|].
      form_eq.
    + split; [reflexivity|]. split; [vm_compute; discriminate|]. form_eq.
Qed.

(** Signing in again keeps the status and the avatar. When the store's last
    session is still in the browser, a login of the same user takes its status,
    and its avatar unless the server sends one; another user starts online. *)
Theorem relogin_keeps_status old data st :
  json_ok (persisted old) = true →
  let u := own_profile (profile old) in
  let storage := Some (stringify (persisted old)) in
  (r_winkd_id data = winkdId u →
     ∃ i s, session (completeLogin storage data st) = Some (i, s) ∧
       status (own_profile (profile s)) = status u ∧
       avatarData (own_profile (profile s)) =
         match r_avatar_data data with Some a => Some a | None => avatarData u end) ∧
  (r_winkd_id data ≠ winkdId u →
     ∃ i s, session (completeLogin storage data st) = Some (i, s) ∧
       status (own_profile (profile s)) = online ∧
       avatarData (own_profile (profile s)) = r_avatar_data data).
Proof.
  intros Hj. cbv zeta. split; intros Hid; unfold completeLogin.
  - rewrite Hid, (kept_persisted old Hj). do 2 eexists. split; [reflexivity|]. split; [done|].
    cbn. by destruct (r_avatar_data data).
  - unfold kept. rewrite decide_False by done. rewrite stored_profile_persisted by done.
    assert (json_get (js "winkdId") (profile_json (profile old)) =
      Some (JStr (winkdId (own_profile (profile old))))) as -> by done.
    destruct (is_string _ _) eqn:E; [apply is_string_true in E; congruence|].
    do 2 eexists. split; [reflexivity|]. split; [done|]. cbn. by destruct (r_avatar_data data).
Qed.
