(* ===== verification/LoginView.v ===== *)
(** * LoginPage.tsx: the page

    The markup of apps/web/src/pages/LoginPage.tsx over the form of Login.v, with
    the list of sign-in providers, and what it lets a user do. *)

From S2P Require Import Prelude JsString Json Platform Types AuthStore Login Html.

(** The page has no other component's element, and acts by the form's events. *)
Abbreviation node := (html Empty_set event) (only parsing).

(** ** Typing *)

Definition set_username (v : jsstr) (f : Form) : Form :=
  mkForm (mode f) v (email f) (password f) (error f) (loading f) (challengeToken f) (totpCode f).
Definition set_email (v : jsstr) (f : Form) : Form :=
  mkForm (mode f) (username f) v (password f) (error f) (loading f) (challengeToken f) (totpCode f).
Definition set_password (v : jsstr) (f : Form) : Form :=
  mkForm (mode f) (username f) (email f) v (error f) (loading f) (challengeToken f) (totpCode f).

(** ** Providers *)

Definition PROVIDER_LABELS : list (jsstr * jsstr) :=
  map (λ p, (js p.1, js p.2))
    [("discord", "Discord"); ("google", "Google"); ("github", "GitHub"); ("microsoft", "Microsoft");
     ("facebook", "Facebook"); ("twitter", "X / Twitter"); ("twitch", "Twitch"); ("reddit", "Reddit");
     ("spotify", "Spotify"); ("linkedin", "LinkedIn"); ("apple", "Apple"); ("steam", "Steam")]%string.

(** The reply of the first request: [None] when it fails or has no [providers]
    to read, and inside, [None] when they are not an array. *)
Definition providers_reply (r : option (option (list jsstr))) (oauthProviders : list jsstr) : list jsstr :=
  match r with
  | None => oauthProviders
  | Some providers => nullish [] providers
  end.

Definition provider_label (slug : jsstr) : jsstr := nullish slug (map_get slug PROVIDER_LABELS).

(** ** The markup *)

Section page.
Context (API_URL : jsstr).

(** Whether the user, and not a script, changed the password in the field last:
    typing does, another mode keeps the field, and the second step removes it; the
    field that comes back after it gets its value from the script. *)
Definition edited_after (edited : bool) (f : Form) (e : event) (f' : Form) : bool :=
  match e with
  | EInput _ => edited || negb (bool_decide (password f' = password f))
  | _ => edited
  end && negb (bool_decide (mode f' = TotpMode)).

Definition titlebar : node :=
  Element "div" []
    [Element "div" [] [];
     Element "img" [Attr "src" (js "https://i.imgur.com/cg6eejI.png"); Attr "alt" []] [];
     Element "span" [] [text "Winkd Messenger"]].

Definition logo : node :=
  Element "div" []
    [Element "img" [Attr "src" (js "https://i.imgur.com/cg6eejI.png"); Attr "alt" (js "Winkd")] [];
     Element "div" [] [text "Winkd Messenger"];
     Element "div" [] [text "Messaging with actual personality"]].

Definition tab (f : Form) (m : Mode) : node :=
  let on := bool_decide (mode f = m) in
  Element "button"
    [Attr "type" (js "button"); OnClick [ETab m];
     Style "background" (if on then js "rgba(26,90,204,0.1)" else js "transparent");
     Style "borderBottom" (if on then js "2px solid #1a5acc" else js "2px solid transparent");
     Style "fontWeight" (if on then js "600" else js "400");
     Style "color" (if on then js "#0a3a8a" else js "#5a7a9a")]
    [Text (match m with LoginMode => js "Sign In" | _ => js "Create Account" end)].

Definition tabs (f : Form) : list node :=
  show_if (negb (bool_decide (mode f = TotpMode)))
    [Element "div" [] [tab f LoginMode; tab f RegisterMode]].

Definition error_box (f : Form) : list node :=
  show_if (nonempty (error f)) [Element "div" [] [Text (error f)]].

Definition submit_button (f : Form) (label : jsstr) : node :=
  Element "button"
    [Attr "type" (js "submit"); Flag "disabled" (loading f);
     Style "background" (if loading f then js "rgba(100,140,200,0.4)"
                         else js "linear-gradient(180deg, #2060c0 0%, #1450a0 100%)");
     Style "color" (if loading f then js "rgba(200,220,255,0.6)" else js "#fff");
     Style "cursor" (if loading f then js "wait" else js "pointer")]
    [Text label].

Definition totp_heading : node :=
  Element "div" []
    [Element "div" [] [text "🔐"];
     Element "div" [] [text "Two-Factor Authentication"];
     Element "div" []
       [text "Enter the 6-digit code from your authenticator app,"; Element "br" [] [];
        text "or paste one of your backup codes."]].

Definition totp_input (f : Form) : node :=
  Element "div" []
    [Element "label" [] [text "Code"];
     Element "input"
       [Attr "type" (js "text"); Flag "required" true; Flag "autoFocus" true;
        Attr "autoComplete" (js "one-time-code"); Attr "inputMode" (js "numeric");
        Num "maxLength" 36; Attr "placeholder" (js "000000 or backup-code");
        Attr "value" (totpCode f); OnChange (λ v, [EInput (set_code (remove_spaces v))])] []].

Definition back_button : node :=
  Element "button" [Attr "type" (js "button"); OnClick [EBack]] [text "← Back to Sign In"].

Definition totp_form (f : Form) : list node :=
  show_if (bool_decide (mode f = TotpMode))
    [Element "form" [OnSubmit [ETotpSubmit]]
       ([totp_heading; totp_input f] ++ error_box f ++
        [submit_button f (if loading f then js "Verifying…" else js "Verify"); back_button])].

Definition username_input (f : Form) : node :=
  Element "div" []
    [Element "label" [] [text "Username"];
     Element "input"
       [Attr "type" (js "text"); Flag "required" true; Attr "autoComplete" (js "username");
        Attr "value" (username f); OnChange (λ v, [EInput (set_username v)])] []].

Definition email_input (f : Form) : list node :=
  show_if (bool_decide (mode f = RegisterMode))
    [Element "div" []
       [Element "label" [] [text "Email"; text " "; Element "span" [] [text "(optional)"]];
        Element "input"
          [Attr "type" (js "email"); Attr "autoComplete" (js "email"); Attr "value" (email f);
           OnChange (λ v, [EInput (set_email v)]); Attr "placeholder" (js "you@example.com")] []]].

Definition password_input (edited : bool) (f : Form) : node :=
  let register := bool_decide (mode f = RegisterMode) in
  Element "div" []
    ([Element "label" [] [text "Password"];
      Element "input"
        [Attr "type" (js "password"); Flag "required" true;
         Attr "autoComplete" (if register then js "new-password" else js "current-password");
         Num "minLength" (if register then 12 else 1); Flag "edited" edited;
         Attr "value" (password f); OnChange (λ v, [EInput (set_password v)])] []] ++
     show_if register [Element "div" [] [text "Minimum 12 characters"]]).

Definition password_form (edited : bool) (f : Form) : list node :=
  show_if (negb (bool_decide (mode f = TotpMode)))
    [Element "form" [OnSubmit [ESubmit]]
       ([username_input f] ++ email_input f ++ [password_input edited f] ++ error_box f ++
        [submit_button f
           (if loading f then js "Please wait…"
            else if bool_decide (mode f = LoginMode) then js "Sign In" else js "Create Account")])].

Definition provider_link (slug : jsstr) : node :=
  Element "a" [Attr "href" (API_URL ++ js "/api/auth/oauth/" ++ slug ++ js "/start")]
    [Text (provider_label slug)].

Definition oauth_buttons (f : Form) (oauthProviders : list jsstr) : list node :=
  show_if (negb (bool_decide (mode f = TotpMode)) && (0 <? length oauthProviders)%nat)
    [Element "div" []
       [Element "div" [] [Element "div" [] []; Element "span" [] [text "or continue with"]; Element "div" [] []];
        Element "div" [] (map provider_link oauthProviders)]].

Definition more_options (f : Form) : list node :=
  show_if (negb (bool_decide (mode f = TotpMode)))
    [Element "div" [] [Element "a" [Attr "href" (js "/login.html")] [text "More sign-in options →"]]].

Definition LoginPage (oauthProviders : list jsstr) (edited : bool) (f : Form) : node :=
  Element "div" []
    [Element "div" []
       [titlebar;
        Element "div" []
          ([logo] ++ tabs f ++ totp_form f ++ password_form edited f ++ oauth_buttons f oauthProviders ++
           more_options f)]].

(** ** What the page offers *)

Definition password_ok (edited : bool) (f : Form) : bool :=
  nonempty (password f) &&
  (negb edited || ((if bool_decide (mode f = RegisterMode) then 12 else 1) <=? length (password f))%nat).

Lemma error_box_fields f : all_valid (error_box f) = true ∧ has_submit (error_box f) = false.
Proof. unfold error_box. by destruct (nonempty (error f)). Qed.

Lemma totp_fields f l :
  can_submit ([totp_heading; totp_input f] ++ error_box f ++ [submit_button f l; back_button]) =
    negb (loading f) && nonempty (totpCode f).
Proof.
  unfold can_submit. rewrite !has_submit_app, !all_valid_app.
  destruct (error_box_fields f) as [-> ->]. destruct f as [? ? ? ? ? [] ? [|? ?]]; vm_compute; reflexivity.
Qed.

Lemma password_fields edited f l :
  can_submit ([username_input f] ++ email_input f ++ [password_input edited f] ++ error_box f ++ [submit_button f l]) =
    negb (loading f) && (nonempty (username f) && password_ok edited f).
Proof.
  assert (all_valid [username_input f] = nonempty (username f)) as Hu
    by by destruct f as [? [|? ?] ? ? ? ? ? ?]; vm_compute.
  assert (all_valid (email_input f) = true ∧ has_submit (email_input f) = false) as [He He']
    by by destruct f as [[] ? [|? ?] ? ? ? ? ?]; vm_compute.
  assert (all_valid [password_input edited f] = password_ok edited f) as Hp.
  { destruct edited; [|destruct f as [[] ? ? [|? ?] ? ? ? ?]; vm_compute; reflexivity].
    destruct f as [[] ? ? p ? ? ? ?]; do 12 (destruct p as [|? p]; [vm_compute; reflexivity|]);
      vm_compute; reflexivity. }
  unfold can_submit. rewrite !has_submit_app, !all_valid_app.
  destruct (error_box_fields f) as [-> ->]. rewrite Hu, He, He', Hp.
  assert (has_submit [submit_button f l] = negb (loading f)) as -> by by destruct f as [? ? ? ? ? [] ? ?]; vm_compute.
  assert (all_valid [submit_button f l] = true) as -> by by vm_compute.
  assert (has_submit [username_input f] = false) as -> by by vm_compute.
  assert (has_submit [password_input edited f] = false) as -> by by destruct f as [[] ? ? ? ? ? ? ?]; vm_compute.
  by rewrite andb_true_r.
Qed.

Lemma error_box_handlers f : flat_map handlers (error_box f) = [].
Proof. unfold error_box. plain. by destruct (nonempty _). Qed.

(** The links act by the browser, not by handlers of the page. *)
Lemma oauth_handlers f ps : flat_map handlers (oauth_buttons f ps) = [].
Proof.
  unfold oauth_buttons. plain. rewrite (flat_map_map_silent handlers provider_link) by done.
  by destruct (_ && _).
Qed.

Lemma submit_button_handlers f l : handlers (submit_button f l) = [].
Proof. by destruct f as [? ? ? ? ? [] ? ?]. Qed.

Definition typed (f : jsstr → Form → Form) : handler event := HChange None (λ v, [EInput (f v)]).

(** What can be done on the page: the texts of a submitted form are there, and a
    new password that was typed is long enough. *)
Definition page_handlers (edited : bool) (f : Form) : list (handler event) :=
  match mode f with
  | TotpMode =>
      show_if (negb (loading f) && nonempty (totpCode f)) [HSubmit [ETotpSubmit]] ++
      [HChange (Some 36) (λ v, [EInput (set_code (remove_spaces v))]); HClick [EBack]]
  | m =>
      [HClick [ETab LoginMode]; HClick [ETab RegisterMode]] ++
      show_if (negb (loading f) && (nonempty (username f) && password_ok edited f)) [HSubmit [ESubmit]] ++
      [typed set_username] ++ show_if (bool_decide (m = RegisterMode)) [typed set_email] ++
      [typed set_password]
  end.

Lemma form_handlers acts children :
  handlers (Element "form" [OnSubmit acts] children : node) =
    show_if (can_submit children) [HSubmit acts] ++ flat_map handlers children.
Proof. rewrite handlers_Element. cbn. by destruct (can_submit children). Qed.

Lemma login_handlers ps edited f : handlers (LoginPage ps edited f) = page_handlers edited f.
Proof.
  unfold LoginPage, page_handlers. rewrite !handlers_plain. cbn [flat_map]. rewrite !handlers_plain. cbn [flat_map].
  rewrite !handlers_plain, !flat_map_app, oauth_handlers.
  unfold totp_form, password_form, tabs, more_options. rewrite !flat_map_show_if. cbn [flat_map].
  rewrite !form_handlers, totp_fields, password_fields, !flat_map_app, error_box_handlers. cbn [flat_map].
  rewrite !submit_button_handlers. unfold email_input. rewrite flat_map_show_if.
  destruct f as [[] u em p er ld ct tc]; cbn [mode loading username totpCode];
    destruct ld, (nonempty u), (nonempty tc); try destruct (password_ok _ _); reflexivity.
Qed.

(** Whatever the page offers is one event, and the form accepts it. *)
Lemma login_offers ps edited p acts :
  offered (LoginPage ps edited (form p)) acts → ∃ e, acts = [e] ∧ enabled e p.
Proof.
  unfold enabled. intros H. inversion H as [? Hc|? Hc|? Hc|? ? ? Hc|m f s Hc]; rewrite login_handlers in Hc;
    unfold page_handlers, typed in Hc; destruct (mode (form p)) eqn:Hm;
    destruct (loading (form p)) eqn:Hl; cbn in Hc;
    repeat match type of Hc with context [show_if ?b _] => destruct b; cbn in Hc end;
    repeat (destruct Hc as [Hc|Hc]; [first [discriminate Hc|simplify_eq; eexists; split; [reflexivity|]; by repeat split]|]);
    done.
Qed.

(** ** Runs of the rendered page *)

Definition is_reply (e : event) : Prop :=
  match e with EReply _ _ _ | ETotpReply _ _ _ => True | _ => False end.

(** The user does what is on the screen; replies come for pending requests. The
    last two indices are the providers and who changed the password last. *)
Inductive viewed (st0 : AuthState) : list event → Page → list jsstr → bool → Prop :=
  | viewed_start : viewed st0 [] (mkPage initialForm st0 []) [] false
  | viewed_user es p ps edited e :
      viewed st0 es p ps edited → offered (LoginPage ps edited (form p)) [e] →
      viewed st0 (es ++ [e]) (step e p) ps (edited_after edited (form p) e (form (step e p)))
  | viewed_reply es p ps edited e :
      viewed st0 es p ps edited → is_reply e → enabled e p →
      viewed st0 (es ++ [e]) (step e p) ps (edited_after edited (form p) e (form (step e p)))
  | viewed_providers es p ps edited r :
      viewed st0 es p ps edited → viewed st0 es p (providers_reply r ps) edited.

Definition code_ok (c : jsstr) : Prop := (length c ≤ 36)%nat ∧ Forall (λ u, is_space u = false) c.

(** What the fields of a form guarantee of a request; [came_back] when the user
    has returned from the second step. *)
Definition request_ok (came_back : Prop) (r : request) : Prop :=
  match r with
  | Submit endpoint body m =>
      ∃ f, endpoint = submit_endpoint f ∧ body = submit_body f ∧ m = mode f ∧
           username f ≠ [] ∧ password f ≠ [] ∧
           (m = RegisterMode → (12 ≤ length (password f))%nat ∨ came_back)
  | Challenge body =>
      ∃ token code, body = JObj [(js "challenge_token", JStr token); (js "code", JStr code)] ∧
        token ≠ [] ∧ code ≠ [] ∧ code_ok code
  end.

Lemma request_ok_mono (P Q : Prop) r : (P → Q) → request_ok P r → request_ok Q r.
Proof.
  intros HPQ. destruct r as [ep b m|b]; [|done]. intros (f & ? & ? & ? & ? & ? & H). exists f. split_and!; [done..|].
  intros [?|?]%H; [by left|right; by apply HPQ].
Qed.

Lemma remove_spaces_ok v : (length v ≤ 36)%nat → code_ok (remove_spaces v).
Proof. intros Hl. destruct (remove_spaces_spec v). split; [lia|done]. Qed.

Lemma nonempty_true s : nonempty s = true → s ≠ [].
Proof. unfold nonempty. by intros H%negb_true_iff%bool_decide_eq_false. Qed.

Lemma pending_remove_at P i l : Forall (request_ok P) l → Forall (request_ok P) (remove_at i l).
Proof. intros H. apply list.Forall_app. split; [by apply Forall_take|by apply Forall_drop]. Qed.

(** A submission, and what the fields' constraints say of it. *)
Lemma submitted acts edited f :
  In (HSubmit acts) (page_handlers edited f) →
  acts = [ETotpSubmit] ∧ mode f = TotpMode ∧ totpCode f ≠ [] ∨
  acts = [ESubmit] ∧ mode f ≠ TotpMode ∧ username f ≠ [] ∧ password f ≠ [] ∧
    (mode f = RegisterMode → edited = true → (12 ≤ length (password f))%nat).
Proof.
  unfold page_handlers, typed. destruct (mode f) eqn:Hm; cbn;
    rewrite ?in_app_iff; destruct (loading f); cbn; try (intros; naive_solver).
  3: { destruct (nonempty (totpCode f)) eqn:Hne; cbn; intros Ho; [|naive_solver].
       left. apply nonempty_true in Hne. naive_solver. }
  all: destruct (nonempty (username f)) eqn:Hu; cbn; intros Ho; [|naive_solver];
    destruct (password_ok edited f) eqn:Hpw; cbn in Ho; [|naive_solver];
    apply andb_true_iff in Hpw as [Hpw Hl]; apply nonempty_true in Hu, Hpw; right; rewrite Hm in Hl.
  - naive_solver.
  - split; [naive_solver|]. split_and!; [done..|]. intros _ ->. cbn in Hl. by apply Nat.leb_le in Hl.
Qed.

(** Until the user comes back from the second step, the password is the user's own
    or the form is gone. *)
Definition password_known (es : list event) (edited : bool) (f : Form) : Prop :=
  In EBack es ∨ mode f = TotpMode ∨ edited = true ∨ password f = [].

Lemma password_known_step es edited f e f' :
  password_known es edited f →
  match e with EInput g => mode f' = mode f | EBack => True | _ => password f' = password f ∧ (mode f = TotpMode → mode f' = TotpMode) end →
  password_known (es ++ [e]) (edited_after edited f e f') f'.
Proof.
  unfold password_known, edited_after. intros [H|H] He; [left; apply in_or_app; by left|].
  destruct e as [g|m| | | |i sto r|i sto r]; try (left; apply in_or_app; right; by left).
  { rewrite He. destruct (decide (mode f = TotpMode)) as [Hm|Hm]; [tauto|]. right. right.
    rewrite (bool_decide_false (mode f = TotpMode)) by done. rewrite andb_true_r.
    case_bool_decide as Ep; cbn; rewrite ?orb_false_r, ?orb_true_r; [|by left]. rewrite Ep. tauto. }
  all: destruct He as [Ep Em]; destruct (decide (mode f' = TotpMode)) as [|Hm]; [tauto|];
    rewrite (bool_decide_false (mode f' = TotpMode)), andb_true_r, Ep by done; tauto.
Qed.

(** What an event of the page does to the password. *)
Lemma step_password e p :
  enabled e p →
  match e with
  | EInput g => mode (form (step e p)) = mode (form p)
  | EBack => True
  | _ => password (form (step e p)) = password (form p) ∧
         (mode (form p) = TotpMode → mode (form (step e p)) = TotpMode)
  end.
Proof.
  destruct e as [g|m| | | |i sto r|i sto r]; cbn; try done.
  - intros Hg. by destruct (Hg (form p)).
  - intros [Hm _]. by split.
  - intros (a & b & m & ->). unfold submit_reply.
    destruct r as [|er|[[] [[|c t]|] d]]; cbn; by split.
  - intros (b & _). unfold totp_reply. destruct r as [|er|d]; cbn; by split.
Qed.

(** A user event of the page, as what it does to the code and the requests. *)
Lemma offered_ok st0 es ps edited p e :
  page_ok st0 es p → password_known es edited (form p) →
  code_ok (totpCode (form p)) → Forall (request_ok (In EBack es)) (pending p) →
  offered (LoginPage ps edited (form p)) [e] →
  code_ok (totpCode (form (step e p))) ∧ Forall (request_ok (In EBack es)) (pending (step e p)).
Proof.
  intros [_ _ Hch _] Hk Hc Hp H. remember [e] as acts eqn:Ea.
  inversion H as [? Ho|? Ho|? Ho|? ? ? Ho|m f s Ho Hn]; subst; rewrite login_handlers in Ho;
    unfold page_handlers, typed in Ho.
  3: { apply submitted in Ho as [([= ->] & Hm & Hne)|([= ->] & Hm & Hu & Hpw & Hl)]; cbn; (split; [done|]);
      (apply list.Forall_app; split; [done|constructor; [|constructor]]).
    - exists (challengeToken (form p)), (totpCode (form p)). split; [done|].
      split; [|done]. destruct (Hch Hm) as (e & _ & He). by eapply challenges_nonempty.
    - exists (form p). split_and!; [done..|]. intros Hr. destruct Hk as [?|[?|[He|?]]]; [by right|done| |done].
      left. by apply Hl. }
  all: destruct (mode (form p)) eqn:Hm; cbn in Ho;
    repeat match type of Ho with context [show_if ?b _] => destruct b; cbn in Ho end;
    repeat (destruct Ho as [Ho|Ho]; [first [discriminate Ho|simplify_eq; cbn; try done]|]); try done.
  all: split; [|done]; apply remove_spaces_ok; specialize (Hn 36 eq_refl); lia.
Qed.

Lemma reply_ok P e p :
  is_reply e → code_ok (totpCode (form p)) → Forall (request_ok P) (pending p) →
  code_ok (totpCode (form (step e p))) ∧ Forall (request_ok P) (pending (step e p)).
Proof.
  assert (code_ok []) as Hnil by (split; [cbn; lia|constructor]).
  intros He Hc Hp. destruct e as [| | | | |i storage r|i storage r]; try done; cbn.
  - destruct (pending p !! i) as [[ep b m|b]|]; [|done..].
    destruct (submit_reply storage m r (form p) (authState p)) as [f st] eqn:E. cbn.
    split; [|by apply pending_remove_at]. unfold submit_reply in E.
    destruct r as [|er|[[] [[|c t]|] d]]; injection E as <- _; done.
  - destruct (totp_reply storage r (form p) (authState p)) as [f st] eqn:E. cbn.
    split; [|by apply pending_remove_at]. unfold totp_reply in E.
    destruct r as [|er|d]; injection E as <- _; done.
Qed.

Lemma requests_more es e l :
  Forall (request_ok (In EBack es)) l → Forall (request_ok (In EBack (es ++ [e]))) l.
Proof. apply List.Forall_impl. intros r. apply request_ok_mono. intros ?. apply in_or_app. by left. Qed.


End page.
