(* ===== verification/Security.v ===== *)
(** * SecuritySettings.tsx: second factor, backup codes, devices, audit log

    The panel of apps/web/src/components/SecuritySettings.tsx as a state
    machine: what each button does, when it is shown and enabled, what each
    handler does with the reply, and the timers of [flash]. A reply that is not
    ok carries no data; a request that fails ends the loading and nothing else.
    The data of a reply are typed as the code casts them. *)

From S2P Require Import Prelude JsString Platform.

(** ** Data *)

Record Device := mkDevice {
  dev_id : jsstr;
  device_id : Z;
  device_name : jsstr;
  registered_at : jsstr;
  last_seen : jsstr;
}.

Record AuditEntry := mkAudit {
  audit_id : jsstr; action : jsstr; ip_address : option jsstr; created_at : jsstr }.

Inductive SetupStep := Idle | Qr | Done.

#[global] Instance SetupStep_eq_dec : EqDecision SetupStep.
Proof. solve_decision. Defined.

Record Panel := mkPanel {
  totpEnabled : bool;
  recoveryRemaining : option Z;
  totpSetupUri : jsstr;
  totpSetupSecret : jsstr;
  confirmCode : jsstr;
  disableCode : jsstr;
  regenCode : jsstr;
  backupCodes : list jsstr;
  setupStep : SetupStep;
  devices : list Device;
  auditLog : list AuditEntry;
  auditLoaded : bool;
  msg : jsstr;
  err : jsstr;
  loading : bool;
}.

Definition initialPanel : Panel :=
  mkPanel false None [] [] [] [] [] [] Idle [] [] false [] [] false.

(** The device list has its own request state. *)
Record DeviceList := mkDeviceList { devicesLoading : bool; devicesError : jsstr }.

(** ** Setters *)

Definition set_totp (b : bool) (p : Panel) : Panel :=
  mkPanel b (recoveryRemaining p) (totpSetupUri p) (totpSetupSecret p) (confirmCode p) (disableCode p)
    (regenCode p) (backupCodes p) (setupStep p) (devices p) (auditLog p) (auditLoaded p) (msg p) (err p) (loading p).
Definition set_remaining (n : option Z) (p : Panel) : Panel :=
  mkPanel (totpEnabled p) n (totpSetupUri p) (totpSetupSecret p) (confirmCode p) (disableCode p)
    (regenCode p) (backupCodes p) (setupStep p) (devices p) (auditLog p) (auditLoaded p) (msg p) (err p) (loading p).
Definition set_setup (secret uri : jsstr) (p : Panel) : Panel :=
  mkPanel (totpEnabled p) (recoveryRemaining p) uri secret (confirmCode p) (disableCode p)
    (regenCode p) (backupCodes p) (setupStep p) (devices p) (auditLog p) (auditLoaded p) (msg p) (err p) (loading p).
Definition set_codes (confirm disable regen : jsstr) (p : Panel) : Panel :=
  mkPanel (totpEnabled p) (recoveryRemaining p) (totpSetupUri p) (totpSetupSecret p) confirm disable regen
    (backupCodes p) (setupStep p) (devices p) (auditLog p) (auditLoaded p) (msg p) (err p) (loading p).
Definition set_backup (l : list jsstr) (p : Panel) : Panel :=
  mkPanel (totpEnabled p) (recoveryRemaining p) (totpSetupUri p) (totpSetupSecret p) (confirmCode p) (disableCode p)
    (regenCode p) l (setupStep p) (devices p) (auditLog p) (auditLoaded p) (msg p) (err p) (loading p).
Definition set_step (s : SetupStep) (p : Panel) : Panel :=
  mkPanel (totpEnabled p) (recoveryRemaining p) (totpSetupUri p) (totpSetupSecret p) (confirmCode p) (disableCode p)
    (regenCode p) (backupCodes p) s (devices p) (auditLog p) (auditLoaded p) (msg p) (err p) (loading p).
Definition set_devices (l : list Device) (p : Panel) : Panel :=
  mkPanel (totpEnabled p) (recoveryRemaining p) (totpSetupUri p) (totpSetupSecret p) (confirmCode p) (disableCode p)
    (regenCode p) (backupCodes p) (setupStep p) l (auditLog p) (auditLoaded p) (msg p) (err p) (loading p).
Definition set_audit (l : list AuditEntry) (p : Panel) : Panel :=
  mkPanel (totpEnabled p) (recoveryRemaining p) (totpSetupUri p) (totpSetupSecret p) (confirmCode p) (disableCode p)
    (regenCode p) (backupCodes p) (setupStep p) (devices p) l true (msg p) (err p) (loading p).
Definition set_texts (m e : jsstr) (p : Panel) : Panel :=
  mkPanel (totpEnabled p) (recoveryRemaining p) (totpSetupUri p) (totpSetupSecret p) (confirmCode p) (disableCode p)
    (regenCode p) (backupCodes p) (setupStep p) (devices p) (auditLog p) (auditLoaded p) m e (loading p).
Definition set_loading (b : bool) (p : Panel) : Panel :=
  mkPanel (totpEnabled p) (recoveryRemaining p) (totpSetupUri p) (totpSetupSecret p) (confirmCode p) (disableCode p)
    (regenCode p) (backupCodes p) (setupStep p) (devices p) (auditLog p) (auditLoaded p) (msg p) (err p) b.

(** ** Requests and replies *)

Inductive request :=
  | Setup | Confirm (code : jsstr) | Disable (code : jsstr) | Regenerate (code : jsstr)
  | Revoke (id : Z) | Audit.

(** The data of an ok reply. *)
Inductive answer :=
  | SetupData (secret uri : jsstr)
  | CodesData (backup_codes : list jsstr)
  | NoData
  | AuditData (events : option (list AuditEntry)).

Inductive reply :=
  | Failed           (** [fetch] or [json()] rejects: only [finally] runs *)
  | Refused          (** the status is not ok *)
  | Answered (a : answer).

(** [flash] shows the text and sets a timer, which is the caller's output. *)
Definition flash (m : jsstr) (isErr : bool) (p : Panel) : Panel :=
  if isErr then set_texts [] m p else set_texts m [] p.

(** The panel, its request and the timers that are still to fire. *)
Record View := mkView {
  panel : Panel;
  deviceList : DeviceList;
  pending : option request;
  timers : nat;
}.

Definition initialView : View := mkView initialPanel (mkDeviceList false []) None 0.

Definition with_panel (f : Panel → Panel) (v : View) : View :=
  mkView (f (panel v)) (deviceList v) (pending v) (timers v).

(** The beginning of a handler, up to its [fetch]. *)
Definition begin (r : request) (v : View) : View :=
  mkView (set_loading true (panel v)) (deviceList v) (Some r) (timers v).

(** Its end: the update, then [finally]; [n] timers were set. *)
Definition finish (f : Panel → Panel) (n : nat) (v : View) : View :=
  mkView (set_loading false (f (panel v))) (deviceList v) None (timers v + n).

Definition setup_reply (r : reply) : View → View :=
  match r with
  | Failed => finish id 0
  | Refused => finish (flash (js "Setup failed.") true) 1
  | Answered (SetupData secret uri) =>
      finish (λ p, set_codes [] (disableCode p) (regenCode p) (set_step Qr (set_setup secret uri p))) 0
  | Answered _ => id
  end.

Definition confirm_reply (r : reply) : View → View :=
  match r with
  | Failed => finish id 0
  | Refused => finish (flash (js "Invalid code. Check your authenticator app.") true) 1
  | Answered (CodesData codes) =>
      finish (λ p, flash (js "2FA enabled! Save your backup codes.") false
                     (set_step Done (set_totp true (set_backup codes p)))) 1
  | Answered _ => id
  end.

Definition disable_reply (r : reply) : View → View :=
  match r with
  | Failed => finish id 0
  | Refused => finish (flash (js "Invalid code.") true) 1
  | Answered NoData =>
      finish (λ p, flash (js "2FA has been disabled.") false
                     (set_codes (confirmCode p) [] (regenCode p) (set_totp false p))) 1
  | Answered _ => id
  end.

Definition regenerate_reply (r : reply) : View → View :=
  match r with
  | Failed => finish id 0
  | Refused => finish (flash (js "Invalid code.") true) 1
  | Answered (CodesData codes) =>
      finish (λ p, flash (js "New backup codes generated. Save them now — they won't be shown again.") false
                     (set_codes (confirmCode p) (disableCode p) []
                        (set_remaining (Some (Z.of_nat (length codes))) (set_backup codes p)))) 1
  | Answered _ => id
  end.

Definition revoke_reply (deviceId : Z) (r : reply) : View → View :=
  match r with
  | Failed => finish id 0
  | Refused => finish (flash (js "Could not revoke device.") true) 1
  | Answered NoData =>
      finish (λ p, flash (js "Device revoked.") false
                     (set_devices (List.filter (λ d, negb (device_id d =? deviceId)) (devices p)) p)) 1
  | Answered _ => id
  end.

Definition audit_reply (r : reply) : View → View :=
  match r with
  | Failed => finish id 0
  | Refused => finish (flash (js "Could not load audit log.") true) 1
  | Answered (AuditData events) => finish (set_audit (nullish [] events)) 0
  | Answered _ => id
  end.

Definition handle_reply (r : request) : reply → View → View :=
  match r with
  | Setup => setup_reply
  | Confirm _ => confirm_reply
  | Disable _ => disable_reply
  | Regenerate _ => regenerate_reply
  | Revoke id => revoke_reply id
  | Audit => audit_reply
  end.

(** The data a request's ok reply has. *)
Definition answers (r : request) (a : answer) : bool :=
  match r, a with
  | Setup, SetupData _ _ | Confirm _, CodesData _ | Disable _, NoData | Regenerate _, CodesData _
  | Revoke _, NoData | Audit, AuditData _ => true
  | _, _ => false
  end.

(** ** What is on the screen *)

Definition enable_card (p : Panel) : bool := negb (totpEnabled p) && bool_decide (setupStep p = Idle).
Definition setup_card (p : Panel) : bool := bool_decide (setupStep p = Qr).
Definition codes_card (p : Panel) : bool :=
  bool_decide (setupStep p = Done) && (0 <? length (backupCodes p))%nat.
Definition manage_card (p : Panel) : bool := totpEnabled p && bool_decide (setupStep p = Idle).
Definition recovery_section (p : Panel) : bool := totpEnabled p.

(** ** Events *)

Inductive event :=
  | EStatus (enabled : bool) (remaining : Z)            (** the reply of the first request *)
  | EDevicesStart
  | EDevices (r : option (option (list Device)))        (** [None] when it fails *)
  | EInput (confirm disable regen : jsstr)
  | EStart | EConfirm | ECancel | EDoneSetup
  | EDisable | ERegenerate | EDoneCodes
  | ERevoke (id : Z) | EAudit
  | EReply (r : reply)
  | ETimer.

(** A button is pressed only when it is shown and not disabled. *)
Definition enabled (e : event) (v : View) : bool :=
  let p := panel v in
  match e with
  | EStart => enable_card p && negb (loading p)
  | EConfirm => setup_card p && negb (loading p) && (length (confirmCode p) =? 6)%nat
  | ECancel => setup_card p && negb (loading p)
  | EDoneSetup => codes_card p
  | EDisable => manage_card p && negb (loading p) && (6 <=? length (js_trim (disableCode p)))%nat
  | ERegenerate =>
      recovery_section p && bool_decide (backupCodes p = []) && negb (loading p) &&
      (6 <=? length (js_trim (regenCode p)))%nat
  | EDoneCodes => recovery_section p && negb (bool_decide (backupCodes p = []))
  | ERevoke id => existsb (λ d, device_id d =? id) (devices p) && negb (loading p)
  | EAudit => negb (auditLoaded p) && negb (loading p)
  | EReply (Answered a) => match pending v with Some r => answers r a | None => false end
  | EReply _ => bool_decide (is_Some (pending v))
  | ETimer => (0 <? timers v)%nat
  | EStatus _ _ | EDevicesStart | EDevices _ | EInput _ _ _ => true
  end.

Definition step (e : event) (v : View) : View :=
  let p := panel v in
  match e with
  | EStatus b n => with_panel (λ p, set_remaining (Some n) (set_totp b p)) v
  | EDevicesStart => mkView p (mkDeviceList true []) (pending v) (timers v)
  | EDevices None =>
      mkView p (mkDeviceList false (js "Could not load connected devices right now.")) (pending v) (timers v)
  | EDevices (Some l) =>
      mkView (set_devices (nullish [] l) p) (mkDeviceList false (devicesError (deviceList v))) (pending v) (timers v)
  | EInput c d r => with_panel (set_codes c d r) v
  | EStart => begin Setup v
  | EConfirm => begin (Confirm (confirmCode p)) v
  | ECancel => with_panel (set_step Idle) v
  | EDoneSetup => with_panel (λ p, set_backup [] (set_step Idle p)) v
  | EDisable => if decide (js_trim (disableCode p) = []) then v else begin (Disable (disableCode p)) v
  | ERegenerate => if decide (js_trim (regenCode p) = []) then v else begin (Regenerate (regenCode p)) v
  | EDoneCodes => with_panel (set_backup []) v
  | ERevoke id => begin (Revoke id) v
  | EAudit => begin Audit v
  | EReply r => match pending v with Some q => handle_reply q r v | None => v end
  | ETimer => mkView (set_texts [] [] p) (deviceList v) (pending v) (timers v - 1)
  end.

Inductive reachable : list event → View → Prop :=
  | reach_start : reachable [] initialView
  | reach_step es e v :
      reachable es v → enabled e v = true → reachable (es ++ [e]) (step e v).

(** The same, computed. *)
Fixpoint run_events (es : list event) (v : View) : option View :=
  match es with
  | [] => Some v
  | e :: es => if enabled e v then run_events es (step e v) else None
  end.

(** ** Invariants *)

Record view_ok (v : View) : Prop := {
  vo_loading : loading (panel v) = bool_decide (is_Some (pending v));
  vo_pending : match pending v with
               | Some (Confirm c) => length c = 6%nat
               | Some (Disable c) | Some (Regenerate c) => js_trim c ≠ []
               | _ => True
               end;
  vo_texts : msg (panel v) = [] ∨ err (panel v) = [];
  vo_timers : msg (panel v) ≠ [] ∨ err (panel v) ≠ [] → (0 < timers v)%nat;
}.

Lemma flash_texts m b p :
  (msg (flash m b p) = [] ∨ err (flash m b p) = []) ∧ loading (flash m b p) = loading p.
Proof. destruct b; cbn; auto. Qed.

Lemma finish_ok f n v :
  (msg (f (panel v)) = [] ∨ err (f (panel v)) = []) →
  (msg (f (panel v)) ≠ [] ∨ err (f (panel v)) ≠ [] → (0 < timers v + n)%nat) →
  view_ok (finish f n v).
Proof. intros H1 H2. by split. Qed.

Lemma handle_reply_ok q r v :
  view_ok v → (∀ a, r = Answered a → answers q a = true) → view_ok (handle_reply q r v).
Proof.
  intros [H1 H2 H3 H4] Ha.
  assert (∀ f, msg (f (panel v)) = msg (panel v) → err (f (panel v)) = err (panel v) →
    view_ok (finish f 0 v)) as Hsame.
  { intros f Em Ee. apply finish_ok; rewrite Em, Ee; [done|]. intros H. specialize (H4 H). lia. }
  assert (∀ m b f, view_ok (finish (λ p, flash m b (f p)) 1 v)) as Hflash.
  { intros m b f. apply finish_ok; [apply flash_texts|lia]. }
  assert (∀ m, view_ok (finish (flash m true) 1 v)) as Hrefuse by (intros m; exact (Hflash m true id)).
  destruct r as [| |a].
  - by destruct q; apply Hsame.
  - by destruct q; apply Hrefuse.
  - specialize (Ha a eq_refl). destruct q, a; try done; first [by apply Hsame|apply Hflash].
Qed.

Lemma handle_reply_done q r v :
  (∀ a, r = Answered a → answers q a = true) →
  pending (handle_reply q r v) = None ∧ loading (panel (handle_reply q r v)) = false.
Proof.
  intros Ha. destruct r as [| |a]; [by destruct q..|].
  specialize (Ha a eq_refl). by destruct q, a.
Qed.

Lemma reply_enabled r v q :
  enabled (EReply r) v = true → pending v = Some q → ∀ a, r = Answered a → answers q a = true.
Proof. intros He Hq a ->. cbn in He. by rewrite Hq in He. Qed.

Lemma begin_ok q v :
  view_ok v → match q with Confirm c => length c = 6%nat | Disable c | Regenerate c => js_trim c ≠ [] | _ => True end →
  view_ok (begin q v).
Proof. intros [H1 H2 H3 H4] Hq. split; cbn; done. Qed.

(** A change of the panel that keeps its texts and its loading. *)
Lemma with_panel_ok f v :
  loading (f (panel v)) = loading (panel v) → msg (f (panel v)) = msg (panel v) →
  err (f (panel v)) = err (panel v) → view_ok v → view_ok (with_panel f v).
Proof. intros E1 E2 E3 [H1 H2 H3 H4]. split; cbn; rewrite ?E1, ?E2, ?E3; done. Qed.

Lemma view_ok_step e v : view_ok v → enabled e v = true → view_ok (step e v).
Proof.
  intros Hv He. destruct e; cbn [step];
    try (by apply with_panel_ok); try (by apply begin_ok); try (destruct Hv; by split).
  - destruct r as [l|]; destruct Hv; by split.
  - apply begin_ok; [done|]. cbn in He. apply andb_true_iff in He as [_ He]. by apply Nat.eqb_eq in He.
  - destruct (decide _); [done|]. by apply begin_ok.
  - destruct (decide _); [done|]. by apply begin_ok.
  - destruct (pending v) as [q|] eqn:E; [|done]. apply handle_reply_ok; [done|]. by eapply reply_enabled.
  - destruct Hv as [H1 H2 H3 H4]. split; cbn; [done|done|by left|]. intros [?|?]; done.
Qed.

Lemma panel_reachable_ok es v : reachable es v → view_ok v.
Proof. induction 1 as [|es e v _ IH He]; [|by apply view_ok_step]. split; cbn; auto. intros [?|?]; done. Qed.

(** Firing [n] timers. *)
Lemma timers_run n v :
  (n ≤ timers v)%nat →
  ∃ v', run_events (replicate n ETimer) v = Some v' ∧ pending v' = pending v ∧
    loading (panel v') = loading (panel v) ∧ timers v' = (timers v - n)%nat ∧
    (0 < n → msg (panel v') = [] ∧ err (panel v') = [])%nat ∧ (n = 0%nat → v' = v).
Proof.
  revert v. induction n as [|n IH]; intros v Hn.
  - exists v. split_and!; try done; lia.
  - cbn [replicate run_events]. assert (enabled ETimer v = true) as -> by (apply Nat.ltb_lt; lia).
    destruct (IH (step ETimer v)) as (v' & Hr & Hp & Hl & Ht & Hc & H0); [cbn; lia|].
    exists v'. split_and!; [done|done|done|rewrite Ht; cbn; lia| |done].
    intros _. destruct n; [rewrite H0 by done; done|apply Hc; lia].
Qed.

Lemma panel_run_events_app es1 es2 v :
  run_events (es1 ++ es2) v = match run_events es1 v with Some w => run_events es2 w | None => None end.
Proof.
  revert v. induction es1 as [|e es1 IH]; intros v; cbn; [done|]. destruct (enabled e v); [apply IH|done].
Qed.

(** ** Properties *)

(** Safety of the panel. In every state reached by the buttons that are
    shown and enabled, by replies and by timers: the panel is loading exactly
    while one request is in flight; a code is submitted only with six
    characters, a disabling or regenerating code only when it is not blank; and
    a success and an error are never shown together. *)
Theorem panel_run_safety es v :
  reachable es v →
  (loading (panel v) = true ↔ is_Some (pending v)) ∧
  (∀ c, pending v = Some (Confirm c) → length c = 6%nat) ∧
  (∀ c, pending v = Some (Disable c) ∨ pending v = Some (Regenerate c) → js_trim c ≠ []) ∧
  (msg (panel v) = [] ∨ err (panel v) = []).
Proof.
  intros [H1 H2 H3 H4]%panel_reachable_ok. split; [rewrite H1; apply bool_decide_eq_true|].
  split; [intros c E; by rewrite E in H2|]. split; [|done]. intros c [E|E]; by rewrite E in H2.
Qed.

(** The panel always recovers. From every state it can reach, with whatever
    reply the request in flight gets (the failure of the connection included),
    that reply and the timers already set are enough to end the loading and to
    clear every message. *)
Theorem panel_recovers es v r :
  reachable es v → (is_Some (pending v) → enabled (EReply r) v = true) →
  ∃ es' v', run_events es' v = Some v' ∧
    Forall (λ e, e = EReply r ∨ e = ETimer) es' ∧
    loading (panel v') = false ∧ pending v' = None ∧ msg (panel v') = [] ∧ err (panel v') = [].
Proof.
  intros Hv%panel_reachable_ok Hr.
  assert (∃ es1 v1, run_events es1 v = Some v1 ∧ Forall (λ e, e = EReply r ∨ e = ETimer) es1 ∧
    view_ok v1 ∧ pending v1 = None) as (es1 & v1 & Hr1 & Hf1 & Hv1 & Hp1).
  { destruct (pending v) as [q|] eqn:E; [|exists [], v; split_and!; done].
    assert (enabled (EReply r) v = true) as He by (apply Hr; by eexists).
    exists [EReply r], (step (EReply r) v). cbn [run_events]. rewrite He.
    split; [done|]. split; [repeat constructor|]. split; [by apply view_ok_step|].
    cbn [step]. rewrite E. apply handle_reply_done. by eapply reply_enabled. }
  destruct (timers_run (timers v1) v1) as (v2 & Hr2 & Hp2 & Hl2 & _ & Hc2 & H02); [lia|].
  exists (es1 ++ replicate (timers v1) ETimer), v2. rewrite panel_run_events_app, Hr1. split; [done|].
  split; [apply list.Forall_app; split; [done|]; apply list.Forall_replicate; by right|].
  destruct Hv1 as [L1 _ _ T1]. rewrite Hl2, Hp2, L1, Hp1. split; [done|]. split; [done|].
  destruct (timers v1) as [|n] eqn:En.
  - rewrite H02 by done. destruct (decide (msg (panel v1) = [])) as [|Hm], (decide (err (panel v1) = [])) as [|He];
      [done|exfalso; specialize (T1 (or_intror He)); lia|exfalso; specialize (T1 (or_introl Hm)); lia..].
  - apply Hc2. lia.
Qed.

(** The panel shows the second factor as the server last reported it: only
    the status reply, the acceptance of a confirmation and the acceptance of a
    disabling change it, to what the server said; a refusal or a failure never
    does, and never changes the backup codes or the devices. *)
Theorem totp_follows_server e v :
  enabled e v = true →
  (totpEnabled (panel (step e v)) ≠ totpEnabled (panel v) →
     (∃ b n, e = EStatus b n ∧ totpEnabled (panel (step e v)) = b) ∨
     (∃ c codes, pending v = Some (Confirm c) ∧ e = EReply (Answered (CodesData codes)) ∧
        totpEnabled (panel (step e v)) = true) ∨
     (∃ c, pending v = Some (Disable c) ∧ e = EReply (Answered NoData) ∧
        totpEnabled (panel (step e v)) = false)) ∧
  (e = EReply Failed ∨ e = EReply Refused →
     totpEnabled (panel (step e v)) = totpEnabled (panel v) ∧
     backupCodes (panel (step e v)) = backupCodes (panel v) ∧
     devices (panel (step e v)) = devices (panel v) ∧ setupStep (panel (step e v)) = setupStep (panel v)).
Proof.
  intros He. split.
  - destruct e; cbn [step]; try (by destruct (decide _)); try done; try (by destruct r as [l|]); [eauto|].
    destruct (pending v) as [q|] eqn:E; [|done].
    pose proof (reply_enabled r v q He E) as Ha.
    destruct r as [| |a]; [by destruct q..|]. specialize (Ha a eq_refl).
    destruct q, a; try done; intros _; eauto 10.
  - intros [-> | ->]; cbn [step]; destruct (pending v) as [q|]; try done; by destruct q.
Qed.

(** Revoking a device removes it, and only it, from the list; regenerating
    backup codes shows the new ones with their number. *)
Theorem accepted_requests v id c codes :
  (pending v = Some (Revoke id) →
     ∀ d, In d (devices (panel (step (EReply (Answered NoData)) v))) ↔
       In d (devices (panel v)) ∧ device_id d ≠ id) ∧
  (pending v = Some (Regenerate c) →
     let p := panel (step (EReply (Answered (CodesData codes))) v) in
     backupCodes p = codes ∧ recoveryRemaining p = Some (Z.of_nat (length codes)) ∧ regenCode p = [] ∧
     loading p = false).
Proof.
  split; intros E; cbn [step]; rewrite E; [|done]. intros d. cbn.
  rewrite filter_In, negb_true_iff, Z.eqb_neq. done.
Qed.

Definition six : jsstr := js "123456".
Definition ten_codes : list jsstr := replicate 10 (js "code").

(** Enabling the second factor: status, setup, code, confirmation. *)
Definition enabling : list event :=
  [EStatus false 0; EStart; EReply (Answered (SetupData (js "secret") (js "uri")));
   EInput six [] []; EConfirm; EReply (Answered (CodesData ten_codes))].

(** The second "Done" button hides the controls. After enabling the second
    factor, the backup section's button clears the codes without ending the
    setup: the second factor is on, and no card offers to disable it, nor
    to continue or leave the setup. *)
Theorem done_button_hides_controls :
  match run_events (enabling ++ [EDoneCodes]) initialView with
  | Some v =>
      let p := panel v in
      totpEnabled p = true ∧ setupStep p = Done ∧
      manage_card p = false ∧ enable_card p = false ∧ setup_card p = false ∧ codes_card p = false
  | None => False
  end.
Proof. vm_compute. by repeat split. Qed.

(** The number of backup codes is not updated by enabling: after ten new
    codes the panel says that none remains. *)
Theorem remaining_codes_stale :
  match run_events (enabling ++ [EDoneSetup]) initialView with
  | Some v => manage_card (panel v) = true ∧ recoveryRemaining (panel v) = Some 0
  | None => False
  end.
Proof. vm_compute. by split. Qed.

(** A timer clears whatever message is shown when it fires: the timer of an
    earlier message removes a later one, whose own timer is still to come. *)
Theorem old_timer_clears_new_message :
  match run_events [EAudit; EReply Refused; EAudit; EReply Refused] initialView with
  | Some v =>
      err (panel v) ≠ [] ∧ timers v = 2%nat ∧
      err (panel (step ETimer v)) = [] ∧ timers (step ETimer v) = 1%nat
  | None => False
  end.
Proof. vm_compute. by repeat split. Qed.
