(* ===== verification/SecurityView.v ===== *)
(** * SecuritySettings.tsx: the panel's markup

    The markup of apps/web/src/components/SecuritySettings.tsx over the state of
    Security.v, and what it lets a user do. *)

From S2P Require Import Prelude JsString Json Platform Security Html.

(** The panel's events, and the [onClose] of its parent. *)
Inductive SecurityAction :=
  | Act (e : event)
  | Close.

Abbreviation node := (html Empty_set SecurityAction) (only parsing).

(** [s.replace(/\D/g, '')] *)
Definition only_digits (s : jsstr) : jsstr := List.filter is_digit s.

Definition actionLabel : list (jsstr * jsstr) :=
  map (λ p, (js p.1, js p.2))
    [("login", "✅ Login"); ("login_failed", "❌ Login failed"); ("register", "🆕 Account created");
     ("logout", "👋 Logged out"); ("totp_enabled", "🔐 2FA enabled"); ("totp_disabled", "🔓 2FA disabled");
     ("totp_challenge_issued", "🔑 2FA challenge issued"); ("totp_challenge_passed", "✅ 2FA passed");
     ("totp_challenge_failed", "❌ 2FA failed"); ("recovery_code_used", "🔑 Backup code used");
     ("recovery_codes_regenerated", "🔄 Backup codes regenerated");
     ("device_registered", "💻 Device registered"); ("device_revoked", "🗑️ Device revoked");
     ("password_changed", "🔒 Password changed")]%string.

Definition currentDeviceId (devices : list Device) : option Z := device_id <$> head devices.

Section panel.
(** [fmtDate]: the browser's format of a date, and the session's token. *)
Context (fmtDate : jsstr → jsstr) (token : jsstr).

(** A button; it is disabled when the flag is set. *)
Definition button (label : jsstr) (disabled : bool) (h : list SecurityAction) : node :=
  Element "button" [OnClick h; Flag "disabled" disabled] [Text label].

Definition code_input (placeholder : string) (mode : string) (max : Z) (v : jsstr)
    (h : jsstr → list SecurityAction) : node :=
  Element "input"
    [Attr "placeholder" (js placeholder); Num "maxLength" max; Attr "inputMode" (js mode);
     Attr "value" v; OnChange h] [].

Definition header : node :=
  Element "div" []
    [Element "div" [] [text "🛡 Security Settings"];
     Element "button" [OnClick [Close]] [text "×"]].

Definition messages (p : Panel) : list node :=
  show_if (nonempty (msg p)) [Element "div" [] [Text (msg p)]] ++
  show_if (nonempty (err p)) [Element "div" [] [Text (err p)]].

Definition enable_view (p : Panel) : list node :=
  show_if (enable_card p)
    [Element "div" []
       [Element "div" []
          [text "2FA is "; Element "strong" [] [text "disabled"];
           text ". Enable it to require a time-based code at every login."];
        button (js "Enable 2FA") (loading p) [Act EStart]]].

Definition setup_view (p : Panel) : list node :=
  show_if (setup_card p)
    [Element "div" []
       [Element "div" [] [text "Scan this QR code with your authenticator app"];
        Element "div" [] [Text (totpSetupUri p)];
        Element "div" [] [text "Or enter secret manually: "; Element "strong" [] [Text (totpSetupSecret p)]];
        Element "div" []
          [code_input "123456" "numeric" 6 (confirmCode p)
             (λ v, [Act (EInput (only_digits v) (disableCode p) (regenCode p))]);
           button (js "Confirm") (loading p || negb (length (confirmCode p) =? 6)%nat) [Act EConfirm];
           button (js "Cancel") (loading p) [Act ECancel]]]].

Definition code_list (codes : list jsstr) : node :=
  Element "div" [] (map (λ c, Element "div" [] [Text c]) codes).

Definition codes_view (p : Panel) : list node :=
  show_if (codes_card p)
    [Element "div" []
       [Element "div" [] [text "⚠️ Save your backup codes"];
        Element "div" []
          [text "These codes can be used instead of your authenticator app. Each is single-use. Save them somewhere safe — they will not be shown again."];
        code_list (backupCodes p);
        button (js "Done") false [Act EDoneSetup]]].

Definition remaining_view (n : option Z) : list node :=
  match n with
  | Some n =>
      [Element "span" [Style "color" (if n <=? 2 then js "#c05000" else js "#3a5a3a")]
         [Text (js "(" ++ js_toString n ++ js " backup code" ++ (if n =? 1 then [] else js "s") ++ js " remaining)")]]
  | None => []
  end.

Definition manage_view (p : Panel) : list node :=
  show_if (manage_card p)
    [Element "div" []
       [Element "div" []
          ([text "🔐 2FA is "; Element "strong" [] [text "enabled"]] ++ remaining_view (recoveryRemaining p));
        Element "div" []
          [Element "div" [] [text "Disable 2FA (requires current TOTP or backup code):"];
           Element "div" []
             [code_input "123456 or backup-code" "text" 36 (disableCode p)
                (λ v, [Act (EInput (confirmCode p) (remove_spaces v) (regenCode p))]);
              button (js "Disable") (loading p || (length (js_trim (disableCode p)) <? 6)%nat) [Act EDisable]]]]].

Definition recovery_view (p : Panel) : list node :=
  show_if (recovery_section p)
    [Element "div" [] [text "Backup Codes"];
     Element "div" []
       ([Element "div" []
           [text "Regenerate all backup codes (requires current TOTP or backup code). Old codes are invalidated immediately."];
         if (0 <? length (backupCodes p))%nat then
           Element "div" []
             [Element "div" [] [text "⚠️ New backup codes — save these now:"]; code_list (backupCodes p)]
         else
           Element "div" []
             [code_input "123456 or backup-code" "text" 36 (regenCode p)
                (λ v, [Act (EInput (confirmCode p) (disableCode p) (remove_spaces v))]);
              button (js "Regenerate") (loading p || (length (js_trim (regenCode p)) <? 6)%nat) [Act ERegenerate]]] ++
        show_if (0 <? length (backupCodes p))%nat [button (js "Done") false [Act EDoneCodes]])].

(** [loadDevices] returns at once without a token. *)
Definition loadDevices : list SecurityAction := show_if (nonempty token) [Act EDevicesStart].

Definition device_row (p : Panel) (d : Device) : node :=
  Element "div" []
    [Element "div" []
       [Element "div" []
          ([Element "span" [] [Text (js "💻 " ++ device_name d)]] ++
           show_if (bool_decide (currentDeviceId (devices p) = Some (device_id d)))
             [Element "span" [] [text "Current device"]]);
        Element "div" []
          [Text (js "Registered " ++ fmtDate (registered_at d) ++ js " · Last seen " ++ fmtDate (last_seen d))]];
     button (js "Revoke") (loading p) [Act (ERevoke (device_id d))]].

Definition devices_list (p : Panel) (l : DeviceList) : list node :=
  if devicesLoading l then [Element "div" [] [text "Loading devices…"]]
  else if nonempty (devicesError l) then
    [Element "div" [] [Element "div" [] [Text (devicesError l)]; button (js "Retry") (loading p) loadDevices]]
  else match devices p with
       | [] =>
           [Element "div" []
              [Element "div" [] [text "No registered devices yet. Devices appear here after a successful sign-in."];
               button (js "Refresh List") (loading p) loadDevices]]
       | ds => map (device_row p) ds
       end.

Definition devices_view (p : Panel) (l : DeviceList) : list node :=
  [Element "div" [] [text "Connected Devices"];
   Element "div" []
     [Element "div" [] [text "This list shows every device that can access your account and receive encrypted messages."];
      Element "div" [] [text "The top entry is marked as your current device (based on most recent activity)."]]] ++
  devices_list p l.

Definition audit_row (entry : AuditEntry) : node :=
  Element "div" []
    [Element "div" []
       ([Element "div" [] [Text (nullish (action entry) (map_get (action entry) actionLabel))]] ++
        match ip_address entry with
        | Some ip => show_if (nonempty ip) [Element "div" [] [Text (js "IP: " ++ ip)]]
        | None => []
        end);
     Element "div" [] [Text (fmtDate (created_at entry))]].

Definition audit_view (p : Panel) : list node :=
  [Element "div" [] [text "Security Audit Log"];
   if negb (auditLoaded p) then
     button (if loading p then js "Loading…" else js "Load Audit Log") (loading p) [Act EAudit]
   else match auditLog p with
        | [] => Element "div" [] [text "No events recorded yet."]
        | log => Element "div" [] (map audit_row log)
        end].

Definition SecuritySettings (v : View) : node :=
  let p := panel v in
  Element "div" []
    ([header] ++ messages p ++ [Element "div" [] [text "Two-Factor Authentication (TOTP)"]] ++
     enable_view p ++ setup_view p ++ codes_view p ++ manage_view p ++ recovery_view p ++
     devices_view p (deviceList v) ++ audit_view p).

(** ** What the panel offers *)

Definition click (e : event) : handler SecurityAction := HClick [Act e].

Lemma button_handlers l d h : handlers (button l d h) = unless d (HClick h).
Proof. unfold button. rewrite handlers_Element. by destruct d. Qed.

Lemma input_handlers s m n v h : handlers (code_input s m n v h) = [HChange (Some n) h].
Proof. done. Qed.

Lemma codes_handlers codes : handlers (code_list codes) = [].
Proof. unfold code_list. rewrite handlers_plain. by apply flat_map_map_silent. Qed.

(** The panel's sections. *)
Definition list_handlers (p : Panel) (l : DeviceList) : list (handler SecurityAction) :=
  if devicesLoading l then []
  else if nonempty (devicesError l) || bool_decide (devices p = []) then unless (loading p) (HClick loadDevices)
  else if loading p then [] else map (λ d, click (ERevoke (device_id d))) (devices p).

Definition panel_handlers (v : View) : list (handler SecurityAction) :=
  let p := panel v in
  [HClick [Close]] ++
  show_if (enable_card p) (unless (loading p) (click EStart)) ++
  show_if (setup_card p)
    (HChange (Some 6) (λ v, [Act (EInput (only_digits v) (disableCode p) (regenCode p))]) ::
     unless (loading p || negb (length (confirmCode p) =? 6)%nat) (click EConfirm) ++
     unless (loading p) (click ECancel)) ++
  show_if (codes_card p) [click EDoneSetup] ++
  show_if (manage_card p)
    (HChange (Some 36) (λ v, [Act (EInput (confirmCode p) (remove_spaces v) (regenCode p))]) ::
     unless (loading p || (length (js_trim (disableCode p)) <? 6)%nat) (click EDisable)) ++
  show_if (recovery_section p)
    (if (0 <? length (backupCodes p))%nat then [click EDoneCodes]
     else HChange (Some 36) (λ v, [Act (EInput (confirmCode p) (disableCode p) (remove_spaces v))]) ::
          unless (loading p || (length (js_trim (regenCode p)) <? 6)%nat) (click ERegenerate)) ++
  list_handlers p (deviceList v) ++
  show_if (negb (auditLoaded p)) (unless (loading p) (click EAudit)).

Ltac parts := plain; rewrite ?button_handlers, ?input_handlers, ?codes_handlers; plain.

Lemma messages_handlers p : flat_map handlers (messages p) = [].
Proof. unfold messages. plain. by destruct (nonempty _), (nonempty _). Qed.

Lemma remaining_handlers n : flat_map handlers (remaining_view n) = [].
Proof. by destruct n. Qed.

Lemma row_handlers p d : handlers (device_row p d) = unless (loading p) (click (ERevoke (device_id d))).
Proof. unfold device_row. parts. by destruct (bool_decide _). Qed.

Lemma rows_handlers p ds :
  flat_map handlers (map (device_row p) ds) =
    if loading p then [] else map (λ d, click (ERevoke (device_id d))) ds.
Proof.
  induction ds as [|d ds IH]; cbn; [by destruct (loading p)|].
  rewrite IH, row_handlers. by destruct (loading p).
Qed.

Lemma audit_rows_handlers log : flat_map handlers (map audit_row log) = [].
Proof.
  apply flat_map_map_silent. intros e. unfold audit_row. plain. destruct (ip_address e) as [ip|]; [|done].
  by destruct (nonempty ip).
Qed.

Lemma list_view_handlers p l : flat_map handlers (devices_list p l) = list_handlers p l.
Proof.
  unfold devices_list, list_handlers. destruct (devicesLoading l); [done|].
  destruct (nonempty (devicesError l)); cbn [orb]; [by parts|].
  destruct (devices p) as [|d ds] eqn:E; [by parts|by rewrite bool_decide_false, rows_handlers].
Qed.

Lemma audit_handlers p :
  flat_map handlers (audit_view p) = show_if (negb (auditLoaded p)) (unless (loading p) (click EAudit)).
Proof.
  unfold audit_view. plain. destruct (auditLoaded p); cbn [negb show_if]; [|by rewrite button_handlers].
  destruct (auditLog p); [done|]. by rewrite (handlers_plain _ (map audit_row _)), audit_rows_handlers.
Qed.

Lemma recovery_handlers p :
  flat_map handlers (recovery_view p) = show_if (recovery_section p)
    (if (0 <? length (backupCodes p))%nat then [click EDoneCodes]
     else HChange (Some 36) (λ v, [Act (EInput (confirmCode p) (disableCode p) (remove_spaces v))]) ::
          unless (loading p || (length (js_trim (regenCode p)) <? 6)%nat) (click ERegenerate)).
Proof.
  unfold recovery_view. rewrite flat_map_show_if. destruct (recovery_section p); [|done].
  destruct (0 <? length (backupCodes p))%nat; by parts.
Qed.

Lemma security_handlers v : handlers (SecuritySettings v) = panel_handlers v.
Proof.
  unfold SecuritySettings, panel_handlers. cbv zeta. rewrite handlers_plain, !flat_map_app.
  rewrite messages_handlers, recovery_handlers, audit_handlers.
  unfold devices_view. rewrite flat_map_app, list_view_handlers.
  unfold enable_view, setup_view, codes_view, manage_view. rewrite !flat_map_show_if.
  cbn [flat_map]. parts. rewrite remaining_handlers. parts. done.
Qed.

(** ** Runs of the rendered panel *)

(** The events among the actions of a gesture. *)
Definition events (acts : list SecurityAction) : list event :=
  omap (λ a, match a with Act e => Some e | Close => None end) acts.

(** What comes from outside: replies, timers, and the list's first request. *)
Definition outside (e : event) : Prop :=
  match e with
  | EStatus _ _ | EDevicesStart | EDevices _ | EReply _ | ETimer => True
  | _ => False
  end.

Inductive viewed : list event → View → Prop :=
  | viewed_start : viewed [] initialView
  | viewed_user es v acts :
      viewed es v → offered (SecuritySettings v) acts →
      viewed (es ++ events acts) (foldl (λ v e, step e v) v (events acts))
  | viewed_outside es v e :
      viewed es v → outside e → enabled e v = true → viewed (es ++ [e]) (step e v).

(** What the code fields hold. *)
Definition short_code (c : jsstr) : Prop := Forall (λ u, is_space u = false) c ∧ (length c ≤ 36)%nat.
Definition fields_ok (confirm disable regen : jsstr) : Prop :=
  Forall (λ u, is_digit u = true) confirm ∧ short_code disable ∧ short_code regen.
Definition codes_ok (p : Panel) : Prop := fields_ok (confirmCode p) (disableCode p) (regenCode p).

Lemma short_code_remove_spaces v : (length v ≤ 36)%nat → short_code (remove_spaces v).
Proof. intros H. destruct (remove_spaces_spec v). split; [done|lia]. Qed.

(** A field's new value, typed within its length. *)
Definition typed_ok (m : option Z) (f : jsstr → list SecurityAction) (p : Panel) : Prop :=
  ∀ s, (∀ n, m = Some n → Z.of_nat (length s) ≤ n) →
  ∃ c d r, f s = [Act (EInput c d r)] ∧ (codes_ok p → fields_ok c d r).

Lemma confirm_typed p m :
  typed_ok m (λ v, [Act (EInput (only_digits v) (disableCode p) (regenCode p))]) p.
Proof.
  intros s _. do 3 eexists. split; [done|]. intros (_ & H2 & H3). split; [|by split].
  apply List.Forall_forall. by intros x [_ Hx]%filter_In.
Qed.

Lemma disable_typed p :
  typed_ok (Some 36) (λ v, [Act (EInput (confirmCode p) (remove_spaces v) (regenCode p))]) p.
Proof.
  intros s Hs. do 3 eexists. split; [done|]. intros (H1 & _ & H3). split; [done|]. split; [|done].
  apply short_code_remove_spaces. specialize (Hs 36 eq_refl). lia.
Qed.

Lemma regen_typed p :
  typed_ok (Some 36) (λ v, [Act (EInput (confirmCode p) (disableCode p) (remove_spaces v))]) p.
Proof.
  intros s Hs. do 3 eexists. split; [done|]. intros (H1 & H2 & _). split; [done|]. split; [done|].
  apply short_code_remove_spaces. specialize (Hs 36 eq_refl). lia.
Qed.

(** A gesture closes the panel, does nothing, or is one enabled event. *)
Lemma security_offers v acts :
  offered (SecuritySettings v) acts →
  events acts = [] ∨
  ∃ e, events acts = [e] ∧ enabled e v = true ∧
    (∀ c d r, e = EInput c d r → codes_ok (panel v) → fields_ok c d r).
Proof.
  assert (∀ h, In h (panel_handlers v) →
    match h with
    | HClick a => events a = [] ∨ ∃ e, a = [Act e] ∧ enabled e v = true ∧ ∀ c d r, e ≠ EInput c d r
    | HChange m f => typed_ok m f (panel v)
    | _ => False
    end) as H.
  { unfold panel_handlers, list_handlers, enabled, click. cbv zeta. set (p := panel v). intros h.
    rewrite !in_app_iff. intros [[<-|[]]|[H|[H|[H|[H|[H|[H|H]]]]]]]; [by left|..].
    - destruct (enable_card p), (loading p); try done. destruct H as [<-|[]]. right. by eexists.
    - destruct (setup_card p); [|done]. cbn in H. destruct H as [<-|H]; [apply confirm_typed|].
      destruct (loading p), (length (confirmCode p) =? 6)%nat; cbn in H; try done;
        repeat destruct H as [<-|H]; try done; right; by eexists.
    - destruct (codes_card p); [|done]. destruct H as [<-|[]]. right. by eexists.
    - destruct (manage_card p); [|done]. destruct H as [<-|H]; [apply disable_typed|].
      destruct (loading p); [done|]. destruct (Nat.ltb_spec (length (js_trim (disableCode p))) 6); [done|].
      destruct H as [<-|[]]. right. eexists. split; [done|]. split; [by apply Nat.leb_le|done].
    - destruct (recovery_section p); [|done]. destruct (backupCodes p) eqn:Eb.
      + destruct H as [<-|H]; [apply regen_typed|]. destruct (loading p); [done|].
        destruct (Nat.ltb_spec (length (js_trim (regenCode p))) 6); [done|].
        destruct H as [<-|[]]. right. eexists. split; [done|]. split; [by apply Nat.leb_le|done].
      + destruct H as [<-|[]]. right. by eexists.
    - destruct (devicesLoading _); [done|]. destruct (nonempty _ || _).
      + destruct (loading p); [done|]. destruct H as [<-|[]]. unfold loadDevices.
        destruct (nonempty token); [right; by eexists|by left].
      + destruct (loading p); [done|]. apply in_map_iff in H as (d & <- & Hd). right. eexists.
        split; [done|]. split; [|done]. cbn [negb]. rewrite andb_true_r. apply existsb_exists.
        exists d. by rewrite Z.eqb_refl.
    - destruct (auditLoaded p), (loading p); try done. destruct H as [<-|[]]. right. by eexists. }
  intros Ho. inversion Ho as [? Hc|? Hc|? Hc|? ? ? Hc|m f s Hc Hn]; rewrite security_handlers in Hc;
    specialize (H _ Hc); cbn in H; try done.
  - destruct H as [H|(e & -> & He & Hi)]; [by left|right]. exists e. split; [done|]. split; [done|].
    intros c d r Heq. by destruct (Hi c d r).
  - destruct (H s Hn) as (c & d & r & -> & Hi). right. eexists. split; [done|]. split; [done|].
    by intros ? ? ? [= <- <- <-].
Qed.

(** A gesture is one action, or none. *)
Lemma security_acts v acts : offered (SecuritySettings v) acts → length acts = 1%nat ∨ acts = [].
Proof.
  intros (x & Hx & Hg)%offered_gesture. rewrite security_handlers in Hx.
  assert (∀ b y, In x (unless b y) → x = y) as Hun by (intros [] y; cbn; naive_solver).
  assert (∀ b l, In x (show_if b l) → In x l) as Hsh by (by intros [] l).
  unfold panel_handlers, list_handlers in Hx. cbv zeta in Hx. rewrite !in_app_iff in Hx.
  assert (match x with HClick a => length a = 1%nat ∨ a = [] | HChange _ f => ∀ t, length (f t) = 1%nat | _ => False end) as H.
  { destruct Hx as [[<-|[]]|[H|[H|[H|[H|[H|[H|H]]]]]]]; [by left|..]; try apply Hsh in H.
    - apply Hun in H as ->. by left.
    - destruct H as [<-|[H|H]%in_app_iff]; [done|..]; apply Hun in H as ->; by left.
    - destruct H as [<-|[]]. by left.
    - destruct H as [<-|H]; [done|]. apply Hun in H as ->. by left.
    - destruct (0 <? _)%nat; [destruct H as [<-|[]]; by left|]. destruct H as [<-|H]; [done|].
      apply Hun in H as ->. by left.
    - destruct (devicesLoading _); [done|]. destruct (_ || _).
      + apply Hun in H as ->. unfold loadDevices. destruct (nonempty token); [by left|by right].
      + destruct (loading _); [done|]. apply in_map_iff in H as (d & <- & _). by left.
    - apply Hun in H as ->. by left. }
  destruct x; cbn in Hg; try done; [by subst|]. destruct Hg as (t & _ & ->). by left.
Qed.

(** What the fields guarantee of a request. *)
Definition request_ok (r : request) : Prop :=
  match r with
  | Confirm c => length c = 6%nat ∧ Forall (λ u, is_digit u = true) c
  | Disable c | Regenerate c => short_code c ∧ (6 ≤ length c)%nat
  | _ => True
  end.

Lemma handle_reply_codes q r v :
  codes_ok (panel v) → codes_ok (panel (handle_reply q r v)).
Proof.
  assert (short_code []) as Hs by (split; [constructor|cbn; lia]).
  assert (Forall (λ u, is_digit u = true) []) as Hd by constructor.
  intros (H1 & H2 & H3). by destruct q, r as [| |[]].
Qed.

Lemma handle_reply_pending q r v :
  pending (handle_reply q r v) = None ∨ handle_reply q r v = v.
Proof. destruct q, r as [| |[]]; cbn; auto. Qed.

Definition sound (v : View) : Prop := codes_ok (panel v) ∧ ∀ r, pending v = Some r → request_ok r.

(** Events from outside keep the fields, and end requests. *)
Lemma outside_sound e v : outside e → sound v → sound (step e v).
Proof.
  intros He [Hc Hr]. destruct e; try done; cbn [step]; try (by split).
  - by destruct r as [l|]; split.
  - destruct (pending v) as [q|] eqn:E; [|by split; [|rewrite E]].
    split; [by apply handle_reply_codes|].
    destruct (handle_reply_pending q r v) as [-> | ->]; [done|]. by rewrite E.
Qed.

Lemma gesture_sound v acts :
  sound v → offered (SecuritySettings v) acts →
  sound (foldl (λ v e, step e v) v (events acts)).
Proof.
  intros [Hc Hr] Ho. destruct (security_offers v acts Ho) as [-> |(e & -> & He & Hi)]; [by split|].
  assert (∀ c, short_code c → (6 <=? length (js_trim c))%nat = true → request_ok (Disable c) ∧ request_ok (Regenerate c)) as Hlong.
  { intros c Hs Hl%Nat.leb_le. rewrite trim_nonspace in Hl by apply Hs. by split. }
  cbn [foldl]. destruct (Hc) as (H1 & H2 & H3).
  destruct e; cbn [step]; cbn [Security.enabled] in He;
    repeat match goal with H : (_ && _)%bool = true |- _ => apply andb_true_iff in H as [??] end;
    try (by split); try (by split; [|intros r [= <-]]).
  - destruct r as [l|]; by split.
  - split; [by apply (Hi _ _ _ eq_refl)|done].
  - split; [done|]. intros r [= <-]. split; [by apply Nat.eqb_eq|done].
  - destruct (decide _); [by split|]. split; [done|]. intros r [= <-]. by apply Hlong.
  - destruct (decide _); [by split|]. split; [done|]. intros r [= <-]. by apply Hlong.
  - destruct (pending v) as [q|] eqn:E; [|by split; [|rewrite E]].
    split; [by apply handle_reply_codes|].
    destruct (handle_reply_pending q r v) as [-> | ->]; [done|]. by rewrite E.
Qed.

(** C29: A user who only does what the rendered panel offers runs the panel's
    state machine. Every confirmation it sends is six digits; a code that disables
    the second factor or regenerates the backup codes has no spaces and is between
    6 and 36 characters long. *)
Theorem rendered_panel_refines es v :
  viewed es v → reachable es v ∧ ∀ r, pending v = Some r → request_ok r.
Proof.
  intros Hv. assert (reachable es v ∧ sound v) as (? & _ & ?); [|by split].
  induction Hv as [|es v acts Hv [Hr Hs] Ho|es v e Hv [Hr Hs] Hout He].
  - split; [constructor|]. split; [|done].
    split; [constructor|]. by split; (split; [constructor|cbn; lia]).
  - split; [|by apply gesture_sound].
    destruct (security_offers v acts Ho) as [-> |(e & -> & He & _)]; [by rewrite app_nil_r|by constructor].
  - split; [by constructor|by apply outside_sound].
Qed.
End panel.
