(* ===== verification/Page.v ===== *)
(** * The page

    What is on the screen for a state of the stores: apps/web/src/App.tsx,
    pages/BuddyListPage.tsx, components/AppErrorBoundary.tsx, the views of
    ChatWindow.tsx and Sidebar.tsx, and ChatWindow.tsx's timer. Rendering is a
    function of the stores that may throw; the boundary shows an error screen
    from then on. *)

From S2P Require Import Prelude JsString Utf Json Platform Types AuthStore ChatStore ContactsStore Contacts.
From S2P Require Import Socket Emoji Bubble Roster Sidebar ChatWindow.

(** ** ChatWindow.tsx: the view *)

Record ChatView := mkChatView {
  cw_conversation : Conversation;
  cw_contact : StoredContact;
  cw_header : AvatarView;
  cw_mood : option (list piece);
  cw_greeting : bool;               (** there is no message yet *)
  cw_bubbles : list (option bubble);
  cw_shaking : bool;
  cw_own : AvatarView;
  cw_own_mood : option (list piece);
}.

(** [activeConversationId ? conversations[activeConversationId] : null] *)
Definition shown_conversation (s : ChatState) : option Conversation :=
  match activeConversationId s with
  | Some (c :: id) => map_get (c :: id) (conversations s)
  | _ => None
  end.

(** ** Sidebar.tsx: the view's own state *)

Record SidebarLocal := mkLocal {
  searchQuery : jsstr;
  collapsed : Collapsed;
  showPendingModal : bool;
  showBlockedUsers : bool;
}.

Record SidebarView := mkSidebarView {
  sv_avatar : AvatarView;
  sv_mood : option (list piece);
  sv_roster : RosterView;
  sv_invitations : option jsstr;
  sv_blocked : list UserRow;        (** of the dialogs that are shown *)
  sv_pending : list UserRow;
  sv_qr : jsstr;
}.

Inductive screen :=
  | LoginScreen
  | BuddyScreen (sidebar : SidebarView) (chat : option ChatView)
  | ErrorScreen.

Section page.
Context {doubles : Doubles}.
Context (upper : Z → jsstr) (lower : jsstr → jsstr) (format_double : jsstr → jsstr).

(** [contacts.find((c) => c.id === conversation.contactId)] *)
Definition find_contact (conv : Conversation) (cs : ContactsState) : option StoredContact :=
  List.find (λ c, strict_eq (sc_id c) (JStr <$> cv_contactId conv)) (contacts cs).

Definition own_avatar (p : OwnProfile) : result AvatarView :=
  let u := own_profile p in
  Avatar upper (Some (JStr (displayName u))) (JStr <$> avatarData u) (Some (JStr (status_text (status u)))).

(** The length of the messages is read before anything is decided. *)
Definition ChatWindow (s : Stores) : result (option ChatView) :=
  let conversation := shown_conversation (chatStore s) in
  messages ← match conversation with
    | None => Ok []
    | Some conv => match cv_messages conv with None => Throw TypeError_ | Some ms => Ok ms end
    end;
  match conversation, (conv ← conversation; find_contact conv (contactsStore s)), session (authStore s) with
  | Some conv, Some contact, Some (_, sess) =>
      let me := winkdId (own_profile (profile sess)) in
      header ← Avatar upper (sc_displayName contact) (sc_avatarData contact) (sc_status contact);
      mood ← mood_view (sc_moodMessage contact);
      bubbles ← mapM (λ m, MessageBubble format_double m (bool_decide (m_senderId m = me))) messages;
      own ← own_avatar (profile sess);
      ownMood ← mood_view (Some (JStr (moodMessage (own_profile (profile sess)))));
      Ok (Some (mkChatView conv contact header mood (bool_decide (length messages = 0%nat)) bubbles
                  (match cv_isShaking conv with Some b => b | None => false end) own ownMood))
  | _, _, _ => Ok None
  end.

(** The QR image's address encodes the data once more. *)
Definition Sidebar (l : SidebarLocal) (s : Stores) (sess : Session) : result SidebarView :=
  qr ← myQrData (winkdId (own_profile (profile sess)));
  qr ← encodeURIComponent qr;
  own ← own_avatar (profile sess);
  mood ← mood_view (Some (JStr (moodMessage (own_profile (profile sess)))));
  roster ← Roster upper lower (activeConversationId (chatStore s)) (searchQuery l) (collapsed l) (contactsStore s);
  blocked ← (if showBlockedUsers l then mapM (blocked_view upper) (blockedUsers (contactsStore s)) else Ok []);
  pending ← (if showPendingModal l
             then mapM (invitation_view upper) (pendingInvitations (contactsStore s)) else Ok []);
  Ok (mkSidebarView own mood roster (invitations_label (contactsStore s)) blocked pending
        (js "https://api.qrserver.com/v1/create-qr-code/?size=176x176&data=" ++ qr)).

(** ** App.tsx and AppErrorBoundary.tsx *)

(** A session object is truthy. *)
Definition App (l : SidebarLocal) (s : Stores) : result screen :=
  match session (authStore s) with
  | None => Ok LoginScreen
  | Some (_, sess) =>
      sidebar ← Sidebar l s sess;
      chat ← ChatWindow s;
      Ok (BuddyScreen sidebar chat)
  end.

(** One render below the boundary: its [hasError] and the screen. *)
Definition AppErrorBoundary (hasError : bool) (l : SidebarLocal) (s : Stores) : bool * screen :=
  if hasError then (true, ErrorScreen)
  else match App l s with Ok v => (false, v) | Throw _ => (true, ErrorScreen) end.

(** The renders of a page's life: what is on the screen at the end. *)
Definition renders (states : list (SidebarLocal * Stores)) : bool * screen :=
  foldl (λ b ls, AppErrorBoundary b.1 ls.1 ls.2) (false, LoginScreen) states.

(** ** When a page can be shown *)

Definition has_body (m : Message) : Prop := m_type m = js "text" → is_Some (prop_get (m_body m)).

Definition invitation_typed (i : PendingInvitation) : Prop :=
  text (fromDisplayName i) ∧ maybe_text (fromAvatarData i) ∧ maybe_text (fromWinkdId i).
Definition blocked_typed (b : BlockedUser) : Prop :=
  text (b_displayName b) ∧ maybe_text (b_avatarData b) ∧ maybe_text (b_winkdId b).

Record contacts_showable (cs : ContactsState) : Prop := {
  ss_contacts : Forall contact_typed (contacts cs);
  ss_invitations : Forall invitation_typed (pendingInvitations cs);
  ss_blocked : Forall blocked_typed (blockedUsers cs);
}.

Definition chat_showable (s : ChatState) : Prop :=
  ∀ k c, map_get k (conversations s) = Some c → ∃ ms, cv_messages c = Some ms ∧ Forall has_body ms.

Definition auth_showable (st : AuthState) : Prop :=
  ∀ i s, session st = Some (i, s) →
    let id := winkdId (own_profile (profile s)) in is_js id ∧ well_formed id = true.

Record showable (s : Stores) : Prop := {
  sh_auth : auth_showable (authStore s);
  sh_chat : chat_showable (chatStore s);
  sh_contacts : contacts_showable (contactsStore s);
}.

(** ** Showable stores are shown *)

Lemma maybe_text_of (o : option jsstr) : maybe_text (JStr <$> o).
Proof. destruct o; [right; by eexists|by left]. Qed.

Lemma mood_total v : maybe_text v → ∃ m, mood_view v = Ok m.
Proof.
  unfold mood_view. intros [-> |[s ->]]; [by eexists|]. destruct (truthy _); by eexists.
Qed.

Lemma find_In {A} (f : A → bool) l x : List.find f l = Some x → x ∈ l.
Proof. intros [H _]%List.find_some. by apply list_elem_of_In. Qed.

Section total.
Context (upper_units : ∀ c, Forall (λ u, 0 ≤ u) (upper c)).

Lemma own_avatar_total p : ∃ v, own_avatar p = Ok v.
Proof. apply Avatar_total; [done|by eexists|apply maybe_text_of|by apply readable_text]. Qed.

Lemma bubbles_total me ms : Forall has_body ms →
  ∃ bs, mapM (λ m, MessageBubble format_double m (bool_decide (m_senderId m = me))) ms = Ok bs.
Proof.
  intros Hb. rewrite List.Forall_forall in Hb. apply mapM_total. intros x Hx%list_elem_of_In.
  specialize (Hb x Hx). destruct (MessageBubble _ x _) eqn:E; [by eexists|].
  apply bubble_throws in E as (Ht & Hno & _). destruct (Hb Ht) as [b Hb']. congruence.
Qed.

Lemma ChatWindow_total s : chat_showable (chatStore s) → contacts_showable (contactsStore s) →
  ∃ v, ChatWindow s = Ok v.
Proof.
  intros Hm Hc. unfold ChatWindow. destruct (shown_conversation (chatStore s)) as [conv|] eqn:Ec; [|by eexists].
  assert (∃ ms, cv_messages conv = Some ms ∧ Forall has_body ms) as (ms & -> & Hb).
  { unfold shown_conversation in Ec. destruct (activeConversationId _) as [[|]|]; [done| |done]. by eapply Hm. }
  cbn [mbind result_bind option_bind]. destruct (find_contact conv _) as [contact|] eqn:Ef; [|by eexists].
  destruct (session (authStore s)) as [[i sess]|]; [|by eexists]. cbv zeta.
  assert (contact_typed contact) as [_ Hn Hmood Ha Hst].
  { pose proof (ss_contacts _ Hc) as H. rewrite List.Forall_forall in H.
    apply H, list_elem_of_In. by eapply find_In. }
  destruct (Avatar_total upper upper_units _ _ _ Hn Ha Hst) as [v ->]. cbn [mbind result_bind].
  destruct (mood_total _ Hmood) as [m ->]. cbn [mbind result_bind].
  destruct (bubbles_total (winkdId (own_profile (profile sess))) ms Hb) as [bs ->].
  cbn [mbind result_bind]. destruct (own_avatar_total (profile sess)) as [o ->]. cbn [mbind result_bind].
  destruct (mood_total (Some (JStr (moodMessage (own_profile (profile sess)))))) as [om ->]; [right; by eexists|].
  by eexists.
Qed.

Lemma qr_address_total id : is_js id → well_formed id = true →
  ∃ q q', myQrData id = Ok q ∧ encodeURIComponent q = Ok q'.
Proof.
  intros Hj Hw. unfold myQrData. destruct (encodeURIComponent id) as [e|] eqn:E.
  2: { unfold encodeURIComponent in E. by rewrite Hw in E. }
  pose proof (encoded_chars (λ _, None) id e Hj E) as He. eexists. cbn. unfold encodeURIComponent at 1.
  rewrite below_surrogates; [by eexists|]. apply list.Forall_app. split.
  - apply (Forall_check (λ c, c <? 55296)); [intros c; by apply Z.ltb_lt|]. vm_compute. reflexivity.
  - eapply List.Forall_impl, He. intros c [Hc| ->]; [|lia]. unfold uri_unreserved in Hc.
    rewrite !orb_true_iff, !andb_true_iff, !Z.leb_le, !Z.eqb_eq in Hc. lia.
Qed.

Lemma Sidebar_total l s i sess :
  session (authStore s) = Some (i, sess) → auth_showable (authStore s) →
  contacts_showable (contactsStore s) → ∃ v, Sidebar l s sess = Ok v.
Proof.
  intros Hs Ha [Hc Hi Hb]. unfold Sidebar. destruct (Ha i sess Hs) as [Hj Hw].
  destruct (qr_address_total _ Hj Hw) as (q & q' & -> & Hq). cbn [mbind result_bind]. rewrite Hq.
  cbn [mbind result_bind]. destruct (own_avatar_total (profile sess)) as [o ->]. cbn [mbind result_bind].
  destruct (mood_total (Some (JStr (moodMessage (own_profile (profile sess)))))) as [om ->]; [right; by eexists|].
  cbn [mbind result_bind].
  destruct (roster_total upper lower upper_units (activeConversationId (chatStore s)) (searchQuery l) (collapsed l)
    (contactsStore s) Hc) as [r ->]. cbn [mbind result_bind].
  rewrite List.Forall_forall in Hi, Hb.
  destruct (mapM_total (blocked_view upper) (blockedUsers (contactsStore s))) as [bs Hbs].
  { intros b Hin%list_elem_of_In. destruct (Hb b Hin) as (? & ? & ?). by apply user_row_total. }
  destruct (mapM_total (invitation_view upper) (pendingInvitations (contactsStore s))) as [ps Hps].
  { intros b Hin%list_elem_of_In. destruct (Hi b Hin) as (? & ? & ?). by apply user_row_total. }
  rewrite Hbs, Hps. destruct (showBlockedUsers l), (showPendingModal l); by eexists.
Qed.

Lemma App_total l s : showable s → ∃ v, App l s = Ok v ∧ v ≠ ErrorScreen.
Proof.
  intros [Ha Hm Hc]. unfold App. destruct (session (authStore s)) as [[i sess]|] eqn:E; [|by eexists].
  destruct (Sidebar_total l s i sess E Ha Hc) as [v ->]. destruct (ChatWindow_total s Hm Hc) as [w ->].
  by eexists.
Qed.

End total.
(** ** Operations that keep stores showable *)

Definition op_typed (op : contacts_op) : Prop :=
  match op with
  | SetContacts cs => Forall contact_typed cs
  | UpdateContact _ p => ∀ c, contact_typed c → contact_typed (contact_spread c p)
  | UpdateStatus _ st => readable st
  | AddAccepted c => contact_typed c
  | UpsertPending i => invitation_typed i
  | SetBlocked l => Forall blocked_typed l
  | UpsertBlocked b => blocked_typed b
  | _ => True
  end.

Lemma Forall_filter_bool {A} (P : A → Prop) f l : Forall P l → Forall P (List.filter f l).
Proof. rewrite !List.Forall_forall. intros H x [Hx _]%filter_In. auto. Qed.

Lemma Forall_map_typed (f : StoredContact → StoredContact) l :
  (∀ c, contact_typed c → contact_typed (f c)) → Forall contact_typed l → Forall contact_typed (map f l).
Proof. rewrite !List.Forall_forall. intros Hf H c (d & <- & Hd)%in_map_iff. auto. Qed.

Lemma showable_op op cs : op_typed op → contacts_showable cs → contacts_showable (apply_contacts op cs).
Proof.
  intros Ho [Hc Hi Hb].
  destruct op; cbn [apply_contacts op_typed] in *; split; cbn; try done;
    try (by apply Forall_filter_bool);
    try (apply list.Forall_app; split; [by apply Forall_filter_bool|by apply list.Forall_singleton]).
  - apply Forall_map_typed; [|done]. intros c H. by destruct (strict_eq _ _); [apply Ho|].
  - apply Forall_map_typed; [|done]. intros c [? ? ? ? ?]. by destruct (strict_eq _ _); split.
  - unfold addAcceptedContact. destruct (existsb _ _); cbn.
    + apply Forall_map_typed; [|done]. intros x Hx. by destruct (strict_eq _ _).
    + apply list.Forall_app. split; [done|]. by apply list.Forall_singleton.
  - unfold addAcceptedContact. by destruct (existsb _ _).
  - unfold addAcceptedContact. by destruct (existsb _ _).
Qed.

Lemma showable_contacts op s :
  op_typed op → showable s → showable (on_contacts (apply_contacts op) s).
Proof. intros Ho [Ha Hm Hc]. split; [done..|]. by apply showable_op. Qed.

Lemma put_showable k c s : chat_showable s →
  (∃ ms, cv_messages c = Some ms ∧ Forall has_body ms) → chat_showable (put_conversation k c s).
Proof.
  intros Hs Hc k' c'. cbn. rewrite map_get_set. destruct (decide (k' = k)); [by intros [= <-]|apply Hs].
Qed.

Lemma messages_showable k s : chat_showable s → Forall has_body (messages_of k s).
Proof.
  intros Hs. unfold messages_of. destruct (map_get k _) as [c|] eqn:E; cbn; [|constructor].
  by destruct (Hs k c E) as (ms & -> & H).
Qed.

Lemma merge_has_body m ms : has_body m → Forall has_body ms → Forall has_body (merge_message m ms).
Proof.
  intros Hm. induction 1 as [|x ms Hx Hms IH]; [by repeat constructor|]. rewrite merge_message_cons.
  destruct (decide _); constructor; try done. intros Ht. destruct (Hm Ht) as [b Hb]. cbn.
  destruct (m_body m); [done..|]. by eexists.
Qed.

Lemma receive_showable m s : has_body m → chat_showable s → chat_showable (receiveMessage m s).
Proof.
  intros Hm Hs. apply put_showable; [done|]. eexists. split; [done|].
  apply merge_has_body; [done|]. by apply messages_showable.
Qed.

Lemma delivered_showable k id s s' : chat_showable s → markMessageDelivered k id s = Ok s' → chat_showable s'.
Proof.
  intros Hs. unfold markMessageDelivered. destruct (map_get k _) as [c|] eqn:E; [|by intros [= <-]].
  destruct (Hs k c E) as (ms & -> & H). intros [= <-]. apply put_showable; [done|]. eexists. split; [done|].
  rewrite !List.Forall_forall in *. intros x (y & <- & Hy)%in_map_iff. specialize (H y Hy).
  by destruct (decide _).
Qed.

(** The texts of an event are texts, a status has a name, and a message of type
    text has one. *)
Definition event_typed (now : jsstr) (event payload : value) : Prop :=
  (event = Some (JStr (js "message")) → ∀ m, message_of now payload = Ok m → has_body m) ∧
  (event = Some (JStr (js "presence")) → ∀ st, get_prop (js "status") payload = Ok st → readable st) ∧
  (event = Some (JStr (js "contact_request")) →
     ∀ d a w, get_prop (js "from_display_name") payload = Ok d →
              get_prop (js "from_avatar_data") payload = Ok a →
              get_prop (js "from_winkd_id") payload = Ok w → text d ∧ maybe_text a ∧ maybe_text w) ∧
  (event = Some (JStr (js "contact_accepted")) → ∀ c, accepted_contact payload = Ok c → contact_typed c) ∧
  (event = Some (JStr (js "contacts_snapshot")) →
     ∀ cs, map_array (js "contacts") snapshot_contact payload = Ok cs → Forall contact_typed cs) ∧
  (event = Some (JStr (js "blocked_list")) →
     ∀ us, map_array (js "users") (λ u, blocked_user (Some u)) payload = Ok us → Forall blocked_typed us) ∧
  (event = Some (JStr (js "contact_blocked")) → ∀ u, blocked_user payload = Ok u → blocked_typed u) ∧
  (event = Some (JStr (js "contact_request_sent")) → ∀ c, sent_contact payload = Ok c → contact_typed c).

Lemma or_null_text v : maybe_text v → maybe_text (or_null v).
Proof. intros [H|[s ->]]; [|right; by eexists]. left. by destruct v as [[]|]. Qed.

Lemma handle_message_showable k now payload s s' :
  (∀ m, message_of now payload = Ok m → has_body m) →
  handle_message k now payload s = Ok s' → showable s → showable s'.
Proof.
  intros Hm (m & Em & H)%bind_Ok Hs. case_bool_decide; [by injection H as <-|]. cbv zeta in H.
  assert (showable (on_chat (receiveMessage m) s)) as Hr.
  { destruct Hs as [Ha Hc Hn]. split; [done| |done]. apply receive_showable; [by apply Hm|done]. }
  destruct (_ && _); injection H as <-; [|done]. by apply (showable_contacts (IncrementUnread _)).
Qed.

Lemma handle_contact_blocked_showable k payload s s' :
  (∀ u, blocked_user payload = Ok u → blocked_typed u) →
  handle_contact_blocked k payload s = Ok s' → showable s → showable s'.
Proof.
  intros Hu (r & _ & (v & _ & (u & Eu & [= <-])%bind_Ok)%bind_Ok)%bind_Ok Hs.
  apply (showable_contacts (RemoveContact v)); [done|].
  assert (showable (on_contacts (upsertBlockedUser u)
    (if truthy r then on_contacts (removePendingInvitation r) s else s))) as Hb.
  { apply (showable_contacts (UpsertBlocked u)); [by apply Hu|].
    destruct (truthy r); [by apply (showable_contacts (RemovePending _))|done]. }
  destruct (is_active k v); [|done]. destruct Hb as [? Hc ?]. split; [done|exact Hc|done].
Qed.

Lemma handle_delivery_receipt_showable payload s s' :
  handle_delivery_receipt payload s = Ok s' → showable s → showable s'.
Proof.
  intros (mi & _ & (ci & _ & H)%bind_Ok)%bind_Ok Hs. destruct (_ && _); [|by injection H as <-].
  apply bind_Ok in H as (key & _ & H). destruct (string_value mi) as [id|];
    apply bind_Ok in H as (c & Hc & [= <-]); [|done].
  destruct Hs as [? Hm ?]. split; [done| |done]. by eapply delivered_showable.
Qed.

Lemma handle_event_showable k now event payload s s' :
  event_typed now event payload → handle_event k now event payload s = Ok s' → showable s → showable s'.
Proof.
  intros (H1 & H0 & H2 & H3 & H4 & H5 & H6 & H7) H Hs. unfold handle_event in H.
  destruct (is_string (js "message") event) eqn:E1; [apply is_string_true in E1|clear E1].
  { eapply handle_message_showable; eauto. }
  destruct (is_string (js "presence") event) eqn:E0; [apply is_string_true in E0|clear E0].
  { apply bind_Ok in H as (u & _ & (st & Hst & [= <-])%bind_Ok).
    apply (showable_contacts (UpdateStatus _ _)); [exact (H0 E0 st Hst)|done]. }
  destruct (is_string (js "contact_request") event) eqn:E2; [apply is_string_true in E2|clear E2].
  { apply bind_Ok in H as (r & _ & (w & Hw & (d & Hd & (a & Ha & [= <-])%bind_Ok)%bind_Ok)%bind_Ok).
    destruct (H2 E2 d a w Hd Ha Hw) as (? & ? & ?). apply (showable_contacts (UpsertPending _)); [|done].
    split; [done|]. split; [by apply or_null_text|done]. }
  destruct (is_string (js "contact_accepted") event) eqn:E3; [apply is_string_true in E3|clear E3].
  { apply bind_Ok in H as (w & _ & (c & Hc & [= <-])%bind_Ok).
    apply (showable_contacts (AddAccepted c)); [by apply H3|by apply (showable_contacts (ClearPending _))]. }
  destruct (is_string (js "contacts_snapshot") event) eqn:E4; [apply is_string_true in E4|clear E4].
  { apply bind_Ok in H as (cs & Hcs & [= <-]). apply (showable_contacts (SetContacts cs)); [by apply H4|done]. }
  destruct (is_string (js "contact_request_rejected") event).
  { apply bind_Ok in H as (r & _ & [= <-]). by apply (showable_contacts (RemovePending r)). }
  destruct (is_string (js "blocked_list") event) eqn:E5; [apply is_string_true in E5|clear E5].
  { apply bind_Ok in H as (us & Hus & [= <-]). apply (showable_contacts (SetBlocked us)); [by apply H5|done]. }
  destruct (is_string (js "contact_blocked") event) eqn:E6; [apply is_string_true in E6|clear E6].
  { eapply handle_contact_blocked_showable; eauto. }
  destruct (is_string (js "contact_unblocked") event).
  { apply bind_Ok in H as (u & _ & [= <-]). by apply (showable_contacts (RemoveBlocked u)). }
  destruct (is_string (js "contact_request_sent") event) eqn:E7; [apply is_string_true in E7|clear E7].
  { apply bind_Ok in H as (c & Hc & [= <-]). apply (showable_contacts (AddAccepted c)); [by apply H7|done]. }
  destruct (is_string (js "delivery_receipt") event); [by eapply handle_delivery_receipt_showable|].
  by injection H as <-.
Qed.

(** ** From one user's input to the other's screen *)

(** What the server makes of a message before it passes it on: the sender is
    the conversation (server/src/router.rs). *)
Definition forwarded (sender : jsstr) (m : Message) : Message :=
  mkMessage (m_id m) sender sender (m_type m) (m_sentAt m) true (m_read m)
    (m_body m) (m_mediaData m) (m_mediaUrl m) (m_mediaName m) (m_mediaMime m) (m_mediaSize m)
    (m_packId m) (m_animationId m).

Lemma mapM_snoc_Ok {A B} (f : A → result B) l x ys y :
  mapM f (l ++ [x]) = Ok ys → f x = Ok y → ∃ ys', ys = ys' ++ [y].
Proof.
  revert ys. induction l as [|z l IH]; cbn [app]; intros ys Hys Hy.
  - apply mapM_ok_cons in Hys as (y' & ? & Hy' & [= <-] & ->). exists []. cbn. congruence.
  - apply mapM_ok_cons in Hys as (z' & zs & _ & Hzs & ->). destruct (IH zs Hzs Hy) as [ys' ->].
    by exists (z' :: ys').
Qed.

Lemma find_contact_id id c cs conv :
  In c (contacts cs) → sc_id c = Some (JStr id) → cv_contactId conv = Some id →
  ∃ c', find_contact conv cs = Some c' ∧ sc_id c' = Some (JStr id).
Proof.
  intros Hc Hi Hv. unfold find_contact. rewrite Hv. cbn. destruct (List.find _ _) as [c'|] eqn:E.
  - exists c'. split; [done|]. apply List.find_some in E as [_ E]. by apply (strict_eq_string _ _ id) in E.
  - exfalso. eapply List.find_none in E; [|exact Hc]. cbn in E. rewrite Hi in E. cbn in E.
    by rewrite bool_decide_true in E.
Qed.

Lemma open_showable id s : chat_ok s → chat_showable s → chat_showable (openConversation id s).
Proof.
  intros Hs Hc. rewrite (open_spec id s Hs). destruct (map_get id (conversations s)); [done|].
  apply (put_showable id _ (mkChat (conversations s) (Some id))); [done|]. exists []. by repeat constructor.
Qed.

(** A message is in the store, and counted or not: the page can still be shown. *)
Lemma received_store m u s s1 (P : Prop) `{!Decision P} :
  s1 = (if decide P then on_chat (receiveMessage m) s else on_contacts (incrementUnread u) (on_chat (receiveMessage m) s)) →
  chatStore s1 = receiveMessage m (chatStore s) ∧ authStore s1 = authStore s ∧
  contacts (contactsStore s1) = contacts (contactsStore s) ∧ (has_body m → showable s → showable s1).
Proof.
  intros ->. assert (has_body m → showable s → showable (on_chat (receiveMessage m) s)) as H.
  { intros Hb [? Hm ?]. split; [done| |done]. by apply receive_showable. }
  destruct (decide P); split_and!; try done. intros Hb Hs. by apply (showable_contacts (IncrementUnread u)); [|apply H].
Qed.

(** A click on a contact shows the conversation with it. *)
Lemma click_shows id c s :
  chat_ok (chatStore s) → id ≠ [] → In c (contacts (contactsStore s)) → sc_id c = Some (JStr id) →
  let '(chat', contacts') := handleContactClick id (chatStore s) (contactsStore s) in
  ∃ conv c', shown_conversation chat' = Some conv ∧ cv_messages conv = Some (messages_of id (chatStore s)) ∧
    find_contact conv contacts' = Some c' ∧ activeConversationId chat' = Some id ∧
    unread_of contacts' (sc_id c) = Ok 0.
Proof.
  intros Hs Hid Hc Hi. unfold handleContactClick. rewrite (open_spec id (chatStore s) Hs).
  assert (∀ cs m, map_get id cs = Some m → shown_conversation (mkChat cs (Some id)) = Some m) as Hshown
    by (intros cs m Hm; unfold shown_conversation; cbn; by destruct id).
  assert (∃ conv, shown_conversation (match map_get id (conversations (chatStore s)) with
      | Some _ => mkChat (conversations (chatStore s)) (Some id)
      | None => mkChat (map_set id (mkConversation (Some id) (Some id) (Some []) (Some false))
                  (conversations (chatStore s))) (Some id) end) = Some conv ∧
    cv_contactId conv = Some id ∧ cv_messages conv = Some (messages_of id (chatStore s))) as (conv & H1 & H2 & H3).
  { unfold messages_of. destruct (map_get id (conversations (chatStore s))) as [m|] eqn:E.
    - destruct (chat_conversations _ Hs id m E) as [_ Hct (ms & Hms & _)]. exists m. cbn. rewrite Hms.
      split_and!; [by apply Hshown|done..].
    - eexists. split_and!; [apply Hshown; by rewrite map_get_set, decide_True|done..]. }
  destruct (find_contact_id id c (clearUnread id (contactsStore s)) conv Hc Hi H2) as (c' & Hf & _).
  exists conv, c'. split_and!; [done..| |].
  - by destruct (map_get id _).
  - unfold unread_of. rewrite Hi. cbn. by rewrite map_get_delete, decide_True.
Qed.

Section end_to_end.
Context (upper_units : ∀ c, Forall (λ u, 0 ≤ u) (upper c)).

(** A message goes from one user's input to the other's screen. What is typed
    and sent leaves as one message with the trimmed text; when the server forwards
    it to a confirmed socket of a user who has the sender as a contact, a click on
    the sender shows the conversation, and its last bubble is a bubble of the other
    side whose parts stand for the text, in order and completely. *)
Theorem message_reaches_screen a b mid now w now' k s i sess c :
  let body := js_trim (inputValue w) in
  let sent := text_message mid now b a body in
  body ≠ [] → message_ok (forwarded a sent) → k_authenticated k = true →
  showable s → chat_ok (chatStore s) →
  session (authStore s) = Some (i, sess) → winkdId (own_profile (profile sess)) ≠ a →
  mid ∉ ids (messages_of a (chatStore s)) →
  In c (contacts (contactsStore s)) → sc_id c = Some (JStr a) →
  (handleSend b a mid now w).2 = [send_message_json sent] ∧
  let s1 := (onmessage (stringify (message_frame (forwarded a sent))) now' k s).2 in
  let '(chat', contacts') := handleContactClick a (chatStore s1) (contactsStore s1) in
  ∃ view before parts,
    ChatWindow (mkStores (authStore s1) chat' contacts') = Ok (Some view) ∧
    cw_bubbles view = before ++ [Some (TextBubble false parts None)] ∧
    concat (map source parts) = body.
Proof.
  intros body sent Hb Hok Hk Hs Hchat Hsess Hme Hmid Hc Hi. split.
  { unfold handleSend. rewrite decide_False by done. done. }
  rewrite (onmessage_relayed now' (forwarded a sent) k s Hok Hk). cbv zeta. cbn [snd].
  set (m := relayed (forwarded a sent)). set (s1 := if decide _ then _ else _).
  destruct (received_store m _ s s1 _ eq_refl) as (E1 & E2 & E3 & Hs1).
  assert (showable s1) as Hs1' by (apply Hs1; [by eexists|done]). clear Hs1. rename Hs1' into Hs1.
  assert (chat_ok (chatStore s1)) as Hc1 by (rewrite E1; apply receive_ok; [by left|done]).
  destruct Hok as (_ & _ & _ & Ha & _).
  assert (In c (contacts (contactsStore s1))) as Hin by (by rewrite E3).
  pose proof (click_shows a c s1 Hc1 Ha Hin Hi) as Hclick. pose proof (open_showable a _ Hc1 (sh_chat _ Hs1)) as Ho.
  pose proof (sh_contacts _ (showable_contacts (ClearUnread a) s1 I Hs1)) as Hcs.
  unfold handleContactClick in *. destruct Hclick as (conv & c' & H1 & H2 & H3 & _ & _).
  set (s2 := mkStores _ _ _). destruct (ChatWindow_total upper_units s2 Ho Hcs) as [v Hv].
  pose proof Hv as Hb2. unfold ChatWindow in Hb2. cbn [chatStore authStore contactsStore s2] in Hb2.
  rewrite H1, H2 in Hb2. cbn [mbind result_bind option_bind] in Hb2. rewrite H3, E2, Hsess in Hb2. cbv zeta in Hb2.
  apply bind_Ok in Hb2 as (header & _ & (mood & _ & (bubbles & Hbs & (own & _ & (om & _ & [= E])%bind_Ok)%bind_Ok)%bind_Ok)%bind_Ok).
  rewrite E1, messages_of_receive, decide_True in Hbs by done.
  rewrite merge_message_new in Hbs by done.
  destruct (mapM_snoc_Ok _ _ _ _ (Some (TextBubble false (body_parts body) None)) Hbs) as [before Eb].
  { rewrite bool_decide_false by (cbn; congruence). reflexivity. }
  rewrite <-E in Hv. eexists _, before, (body_parts body). split; [exact Hv|].
  split; [exact Eb|apply body_parts_concat].
Qed.

(** C33: Typed events never take the page down. If the texts of a server's event are
    texts, its status has a name (every text does) and its text message has a body, then a page that can be shown can still
    be shown after the event, whatever is searched for, collapsed or opened in the
    sidebar. *)
Theorem typed_events_show data now k s k' s' :
  (∀ v, parse_json data = Ok v → event_typed now (json_get (js "event") v) (json_get (js "payload") v)) →
  showable s → onmessage data now k s = (k', s') →
  showable s' ∧ ∀ l, ∃ v, AppErrorBoundary false l s' = (false, v) ∧ v ≠ ErrorScreen.
Proof.
  intros Hv Hs Hm. assert (showable s') as Hs'.
  { apply onmessage_effect in Hm. destruct Hm as [|v Hk Hp Ht|v s1 Hk Hp Hh]; [done| |].
    - destruct Hs as [Ha ? ?]. split; [|done..]. intros i x. cbn. unfold setSupporterState.
      destruct (session (authStore s)) as [[j y]|] eqn:E; [|by rewrite E]. intros [= <- <-]. exact (Ha j y E).
    - eapply handle_event_showable; [by apply Hv|done..]. }
  split; [done|]. intros l. unfold AppErrorBoundary. destruct (App_total upper_units l s' Hs') as (v & Hv' & Hne). rewrite Hv'. by exists v.
Qed.

Lemma renders_error states : foldl (λ b ls, AppErrorBoundary b.1 ls.1 ls.2) (true, ErrorScreen) states = (true, ErrorScreen).
Proof. by induction states. Qed.

Lemma mapM_snoc_Throw {A B} (f : A → result B) l x e ys :
  mapM f l = Ok ys → f x = Throw e → mapM f (l ++ [x]) = Throw e.
Proof.
  revert ys. induction l as [|z l IH]; cbn [app]; intros ys Hys Hx; [cbn; by rewrite Hx|].
  apply mapM_ok_cons in Hys as (z' & zs & Hz & Hzs & ->). cbn. rewrite Hz. cbn. by rewrite (IH zs).
Qed.

(** C34: A text message without a body takes the page down for good: nothing checks
    it on the way, so once the conversation with its sender is opened, and as often
    as the page is rendered after that, the error screen is all there is. *)
Theorem missing_body_crashes a mid now k s i sess c l states :
  let m := own_message mid now a a (js "text") in
  message_ok m → k_authenticated k = true → showable s → chat_ok (chatStore s) →
  session (authStore s) = Some (i, sess) → mid ∉ ids (messages_of a (chatStore s)) →
  In c (contacts (contactsStore s)) → sc_id c = Some (JStr a) →
  let s1 := (onmessage (stringify (message_frame m)) now k s).2 in
  let '(chat', contacts') := handleContactClick a (chatStore s1) (contactsStore s1) in
  renders ((l, mkStores (authStore s1) chat' contacts') :: states) = (true, ErrorScreen).
Proof.
  intros m Hok Hk Hs Hchat Hsess Hmid Hc Hi.
  rewrite (onmessage_relayed now m k s Hok Hk). cbv zeta. cbn [snd].
  set (s1 := if decide _ then _ else _).
  assert (chatStore s1 = receiveMessage (relayed m) (chatStore s) ∧ authStore s1 = authStore s ∧
    contacts (contactsStore s1) = contacts (contactsStore s) ∧ contacts_showable (contactsStore s1))
    as (E1 & E2 & E3 & Hcs).
  { pose proof (sh_contacts _ Hs) as H. subst s1. destruct (decide _); split_and!; try done.
    by apply (showable_op (IncrementUnread _)). }
  assert (chat_ok (chatStore s1)) as Hc1 by (rewrite E1; apply receive_ok; [by left|done]).
  destruct Hok as (_ & _ & _ & Ha & _). rewrite <-E3 in Hc.
  pose proof (click_shows a c s1 Hc1 Ha Hc Hi) as Hclick.
  pose proof (showable_op (ClearUnread a) _ I Hcs) as Hcs2. unfold handleContactClick in *.
  destruct Hclick as (conv & c' & H1 & H2 & H3 & _ & _). unfold renders. cbn [foldl fst snd]. set (s2 := mkStores _ _ _).
  assert (∃ e, ChatWindow s2 = Throw e) as [e He].
  { unfold ChatWindow. cbn [chatStore authStore contactsStore s2]. rewrite H1, H2.
    cbn [mbind result_bind option_bind]. rewrite H3, E2, Hsess. cbv zeta.
    assert (contact_typed c') as [_ Hn Hmood Hav Hst].
    { pose proof (ss_contacts _ Hcs2) as H. rewrite List.Forall_forall in H.
      apply H, list_elem_of_In. by eapply find_In. }
    destruct (Avatar_total upper upper_units _ _ _ Hn Hav Hst) as [v ->]. cbn [mbind result_bind].
    destruct (mood_total _ Hmood) as [mood ->]. cbn [mbind result_bind].
    rewrite E1, messages_of_receive, decide_True, merge_message_new by done.
    destruct (bubbles_total (winkdId (own_profile (profile sess))) _ (messages_showable a _ (sh_chat _ Hs))) as [bs Hbs].
    rewrite (mapM_snoc_Throw _ _ _ TypeError_ bs Hbs) by done. by eexists. }
  assert (AppErrorBoundary false l s2 = (true, ErrorScreen)) as ->; [|apply renders_error].
  unfold AppErrorBoundary, App. cbn [authStore s2]. rewrite E2, Hsess, He.
  by destruct (Sidebar l s2 sess).
Qed.

End end_to_end.

End page.

(** ** The shake timer of ChatWindow.tsx

    The store is rendered after every change of it, the timer's included, and a
    timer belongs to the last run of the effect. *)

Record Shake := mkShake {
  sk_chat : ChatState;
  sk_deps : option (option bool * option jsstr);
  sk_timer : option jsstr;           (** the conversation it clears *)
}.

(** [[conversation?.isShaking, conversation?.id]] *)
Definition shake_deps (s : ChatState) : option bool * option jsstr :=
  let conversation := shown_conversation s in (conversation ≫= cv_isShaking, conversation ≫= cv_id).

(** The effect sets a timer for a shaking conversation; an id that is
    [undefined] is the property of that name. *)
Definition shake_effect (deps : option bool * option jsstr) : option jsstr :=
  match deps with (Some true, id) => Some (nullish (js "undefined") id) | _ => None end.

(** The clean-up clears the timer before the effect runs again. *)
Definition shake_render (k : Shake) : Shake :=
  let deps := shake_deps (sk_chat k) in
  if decide (sk_deps k = Some deps) then k
  else mkShake (sk_chat k) (Some deps) (shake_effect deps).

Inductive shake_event := EStore (f : ChatState → ChatState) | ETimer.

Definition shake_step (e : shake_event) (k : Shake) : Shake :=
  shake_render
    (match e with
     | EStore f => mkShake (f (sk_chat k)) (sk_deps k) (sk_timer k)
     | ETimer => match sk_timer k with
                 | Some id => mkShake (clearShaking id (sk_chat k)) (sk_deps k) None
                 | None => k
                 end
     end).

Definition shake_start (s : ChatState) : Shake := shake_render (mkShake s None None).

(** The changes of the store keep it well formed, and the timer fires when there is one. *)
Inductive shake_runs (s : ChatState) : list shake_event → Shake → Prop :=
  | shake_runs_nil : shake_runs s [] (shake_start s)
  | shake_runs_store es k f :
      shake_runs s es k → chat_ok (f (sk_chat k)) →
      shake_runs s (es ++ [EStore f]) (shake_step (EStore f) k)
  | shake_runs_timer es k :
      shake_runs s es k → is_Some (sk_timer k) → shake_runs s (es ++ [ETimer]) (shake_step ETimer k).

(** The conversation that is shown, shaking. *)
Definition shaking (s : ChatState) (id : jsstr) : Prop :=
  ∃ c, shown_conversation s = Some c ∧ cv_isShaking c = Some true ∧ cv_id c = Some id.

Record shake_ok (k : Shake) : Prop := {
  sko_chat : chat_ok (sk_chat k);
  sko_deps : sk_deps k = Some (shake_deps (sk_chat k));
  sko_timer : sk_timer k = shake_effect (shake_deps (sk_chat k));
}.

Lemma shown_ok s c : chat_ok s → shown_conversation s = Some c →
  ∃ k, k ≠ [] ∧ activeConversationId s = Some k ∧ map_get k (conversations s) = Some c ∧ cv_id c = Some k.
Proof.
  intros Hs. unfold shown_conversation. destruct (activeConversationId s) as [[|x k]|]; [done| |done].
  intros Hc. exists (x :: k). split_and!; [done..|]. by apply (chat_conversations _ Hs).
Qed.

Lemma shaking_deps s id : shaking s id ↔ shake_deps s = (Some true, Some id).
Proof.
  unfold shaking, shake_deps. destruct (shown_conversation s) as [c|]; cbn; [|naive_solver].
  split; [by intros (? & [= <-] & -> & ->)|]. intros [= E1 E2]. eauto.
Qed.

(** A new store, rendered: when its timer is the one of the old dependencies. *)
Lemma shake_render_ok k :
  chat_ok (sk_chat k) →
  (sk_deps k = Some (shake_deps (sk_chat k)) →
     sk_timer k = shake_effect (shake_deps (sk_chat k))) →
  shake_ok (shake_render k).
Proof.
  intros Hc Ht. unfold shake_render. destruct (decide _) as [E|E]; [by split; [..|apply Ht]|by split].
Qed.

Lemma shake_effect_deps s id :
  chat_ok s → shake_effect (shake_deps s) = Some id ↔ shake_deps s = (Some true, Some id).
Proof.
  intros Hs. unfold shake_deps. destruct (shown_conversation s) as [c|] eqn:E; cbn; [|naive_solver].
  destruct (shown_ok s c Hs E) as (k & _ & _ & _ & ->). destruct (cv_isShaking c) as [[]|]; cbn; naive_solver.
Qed.

Lemma shake_ok_timer k id : shake_ok k → sk_timer k = Some id →
  shaking (sk_chat k) id ∧ is_Some (map_get id (conversations (sk_chat k))).
Proof.
  intros [Hc _ Ht] E. rewrite Ht in E.
  apply (shake_effect_deps _ _ Hc) in E. apply shaking_deps in E as Hs. split; [done|]. destruct Hs as (c & Hs & _ & Hi).
  destruct (shown_ok _ _ Hc Hs) as (k' & _ & _ & Hk & Hi'). replace id with k' by congruence. by eexists.
Qed.

Lemma shake_deps_cleared id s : chat_ok s → is_Some (map_get id (conversations s)) →
  (shake_deps (clearShaking id s)).1 ≠ Some true ∨ (shake_deps (clearShaking id s)).2 ≠ Some id.
Proof.
  intros Hs Hi. pose proof (clearShaking_ok id s Hs Hi) as Hok. unfold shake_deps.
  destruct (shown_conversation (clearShaking id s)) as [c|] eqn:E; [|by left].
  destruct (shown_ok _ _ Hok E) as (k & _ & _ & Hk & Hid). cbn. rewrite Hid.
  destruct (decide (k = id)) as [->|Hne]; [left|right; congruence].
  unfold clearShaking in Hk. cbn in Hk. rewrite map_get_set, decide_True in Hk by done. by injection Hk as <-.
Qed.

Lemma shake_runs_ok s es k : chat_ok s → shake_runs s es k → shake_ok k.
Proof.
  intros Hs. induction 1 as [|es k f Hr IH Hf|es k Hr IH [id Hid]].
  - by apply shake_render_ok.
  - apply shake_render_ok; [done|]. cbn. intros E. rewrite (sko_deps _ IH) in E.
    apply (inj Some) in E. rewrite (sko_timer _ IH). by rewrite E.
  - unfold shake_step. rewrite Hid. destruct (shake_ok_timer k id IH Hid) as [Hsh Hi].
    apply shake_render_ok; cbn; [apply clearShaking_ok, Hi; apply IH|]. rewrite (sko_deps _ IH). intros E%(inj Some).
    apply shaking_deps in Hsh. pose proof (shake_deps_cleared id _ (sko_chat _ IH) Hi) as Hd.
    rewrite <-E, Hsh in Hd. naive_solver.
Qed.

(** The shake timer. At every point of a run there is a timer exactly when the
    conversation that is shown is shaking, and it is that conversation's; when it
    fires, that conversation stops shaking, the timer is gone, and no message of
    any conversation has changed. *)
Theorem shake_timer s es k :
  chat_ok s → shake_runs s es k →
  (∀ id, sk_timer k = Some id ↔ shaking (sk_chat k) id) ∧
  (∀ id, sk_timer k = Some id →
     let k' := shake_step ETimer k in
     (∀ j, ¬ shaking (sk_chat k') j) ∧ sk_timer k' = None ∧
     ∀ j, messages_of j (sk_chat k') = messages_of j (sk_chat k)).
Proof.
  intros Hs Hr. pose proof (shake_runs_ok s es k Hs Hr) as Hok.
  assert (∀ k, shake_ok k → ∀ id, sk_timer k = Some id ↔ shaking (sk_chat k) id) as Hiff.
  { intros q Hq id. rewrite shaking_deps, (sko_timer _ Hq). apply shake_effect_deps, Hq. }
  split; [by apply Hiff|]. intros id Hid. cbv zeta.
  assert (shake_ok (shake_step ETimer k)) as Hok'.
  { eapply (shake_runs_ok s (es ++ [ETimer])); [done|]. by constructor. }
  destruct (shake_ok_timer k id Hok Hid) as [Hsh Hin].
  assert (sk_chat (shake_step ETimer k) = clearShaking id (sk_chat k)) as Ec.
  { unfold shake_step, shake_render. rewrite Hid. by destruct (decide _). }
  assert (∀ j, ¬ shaking (sk_chat (shake_step ETimer k)) j) as Hno.
  { rewrite Ec. intros j (c & Hc & Hb & _). destruct (shown_ok _ _ (clearShaking_ok id _ (sko_chat _ Hok) Hin) Hc) as (q & Hq & Ha & Hm & _).
    destruct Hsh as (c0 & Hc0 & _ & Hi0). destruct (shown_ok _ _ (sko_chat _ Hok) Hc0) as (q0 & _ & Ha0 & _ & Hi1).
    cbn in Ha. assert (q = id) as -> by congruence. unfold clearShaking in Hm. cbn in Hm.
    rewrite map_get_set, decide_True in Hm by done. injection Hm as <-. done. }
  split_and!; [done| |].
  - destruct (sk_timer (shake_step ETimer k)) as [j|] eqn:E; [|done]. exfalso. by apply (Hno j), Hiff.
  - intros j. rewrite Ec. destruct Hin as [c Hc]. unfold clearShaking. rewrite messages_of_put.
    destruct (decide (j = id)) as [->|]; [|done]. unfold messages_of, spread_conversation. by rewrite Hc.
Qed.
