(* ===== verification/SidebarMarkup.v ===== *)
(** * Sidebar.tsx: the panel's markup

    The markup of apps/web/src/components/Sidebar.tsx for the view of Page.v and the
    panel's own state, and the handlers it offers. The overlays cover what is below
    them and do not disable it. *)

From S2P Require Import Prelude JsString Json Platform Types AuthStore ContactsStore Emoji Roster Sidebar Page.
From S2P Require Import Security SecurityView Html Widgets Chrome.

Inductive SidebarAction :=
  | SProfileEdit                      (** [setShowProfileEdit(true)] *)
  | SCycleStatus
  | SOpenWindow (url : jsstr)
  | SSearch (v : jsstr)
  | SToggle (key : UIGroup)
  | SContact (id : value)
  | SSecurityOpen
  | SSecurity (a : SecurityAction)
  | SBlockedOpen
  | SBlockedClose
  | SPendingOpen
  | SPendingClose
  | SAddOpen
  | SAddMode (m : AddMode)
  | SAddInput (v : jsstr)
  | SQrInput (v : jsstr)
  | SAddSubmit
  | SUseQr
  | SAddClose
  | SApprove (requestId : value)
  | SReject (requestId : value)
  | SBlock (requestId : value)
  | SUnblock (userId : value).

Abbreviation node := (html Empty_set SidebarAction) (only parsing).

(** The panel's own state; the settings exist while they are shown. *)
Record SidebarState := mkSidebar {
  local : SidebarLocal;
  addContact : AddContact;
  showProfileEdit : bool;
  settings : option View;
}.

Definition closedAddContact : AddContact := mkAdd false ById [] [] [] [] false.
Definition initialSidebar : SidebarState :=
  mkSidebar (mkLocal [] initialCollapsed false false) closedAddContact false None.

Definition STATUS_LABELS (s : UserStatus) : jsstr :=
  match s with
  | online => js "● Online" | away => js "◐ Away" | busy => js "● Busy" | invisible => js "○ Appear Offline"
  end.
Definition STATUS_COLORS (s : UserStatus) : jsstr :=
  match s with
  | online => js "#00CC00" | away => js "#FFAA00" | busy => js "#DD2020" | invisible => js "#AAAAAA"
  end.

Section sidebar.
Context {doubles : Doubles}.
(** The browser's formats of dates, and the addresses of the environment. *)
Context (fmtDate shortDate : jsstr → jsstr) (VITE_BMAC_MEMBERSHIP_URL VITE_BMAC_PLUS_URL : option jsstr).

Definition plusManageUrl : jsstr := nullish (js "https://buymeacoffee.com") VITE_BMAC_MEMBERSHIP_URL.
Definition plusBuyUrl : jsstr := nullish plusManageUrl VITE_BMAC_PLUS_URL.

(** A button without a type, and an input. *)
Definition button (label : jsstr) (h : list SidebarAction) : node := Element "button" [OnClick h] [Text label].

(** ** The profile and the search *)

Definition supporter_box (s : SupporterState) : list node :=
  match tier s with
  | plus =>
      [Element "div" [] [text "My Plus! Perks"]] ++
      match supporterExpiresAt s with
      | Some e => show_if (nonempty e) [Element "div" [] [text "Renews:"; text " "; Text (shortDate e)]]
      | None => []
      end ++
      [Element "button" [Attr "type" (js "button"); OnClick [SOpenWindow plusManageUrl]] [text "Manage / Cancel"]]
  | free => [Element "button" [Attr "type" (js "button"); OnClick [SOpenWindow plusBuyUrl]] [text "Get Plus!"]]
  end.

Definition profile_area (sess : Session) (avatar : AvatarView) (mood : option (list piece)) : node :=
  let u := own_profile (profile sess) in
  Element "div" []
    [avatar_element 40 avatar;
     Element "div" []
       [Element "div"
          [OnClick [SProfileEdit]; Attr "title" (js "Click to edit display name and mood")]
          [Text (displayName u);
           Text (if bool_decide (tier (supporter sess) = plus) then js " ✨" else [])];
        Element "div"
          [OnClick [SCycleStatus]; Attr "title" (js "Click to change status");
           Style "color" (STATUS_COLORS (status u))]
          (rich_text 12 (renderRichEmojiText (STATUS_LABELS (status u))));
        Element "div"
          [OnClick [SProfileEdit]; Attr "title" (js "Click to edit mood");
           Style "fontStyle" (if nonempty (moodMessage u) then js "normal" else js "italic")]
          (match mood with Some ps => rich_text 14 ps | None => [text "Set a mood…"] end);
        Element "div" [] (supporter_box (supporter sess))]].

Definition search_box (searchQuery : jsstr) : node :=
  Element "div" []
    [Element "input"
       [Attr "type" (js "text"); Attr "placeholder" (js "Search contacts…"); Attr "value" searchQuery;
        OnChange (λ v, [SSearch v])] []].

(** ** The contacts; [hovered] is whether the pointer is over a contact. *)

Definition group_element (hovered : ItemView → bool) (g : GroupView) : node :=
  Element "div" []
    (Element "div" [OnClick [SToggle (gv_key g)]]
       [Element "span" [] [Text (match gv_items g with None => js "▶" | Some _ => js "▼" end)];
        Element "span" []
          (rich_text 12 (gv_label g) ++ [text " ("; Text (js_toString (Z.of_nat (gv_count g))); text ")"])] ::
     match gv_items g with
     | Some items => map (λ v, item_element [SContact (sc_id (iv_contact v))] (hovered v) v) items
     | None => []
     end).

Definition pending_row (p : AvatarView * value) : node :=
  Element "div" []
    [avatar_element 32 p.1;
     Element "div" []
       [Element "div" [] [Text (name_text p.2)]; Element "div" [] [text "Pending acceptance"]]].

Definition pending_section (ps : list (AvatarView * value)) : list node :=
  show_if (0 <? length ps)%nat
    [Element "div" []
       (Element "div" [] [text "Pending ("; Text (js_toString (Z.of_nat (length ps))); text ")"] ::
        map pending_row ps)].

Definition roster_element (hovered : ItemView → bool) (r : RosterView) : node :=
  Element "div" []
    (map (group_element hovered) (rv_groups r) ++ pending_section (rv_pending r) ++
     show_if (rv_empty r) [Element "div" [] [text "No contacts right now."]]).

(** ** The footer *)

Definition footer (invitations : option jsstr) : list node :=
  [Element "div" []
     [Element "button" [OnClick [SSecurityOpen]; Attr "title" (js "Security Settings")] [text "🛡 Security"];
      Element "button" [OnClick [SBlockedOpen]; Attr "title" (js "Blocked users")] [text "⛔ Blocked"]]] ++
  match invitations with
  | Some label => [Element "div" [] [button label [SPendingOpen]]]
  | None => []
  end ++
  [Element "div" [] [button (js "+ Add Contact") [SAddOpen]]].

(** ** The dialogs *)

Definition settings_overlay (sess : Session) (v : option View) : list node :=
  match v with
  | Some v => [Element "div" [] [html_map SSecurity (SecuritySettings fmtDate (token sess) v)]]
  | None => []
  end.

Definition error_border (a : AddContact) : attr SidebarAction :=
  Style "border" (if nonempty (addContactError a) then js "1px solid rgba(255,100,100,0.7)"
                  else js "1px solid rgba(100,150,220,0.5)").

Definition mode_button (a : AddContact) (m : AddMode) : node :=
  let on := match addContactMode a, m with ById, ById | ByQr, ByQr => true | _, _ => false end in
  Element "button"
    [OnClick [SAddMode m];
     Style "border" (if on then js "1px solid rgba(150,200,255,0.7)" else js "1px solid rgba(255,255,255,0.2)");
     Style "background" (if on then js "rgba(80,140,220,0.35)" else js "rgba(255,255,255,0.08)")]
    [Text (match m with ById => js "Winkd ID" | ByQr => js "QR Code" end)].

Definition on_enter (h : list SidebarAction) : attr SidebarAction :=
  OnKeyDown (λ key _, if bool_decide (key = js "Enter") then h else []).

Definition id_form (a : AddContact) : list node :=
  [Element "div" [] [text "Enter your buddy's Winkd ID:"];
   Element "input"
     [Attr "type" (js "text"); Flag "autoFocus" true; Attr "placeholder" (js "username#1234");
      Attr "value" (addContactInput a); OnChange (λ v, [SAddInput v]); on_enter [SAddSubmit]; error_border a] []].

Definition qr_form (sess : Session) (myQrImageUrl : jsstr) (a : AddContact) : list node :=
  [Element "div" [] [text "Show this QR to friends:"];
   Element "div" []
     [Element "img" [Attr "src" myQrImageUrl; Attr "alt" (js "Your Winkd contact QR code")] []];
   Element "div" [] [Text (winkdId (own_profile (profile sess)))];
   Element "div" [] [text "Paste scanned QR payload:"];
   Element "input"
     [Attr "type" (js "text"); Attr "placeholder" (js "winkd://add/username%231234");
      Attr "value" (qrScanInput a); OnChange (λ v, [SQrInput v]); on_enter [SUseQr]; error_border a] []] ++
  show_if (nonempty (qrScanHint a)) [Element "div" [] [Text (qrScanHint a)]] ++
  [button (js "Use Scanned QR Payload") [SUseQr]].

Definition add_body (sess : Session) (myQrImageUrl : jsstr) (a : AddContact) : list node :=
  if addContactSent a then [Element "div" [] [text "Buddy request sent!"]]
  else
    [Element "div" [] [mode_button a ById; mode_button a ByQr]] ++
    match addContactMode a with ById => id_form a | ByQr => qr_form sess myQrImageUrl a end ++
    show_if (nonempty (addContactError a)) [Element "div" [] [Text (addContactError a)]].

Definition add_dialog (sess : Session) (myQrImageUrl : jsstr) (a : AddContact) : list node :=
  show_if (showAddContact a)
    [Element "div" []
       [Element "div" []
          [Element "div" [] [text "Add a Buddy"];
           Element "div" [] (add_body sess myQrImageUrl a);
           Element "div" []
             (unless (addContactSent a) (button (js "Send Request") [SAddSubmit]) ++
              [Element "button"
                 ([OnClick [SAddClose]] ++ show_if (addContactSent a) [Num "flex" 1] ++
                  unless (addContactSent a) (Style "padding" (js "0 14px")))
                 [Text (if addContactSent a then js "Close" else js "Cancel")]])]]].

Definition user_names (r : UserRow) : node :=
  Element "div" []
    [Element "div" [] [Text (name_text (row_name r))]; Element "div" [] (map Text (row_winkdId r))].

Definition blocked_row (r : UserRow) : node :=
  Element "div" []
    [avatar_element 28 (row_avatar r); user_names r; button (js "Unblock") [SUnblock (row_id r)]].

Definition close_button (h : list SidebarAction) : node := Element "div" [] [button (js "Close") h].

Definition blocked_dialog (shown : bool) (rows : list UserRow) : list node :=
  show_if shown
    [Element "div" []
       [Element "div" []
          [Element "div" [] [text "Blocked Users"];
           Element "div" []
             (show_if (bool_decide (rows = [])) [Element "div" [] [text "You have not blocked anyone."]] ++
              map blocked_row rows);
           close_button [SBlockedClose]]]].

Definition invitation_row (r : UserRow) : node :=
  Element "div" []
    [Element "div" [] [avatar_element 30 (row_avatar r); user_names r];
     Element "div" []
       [button (js "Accept") [SApprove (row_id r)]; button (js "Deny") [SReject (row_id r)];
        button (js "Block") [SBlock (row_id r)]]].

Definition pending_dialog (shown : bool) (rows : list UserRow) : list node :=
  show_if shown
    [Element "div" []
       [Element "div" []
          [Element "div" []
             [text "Pending Invitations ("; Text (js_toString (Z.of_nat (length rows))); text ")"];
           Element "div" [] (map invitation_row rows);
           close_button [SPendingClose]]]].

(** ** The panel *)

Definition Sidebar (hovered : ItemView → bool) (sess : Session) (p : SidebarState) (v : SidebarView) : node :=
  Element "div" []
    ([profile_area sess (sv_avatar v) (sv_mood v); search_box (searchQuery (local p));
      roster_element hovered (sv_roster v)] ++
     footer (sv_invitations v) ++
     [StatusBar (Some false) (Some (winkdId (own_profile (profile sess))))] ++
     settings_overlay sess (settings p) ++
     add_dialog sess (sv_qr v) (addContact p) ++
     blocked_dialog (showBlockedUsers (local p)) (sv_blocked v) ++
     pending_dialog (showPendingModal (local p)) (sv_pending v)).

(** ** What the panel offers *)

Definition group_handlers (g : GroupView) : list (handler SidebarAction) :=
  HClick [SToggle (gv_key g)] ::
  match gv_items g with
  | Some items => map (λ v, HClick [SContact (sc_id (iv_contact v))]) items
  | None => []
  end.

Definition enter_key (a : SidebarAction) : handler SidebarAction :=
  HKey (λ key _, if bool_decide (key = js "Enter") then [a] else []).

Definition add_handlers (a : AddContact) : list (handler SidebarAction) :=
  show_if (showAddContact a)
    (show_if (negb (addContactSent a))
       ([HClick [SAddMode ById]; HClick [SAddMode ByQr]] ++
        match addContactMode a with
        | ById => [HChange None (λ v, [SAddInput v]); enter_key SAddSubmit]
        | ByQr => [HChange None (λ v, [SQrInput v]); enter_key SUseQr; HClick [SUseQr]]
        end ++
        [HClick [SAddSubmit]]) ++
     [HClick [SAddClose]]).

Definition invitation_handlers (r : UserRow) : list (handler SidebarAction) :=
  [HClick [SApprove (row_id r)]; HClick [SReject (row_id r)]; HClick [SBlock (row_id r)]].

Definition sidebar_handlers (sess : Session) (p : SidebarState) (v : SidebarView) : list (handler SidebarAction) :=
  [HClick [SProfileEdit]; HClick [SCycleStatus]; HClick [SProfileEdit];
   HClick [SOpenWindow (if bool_decide (tier (supporter sess) = plus) then plusManageUrl else plusBuyUrl)];
   HChange None (λ v, [SSearch v])] ++
  flat_map group_handlers (rv_groups (sv_roster v)) ++
  [HClick [SSecurityOpen]; HClick [SBlockedOpen]] ++
  match sv_invitations v with Some _ => [HClick [SPendingOpen]] | None => [] end ++
  [HClick [SAddOpen]] ++
  match settings p with
  | Some w => map (handler_map SSecurity) (panel_handlers (token sess) w)
  | None => []
  end ++
  add_handlers (addContact p) ++
  show_if (showBlockedUsers (local p))
    (map (λ r, HClick [SUnblock (row_id r)]) (sv_blocked v) ++ [HClick [SBlockedClose]]) ++
  show_if (showPendingModal (local p)) (flat_map invitation_handlers (sv_pending v) ++ [HClick [SPendingClose]]).

Lemma profile_handlers sess avatar mood :
  handlers (profile_area sess avatar mood) =
    [HClick [SProfileEdit]; HClick [SCycleStatus]; HClick [SProfileEdit];
     HClick [SOpenWindow (if bool_decide (tier (supporter sess) = plus) then plusManageUrl else plusBuyUrl)]].
Proof.
  unfold profile_area. plain. rewrite avatar_silent, !handlers_Element, rich_silent.
  assert (flat_map handlers (match mood with Some ps => rich_text 14 ps | None => [text "Set a mood…"] end : list node) = [])
    as -> by (by destruct mood; [apply rich_silent|]).
  unfold supporter_box. destruct (supporter sess) as [[] ? ? ? ? [e|]]; cbn; try reflexivity.
  by destruct (nonempty e).
Qed.

Lemma group_element_handlers hovered g : handlers (group_element hovered g) = group_handlers g.
Proof.
  assert (∀ items, flat_map handlers (map (λ v, item_element [SContact (sc_id (iv_contact v))] (hovered v) v) items : list node)
    = map (λ v, HClick [SContact (sc_id (iv_contact v))]) items) as Hi.
  { intros items. induction items as [|v items IH]; cbn [map flat_map]; [done|]. by rewrite item_handlers, IH. }
  unfold group_element, group_handlers. rewrite handlers_plain. cbn [flat_map]. rewrite handlers_Element. plain.
  rewrite rich_silent. destruct (gv_items g) as [items|]; [by rewrite Hi|done].
Qed.

Lemma roster_handlers hovered r : handlers (roster_element hovered r) = flat_map group_handlers (rv_groups r).
Proof.
  unfold roster_element. plain. assert (flat_map handlers (pending_section (rv_pending r)) = []) as ->.
  { unfold pending_section. plain. rewrite flat_map_map_silent; [by destruct (0 <? _)%nat|].
    intros q. unfold pending_row. plain. by rewrite avatar_silent. }
  destruct (rv_empty r); cbn; rewrite app_nil_r; induction (rv_groups r) as [|g gs IH]; cbn; try done;
    by rewrite group_element_handlers, IH.
Qed.

Lemma add_dialog_handlers sess qr a : flat_map handlers (add_dialog sess qr a) = add_handlers a.
Proof.
  unfold add_dialog, add_handlers. rewrite flat_map_show_if. destruct (showAddContact a); [|done].
  cbn [show_if flat_map]. plain. unfold add_body. destruct (addContactSent a), (addContactMode a);
    try reflexivity; unfold qr_form; plain; destruct (nonempty (qrScanHint a)), (nonempty (addContactError a)); reflexivity.
Qed.

Lemma blocked_handlers shown rows :
  flat_map handlers (blocked_dialog shown rows) =
    show_if shown (map (λ r, HClick [SUnblock (row_id r)]) rows ++ [HClick [SBlockedClose]]).
Proof.
  unfold blocked_dialog. rewrite flat_map_show_if. destruct shown; [|done]. cbn [show_if flat_map]. plain.
  assert (flat_map handlers (map blocked_row rows) = map (λ r, HClick [SUnblock (row_id r)]) rows) as ->.
  { induction rows as [|r rows IH]; cbn [map flat_map]; [done|]. rewrite IH. unfold blocked_row, user_names.
    plain. rewrite avatar_silent. by rewrite flat_map_map_silent. }
  by case_bool_decide.
Qed.

Lemma pending_handlers shown rows :
  flat_map handlers (pending_dialog shown rows) =
    show_if shown (flat_map invitation_handlers rows ++ [HClick [SPendingClose]]).
Proof.
  unfold pending_dialog. rewrite flat_map_show_if. destruct shown; [|done]. cbn [show_if flat_map]. plain.
  assert (flat_map handlers (map invitation_row rows) = flat_map invitation_handlers rows) as ->; [|done].
  induction rows as [|r rows IH]; cbn [map flat_map]; [done|]. rewrite IH. unfold invitation_row, user_names.
  plain. rewrite avatar_silent. by rewrite flat_map_map_silent.
Qed.

Lemma settings_handlers sess v :
  flat_map handlers (settings_overlay sess v) =
    match v with Some w => map (handler_map SSecurity) (panel_handlers (token sess) w) | None => [] end.
Proof.
  destruct v as [w|]; [|done]. unfold settings_overlay. plain. by rewrite handlers_map, security_handlers.
Qed.

Lemma sidebar_markup_handlers hovered sess p v : handlers (Sidebar hovered sess p v) = sidebar_handlers sess p v.
Proof.
  unfold Sidebar, sidebar_handlers. rewrite handlers_plain, !flat_map_app.
  rewrite settings_handlers, add_dialog_handlers, blocked_handlers, pending_handlers.
  cbn [flat_map]. rewrite profile_handlers, roster_handlers, status_bar_silent.
  assert (flat_map handlers (footer (sv_invitations v)) = [HClick [SSecurityOpen]; HClick [SBlockedOpen]] ++
    match sv_invitations v with Some _ => [HClick [SPendingOpen]] | None => [] end ++ [HClick [SAddOpen]]) as ->
    by (unfold footer; by destruct (sv_invitations v)).
  assert (handlers (search_box (searchQuery (local p))) = [HChange None (λ v, [SSearch v])]) as -> by done.
  by rewrite app_nil_r, <-!app_assoc.
Qed.

End sidebar.
