(* ===== verification/SidebarRuns.v ===== *)
(** * Runs of the sidebar

    What the actions of SidebarMarkup.v do to the stores and to the panel, with the
    handlers of Sidebar.v, and what a user who only does what is on the screen makes
    it send. *)

From S2P Require Import Prelude JsString Json Platform Types AuthStore ChatStore ContactsStore Emoji Roster.
From S2P Require Import Sidebar Socket Page Security SecurityView Html Widgets SidebarMarkup.

(** What leaves the panel: an object for [send], and [window.open]. *)
Inductive effect := Sends (frame : json) | Opens (url : jsstr).

Definition with_local (f : SidebarLocal → SidebarLocal) (p : SidebarState) : SidebarState :=
  mkSidebar (f (local p)) (addContact p) (showProfileEdit p) (settings p).
Definition with_add (f : AddContact → AddContact) (p : SidebarState) : SidebarState :=
  mkSidebar (local p) (f (addContact p)) (showProfileEdit p) (settings p).
Definition with_settings (v : option View) (p : SidebarState) : SidebarState :=
  mkSidebar (local p) (addContact p) (showProfileEdit p) v.

Definition setSearchQuery (q : jsstr) (l : SidebarLocal) : SidebarLocal :=
  mkLocal q (collapsed l) (showPendingModal l) (showBlockedUsers l).
Definition setCollapsed (key : UIGroup) (l : SidebarLocal) : SidebarLocal :=
  mkLocal (searchQuery l) (toggle key (collapsed l)) (showPendingModal l) (showBlockedUsers l).
Definition setShowPendingModal (b : bool) (l : SidebarLocal) : SidebarLocal :=
  mkLocal (searchQuery l) (collapsed l) b (showBlockedUsers l).
Definition setShowBlockedUsers (b : bool) (l : SidebarLocal) : SidebarLocal :=
  mkLocal (searchQuery l) (collapsed l) (showPendingModal l) b.

Definition setShowAddContact (a : AddContact) : AddContact :=
  mkAdd true (addContactMode a) (addContactInput a) (qrScanInput a) (qrScanHint a) (addContactError a) (addContactSent a).
Definition setAddContactMode (m : AddMode) (a : AddContact) : AddContact :=
  mkAdd (showAddContact a) m (addContactInput a) (qrScanInput a) (qrScanHint a) [] (addContactSent a).
Definition setAddContactInput (v : jsstr) (a : AddContact) : AddContact :=
  mkAdd (showAddContact a) (addContactMode a) v (qrScanInput a) (qrScanHint a) [] (addContactSent a).
Definition setQrScanInput (v : jsstr) (a : AddContact) : AddContact :=
  mkAdd (showAddContact a) (addContactMode a) (addContactInput a) v (qrScanHint a) [] (addContactSent a).

Definition openBlockedUsers (l : SidebarLocal) : SidebarLocal * list json :=
  (setShowBlockedUsers true l, [command (js "list_blocked") []]).

Section runs.
Context {doubles : Doubles}.
Context (upper : Z → jsstr) (lower : jsstr → jsstr).
Context (fmtDate shortDate : jsstr → jsstr) (VITE_BMAC_MEMBERSHIP_URL VITE_BMAC_PLUS_URL : option jsstr).

Definition respond (f : ContactsState → ContactsState * list json) (s : Stores) (p : SidebarState)
    : Stores * SidebarState * list effect :=
  let '(cs, frames) := f (contactsStore s) in
  (mkStores (authStore s) (chatStore s) cs, p, map Sends frames).

(** One action, for the session the panel was rendered with. A contact whose id is
    not a text, which would be opened under another name than its own, is outside
    the model. A payload that cannot be decoded throws out of its handler. *)
Definition perform (sess : Session) (a : SidebarAction) (s : Stores) (p : SidebarState)
    : option (Stores * SidebarState * list effect) :=
  let keep p := Some (s, p, []) in
  match a with
  | SProfileEdit => keep (mkSidebar (local p) (addContact p) true (settings p))
  | SCycleStatus =>
      let '(au, frames) := cycleStatus (profile sess) (authStore s) in
      Some (mkStores au (chatStore s) (contactsStore s), p, map Sends frames)
  | SOpenWindow url => Some (s, p, [Opens url])
  | SSearch v => keep (with_local (setSearchQuery v) p)
  | SToggle key => keep (with_local (setCollapsed key) p)
  | SContact (Some (JStr id)) =>
      let '(chat, cs) := handleContactClick id (chatStore s) (contactsStore s) in
      Some (mkStores (authStore s) chat cs, p, [])
  | SContact _ => None
  | SSecurityOpen => keep (with_settings (Some (nullish initialView (settings p))) p)
  | SSecurity (Act e) => keep (with_settings (Security.step e <$> settings p) p)
  | SSecurity Close => keep (with_settings None p)
  | SBlockedOpen =>
      let '(l, frames) := openBlockedUsers (local p) in Some (s, with_local (λ _, l) p, map Sends frames)
  | SBlockedClose => keep (with_local (setShowBlockedUsers false) p)
  | SPendingOpen => keep (with_local (setShowPendingModal true) p)
  | SPendingClose => keep (with_local (setShowPendingModal false) p)
  | SAddOpen => keep (with_add setShowAddContact p)
  | SAddMode m => keep (with_add (setAddContactMode m) p)
  | SAddInput v => keep (with_add (setAddContactInput v) p)
  | SQrInput v => keep (with_add (setQrScanInput v) p)
  | SAddSubmit =>
      let '(add, frames) := handleAddContact (addContact p) in Some (s, with_add (λ _, add) p, map Sends frames)
  | SUseQr =>
      keep (match handleUseQrPayload (addContact p) with Ok add => with_add (λ _, add) p | Throw _ => p end)
  | SAddClose => keep (with_add closeAddContact p)
  | SApprove id => Some (respond (handleApprove id) s p)
  | SReject id => Some (respond (handleReject id) s p)
  | SBlock id => Some (respond (handleBlock id) s p)
  | SUnblock id => Some (s, p, map Sends (handleUnblock id))
  end.

Fixpoint performs (sess : Session) (acts : list SidebarAction) (s : Stores) (p : SidebarState)
    : option (Stores * SidebarState * list effect) :=
  match acts with
  | [] => Some (s, p, [])
  | a :: acts =>
      '(s, p, out) ← perform sess a s p;
      '(s, p, out') ← performs sess acts s p;
      Some (s, p, out ++ out')
  end.

Abbreviation manageUrl := (plusManageUrl VITE_BMAC_MEMBERSHIP_URL) (only parsing).
Abbreviation buyUrl := (plusBuyUrl VITE_BMAC_MEMBERSHIP_URL VITE_BMAC_PLUS_URL) (only parsing).
Abbreviation markup := (SidebarMarkup.Sidebar fmtDate shortDate VITE_BMAC_MEMBERSHIP_URL VITE_BMAC_PLUS_URL)
  (only parsing).

(** The panel's life: the user's gestures on what is shown, changes of the stores
    by anything else, and the settings' own events. Without a session the page has
    no panel, and the next one starts anew. *)
Inductive sidebar_runs (s0 : Stores) : list (Stores * effect) → Stores → SidebarState → Prop :=
  | sidebar_start : sidebar_runs s0 [] s0 initialSidebar
  | sidebar_gesture tr s p i sess v hovered acts s' p' out :
      sidebar_runs s0 tr s p → session (authStore s) = Some (i, sess) →
      Page.Sidebar upper lower (local p) s sess = Ok v →
      offered (markup hovered sess p v) acts → performs sess acts s p = Some (s', p', out) →
      sidebar_runs s0 (tr ++ map (pair s) out) s' p'
  | sidebar_stores tr s p s' :
      sidebar_runs s0 tr s p →
      sidebar_runs s0 tr s' (match session (authStore s') with Some _ => p | None => initialSidebar end)
  | sidebar_settings tr s p w e :
      sidebar_runs s0 tr s p → settings p = Some w → outside e → Security.enabled e w = true →
      sidebar_runs s0 tr s (with_settings (Some (Security.step e w)) p).

(** ** What the panel may send *)

Definition response_to (i : PendingInvitation) (f : json) : Prop :=
  ∃ name, name ∈ [js "accept_contact"; js "reject_contact"; js "block_contact"] ∧
    f = request_command name (requestId i).

(** A frame, by the stores at the time it is sent. *)
Inductive justified (s : Stores) : effect → Prop :=
  | justified_status i sess :
      session (authStore s) = Some (i, sess) →
      justified s (Sends (command (js "set_status")
        [(js "status", JStr (status_text (next_status (status (own_profile (profile sess))))))]))
  | justified_response i f :
      In i (pendingInvitations (contactsStore s)) → response_to i f → justified s (Sends f)
  | justified_unblock b f :
      In b (blockedUsers (contactsStore s)) → handleUnblock (b_userId b) = [f] → justified s (Sends f)
  | justified_list : justified s (Sends (command (js "list_blocked") []))
  | justified_add typed :
      is_winkd_id (js_trim typed) = true →
      justified s (Sends (command (js "add_contact") [(js "winkd_id", JStr (js_trim typed))]))
  | justified_window url : url = manageUrl ∨ url = buyUrl → justified s (Opens url).

(** ** The rows of the dialogs *)

Lemma mapM_In {X Y} (f : X → result Y) l ys y : mapM f l = Ok ys → In y ys → ∃ x, In x l ∧ f x = Ok y.
Proof.
  revert ys. induction l as [|x l IH]; intros ys; [by intros [= <-]|].
  intros (z & zs & Hz & Hzs & ->)%mapM_ok_cons [<-|Hy]; [by exists x; split; [left|]|].
  destruct (IH zs Hzs Hy) as (x' & Hx & ?). exists x'. by split; [right|].
Qed.

Lemma user_row_id id name data w r : user_row upper id name data w = Ok r → row_id r = id.
Proof. by intros (a & _ & (t & _ & [= <-])%bind_Ok)%bind_Ok. Qed.

Lemma pending_rows l s sess v r :
  Page.Sidebar upper lower l s sess = Ok v → In r (sv_pending v) →
  ∃ i, In i (pendingInvitations (contactsStore s)) ∧ row_id r = requestId i.
Proof.
  unfold Page.Sidebar.
  intros (? & _ & (? & _ & (? & _ & (? & _ & (? & _ & (? & _ & (rows & Hr & [= <-])%bind_Ok)%bind_Ok)%bind_Ok)%bind_Ok)%bind_Ok)%bind_Ok)%bind_Ok Hin.
  cbn in Hin. destruct (showPendingModal l); [|by injection Hr as <-].
  destruct (mapM_In _ _ _ _ Hr Hin) as (i & Hi & Hf). exists i. split; [done|]. by eapply user_row_id.
Qed.

Lemma blocked_rows l s sess v r :
  Page.Sidebar upper lower l s sess = Ok v → In r (sv_blocked v) →
  ∃ b, In b (blockedUsers (contactsStore s)) ∧ row_id r = b_userId b.
Proof.
  unfold Page.Sidebar.
  intros (? & _ & (? & _ & (? & _ & (? & _ & (? & _ & (rows & Hr & (? & _ & [= <-])%bind_Ok)%bind_Ok)%bind_Ok)%bind_Ok)%bind_Ok)%bind_Ok)%bind_Ok Hin.
  cbn in Hin. destruct (showBlockedUsers l); [|by injection Hr as <-].
  destruct (mapM_In _ _ _ _ Hr Hin) as (b & Hb & Hf). exists b. split; [done|]. by eapply user_row_id.
Qed.

(** ** What a gesture is *)

(** An action, for what is on the screen. *)
Definition action_ok (v : SidebarView) (a : SidebarAction) : Prop :=
  match a with
  | SOpenWindow url => url = manageUrl ∨ url = buyUrl
  | SContact id =>
      ∃ g items i, In g (rv_groups (sv_roster v)) ∧ gv_items g = Some items ∧ In i items ∧
        id = sc_id (iv_contact i)
  | SApprove id | SReject id | SBlock id => ∃ r, In r (sv_pending v) ∧ id = row_id r
  | SUnblock id => ∃ r, In r (sv_blocked v) ∧ id = row_id r
  | SSecurity _ => False
  | _ => True
  end.

(** A gesture of the panel itself: at most one action. *)
Definition gesture_ok (v : SidebarView) (x : handler SidebarAction) : Prop :=
  ∀ acts, gesture x acts → acts = [] ∨ ∃ a, acts = [a] ∧ action_ok v a.

Lemma click_ok v a : action_ok v a → gesture_ok v (HClick [a]).
Proof. intros Ha acts ->. right. by exists a. Qed.
Lemma typed_ok v f : (∀ t, action_ok v (f t)) → gesture_ok v (HChange None (λ t, [f t])).
Proof. intros Ha acts (t & _ & ->). right. by eexists. Qed.
Lemma enter_ok v a : action_ok v a → gesture_ok v (enter_key a).
Proof. intros Ha acts (key & _ & ->). case_bool_decide; [right; by eexists|by left]. Qed.

Ltac gestures H := cbn in H; decompose [or] H; subst; try done;
  first [by apply click_ok|by apply typed_ok|by apply enter_ok].

Lemma add_handlers_ok v a x : In x (add_handlers a) → gesture_ok v x.
Proof.
  unfold add_handlers. destruct (showAddContact a); [|done]. cbn [show_if]. rewrite in_app_iff.
  destruct (addContactSent a), (addContactMode a); intros H; gestures H.
Qed.

Lemma group_handlers_ok v g x : In g (rv_groups (sv_roster v)) → In x (group_handlers g) → gesture_ok v x.
Proof.
  unfold group_handlers. intros Hg [<-|H]; [by apply click_ok|]. destruct (gv_items g) as [items|] eqn:E; [|done].
  apply in_map_iff in H as (i & <- & Hi). apply click_ok. by exists g, items, i.
Qed.

Lemma sidebar_handlers_ok sess p v x :
  In x (sidebar_handlers VITE_BMAC_MEMBERSHIP_URL VITE_BMAC_PLUS_URL sess p v) →
  gesture_ok v x ∨
  ∃ w y, settings p = Some w ∧ In y (panel_handlers (token sess) w) ∧ x = handler_map SSecurity y.
Proof.
  unfold sidebar_handlers. rewrite !in_app_iff. intros [H|[H|[H|[H|[H|[H|[H|[H|H]]]]]]]].
  - left. assert (∀ b : bool, action_ok v (SOpenWindow (if b then manageUrl else buyUrl))) as Hu
      by (intros []; cbn; auto). gestures H.
  - left. apply in_flat_map in H as (g & Hg & Hx). by eapply group_handlers_ok.
  - left. gestures H.
  - left. destruct (sv_invitations v); [|done]. destruct H as [<-|[]]. by apply click_ok.
  - left. destruct H as [<-|[]]. by apply click_ok.
  - destruct (settings p) as [w|]; [|done]. apply in_map_iff in H as (y & <- & Hy). right. by exists w, y.
  - left. by eapply add_handlers_ok.
  - left. destruct (showBlockedUsers (local p)); [|done]. apply in_app_iff in H as [H|[<-|[]]]; [|by apply click_ok].
    apply in_map_iff in H as (r & <- & Hr). apply click_ok. by exists r.
  - left. destruct (showPendingModal (local p)); [|done]. apply in_app_iff in H as [H|[<-|[]]]; [|by apply click_ok].
    apply in_flat_map in H as (r & Hr & Hx). assert (∃ r', In r' (sv_pending v) ∧ row_id r = row_id r') as Hv by (by exists r).
    gestures Hx.
Qed.

(** A gesture is one action of the panel, or one of the settings. *)
Lemma sidebar_offers hovered sess p v acts :
  offered (markup hovered sess p v) acts →
  acts = [] ∨ (∃ a, acts = [a] ∧ action_ok v a) ∨
  ∃ w acts', settings p = Some w ∧ acts = map SSecurity acts' ∧
    offered (SecuritySettings fmtDate (token sess) w) acts'.
Proof.
  intros (x & Hx & Hg)%offered_gesture. rewrite sidebar_markup_handlers in Hx.
  destruct (sidebar_handlers_ok _ _ _ _ Hx) as [Hok|(w & y & Hw & Hy & ->)].
  - destruct (Hok acts Hg) as [?|?]; auto.
  - right. right. apply gesture_map in Hg as (acts' & -> & Hg). exists w, acts'. split_and!; [done..|].
    apply offered_gesture. exists y. by rewrite security_handlers.
Qed.

(** ** What performing does *)

Lemma performs_one sess a s p : performs sess [a] s p = perform sess a s p.
Proof. cbn. destruct (perform sess a s p) as [[[? ?] out]|]; cbn; [by rewrite app_nil_r|done]. Qed.

(** The settings' gestures change the settings only, and none is performed twice. *)
Lemma performs_settings sess acts s p w :
  settings p = Some w → length acts = 1%nat ∨ acts = [] →
  ∃ p', performs sess (map SSecurity acts) s p = Some (s, p', []) ∧
    (settings p' = None ∨ settings p' = Some (foldl (λ v e, Security.step e v) w (events acts))).
Proof.
  intros Hw [Hl| ->]; [|eexists; split; [done|by right]].
  destruct acts as [|a [|]]; try done. cbn [map]. rewrite performs_one.
  destruct a as [e|]; eexists; (split; [done|]); [right|by left]. cbn. by rewrite Hw.
Qed.

Lemma handleAddContact_frames a :
  (handleAddContact a).2 = [] ∨
  is_winkd_id (js_trim (addContactInput a)) = true ∧
  (handleAddContact a).2 = [command (js "add_contact") [(js "winkd_id", JStr (js_trim (addContactInput a)))]].
Proof. unfold handleAddContact, sendContactRequest. destruct (is_winkd_id _); auto. Qed.

(** A justified action sends justified frames, and leaves the settings alone. *)
Lemma perform_ok s i sess p v a s' p' out :
  session (authStore s) = Some (i, sess) → Page.Sidebar upper lower (local p) s sess = Ok v →
  action_ok v a → perform sess a s p = Some (s', p', out) →
  Forall (justified s) out ∧
  (settings p' = settings p ∨ settings p' = Some (nullish initialView (settings p))).
Proof.
  intros Hs Hv Ha Hp.
  assert (∀ (r : value) name, (∃ row, In row (sv_pending v) ∧ r = row_id row) →
    name ∈ [js "accept_contact"; js "reject_contact"; js "block_contact"] →
    Forall (justified s) [Sends (request_command name r)]) as Hresp.
  { intros r name (row & Hin & ->) Hn. destruct (pending_rows _ _ _ _ _ Hv Hin) as (inv & Hi & ->).
    constructor; [|constructor]. apply (justified_response s inv); [done|by exists name]. }
  destruct a; cbn in Ha, Hp; simplify_eq; cbn; try done; try (by split; [constructor|auto]).
  - split; [|by left]. constructor; [|constructor]. by econstructor.
  - split; [|by left]. constructor; [|constructor]. by constructor.
  - destruct id as [[]|]; try done. simplify_eq. split; [constructor|by left].
  - split; [|by left]. constructor; [constructor|constructor].
  - destruct (handleAddContact (addContact p)) as [add frames] eqn:E. simplify_eq. split; [|by left].
    destruct (handleAddContact_frames (addContact p)) as [H|[Hi H]]; rewrite E in H; cbn in H; subst; [constructor|].
    constructor; [|constructor]. by constructor.
  - split; [constructor|]. destruct (handleUseQrPayload _); by left.
  - split; [|by left]. apply Hresp; [done|set_solver].
  - split; [|by left]. apply Hresp; [done|set_solver].
  - split; [|by left]. apply Hresp; [done|set_solver].
  - split; [|by left]. destruct Ha as (r & Hr & ->).
    destruct (blocked_rows _ _ _ _ _ Hv Hr) as (b & Hb & ->). constructor; [|constructor].
    by eapply justified_unblock.
Qed.

(** ** Properties *)

Definition requests_ok (p : SidebarState) : Prop :=
  ∀ w, settings p = Some w → sound w.

Lemma sound_initial : sound initialView.
Proof. split; [|done]. split; [constructor|]. by split; (split; [constructor|cbn; lia]). Qed.

(** A gesture sends what is justified, and keeps the settings sound. *)
Lemma gesture_sends s i sess p v hovered acts s' p' out :
  session (authStore s) = Some (i, sess) → Page.Sidebar upper lower (local p) s sess = Ok v → requests_ok p →
  offered (markup hovered sess p v) acts → performs sess acts s p = Some (s', p', out) →
  Forall (justified s) out ∧ requests_ok p'.
Proof.
  intros Hs Hv Hw Ho Hp. destruct (sidebar_offers _ _ _ _ _ Ho) as [-> |[(a & -> & Ha)|(w & acts' & Hset & -> & Ho')]].
  - injection Hp as <- <- <-. by split; [constructor|].
  - rewrite performs_one in Hp. destruct (perform_ok _ _ _ _ _ _ _ _ _ Hs Hv Ha Hp) as [Hj [E|E]];
      (split; [done|]); intros w Ew; rewrite E in Ew; [by apply Hw|].
    destruct (settings p) as [w0|] eqn:E0; cbn in Ew; injection Ew as <-; [by apply Hw|apply sound_initial].
  - pose proof (gesture_sound fmtDate (token sess) w acts' (Hw w Hset) Ho') as Hsound.
    destruct (performs_settings sess acts' s p w Hset (security_acts _ _ _ _ Ho')) as (q & Hq & E).
    rewrite Hq in Hp. injection Hp as <- <- <-. split; [constructor|].
    intros w' Ew. destruct E as [E|E]; rewrite E in Ew; by simplify_eq.
Qed.

(** So do the settings' own events. *)
Lemma settings_sound p w e :
  requests_ok p → settings p = Some w → outside e → requests_ok (with_settings (Some (Security.step e w)) p).
Proof. intros Hw Hset He w' [= <-]. apply outside_sound; auto. Qed.

(** A run only sends what is justified, and keeps the settings sound. *)
Lemma runs_ok s0 tr s p :
  sidebar_runs s0 tr s p → Forall (λ x, justified x.1 x.2) tr ∧ requests_ok p.
Proof.
  induction 1 as [|tr s p i sess v hovered acts s' p' out Hr [IH Hw] Hs Hv Ho Hp|tr s p s' Hr [IH Hw]
    |tr s p w e Hr [IH Hw] Hset Hout He].
  - split; [constructor|done].
  - destruct (gesture_sends _ _ _ _ _ _ _ _ _ _ Hs Hv Hw Ho Hp) as [Hj Hw'].
    split; [|done]. apply list.Forall_app. split; [done|].
    apply List.Forall_forall. intros x (e & <- & He)%in_map_iff. cbn. rewrite List.Forall_forall in Hj. auto.
  - split; [done|]. by destruct (session (authStore s')).
  - split; [done|]. by apply settings_sound.
Qed.

(** C26: Everything the sidebar sends is justified. Whatever a user does with what is
    on the screen, and whatever the server does meanwhile: a status frame carries
    the next status of the session; an acceptance, refusal or block answers an
    invitation that is in the store; an unblock names a blocked user of the store; a
    contact request names a well-formed id; only the two addresses of the
    environment are opened; the display name and the mood are never sent; and the
    requests of the settings hold codes of the right form. *)
Theorem sidebar_sends_justified s0 tr s p :
  sidebar_runs s0 tr s p →
  Forall (λ x, justified x.1 x.2) tr ∧
  (∀ t payload, (t, Sends (command (js "set_display_name") payload)) ∉ tr ∧
                (t, Sends (command (js "set_mood") payload)) ∉ tr) ∧
  ∀ w r, settings p = Some w → pending w = Some r → request_ok r.
Proof.
  intros Hr. destruct (runs_ok s0 tr s p Hr) as [Hj Hw]. split; [done|]. split.
  - intros t payload. assert (∀ name, name ∈ [js "set_display_name"; js "set_mood"] →
      (t, Sends (command name payload)) ∉ tr) as H.
    { intros name Hn Hin%list_elem_of_In. rewrite List.Forall_forall in Hj. specialize (Hj _ Hin). cbn in Hj.
      rewrite !elem_of_cons, elem_of_nil in Hn. unfold response_to in *.
      inversion Hj as [? ? ? E|? ? ? (n & Hn' & E)|? ? ? E| |? ? E|]; subst; unfold command, handleUnblock, request_command in *;
        rewrite ?elem_of_cons, ?elem_of_nil in *; naive_solver. }
    split; apply H; set_solver.
  - intros w r E. apply (Hw w E).
Qed.

(** An action keeps the page showable. *)
Lemma sidebar_perform_showable s i sess p a :
  session (authStore s) = Some (i, sess) → showable s → chat_ok (chatStore s) →
  (∀ id, a = SContact id → Roster.text id) →
  ∃ s' p' out, perform sess a s p = Some (s', p', out) ∧ showable s' ∧ chat_ok (chatStore s').
Proof.
  intros Hs Hsh Hc Ha. destruct a; try (by do 3 eexists; split; [reflexivity|split]).
  - do 3 eexists. split; [reflexivity|]. split; [|done]. destruct Hsh as [Hau ? ?]. split; [|done..].
    intros j x. cbn. rewrite (updateProfile_session _ _ _ _ Hs). intros [= _ <-]. exact (Hau i sess Hs).
  - destruct (Ha id eq_refl) as [id' ->]. do 3 eexists. split; [reflexivity|]. split; [|by apply open_ok].
    pose proof (showable_contacts (ClearUnread id') s I Hsh) as [? ? ?].
    destruct Hsh as [? Hch ?]. split; [done| |done]. by apply open_showable.
  - destruct a; by do 3 eexists; split; [reflexivity|split].
  - cbn. destruct (handleAddContact _). by do 3 eexists; split; [reflexivity|split].
  - do 3 eexists. split; [reflexivity|]. split; [by apply (showable_contacts (RemovePending requestId))|done].
  - do 3 eexists. split; [reflexivity|]. split; [by apply (showable_contacts (RemovePending requestId))|done].
  - do 3 eexists. split; [reflexivity|]. split; [by apply (showable_contacts (RemovePending requestId))|done].
Qed.

Lemma searched_In q l r c : searched lower q l = Ok r → In c r → In c l.
Proof. intros ->%searched_Ok. by intros [? _]%filter_In. Qed.

(** The contacts that are listed are contacts of the store. *)
Lemma roster_items active q col cs r g items i :
  Roster upper lower active q col cs = Ok r → In g (rv_groups r) → gv_items g = Some items → In i items →
  In (iv_contact i) (contacts cs).
Proof.
  intros (fa & Hfa & (fp & _ & (gs & Hg & (ps & _ & [= <-])%bind_Ok)%bind_Ok)%bind_Ok)%bind_Ok Hin Hi Hitem.
  cbn in Hin. unfold shown_views in Hin. apply list_elem_of_In, list_elem_of_omap in Hin as (o & Ho & Eo).
  cbn in Eo. subst o. apply list_elem_of_In in Ho. destruct (mapM_In _ _ _ _ Hg Ho) as ([[key label] f] & _ & Hv).
  unfold group_view in Hv. destruct (List.filter f fa) as [|c0 l] eqn:E; [done|].
  apply bind_Ok in Hv as (its & Hits & [= <-]). cbn in Hi. subst its.
  destruct (col key); [done|]. apply bind_Ok in Hits as (its & Hits & [= ->]).
  destruct (mapM_In _ _ _ _ Hits Hitem) as (c & Hc & Hci).
  assert (iv_contact i = c) as ->.
  { unfold contact_item in Hci. apply bind_Ok in Hci as (n & _ & Hci). cbv zeta in Hci. unfold ContactItem in Hci.
    by apply bind_Ok in Hci as (a & _ & (m & _ & [= <-])%bind_Ok). }
  rewrite <-E in Hc. apply filter_In in Hc as [Hc _]. apply (searched_In _ _ _ _ Hfa) in Hc.
  by apply filter_In in Hc as [Hc _].
Qed.

Lemma sidebar_roster l s sess v :
  Page.Sidebar upper lower l s sess = Ok v →
  Roster upper lower (activeConversationId (chatStore s)) (searchQuery l) (collapsed l) (contactsStore s) =
    Ok (sv_roster v).
Proof.
  unfold Page.Sidebar.
  by intros (? & _ & (? & _ & (? & _ & (? & _ & (r & Hr & (? & _ & (? & _ & [= <-])%bind_Ok)%bind_Ok)%bind_Ok)%bind_Ok)%bind_Ok)%bind_Ok)%bind_Ok.
Qed.

(** The user never takes the page down. From a page that can be shown, every
    gesture the sidebar offers is carried out, and leaves a page that can be shown,
    whatever is searched for or opened next. *)
Theorem sidebar_gestures_show s i sess p v hovered acts :
  (∀ c, Forall (λ u, 0 ≤ u) (upper c)) →
  session (authStore s) = Some (i, sess) → showable s → chat_ok (chatStore s) →
  Page.Sidebar upper lower (local p) s sess = Ok v → offered (markup hovered sess p v) acts →
  ∃ s' p' out, performs sess acts s p = Some (s', p', out) ∧ chat_ok (chatStore s') ∧ showable s' ∧
    ∀ format_double l, ∃ view,
      AppErrorBoundary upper lower format_double false l s' = (false, view) ∧ view ≠ ErrorScreen.
Proof.
  intros Hu Hs Hsh Hc Hv Ho.
  assert (∃ s' p' out, performs sess acts s p = Some (s', p', out) ∧ showable s' ∧ chat_ok (chatStore s'))
    as (s' & p' & out & Hp & Hsh' & Hc').
  { destruct (sidebar_offers _ _ _ _ _ Ho) as [-> |[(a & -> & Ha)|(w & acts' & Hset & -> & Ho')]].
    - by do 3 eexists.
    - rewrite performs_one. eapply sidebar_perform_showable; [done..|]. intros id ->.
      destruct Ha as (g & items & it & Hg & Hits & Hit & ->).
      pose proof (roster_items _ _ _ _ _ _ _ _ (sidebar_roster _ _ _ _ Hv) Hg Hits Hit) as Hin.
      pose proof (ss_contacts _ (sh_contacts _ Hsh)) as Hct. rewrite List.Forall_forall in Hct.
      apply (ct_id _ (Hct _ Hin)).
    - destruct (performs_settings sess acts' s p w Hset (security_acts _ _ _ _ Ho')) as (q & Hq & _).
      by exists s, q, []. }
  exists s', p', out. split_and!; [done..|]. intros format_double l. unfold AppErrorBoundary.
  destruct (App_total upper lower format_double Hu l s' Hsh') as (view & Hview & Hne). rewrite Hview. by exists view.
Qed.

End runs.
