(* ===== verification/ChatMarkup.v ===== *)
(** * ChatWindow.tsx: the window's markup

    The markup of apps/web/src/components/ChatWindow.tsx for the view of Page.v and
    the window's own state, with the toolbar and the emoji picker of Chrome.v, and
    the handlers it offers. *)

From S2P Require Import Prelude JsString Json Platform Types AuthStore ChatStore ContactsStore Emoji Bubble.
From S2P Require Import Roster ChatWindow Page Html Widgets Chrome.

Inductive ChatAction :=
  | CPress (b : button)               (** the toolbar, and the header's button *)
  | CInput (v : jsstr)
  | CSend
  | CPhotoPick
  | CFilePick
  | CAttach                           (** a file input has a new choice *)
  | CCategory (idx : nat)
  | CPickerSearch (v : jsstr)
  | CEmoji (v : jsstr)
  | CPickerClose.

Abbreviation node := (html Empty_set ChatAction) (only parsing).

(** The picker's own state, and the window's; [reading] are the files that are being
    read, with what the handler closed over: the conversation, the user and the input. *)
Record PickerState := mkPicker { activeCategory : nat; pickerSearch : jsstr }.

Record Read := mkRead { rd_conversation : jsstr; rd_me : jsstr; rd_file : File; rd_input : jsstr }.

Record ChatLocal := mkChatLocal {
  cl_input : jsstr;
  cl_error : option jsstr;
  cl_picker : option PickerState;
  cl_reading : list Read;
}.

Definition initialChat : ChatLocal := mkChatLocal [] None None [].

Section chat.
Context {doubles : Doubles}.

Definition placeholder : node :=
  Element "div" []
    [Element "img" [Attr "src" (js "https://i.imgur.com/cg6eejI.png"); Attr "alt" (js "Winkd")] [];
     Element "span" [] [text "Select a contact to start chatting"]].

Definition contact_name (v : ChatView) : jsstr := name_text (sc_displayName (cw_contact v)).

Definition contact_header (v : ChatView) : node :=
  Element "div" []
    [avatar_element 40 (cw_header v);
     Element "div" []
       (Element "div" [] [Text (contact_name v)] :: mood_element (sc_moodMessage (cw_contact v)) (cw_mood v));
     Element "div" []
       [Element "button" [Attr "type" (js "button"); OnClick [CPress BBlock]] [text "Block User"]]].

Definition toolbar : ToolbarProps :=
  mkToolbar [CPress BWinkd] [CPress BNudge] [CPress BWinks] [CPress BEmoticons] [CPress BFormat]
    [CPress BBackground] [CPress BDraw] None.

Definition history (v : ChatView) : node :=
  Element "div" []
    (show_if (cw_greeting v)
       [Element "div" [] [text "Say hi to "; Text (contact_name v); text "! 👋"]] ++
     flat_map bubble_element (cw_bubbles v) ++
     [Element "div" [] []]).

Definition own_row (sess : Session) (v : ChatView) : node :=
  Element "div" []
    ([avatar_element 18 (cw_own v);
      Element "span" [] [Text (displayName (own_profile (profile sess)))]] ++
     match cw_own_mood v with Some ps => [Element "span" [] (text "— " :: rich_text 13 ps)] | None => [] end).

Definition file_inputs : list node :=
  [Element "input"
     [Attr "type" (js "file"); OnPick [CAttach];
      Attr "accept" (js ".pdf,.doc,.docx,.xls,.xlsx,.ppt,.pptx,.odt,.ods,.odp,.csv,.txt,.rtf,.png,.jpg,.jpeg,.gif,.webp,.mp4,.webm,.mp3,.wav,.zip");
      Style "display" (js "none")] [];
   Element "input"
     [Attr "type" (js "file"); OnPick [CAttach]; Attr "accept" (js "image/*");
      Attr "capture" (js "environment"); Style "display" (js "none")] []].

Definition picker_popup (sess : Session) (p : option PickerState) : list node :=
  match p with
  | Some p =>
      [Element "div" []
         [EmojiPicker (Some (supporter sess)) (activeCategory p) (pickerSearch p) CCategory CPickerSearch
            (λ v, [CEmoji v]) (Some [CPickerClose])]]
  | None => []
  end.

Definition message_box (v : ChatView) (input : jsstr) : node :=
  Element "textarea"
    [Attr "value" input; OnChange (λ t, [CInput t]);
     OnKeyDown (λ key shiftKey, if bool_decide (key = js "Enter") && negb shiftKey then [CSend] else []);
     Attr "placeholder" (js "Message " ++ contact_name v ++ js "…"); Num "rows" 2] [].

Definition preview (input : jsstr) : list node :=
  show_if (nonempty (js_trim input))
    [Element "div" [] (text "Preview: " :: rich_text 14 (renderRichEmojiText input))].

Definition send_button (input : jsstr) : node :=
  let on := nonempty (js_trim input) in
  Element "button"
    [Attr "type" (js "button"); OnClick [CSend]; Flag "disabled" (negb on);
     Style "background" (if on then js "linear-gradient(180deg, #2060c0 0%, #1450a0 100%)"
                         else js "rgba(80,120,180,0.3)");
     Style "color" (if on then js "#fff" else js "rgba(140,175,225,0.45)");
     Style "cursor" (if on then js "pointer" else js "not-allowed")]
    [text "Send"].

Definition composer (sess : Session) (v : ChatView) (c : ChatLocal) : node :=
  Element "div" []
    (file_inputs ++ picker_popup sess (cl_picker c) ++ [message_box v (cl_input c)] ++ preview (cl_input c) ++
     [Element "button" [Attr "type" (js "button"); OnClick [CPhotoPick]; Attr "title" (js "Take photo")] [text "📷"];
      Element "button" [Attr "type" (js "button"); OnClick [CFilePick]; Attr "title" (js "Attach file")] [text "📁"];
      send_button (cl_input c)]).

Definition warning (error : option jsstr) : node :=
  match error with
  | Some ((_ :: _) as e) => Element "div" [Style "color" (js "#ffb5b5")] [Text (js "⚠️ " ++ e)]
  | _ =>
      Element "div" [Style "color" (js "rgba(185,210,255,0.75)")]
        [text "⚠️ Attachments can contain malware. Only open files from people you trust. Office docs may require download + local viewer (LibreOffice / ONLYOFFICE)."]
  end.

(** [over] is the toolbar's button below the pointer. *)
Definition ChatWindow (over : option nat) (sess : Session) (c : ChatLocal) (v : option ChatView) : node :=
  match v with
  | None => placeholder
  | Some v =>
      Element "div" (show_if (cw_shaking v) [Attr "className" (js "winkd-shake")])
        [contact_header v; WinkdToolbar toolbar over; history v;
         Element "div" [] [own_row sess v; composer sess v c; warning (cl_error c)];
         StatusBar (Some true) None]
  end.

(** ** What the window offers *)

Definition picker_handlers (sess : Session) (p : option PickerState) : list (handler ChatAction) :=
  match p with
  | Some p =>
      [HClick [CPickerClose]; HChange None (λ v, [CPickerSearch v])] ++
      show_if (bool_decide (js_trim (pickerSearch p) = []))
        (imap (λ idx _, HClick [CCategory idx]) (categories (Some (supporter sess)))) ++
      map (λ item, HClick [CEmoji (getInsertValue item)])
        (filtered (Some (supporter sess)) (pickerSearch p) (activeCategory p))
  | None => []
  end.

Definition chat_handlers (sess : Session) (c : ChatLocal) : list (handler ChatAction) :=
  map (λ b, HClick [CPress b]) [BBlock; BWinkd; BNudge; BWinks; BEmoticons; BFormat; BBackground; BDraw] ++
  [HPick [CAttach]; HPick [CAttach]] ++ picker_handlers sess (cl_picker c) ++
  [HChange None (λ t, [CInput t]);
   HKey (λ key shiftKey, if bool_decide (key = js "Enter") && negb shiftKey then [CSend] else []);
   HClick [CPhotoPick]; HClick [CFilePick]] ++
  show_if (nonempty (js_trim (cl_input c))) [HClick [CSend]].

Lemma bubbles_silent bs : flat_map handlers (flat_map bubble_element bs : list node) = [].
Proof. rewrite flat_map_flat_map. induction bs as [|b bs IH]; cbn; [done|]. by rewrite bubble_silent. Qed.

Lemma history_silent v : handlers (history v) = [].
Proof. unfold history. plain. rewrite bubbles_silent. by destruct (cw_greeting v). Qed.

Lemma own_row_silent sess v : handlers (own_row sess v) = [].
Proof.
  unfold own_row. plain. rewrite avatar_silent. destruct (cw_own_mood v) as [ps|]; [|done]. plain. by rewrite rich_silent.
Qed.

Lemma header_handlers v : handlers (contact_header v) = [HClick [CPress BBlock]].
Proof. unfold contact_header. plain. by rewrite avatar_silent, mood_silent. Qed.

Lemma popup_handlers sess p : flat_map handlers (picker_popup sess p) = picker_handlers sess p.
Proof. destruct p as [p|]; [|done]. unfold picker_popup. plain. by rewrite emoji_picker_handlers. Qed.

Lemma composer_handlers sess v c :
  handlers (composer sess v c) =
    [HPick [CAttach]; HPick [CAttach]] ++ picker_handlers sess (cl_picker c) ++
    [HChange None (λ t, [CInput t]);
     HKey (λ key shiftKey, if bool_decide (key = js "Enter") && negb shiftKey then [CSend] else []);
     HClick [CPhotoPick]; HClick [CFilePick]] ++
    show_if (nonempty (js_trim (cl_input c))) [HClick [CSend]].
Proof.
  unfold composer. plain. rewrite popup_handlers. unfold preview. plain. rewrite rich_silent.
  assert (handlers (send_button (cl_input c)) = show_if (nonempty (js_trim (cl_input c))) [HClick [CSend]]) as ->.
  { unfold send_button. rewrite handlers_Element. by destruct (nonempty _). }
  by destruct (nonempty (js_trim (cl_input c))).
Qed.

Lemma chat_markup_handlers over sess c v :
  handlers (ChatWindow over sess c v) = match v with Some _ => chat_handlers sess c | None => [] end.
Proof.
  destruct v as [v|]; [|done]. unfold ChatWindow. rewrite handlers_Element.
  assert (∀ children, handlers_of ("div"%string, show_if (cw_shaking v) [Attr "className" (js "winkd-shake")], children : list node) = [])
    as -> by (by destruct (cw_shaking v)).
  plain. rewrite header_handlers, toolbar_handlers, history_silent, own_row_silent, composer_handlers.
  assert (handlers (warning (cl_error c)) = []) as -> by (by destruct (cl_error c) as [[|]|]).
  by rewrite app_nil_r.
Qed.

End chat.
