(* ===== verification/ChatRuns.v ===== *)
(** * Runs of the chat window

    What the actions of ChatMarkup.v do to the stores and to the window, with the
    handlers of ChatWindow.v, and what a user who only does what is on the screen
    makes it send. Files are read while other things happen. *)

From S2P Require Import Prelude JsString Json Platform Types AuthStore ChatStore ContactsStore Emoji Bubble.
From S2P Require Import Roster Socket ChatWindow Page Html Widgets Chrome ChatMarkup.

Definition window_of (s : ChatState) (c : ChatLocal) : Window := mkWindow s (cl_input c) (cl_error c).
Definition with_window (w : Window) (c : ChatLocal) : ChatLocal :=
  mkChatLocal (inputValue w) (attachmentError w) (cl_picker c) (cl_reading c).
Definition with_picker (p : option PickerState) (c : ChatLocal) : ChatLocal :=
  mkChatLocal (cl_input c) (cl_error c) p (cl_reading c).
Definition with_reading (l : list Read) (c : ChatLocal) : ChatLocal :=
  mkChatLocal (cl_input c) (cl_error c) (cl_picker c) l.

(** The handlers close over the conversation, the user's id and the contact's. *)
Record Closure := mkClosure { cl_conversation : jsstr; cl_me : jsstr; cl_winkdId : value }.

(** What comes from the browser: a fresh id, the time, and the file that was picked. *)
Record Browser := mkBrowser { br_id : jsstr; br_now : jsstr; br_picked : option File }.

Definition chat_perform (k : Closure) (b : Browser) (a : ChatAction) (s : ChatState) (c : ChatLocal)
    : ChatState * ChatLocal * list json :=
  let w := window_of s c in
  let sent (r : Window * list json) := (chat r.1, with_window r.1 c, r.2) in
  match a with
  | CPress x =>
      let '(w, shown, frames) :=
        press (cl_conversation k) (cl_me k) x (cl_winkdId k) (br_id b) (br_now b) (w, bool_decide (is_Some (cl_picker c))) in
      (chat w,
       with_picker (if shown : bool then Some (nullish (mkPicker 0 []) (cl_picker c)) else None) (with_window w c),
       frames)
  | CInput v => (s, mkChatLocal v (cl_error c) (cl_picker c) (cl_reading c), [])
  | CSend => sent (handleSend (cl_conversation k) (cl_me k) (br_id b) (br_now b) w)
  | CPhotoPick => sent (handlePhotoPick w, [])
  | CFilePick => sent (handleFilePick w, [])
  | CAttach =>
      let '(w, go) := attachment_check (br_picked b) w in
      (s, with_reading
            (cl_reading c ++
             match go with Some (f, input) => [mkRead (cl_conversation k) (cl_me k) f input] | None => [] end)
            (with_window w c), [])
  | CCategory idx => (s, with_picker ((λ p, mkPicker idx (pickerSearch p)) <$> cl_picker c) c, [])
  | CPickerSearch v => (s, with_picker ((λ p, mkPicker (activeCategory p) v) <$> cl_picker c) c, [])
  | CEmoji v => sent (select_emoji v w, [])
  | CPickerClose => (s, with_picker None c, [])
  end.

(** A reader reports: its data, or [None]. *)
Definition read_done (i : nat) (read : option jsstr) (b : Browser) (s : ChatState) (c : ChatLocal)
    : ChatState * ChatLocal * list json :=
  match cl_reading c !! i with
  | Some r =>
      let '(w, frames) :=
        attachment_read (rd_conversation r) (rd_me r) (rd_file r) (rd_input r) read (br_id b) (br_now b) (window_of s c) in
      (chat w, with_reading (delete i (cl_reading c)) (with_window w c), frames)
  | None => (s, c, [])
  end.

Definition set_chat (s' : ChatState) (s : Stores) : Stores := mkStores (authStore s) s' (contactsStore s).

Section runs.
Context {doubles : Doubles}.
Context (upper : Z → jsstr) (lower : jsstr → jsstr) (format_double : jsstr → jsstr).

Definition closure (sess : Session) (v : ChatView) : option Closure :=
  id ← cv_id (cw_conversation v);
  Some (mkClosure id (winkdId (own_profile (profile sess))) (sc_winkdId (cw_contact v))).

(** The life of one window, while there is a session: gestures on what is shown,
    finished reads, clicks outside the picker, and changes of the stores by
    anything else. A frame is kept with the store before and after it. *)
Inductive chat_runs (s0 : Stores) : list (Stores * json * ChatState) → Stores → ChatLocal → Prop :=
  | chat_start : chat_runs s0 [] s0 initialChat
  | chat_gesture tr s c i sess v over k b a s' c' frames :
      chat_runs s0 tr s c → session (authStore s) = Some (i, sess) →
      Page.ChatWindow upper format_double s = Ok (Some v) → closure sess v = Some k →
      offered (ChatWindow over sess c (Some v)) [a] →
      chat_perform k b a (chatStore s) c = (s', c', frames) →
      chat_runs s0 (tr ++ map (λ f, (s, f, s')) frames) (set_chat s' s) c'
  | chat_read tr s c i read b s' c' frames :
      chat_runs s0 tr s c → read_done i read b (chatStore s) c = (s', c', frames) →
      chat_runs s0 (tr ++ map (λ f, (s, f, s')) frames) (set_chat s' s) c'
  | chat_outside tr s c : chat_runs s0 tr s c → chat_runs s0 tr s (with_picker None c)
  | chat_stores tr s c s' :
      chat_runs s0 tr s c → is_Some (session (authStore s')) → chat_runs s0 tr s' c.

(** ** What the window may send *)

(** The file passed the gate. *)
Definition gated (f : File) : Prop :=
  fileExtension (f_name f) ∉ BLOCKED_ATTACHMENT_EXTENSIONS ∧ f_size f ≤ MAX_ATTACHMENT_BYTES.

(** One message, at the end of its conversation. *)
Definition appended (m : Message) (s s' : ChatState) : Prop :=
  messages_of (m_conversationId m) s' = messages_of (m_conversationId m) s ++ [m] ∧
  ∀ j, j ≠ m_conversationId m → messages_of j s' = messages_of j s.

(** The conversation that is shown, and the user's own id. *)
Definition here (s : Stores) (conv me : jsstr) : Prop :=
  (cv ← shown_conversation (chatStore s); cv_id cv) = Some conv ∧
  ∃ i sess, session (authStore s) = Some (i, sess) ∧ me = winkdId (own_profile (profile sess)).

Inductive sent_ok (s : Stores) (f : json) (s' : ChatState) : Prop :=
  | sent_text conv id now me body :
      f = send_message_json (text_message id now conv me body) → body ≠ [] → here s conv me →
      appended (text_message id now conv me body) (chatStore s) s' → sent_ok s f s'
  | sent_banner conv id now me type :
      f = send_message_json (own_message id now conv me type) → type ∈ [js "winkd"; js "nudge"] →
      here s conv me → appended (own_message id now conv me type) (chatStore s) s' → sent_ok s f s'
  | sent_file conv id now me file data body :
      let m := attachment_message id now conv me
        (mkAttachment data (f_name file) (or_else (f_type file) (js "application/octet-stream")) (f_size file) (Some body)) in
      f = send_message_json m → gated file → body ≠ [] → appended m (chatStore s) s' → sent_ok s f s'
  | sent_block contact :
      f = JObj [(js "command", JStr (js "block_user"));
                (js "payload", JObj (match sc_winkdId contact with Some v => [(js "winkd_id", v)] | None => [] end))] →
      In contact (contacts (contactsStore s)) → s' = chatStore s → sent_ok s f s'.

Lemma appended_message id m s : id = m_conversationId m → appended m s (append_message id m s).
Proof.
  intros ->. unfold append_message. split; [by rewrite messages_of_put, decide_True|].
  intros j Hj. by rewrite messages_of_put, decide_False.
Qed.

Lemma shown_view s v : Page.ChatWindow upper format_double s = Ok (Some v) →
  shown_conversation (chatStore s) = Some (cw_conversation v) ∧ In (cw_contact v) (contacts (contactsStore s)).
Proof.
  unfold Page.ChatWindow. destruct (shown_conversation (chatStore s)) as [conv|]; [|done].
  destruct (cv_messages conv) as [ms|]; [|done]. cbn [mbind result_bind option_bind].
  destruct (find_contact conv _) as [ct|] eqn:E; [|done]. destruct (session _) as [[i sess]|]; [|done]. cbv zeta.
  intros (h & _ & (m & _ & (b & _ & (o & _ & (om & _ & [= <-])%bind_Ok)%bind_Ok)%bind_Ok)%bind_Ok)%bind_Ok.
  split; [done|]. apply list_elem_of_In. by eapply find_In.
Qed.

Lemma or_else_nonempty a b : b ≠ [] → or_else a b ≠ [].
Proof. intros H. unfold or_else. by destruct (decide (a = [])). Qed.

Definition reads_ok (c : ChatLocal) : Prop := Forall (λ r, gated (rd_file r)) (cl_reading c).

(** A gesture sends what is allowed, and files are read only after the gate. *)
Lemma perform_sends s i sess v k b a c s' c' frames :
  session (authStore s) = Some (i, sess) → Page.ChatWindow upper format_double s = Ok (Some v) →
  closure sess v = Some k → reads_ok c → chat_perform k b a (chatStore s) c = (s', c', frames) →
  Forall (λ f, sent_ok s f s') frames ∧ reads_ok c'.
Proof.
  intros Hs Hv Hk Hc Hp. destruct (shown_view s v Hv) as [Hshown Hin].
  assert (here s (cl_conversation k) (cl_me k) ∧ cl_winkdId k = sc_winkdId (cw_contact v)) as [Hh Hw].
  { unfold closure in Hk. destruct (cv_id (cw_conversation v)) as [id|] eqn:E; [|done]. injection Hk as <-.
    split; [|done]. split; [by rewrite Hshown|by exists i, sess]. }
  destruct a as [x| | | | | | | | |]; cbn [chat_perform] in Hp; cbv zeta in Hp; simplify_eq; try (by split; [constructor|]).
  - destruct x; cbn in Hp; simplify_eq; (split; [|done]); repeat constructor.
    + eapply (sent_banner _ _ _ _ _ _ _ (js "winkd")); [done|set_solver|done|by apply appended_message].
    + eapply (sent_banner _ _ _ _ _ _ _ (js "nudge")); [done|set_solver|done|by apply appended_message].
    + rewrite Hw. by eapply sent_block.
  - unfold handleSend. cbn [inputValue window_of].
    destruct (decide (js_trim (cl_input c) = [])); [by split; [constructor|]|]. cbn [sendText fst snd].
    split; [|done]. constructor; [|constructor]. by eapply sent_text; [done..|apply appended_message].
  - unfold attachment_check in Hp. destruct (br_picked b) as [f|]; [|simplify_eq; split; [constructor|]].
    2: { unfold reads_ok. cbn. by rewrite app_nil_r. }
    destruct (decide _) as [|Hext]; [simplify_eq; split; [constructor|unfold reads_ok; cbn; by rewrite app_nil_r]|].
    destruct (Z.ltb_spec MAX_ATTACHMENT_BYTES (f_size f)); simplify_eq;
      (split; [constructor|]); unfold reads_ok; cbn; [by rewrite app_nil_r|].
    apply list.Forall_app. split; [done|]. by constructor; [split|constructor].
Qed.

Lemma read_sends s i read b c s' c' frames :
  reads_ok c → read_done i read b (chatStore s) c = (s', c', frames) →
  Forall (λ f, sent_ok s f s') frames ∧ reads_ok c'.
Proof.
  intros Hc. unfold read_done. destruct (cl_reading c !! i) as [r|] eqn:E; [|by intros [= <- <- <-]; split; [constructor|]].
  assert (gated (rd_file r)) as Hg by (unfold reads_ok in Hc; rewrite Forall_lookup in Hc; by eapply Hc).
  assert (reads_ok (with_reading (delete i (cl_reading c)) c)) as Hc'.
  { unfold reads_ok. cbn. apply Forall_delete, Hc. }
  destruct read as [data|]; cbn; intros [= <- <- <-]; (split; [|done]); constructor; [|constructor].
  eapply sent_file; [done|done| |by apply appended_message]. by apply or_else_nonempty.
Qed.

Lemma chat_runs_ok s0 tr s c :
  chat_runs s0 tr s c → Forall (λ x, sent_ok x.1.1 x.1.2 x.2) tr ∧ reads_ok c.
Proof.
  assert (∀ s s' frames, Forall (λ f, sent_ok s f s') frames →
    Forall (λ x : Stores * json * ChatState, sent_ok x.1.1 x.1.2 x.2) (map (λ f, (s, f, s')) frames)) as Hm.
  { intros s1 s2 frames H. rewrite List.Forall_forall in *. intros x (f & <- & Hf)%in_map_iff. by apply H. }
  induction 1 as [|tr s c i sess v over k b a s' c' frames Hr [IH Hc] Hs Hv Hk Ho Hp
    |tr s c i read b s' c' frames Hr [IH Hc] Hp| |]; try done; [by split; constructor|..].
  - destruct (perform_sends _ _ _ _ _ _ _ _ _ _ _ Hs Hv Hk Hc Hp). split; [|done].
    apply list.Forall_app. split; [done|by apply Hm].
  - destruct (read_sends _ _ _ _ _ _ _ _ Hc Hp). split; [|done].
    apply list.Forall_app. split; [done|by apply Hm].
Qed.

(** ** Properties *)

(** C27: What the chat window sends. Whatever a user does with what is on the screen,
    while files are read and the stores change: a text or a banner goes to the
    conversation that is shown, in the user's own name, and a text is never empty;
    a file is sent only when its extension is allowed and it is at most 3 MiB; each
    message sent is at the end of its conversation, and no other conversation has
    changed; the only other frame blocks a contact of the list. *)
Theorem chat_sends_allowed s0 tr s c :
  chat_runs s0 tr s c → Forall (λ x, sent_ok x.1.1 x.1.2 x.2) tr.
Proof. intros H. apply (chat_runs_ok s0 tr s c H). Qed.

Lemma send_showable conv m s : has_body m → chat_showable s → chat_showable (append_message conv m s).
Proof.
  intros Hm Hs. apply put_showable; [done|]. eexists. split; [done|]. apply list.Forall_app.
  split; [by apply messages_showable|by constructor].
Qed.

Lemma chat_perform_showable k b a s c : chat_showable s → chat_showable (chat_perform k b a s c).1.1.
Proof.
  intros Hs. destruct a as [x| | | | | | | | |]; try done.
  - destruct x; try done; by apply send_showable.
  - cbn [chat_perform]. unfold handleSend. cbn [inputValue window_of]. destruct (decide _); [done|].
    apply send_showable; [by eexists|done].
  - cbn [chat_perform]. by destruct (attachment_check _ _) as [? [[]|]].
Qed.

Lemma read_showable i read b s c : chat_showable s → chat_showable (read_done i read b s c).1.1.
Proof.
  intros Hs. unfold read_done. destruct (cl_reading c !! i) as [r|]; [|done]. destruct read; [|done].
  apply send_showable; [by eexists|done].
Qed.

(** Nothing the user writes takes the page down: from a page that can be shown,
    every action of the window and every finished read leaves a page that can be
    shown, whatever the sidebar shows. *)
Theorem chat_actions_show s c b s' :
  (∀ u, Forall (λ n, 0 ≤ n) (upper u)) → showable s →
  (∃ k a, s' = (chat_perform k b a (chatStore s) c).1.1) ∨
  (∃ i read, s' = (read_done i read b (chatStore s) c).1.1) →
  showable (set_chat s' s) ∧
  ∀ l, ∃ view, AppErrorBoundary upper lower format_double false l (set_chat s' s) = (false, view) ∧ view ≠ ErrorScreen.
Proof.
  intros Hu [Ha Hm Hc] Hs'. assert (showable (set_chat s' s)) as Hsh.
  { split; [done| |done]. destruct Hs' as [(k & a & ->)|(i & read & ->)];
      [by apply chat_perform_showable|by apply read_showable]. }
  split; [done|]. intros l. unfold AppErrorBoundary.
  destruct (App_total upper lower format_double Hu l _ Hsh) as (view & Hview & Hne). rewrite Hview. by exists view.
Qed.

End runs.

(** A finished read discards what was typed meanwhile: the file is sent with the
    input of the time it was picked, and the input of the time it is read is
    emptied, whatever it is. *)
Theorem read_discards_typing i r data b s c :
  cl_reading c !! i = Some r →
  let '(_, c', frames) := read_done i (Some data) b s c in
  cl_input c' = [] ∧
  ∃ m, frames = [send_message_json m] ∧
    m_body m = Val (or_else (js_trim (rd_input r)) (js "📎 " ++ f_name (rd_file r))).
Proof. intros E. unfold read_done. rewrite E. cbn. split; [done|]. by eexists. Qed.
