(* ===== verification/Serde.v ===== *)
(** * Values of serde_json

    The texts that go between the server and its clients. [serde_json] is a crate
    and a class here, with its documented behaviour as laws: what it reads and
    writes is the value, an object's members in any order. An instance obeys them. *)

From S2P Require Import Prelude JsString Utf Json.

(** ** Values up to the order of members *)

Inductive alike : json → json → Prop :=
  | alike_refl v : alike v v
  | alike_arr l l' : Forall2 alike l l' → alike (JArr l) (JArr l')
  | alike_obj l l' :
      (∀ k v, json_get k (JObj l) = Some v → ∃ v', json_get k (JObj l') = Some v' ∧ alike v v') →
      (∀ k, json_get k (JObj l) = None → json_get k (JObj l') = None) →
      alike (JObj l) (JObj l').

Fixpoint distinct (ks : list jsstr) : bool :=
  match ks with
  | [] => true
  | k :: ks => negb (bool_decide (k ∈ ks)) && distinct ks
  end.

(** Values that both sides read alike: texts without lone surrogates, integers that a
    double holds, and each member once. *)
Fixpoint plain (v : json) : bool :=
  match v with
  | JNull | JBool _ => true
  | JNum n => Z.abs n <=? 9007199254740991
  | JFrac _ => false
  | JStr s => js_ok s && well_formed s
  | JArr l => forallb plain l
  | JObj l => distinct (map fst l) && forallb (λ '(k, v), js_ok k && well_formed k && plain v) l
  end.

Definition scalar (v : json) : bool := match v with JArr _ | JObj _ => false | _ => true end.

(** An object of scalars. *)
Definition flat (v : json) : bool :=
  match v with JObj l => forallb (λ '(_, v), scalar v) l | _ => false end.

(** [serde_json::from_str], with the members as the text has them, and
    [Value::to_string]. *)
Class Serde := {
  from_str : jsstr → option json;
  to_string : json → jsstr;
}.

Class SerdeLaws {S : Serde} : Prop := {
  law_from_str v : plain v = true → ∃ v', from_str (stringify v) = Some v' ∧ alike v v' ∧ plain v' = true;
  law_to_string v : plain v = true → ∃ v', parse_json (to_string v) = Ok v' ∧ alike v v';
}.

(** [payload.get(k)], and [or_else] for the next name. *)
Fixpoint get_any (ks : list jsstr) (payload : json) : option json :=
  match ks with
  | [] => None
  | k :: ks => match json_get k payload with Some v => Some v | None => get_any ks payload end
  end.

(** [value[k] = v] of an object. *)
Definition set_member (k : jsstr) (v : json) (o : json) : json :=
  match o with
  | JObj l => JObj (List.filter (λ kv, negb (bool_decide (kv.1 = k))) l ++ [(k, v)])
  | _ => o
  end.

(** A unit variant is its name, or an object with that member and null. *)
Definition variant_name (v : json) : option jsstr :=
  match v with
  | JStr s => Some s
  | JObj [(k, JNull)] => Some k
  | _ => None
  end.

(** A member a derived [Deserialize] accepts: it is there, and once. *)
Definition member_once (k : jsstr) (v : json) : option json :=
  match v with
  | JObj l => match List.filter (λ kv, bool_decide (kv.1 = k)) l with [(_, x)] => Some x | _ => None end
  | _ => None
  end.

(** ** Reading members *)

Lemma json_get_snoc k l k' v : json_get k (JObj (l ++ [(k', v)])) = if decide (k' = k) then Some v else json_get k (JObj l).
Proof.
  cbn. rewrite rev_app_distr. cbn. destruct (decide (k' = k)); [done|].
  destruct (list_find _ (rev l)) as [[i kv]|]; done.
Qed.

Lemma json_get_map k l (g : jsstr → json → json) :
  json_get k (JObj (map (λ kv, (kv.1, g kv.1 kv.2)) l)) = g k <$> json_get k (JObj l).
Proof.
  induction l as [|[k' v] l IH] using rev_ind; [done|]. rewrite map_app. cbn [map fst snd].
  rewrite !json_get_snoc, IH. by destruct (decide (k' = k)) as [->|].
Qed.

Lemma json_get_filter k k' l :
  k ≠ k' → json_get k (JObj (List.filter (λ kv, negb (bool_decide (kv.1 = k'))) l)) = json_get k (JObj l).
Proof.
  intros Hk. induction l as [|[k2 v] l IH] using rev_ind; [done|]. rewrite List.filter_app. cbn [List.filter fst].
  rewrite json_get_snoc. case_bool_decide; cbn [negb].
  - rewrite app_nil_r, IH. by rewrite decide_False by congruence.
  - by rewrite json_get_snoc, IH.
Qed.

Lemma json_get_set k k' v o :
  (∃ l, o = JObj l) → json_get k (set_member k' v o) = if decide (k' = k) then Some v else json_get k o.
Proof.
  intros [l ->]. cbn [set_member]. rewrite json_get_snoc. destruct (decide (k' = k)); [done|].
  by apply json_get_filter.
Qed.

Lemma set_member_object k v o : (∃ l, o = JObj l) → ∃ l, set_member k v o = JObj l.
Proof. intros [l ->]. by eexists. Qed.

Lemma json_get_In k l v : json_get k (JObj l) = Some v → In (k, v) l.
Proof.
  induction l as [|[k' w] l IH] using rev_ind; [done|]. rewrite json_get_snoc, in_app_iff.
  destruct (decide (k' = k)) as [->|]; [intros [= ->]; right; by left|by left; apply IH].
Qed.

(** What is read from values that are alike. *)
Lemma alike_scalar v w : scalar v = true → alike v w → w = v.
Proof. intros Hv H. by inversion H; subst. Qed.

Lemma alike_get k v w : alike v w →
  match json_get k v with
  | Some x => ∃ y, json_get k w = Some y ∧ alike x y
  | None => json_get k w = None
  end.
Proof.
  intros H. inversion H as [| |l l' H1 H2]; subst.
  - destruct (json_get k w); [|done]. eexists. split; [done|constructor].
  - done.
  - destruct (json_get k (JObj l)) eqn:E; eauto.
Qed.

Lemma alike_str k v w : alike v w → (json_get k w ≫= as_str) = (json_get k v ≫= as_str).
Proof.
  intros H. pose proof (alike_get k v w H) as Hg. destruct (json_get k v) as [x|].
  - destruct Hg as (y & -> & Hy). cbn. destruct x; try (by rewrite (alike_scalar _ _ eq_refl Hy)); by inversion Hy.
  - by rewrite Hg.
Qed.

Lemma alike_flat k v w : flat v = true → alike v w → json_get k w = json_get k v.
Proof.
  intros Hf H. pose proof (alike_get k v w H) as Hg. destruct (json_get k v) as [x|] eqn:E; [|done].
  destruct Hg as (y & -> & Hy). f_equal. apply alike_scalar; [|done]. destruct v as [| | | | | |l]; try done.
  cbn in Hf. rewrite forallb_forall in Hf. by specialize (Hf _ (json_get_In _ _ _ E)).
Qed.

Lemma alike_object v w : (∃ l, v = JObj l) → alike v w → ∃ l, w = JObj l.
Proof. intros [l ->] H. inversion H; eauto. Qed.

Lemma get_any_alike ks v w : alike v w → (get_any ks w ≫= as_str) = (get_any ks v ≫= as_str).
Proof.
  intros H. induction ks as [|k ks IH]; [done|]. cbn [get_any].
  pose proof (alike_get k v w H) as Hg. pose proof (alike_str k v w H) as Hs. destruct (json_get k v) as [x|] eqn:E.
  - destruct Hg as (y & Ey & _). rewrite Ey in *. exact Hs.
  - by rewrite Hg.
Qed.

(** Objects with the same members are alike. *)
Lemma alike_objects v w :
  (∃ l, v = JObj l) → (∃ l, w = JObj l) →
  (∀ k, match json_get k v with
        | Some x => ∃ y, json_get k w = Some y ∧ alike x y
        | None => json_get k w = None
        end) → alike v w.
Proof.
  intros [l ->] [l' ->] H. apply alike_obj; intros k; specialize (H k); destruct (json_get k (JObj l)); naive_solver.
Qed.

Lemma alike_set k x v w :
  (∃ l, v = JObj l) → alike v w → alike (set_member k x v) (set_member k x w).
Proof.
  intros Hv Hw. pose proof (alike_object v w Hv Hw) as Hw'. apply alike_objects; [by apply set_member_object..|].
  intros k'. rewrite !json_get_set by done. destruct (decide (k = k')); [eexists; split; [done|constructor]|].
  by apply alike_get.
Qed.

Lemma distinct_NoDup ks : distinct ks = true ↔ NoDup ks.
Proof.
  induction ks as [|k ks IH]; [by split; [constructor|]|]. cbn [distinct].
  rewrite andb_true_iff, negb_true_iff, bool_decide_eq_false, list.NoDup_cons, IH. done.
Qed.

Lemma plain_object l :
  plain (JObj l) = true ↔
  NoDup (map fst l) ∧ ∀ k v, In (k, v) l → plain (JStr k) = true ∧ plain v = true.
Proof.
  cbn [plain]. rewrite andb_true_iff, distinct_NoDup, forallb_forall. split; intros [H1 H2]; (split; [done|]).
  - intros k v H. specialize (H2 _ H). cbn in H2. by apply andb_true_iff in H2.
  - intros [k v] H. destruct (H2 _ _ H) as [Hk Hv]. cbn in Hk. by rewrite Hk, Hv.
Qed.

Lemma plain_member k v w : plain v = true → json_get k v = Some w → plain w = true.
Proof.
  destruct v as [| | | | | |l]; try done. intros [_ H]%plain_object Hg%json_get_In. by apply (H k).
Qed.

(** Of distinct members the last is the only one. *)
Lemma member_once_get k v : plain v = true → member_once k v = json_get k v.
Proof.
  destruct v as [| | | | | |l]; try done. intros [Hnd _]%plain_object. cbn [member_once].
  induction l as [|[k' v] l IH] using rev_ind; [done|]. rewrite List.filter_app, json_get_snoc. cbn [List.filter fst].
  rewrite map_app in Hnd. cbn in Hnd. apply list.NoDup_app in Hnd as (Hl & Hk & _).
  destruct (decide (k' = k)) as [->|Hne].
  - rewrite bool_decide_true by done.
    assert (List.filter (λ kv : jsstr * json, bool_decide (kv.1 = k)) l = []) as ->; [|done].
    destruct (List.filter _ l) as [|[k2 x] r] eqn:E; [done|].
    assert (In (k2, x) (List.filter (λ kv, bool_decide (kv.1 = k)) l)) as [Hin Hb]%filter_In by (rewrite E; by left).
    apply bool_decide_eq_true in Hb. cbn in Hb. subst k2. destruct (Hk k); [|by left].
    apply list_elem_of_In. by apply (in_map fst) in Hin.
  - rewrite bool_decide_false by done. rewrite app_nil_r. by apply IH.
Qed.

Lemma plain_set k v o : plain (JStr k) = true → plain v = true → plain o = true → plain (set_member k v o) = true.
Proof.
  intros Hk Hv Ho. destruct o as [| | | | | |l]; try done. apply plain_object in Ho as [Hnd Hl].
  cbn [set_member]. apply plain_object. split.
  - rewrite map_app. apply list.NoDup_app. split_and!; [| |apply NoDup_singleton].
    + induction l as [|[k' x] l IH]; [constructor|]. cbn in Hnd. apply list.NoDup_cons in Hnd as [Hni Hnd].
      assert (NoDup (map fst (List.filter (λ kv : jsstr * json, negb (bool_decide (kv.1 = k))) l))) as IH'
        by (apply IH; [done|]; intros ? ? ?; apply Hl; by right).
      cbn [List.filter]. destruct (negb _); [|done]. cbn. apply list.NoDup_cons. split; [|done].
      rewrite list_elem_of_In in Hni |- *. intros ([k2 y] & <- & [Hin _]%filter_In)%in_map_iff.
      apply Hni. by apply (in_map fst) in Hin.
    + intros k' Hin. apply list_elem_of_In in Hin.
      apply in_map_iff in Hin as ([k2 y] & <- & [_ Hb]%filter_In).
      apply negb_true_iff, bool_decide_eq_false in Hb. cbn in *. intros E%list_elem_of_singleton. congruence.
  - intros k' x [[Hin _]%filter_In|[[= <- <-]|[]]]%in_app_iff; auto.
Qed.

(** ** An instance *)

Module Texts.

#[global] Instance serde : Serde := {
  from_str text := match parse_json text with Ok v => Some v | Throw _ => None end;
  to_string := stringify;
}.

Lemma plain_ok v : plain v = true → json_ok v = true.
Proof.
  induction v as [| | | |s|l IH|l IH] using json_nested_ind; cbn; try done.
  - by intros [??]%andb_true_iff.
  - rewrite !forallb_forall. intros H x Hx. rewrite List.Forall_forall in IH. auto.
  - rewrite andb_true_iff, !forallb_forall. intros [_ H] [k x] Hx. specialize (H _ Hx). cbn in H.
    apply andb_true_iff in H as [[Hk _]%andb_true_iff Hv]. rewrite Hk. cbn.
    rewrite List.Forall_forall in IH. by apply (IH (k, x)).
Qed.

#[global] Instance serde_laws : SerdeLaws.
Proof.
  split; intros v Hv; exists v; cbn; rewrite json_roundtrip by (by apply plain_ok); split_and!; done || constructor.
Qed.

End Texts.
