(* ===== verification/Limits.v ===== *)
(** * The tiers' limits

    server/src/limits.rs: what a message of a free and of a paying user may hold,
    and what the server says when it holds more. *)

From S2P Require Import Prelude JsString Utf Json Platform Serde.

Record TierLimits := mkLimits { max_text_chars : Z; max_media_bytes : Z; max_media_url_chars : Z }.

Definition FREE_LIMITS : TierLimits := mkLimits 2000 (3 * 1024 * 1024) 1024.
Definition PLUS_LIMITS : TierLimits := mkLimits 6000 (10 * 1024 * 1024) 2048.
Definition SUPPORTER_FREE : jsstr := js "free".
Definition SUPPORTER_PLUS : jsstr := js "plus".
Definition FREE_BUDDY_CAP : Z := 25.

Definition limits_for (tier : jsstr) : TierLimits :=
  if decide (tier = SUPPORTER_PLUS) then PLUS_LIMITS else FREE_LIMITS.

(** [str::len] in bytes, and [chars().count()]. *)
Definition str_len (s : jsstr) : Z := Z.of_nat (length (text_encode s)).
Definition chars_count (s : jsstr) : Z := Z.of_nat (length (code_points s)).

(** What follows the first comma; the text itself without one. *)
Fixpoint after_comma (s : jsstr) : option jsstr :=
  match s with
  | [] => None
  | c :: s => if c =? 44 then Some s else after_comma s
  end.

Definition approx_base64_decoded_len (data_uri : jsstr) : Z :=
  str_len (default data_uri (after_comma data_uri)) * 3 / 4.

Inductive LimitViolation :=
  | TextTooLong (len max : Z)
  | MediaTooLarge (bytes max : Z)
  | MediaUrlTooLong (len max : Z).

(** [n as f64 / 1024.0 / 1024.0] with one decimal, as [format!] rounds: to the
    nearest, a tie to even. *)
Definition tenths (n : Z) : Z :=
  let q := n * 10 / 1048576 in
  let r := n * 10 mod 1048576 in
  if (524288 <? r) || (r =? 524288) && Z.odd q then q + 1 else q.

Definition one_decimal (n : Z) : jsstr :=
  js_toString (tenths n / 10) ++ js "." ++ js_toString (tenths n mod 10).

(** The limits are whole megabytes. *)
Definition no_decimal (n : Z) : jsstr := js_toString (n / 1048576).

Definition user_message (v : LimitViolation) (tier : jsstr) : jsstr :=
  let hint := if decide (tier = SUPPORTER_PLUS) then [] else js " — Winkd Plus! raises this cap." in
  match v with
  | TextTooLong len max =>
      js "Message is " ++ js_toString len ++ js " characters — limit is " ++ js_toString max ++ hint
  | MediaTooLarge bytes max =>
      js "Attachment is " ++ one_decimal bytes ++ js " MB — limit is " ++ no_decimal max ++ js " MB" ++ hint
  | MediaUrlTooLong len max =>
      js "Attachment link is " ++ js_toString len ++ js " characters — limit is " ++ js_toString max ++ hint
  end.

Definition exceeds (len max : Z) (violation : Z → Z → LimitViolation) : option LimitViolation :=
  if max <? len then Some (violation len max) else None.

(** [None] is [Ok(())]. *)
Definition validate_send_payload (payload : json) (limits : TierLimits) : option LimitViolation :=
  let text (ks : list jsstr) := get_any ks payload ≫= as_str in
  let check (ks : list jsstr) (measure : jsstr → Z) (max : Z) (violation : Z → Z → LimitViolation) :=
    match text ks with Some s => exceeds (measure s) max violation | None => None end in
  match check [js "body"] chars_count (max_text_chars limits) TextTooLong with
  | Some e => Some e
  | None =>
      match check [js "mediaData"; js "media_data"] approx_base64_decoded_len (max_media_bytes limits) MediaTooLarge with
      | Some e => Some e
      | None => check [js "mediaUrl"; js "media_url"] str_len (max_media_url_chars limits) MediaUrlTooLong
      end
  end.

Example user_message_example :
  user_message (MediaTooLarge 4404019 (3 * 1024 * 1024)) (js "free") =
    js "Attachment is 4.2 MB — limit is 3 MB — Winkd Plus! raises this cap.".
Proof. vm_compute. reflexivity. Qed.

Lemma validate_alike v w lim : alike v w → validate_send_payload w lim = validate_send_payload v lim.
Proof. intros H. unfold validate_send_payload. cbv zeta. by rewrite !(get_any_alike _ v w H). Qed.
