(* ===== verification/Database.v ===== *)
(** * The server's tables

    The queries of server/src/db.rs that the messaging socket uses, as functions on
    the rows they read and write: users, sessions, contact requests, blocks and the
    queue of pending messages (migrations 002, 009 and 010). Rows are in the order
    of their creation. A query may fail instead ([db_result]); what decides that is
    a parameter of the callers. *)

From S2P Require Import Prelude JsString Json Types Limits.

Inductive db_result (A : Type) := DbOk (a : A) | DbErr.
Arguments DbOk {A} a.
Arguments DbErr {A}.

(** ** Rows *)

(** [u_lapsed]: the membership's expiry is before now. *)
Record User := mkUser {
  u_id : nat;
  u_winkd_id : jsstr;
  u_display_name : jsstr;
  u_mood_message : jsstr;
  u_avatar_data : option jsstr;
  u_display_name_color : option jsstr;
  u_av_color : option jsstr;
  u_supporter_tier : jsstr;
  u_supporter_expires_at : option jsstr;
  u_lapsed : bool;
  u_purchased_extras : list jsstr;
  u_extra_buddy_slots : Z;
  u_group_chat_unlocked : bool;
}.

Definition effective_tier (u : User) : jsstr :=
  if decide (u_supporter_tier u = SUPPORTER_PLUS)
  then if u_lapsed u then SUPPORTER_FREE else SUPPORTER_PLUS
  else SUPPORTER_FREE.

Definition buddy_cap (u : User) : option Z :=
  if decide (effective_tier u = SUPPORTER_PLUS) then None else Some (FREE_BUDDY_CAP + u_extra_buddy_slots u).

Inductive RequestStatus := StPending | StAccepted | StRejected.

#[global] Instance request_status_eq : EqDecision RequestStatus.
Proof. solve_decision. Defined.

Record ContactRequest := mkRequest { cr_id : nat; cr_from_id : nat; cr_to_id : nat; cr_status : RequestStatus }.

Record Block := mkBlock { bl_blocker_id : nat; bl_blocked_id : nat; bl_created_at : jsstr }.

Record PendingMessage := mkQueued {
  q_recipient_id : nat;
  q_sender_id : nat;
  q_client_msg_id : option jsstr;
  q_payload : json;
}.

Record Db := mkDb {
  users : list User;
  sessions : list (jsstr * nat);               (** the tokens that have not expired *)
  contact_requests : list ContactRequest;
  blocks : list Block;
  pending_messages : list PendingMessage;
}.

Definition with_users (l : list User) (d : Db) : Db :=
  mkDb l (sessions d) (contact_requests d) (blocks d) (pending_messages d).
Definition with_requests (l : list ContactRequest) (d : Db) : Db :=
  mkDb (users d) (sessions d) l (blocks d) (pending_messages d).
Definition with_blocks (l : list Block) (d : Db) : Db :=
  mkDb (users d) (sessions d) (contact_requests d) l (pending_messages d).
Definition with_queue (l : list PendingMessage) (d : Db) : Db :=
  mkDb (users d) (sessions d) (contact_requests d) (blocks d) l.

(** ** Users *)

Definition find_user (p : User → bool) (d : Db) : option User := List.find p (users d).

Definition find_user_by_id (id : nat) (d : Db) : option User := find_user (λ u, u_id u =? id)%nat d.
Definition find_user_by_winkd_id (winkd_id : jsstr) (d : Db) : option User :=
  find_user (λ u, bool_decide (u_winkd_id u = winkd_id)) d.
Definition find_user_by_session (token : jsstr) (d : Db) : option User :=
  '(_, id) ← List.find (λ s, bool_decide (s.1 = token)) (sessions d); find_user_by_id id d.

Definition update_user (id : nat) (f : User → User) (d : Db) : Db :=
  with_users (map (λ u, if (u_id u =? id)%nat then f u else u) (users d)) d.

Definition update_user_mood (id : nat) (mood : jsstr) : Db → Db :=
  update_user id (λ u, mkUser (u_id u) (u_winkd_id u) (u_display_name u) mood (u_avatar_data u)
    (u_display_name_color u) (u_av_color u) (u_supporter_tier u) (u_supporter_expires_at u) (u_lapsed u)
    (u_purchased_extras u) (u_extra_buddy_slots u) (u_group_chat_unlocked u)).

(** [COALESCE(new, old)] *)
Definition coalesce (new old : option jsstr) : option jsstr := match new with Some _ => new | None => old end.

Definition update_user_display_name (id : nat) (name : jsstr) (name_color av_color : option jsstr) : Db → Db :=
  update_user id (λ u, mkUser (u_id u) (u_winkd_id u) name (u_mood_message u) (u_avatar_data u)
    (coalesce name_color (u_display_name_color u)) (coalesce av_color (u_av_color u))
    (u_supporter_tier u) (u_supporter_expires_at u) (u_lapsed u)
    (u_purchased_extras u) (u_extra_buddy_slots u) (u_group_chat_unlocked u)).

Definition update_user_avatar (id : nat) (avatar_data : option jsstr) : Db → Db :=
  update_user id (λ u, mkUser (u_id u) (u_winkd_id u) (u_display_name u) (u_mood_message u) avatar_data
    (u_display_name_color u) (u_av_color u) (u_supporter_tier u) (u_supporter_expires_at u) (u_lapsed u)
    (u_purchased_extras u) (u_extra_buddy_slots u) (u_group_chat_unlocked u)).

Definition update_user_profile_style (id : nat) (name_color av_color : option jsstr) : Db → Db :=
  update_user id (λ u, mkUser (u_id u) (u_winkd_id u) (u_display_name u) (u_mood_message u) (u_avatar_data u)
    name_color av_color (u_supporter_tier u) (u_supporter_expires_at u) (u_lapsed u)
    (u_purchased_extras u) (u_extra_buddy_slots u) (u_group_chat_unlocked u)).

(** ** Contact requests *)

Definition set_status (st : RequestStatus) (r : ContactRequest) : ContactRequest :=
  mkRequest (cr_id r) (cr_from_id r) (cr_to_id r) st.

Definition goes (from_id to_id : nat) (r : ContactRequest) : bool :=
  (cr_from_id r =? from_id)%nat && (cr_to_id r =? to_id)%nat.

(** One row for a sender and a recipient; a second request sets it back to pending. *)
Definition create_contact_request (from_id to_id : nat) (d : Db) : ContactRequest * Db :=
  match List.find (goes from_id to_id) (contact_requests d) with
  | Some r =>
      (set_status StPending r,
       with_requests (map (λ r, if goes from_id to_id r then set_status StPending r else r) (contact_requests d)) d)
  | None =>
      let r := mkRequest (length (contact_requests d)) from_id to_id StPending in
      (r, with_requests (contact_requests d ++ [r]) d)
  end.

Definition answers (request_id to_id : nat) (r : ContactRequest) : bool :=
  (cr_id r =? request_id)%nat && (cr_to_id r =? to_id)%nat && bool_decide (cr_status r = StPending).

(** [UPDATE ... RETURNING *], which fails without a row. *)
Definition answer_contact_request (st : RequestStatus) (request_id to_id : nat) (d : Db) : option (ContactRequest * Db) :=
  r ← List.find (answers request_id to_id) (contact_requests d);
  Some (set_status st r,
        with_requests (map (λ r, if answers request_id to_id r then set_status st r else r) (contact_requests d)) d).

Definition accept_contact_request : nat → nat → Db → option (ContactRequest * Db) := answer_contact_request StAccepted.
Definition reject_contact_request : nat → nat → Db → option (ContactRequest * Db) := answer_contact_request StRejected.

(** Requests that wait for an answer of the user, oldest first, with the sender. *)
Definition list_pending_inbound (to_id : nat) (d : Db) : list (nat * User) :=
  omap (λ r, if (cr_to_id r =? to_id)%nat && bool_decide (cr_status r = StPending)
             then u ← find_user_by_id (cr_from_id r) d; Some (cr_id r, u) else None) (contact_requests d).

Definition clear_pending_contact_requests_between (a b : nat) (d : Db) : Db :=
  with_requests (map (λ r, if bool_decide (cr_status r = StPending) && (goes a b r || goes b a r)
                           then set_status StRejected r else r) (contact_requests d)) d.

(** ** Blocks *)

Definition blocked_by (blocker blocked : nat) (d : Db) : bool :=
  existsb (λ b, (bl_blocker_id b =? blocker)%nat && (bl_blocked_id b =? blocked)%nat) (blocks d).

Definition is_blocked_between (a b : nat) (d : Db) : bool := blocked_by a b d || blocked_by b a d.

(** A user cannot be blocked by oneself ([CHECK]), nor twice. *)
Definition create_block (blocker blocked : nat) (now : jsstr) (d : Db) : option Db :=
  if (blocker =? blocked)%nat then None
  else Some (if blocked_by blocker blocked d then d else with_blocks (blocks d ++ [mkBlock blocker blocked now]) d).

Definition remove_block (blocker blocked : nat) (d : Db) : Db :=
  with_blocks (List.filter (λ b, negb ((bl_blocker_id b =? blocker)%nat && (bl_blocked_id b =? blocked)%nat)) (blocks d)) d.

(** The users one has blocked, the last one first. *)
Definition list_blocked_users (blocker : nat) (d : Db) : list (User * jsstr) :=
  omap (λ b, if (bl_blocker_id b =? blocker)%nat
             then u ← find_user_by_id (bl_blocked_id b) d; Some (u, bl_created_at b) else None) (rev (blocks d)).

(** ** The roster *)

(** The other side of a user's request. *)
Definition other_side (id : nat) (r : ContactRequest) : nat :=
  if (cr_from_id r =? id)%nat then cr_to_id r else cr_from_id r.

Definition concerns (id : nat) (r : ContactRequest) : bool := (cr_from_id r =? id)%nat || (cr_to_id r =? id)%nat.

Record ContactRosterEntry := mkEntry { ro_user : User; ro_accepted : bool }.

(** Accepted contacts and one's own open requests, the last one first. *)
Definition list_contact_roster (id : nat) (d : Db) : list ContactRosterEntry :=
  omap (λ r,
    let accepted := bool_decide (cr_status r = StAccepted) in
    let other := other_side id r in
    if concerns id r && (accepted || bool_decide (cr_status r = StPending) && (cr_from_id r =? id)%nat)
         && negb (is_blocked_between id other d)
    then u ← find_user_by_id other d; Some (mkEntry u accepted) else None) (rev (contact_requests d)).

Definition list_accepted_contact_user_ids (id : nat) (d : Db) : list nat :=
  omap (λ r,
    if concerns id r && bool_decide (cr_status r = StAccepted) && negb (is_blocked_between id (other_side id r) d)
    then Some (other_side id r) else None) (contact_requests d).

(** A [UNION] has no duplicates. *)
Definition count_roster (id : nat) (d : Db) : Z :=
  Z.of_nat (length (remove_dups (
    omap (λ r, if (cr_from_id r =? id)%nat && negb (bool_decide (cr_status r = StRejected))
               then Some (cr_to_id r) else None) (contact_requests d) ++
    omap (λ r, if (cr_to_id r =? id)%nat && bool_decide (cr_status r = StAccepted)
               then Some (cr_from_id r) else None) (contact_requests d)))).

(** ** The queue *)

Definition same_message (recipient : nat) (client_msg_id : jsstr) (q : PendingMessage) : bool :=
  (q_recipient_id q =? recipient)%nat && bool_decide (q_client_msg_id q = Some client_msg_id).

(** [ON CONFLICT DO NOTHING]: a message with an id is queued once for a recipient. *)
Definition queue_pending_message (recipient sender : nat) (client_msg_id : option jsstr) (payload : json) (d : Db) : Db :=
  let row := mkQueued recipient sender client_msg_id payload in
  match client_msg_id with
  | Some id => if existsb (same_message recipient id) (pending_messages d) then d
               else with_queue (pending_messages d ++ [row]) d
  | None => with_queue (pending_messages d ++ [row]) d
  end.

Definition waits_for (recipient : nat) (q : PendingMessage) : bool := (q_recipient_id q =? recipient)%nat.

Definition drain_pending_messages (recipient : nat) (d : Db) : list PendingMessage * Db :=
  (List.filter (waits_for recipient) (pending_messages d),
   with_queue (List.filter (λ q, negb (waits_for recipient q)) (pending_messages d)) d).
