(* ===== verification/Server.v ===== *)
(** * The server's message relay

    What router.rs of server/src does with a text on an authenticated socket, as far
    as it is a message, a winkd, a nudge or a wink: that arm of [handle_command], over
    a class for what it asks of the database and of the live sessions. Service has
    the other arms, and the instance. *)

From S2P Require Import Prelude JsString Utf Json Platform Types Serde Limits Database.

(** The other users, and who has a live session. *)
Class Backend := {
  find_recipient : jsstr → db_result (option nat);
  blocked_between : nat → nat → db_result bool;
  live_session : nat → bool;
}.

Inductive server_out :=
  | ToSender (text : jsstr)
  | ToUser (uid : nat) (text : jsstr)
  | Queued (uid : nat) (payload : json).

Definition recipient_of (payload : json) : option jsstr :=
  get_any [js "conversationId"; js "conversation_id"; js "recipient_winkd_id"; js "recipientId"; js "recipient_id"]
    payload ≫= as_str.

Definition event_frame (event : jsstr) (payload : json) : json :=
  JObj [(js "event", JStr event); (js "payload", payload)].

Definition forwarded_payload (sender : jsstr) (payload : json) : json :=
  set_member (js "delivered") (JBool true)
    (set_member (js "senderId") (JStr sender) (set_member (js "conversationId") (JStr sender) payload)).

Definition sender_payload (sender recipient : jsstr) (delivered_live : bool) (payload : json) : json :=
  set_member (js "delivered") (JBool delivered_live)
    (set_member (js "senderId") (JStr sender) (set_member (js "conversationId") (JStr recipient) payload)).

Section server.
Context {serde : Serde} {backend : Backend}.

Definition send_err (message : jsstr) : server_out :=
  ToSender (to_string (event_frame (js "error") (JObj [(js "message", JStr message)]))).

(** The arm for messages. A send to a live session succeeds. *)
Definition send_message (user : User) (payload : json) : list server_out :=
  match validate_send_payload payload (limits_for (effective_tier user)) with
  | Some violation => [send_err (user_message violation (effective_tier user))]
  | None =>
      match recipient_of payload with
      | None => []
      | Some recipient_winkd_id =>
          match find_recipient recipient_winkd_id with
          | DbErr => [send_err (js "Server error — message not sent. Please try again.")]
          | DbOk None => [send_err (js "That buddy couldn't be found. They may have deleted their account.")]
          | DbOk (Some recipient) =>
              match blocked_between (u_id user) recipient with
              | DbErr => [send_err (js "Server error. Please try again.")]
              | DbOk true => [send_err (js "You can't message this user.")]
              | DbOk false =>
                  let forwarded := forwarded_payload (u_winkd_id user) payload in
                  let delivered_live := live_session recipient in
                  [if delivered_live then ToUser recipient (to_string (event_frame (js "message") forwarded))
                   else Queued recipient forwarded;
                   ToSender (to_string (event_frame (js "message")
                     (sender_payload (u_winkd_id user) recipient_winkd_id delivered_live payload)))]
              end
          end
      end
  end.

(** The commands of protocol.rs, with the arms for messages first. [TypingStart] and
    [TypingStop] have no arm. *)
Definition message_commands : list jsstr := [js "send_message"; js "send_winkd"; js "send_nudge"; js "send_wink"].
Definition other_commands : list jsstr :=
  [js "set_status"; js "set_mood"; js "set_display_name"; js "set_avatar"; js "set_profile_style"; js "add_contact";
   js "accept_contact"; js "reject_contact"; js "block_contact"; js "block_user"; js "unblock_contact"; js "list_blocked"].

(** [ClientCommand], which may also be an array of its two fields. *)
Definition client_command (v : json) : option (jsstr * json) :=
  match v with
  | JArr [command; payload] => command ← variant_name command; Some (command, payload)
  | _ =>
      command ← member_once (js "command") v ≫= variant_name;
      payload ← member_once (js "payload") v;
      Some (command, payload)
  end.

(** A text on an authenticated socket. [None] for a command of another arm, which
    Service has; a text that is no command does nothing. *)
Definition handle_text (user : User) (text : jsstr) : option (list server_out) :=
  match from_str text ≫= client_command with
  | None => Some []
  | Some (command, payload) =>
      if bool_decide (command ∈ message_commands) then Some (send_message user payload)
      else if bool_decide (command ∈ other_commands) then None
      else Some []
  end.

End server.

Lemma recipient_alike v w : alike v w → recipient_of w = recipient_of v.
Proof. intros H. unfold recipient_of. by apply get_any_alike. Qed.

(** ** What the relay does *)

Section relay.
Context {serde : Serde} {backend : Backend}.

(** Every output of the arm. *)
Lemma send_message_cases user payload :
  (∃ message, send_message user payload = [send_err message]) ∨ send_message user payload = [] ∨
  ∃ recipient_id recipient,
    validate_send_payload payload (limits_for (effective_tier user)) = None ∧ recipient_of payload = Some recipient_id ∧
    find_recipient recipient_id = DbOk (Some recipient) ∧
    blocked_between (u_id user) recipient = DbOk false ∧
    send_message user payload =
      [if live_session recipient
       then ToUser recipient (to_string (event_frame (js "message") (forwarded_payload (u_winkd_id user) payload)))
       else Queued recipient (forwarded_payload (u_winkd_id user) payload);
       ToSender (to_string (event_frame (js "message")
         (sender_payload (u_winkd_id user) recipient_id (live_session recipient) payload)))].
Proof.
  unfold send_message. destruct (validate_send_payload _ _); [left; by eexists|].
  destruct (recipient_of payload) as [r|]; [|by right; left].
  destruct (find_recipient r) as [[u|]|] eqn:Ef; [|left; by eexists..].
  destruct (blocked_between (u_id user) u) as [[]|] eqn:Eb; [left; by eexists| |left; by eexists].
  right. right. by exists r, u.
Qed.

Lemma recipient_object payload r : recipient_of payload = Some r → ∃ l, payload = JObj l.
Proof. destruct payload; try done. by eexists. Qed.

(** The text a client sends reaches the arm, up to the order of members. *)
Lemma handle_text_message `{!SerdeLaws} user command payload :
  plain (JObj [(js "command", JStr command); (js "payload", payload)]) = true → In command message_commands →
  ∃ payload', alike payload payload' ∧ plain payload' = true ∧
    handle_text user (stringify (JObj [(js "command", JStr command); (js "payload", payload)])) =
      Some (send_message user payload').
Proof.
  intros Hp Hc. destruct (law_from_str _ Hp) as (v & Hv & Ha & Hpl). unfold handle_text. rewrite Hv.
  pose proof (alike_get (js "command") _ v Ha) as H1. pose proof (alike_get (js "payload") _ v Ha) as H2.
  change (json_get (js "command") (JObj [(js "command", JStr command); (js "payload", payload)])) with (Some (JStr command)) in H1.
  change (json_get (js "payload") (JObj [(js "command", JStr command); (js "payload", payload)])) with (Some payload) in H2.
  cbn beta iota in H1, H2. destruct H1 as (c & Ec & Hcc). destruct H2 as (p & Ep & Hpp).
  rewrite (alike_scalar (JStr command) c eq_refl Hcc) in Ec.
  destruct (alike_object _ v (ex_intro _ _ eq_refl) Ha) as [l ->]. unfold client_command. cbn [mbind option_bind].
  rewrite !member_once_get, Ec, Ep by done. cbn [mbind option_bind variant_name].
  exists p. split; [done|]. split; [by eapply plain_member|]. by rewrite bool_decide_true by (by apply list_elem_of_In).
Qed.

(** A message for a user, and what its payload holds. *)
Definition from_user (user : User) (uid : nat) (payload : json) : Prop :=
  json_get (js "senderId") payload = Some (JStr (u_winkd_id user)) ∧
  json_get (js "conversationId") payload = Some (JStr (u_winkd_id user)) ∧
  blocked_between (u_id user) uid = DbOk false.

Lemma forwarded_from user payload :
  (∃ l, payload = JObj l) →
  json_get (js "senderId") (forwarded_payload (u_winkd_id user) payload) = Some (JStr (u_winkd_id user)) ∧
  json_get (js "conversationId") (forwarded_payload (u_winkd_id user) payload) = Some (JStr (u_winkd_id user)).
Proof.
  intros H. unfold forwarded_payload.
  rewrite !json_get_set by (repeat apply set_member_object; done). by vm_compute.
Qed.

(** ** Properties *)

(** C24: Nobody writes in another's name. Whatever text a client sends on an
    authenticated socket: what the relay sends or keeps for another user is a
    message whose sender and conversation are the user of that socket, and neither
    of the two has blocked the other; everything else goes back to the sender, and
    at most one message is passed on. *)
Theorem server_names_sender user text outs :
  handle_text user text = Some outs →
  Forall (λ o, match o with
               | ToUser uid t => ∃ p, t = to_string (event_frame (js "message") p) ∧ from_user user uid p
               | Queued uid p => from_user user uid p
               | ToSender _ => True
               end) outs ∧
  (length (List.filter (λ o, match o with ToSender _ => false | _ => true end) outs) ≤ 1)%nat.
Proof.
  unfold handle_text. destruct (from_str text ≫= client_command) as [[c p]|]; [|intros [= <-]; by split; [|cbn; lia]].
  destruct (bool_decide (c ∈ message_commands));
    [intros [= <-]|case_bool_decide; intros [= <-]; by split; [|cbn; lia]].
  destruct (send_message_cases user p) as [[m ->]|[->|(r & u & _ & Hr & _ & Hb & ->)]];
    [by split; [repeat constructor|cbn; lia]|by split; [constructor|cbn; lia]|].
  destruct (forwarded_from user p (recipient_object p r Hr)) as [H1 H2]. split.
  - repeat constructor. destruct (live_session u); [eexists; split; [done|]|]; by split_and!.
  - by destruct (live_session u).
Qed.

End relay.
