(* ===== verification/Service.v ===== *)
(** * The messaging socket of the server

    server/src/router.rs: [handle_socket] from the authentication of a socket to its
    end, and every arm of [handle_command], over the tables of Database, the
    presence store and the live sessions. The start of a session is two steps, the
    entry in the live sessions and the rest from the presence store on, and so is its
    end, because the code waits between them; a text on a socket is one step. A query
    may fail; the texts of UUIDs are a class with its documented behaviour as laws. *)

From S2P Require Import Prelude JsString Utf Json Platform Types Serde Limits Database Server.

(** [uuid]: what it writes it reads. *)
Class Uuids := {
  uuid_text : nat → jsstr;
  parse_uuid : jsstr → option nat;
}.

Class UuidLaws {U : Uuids} : Prop := {
  law_uuid n : parse_uuid (uuid_text n) = Some n;
  law_uuid_plain n : plain (JStr (uuid_text n)) = true;
}.

(** The queries that may fail. *)
Inductive query :=
  | FindUserBySession | CountRoster | ListAccepted | ListRoster | ListPendingInbound | DrainPending
  | FindUserByWinkdId | IsBlockedBetween | CreateRequest | AcceptRequest | RejectRequest | FindUserById
  | CreateBlock | ClearPending | RemoveBlock | ListBlocked | UpdateUser | QueuePending.

Definition faults := query → bool.

Definition attempt {A} (fails : faults) (q : query) (a : A) : db_result A := if fails q then DbErr else DbOk a.

(** ** State *)

Record PresenceEntry := mkPresence { pe_status : UserStatus; pe_mood : jsstr }.

(** Between the two steps of a session's start, and of its end. *)
Inductive Move := Opening | Closing.

#[global] Instance move_eq : EqDecision Move.
Proof. solve_decision. Defined.

Record ServerState := mkServer {
  db : Db;
  presence : gmap nat PresenceEntry;
  clients : gmap nat nat;                      (** a user's live session *)
  sockets : gmap nat User;                     (** the sockets that are listened to, with the user as it was authenticated *)
  moving : gmap nat (Move * User);             (** the tasks of other sockets *)
}.

Definition with_db (d : Db) (st : ServerState) : ServerState :=
  mkServer d (presence st) (clients st) (sockets st) (moving st).
Definition with_presence (p : gmap nat PresenceEntry) (st : ServerState) : ServerState :=
  mkServer (db st) p (clients st) (sockets st) (moving st).
Definition with_clients (c : gmap nat nat) (st : ServerState) : ServerState :=
  mkServer (db st) (presence st) c (sockets st) (moving st).
Definition with_sockets (s : gmap nat User) (st : ServerState) : ServerState :=
  mkServer (db st) (presence st) (clients st) s (moving st).
Definition with_moving (m : gmap nat (Move * User)) (st : ServerState) : ServerState :=
  mkServer (db st) (presence st) (clients st) (sockets st) m.

Definition is_live (uid : nat) (st : ServerState) : bool := bool_decide (is_Some (clients st !! uid)).

(** What the message arm asks. *)
Definition backend_of (fails : faults) (st : ServerState) : Backend := {|
  find_recipient w := attempt fails FindUserByWinkdId (u_id <$> find_user_by_winkd_id w (db st));
  blocked_between a b := attempt fails IsBlockedBetween (is_blocked_between a b (db st));
  live_session uid := is_live uid st;
|}.

(** Rust's [str::trim], for the white space of Unicode. *)
Definition is_white (c : Z) : bool :=
  (9 <=? c) && (c <=? 13) || (8192 <=? c) && (c <=? 8202) ||
  bool_decide (c ∈ [32; 133; 160; 5760; 8232; 8233; 8239; 8287; 12288]).

Fixpoint drop_white (s : jsstr) : jsstr :=
  match s with
  | c :: s' => if is_white c then drop_white s' else s
  | [] => []
  end.

Definition rust_trim (s : jsstr) : jsstr := rev (drop_white (rev (drop_white s))).

(** [chars().take(n).collect()] *)
Definition take_chars (n : nat) (s : jsstr) : jsstr := utf16 (take n (scalar_values s)).

Definition opt_json (o : option jsstr) : json := match o with Some s => JStr s | None => JNull end.

Section service.
Context {serde : Serde} {uuids : Uuids}.

Abbreviation answer := (list server_out * ServerState)%type (only parsing).

Definition event_text (event : jsstr) (payload : json) : jsstr := to_string (event_frame event payload).

(** A push to a user, if there is a live session. *)
Definition push (uid : nat) (text : jsstr) (st : ServerState) : list server_out :=
  if is_live uid st then [ToUser uid text] else [].

Definition payload_str (k : jsstr) (payload : json) : option jsstr := json_get k payload ≫= as_str.

(** ** Presence *)

Definition presence_payload (user : User) (status : jsstr) : json :=
  JObj [(js "user_id", JStr (u_winkd_id user)); (js "status", JStr status)].

Definition broadcast_presence_to_contacts (fails : faults) (user : User) (status : jsstr) (st : ServerState)
    : list server_out :=
  match attempt fails ListAccepted (list_accepted_contact_user_ids (u_id user) (db st)) with
  | DbErr => []
  | DbOk ids => flat_map (λ id, push id (event_text (js "presence") (presence_payload user status)) st) ids
  end.

Definition presence_status (e : option PresenceEntry) : jsstr :=
  match pe_status <$> e with
  | Some online => js "online"
  | Some away => js "away"
  | Some busy => js "busy"
  | Some invisible | None => js "offline"
  end.

(** ** The start of a session *)

Definition limits_json (l : TierLimits) : json :=
  JObj [(js "max_text_chars", JNum (max_text_chars l)); (js "max_media_bytes", JNum (max_media_bytes l));
        (js "max_media_url_chars", JNum (max_media_url_chars l))].

Definition auth_ok_frame (user : User) (buddy_used : Z) : json :=
  JObj [(js "type", JStr (js "auth_ok")); (js "tier", JStr (effective_tier user));
        (js "limits", limits_json (limits_for (effective_tier user)));
        (js "purchased_extras", JArr (map JStr (u_purchased_extras user)));
        (js "buddy_cap", match buddy_cap user with Some n => JNum n | None => JNull end);
        (js "buddy_used", JNum buddy_used);
        (js "group_chat_unlocked", JBool (u_group_chat_unlocked user));
        (js "supporter_expires_at", opt_json (u_supporter_expires_at user))].

(** [WsAuthMessage] *)
Definition auth_message (v : json) : option (jsstr * jsstr) :=
  match v with
  | JArr [JStr type; JStr token] => Some (type, token)
  | _ =>
      type ← member_once (js "type") v ≫= as_str;
      token ← member_once (js "token") v ≫= as_str;
      Some (type, token)
  end.

(** [None]: the socket is closed with code 4001. *)
Definition authenticate (fails : faults) (text : jsstr) (st : ServerState) : option User :=
  '(type, token) ← from_str text ≫= auth_message;
  if bool_decide (type = js "auth") then
    match attempt fails FindUserBySession (find_user_by_session token (db st)) with
    | DbOk o => o
    | DbErr => None
    end
  else None.

Definition roster_json (st : ServerState) (c : ContactRosterEntry) : json :=
  let u := ro_user c in
  JObj [(js "winkd_id", JStr (u_winkd_id u)); (js "display_name", JStr (u_display_name u));
        (js "avatar_data", opt_json (u_avatar_data u)); (js "mood_message", JStr (u_mood_message u));
        (js "request_status", JStr (if ro_accepted c then js "accepted" else js "pending_outbound"));
        (js "status", JStr (presence_status (presence st !! u_id u)))].

Definition snapshot_payload (st : ServerState) (cs : list ContactRosterEntry) : json :=
  JObj [(js "contacts", JArr (map (roster_json st) cs))].

Definition request_payload (request_id : nat) (from : User) : json :=
  JObj [(js "request_id", JStr (uuid_text request_id)); (js "from_winkd_id", JStr (u_winkd_id from));
        (js "from_display_name", JStr (u_display_name from)); (js "from_avatar_data", opt_json (u_avatar_data from))].

Definition receipt_payload (message_id conversation_id : jsstr) : json :=
  JObj [(js "message_id", JStr message_id); (js "conversation_id", JStr conversation_id)].

(** A message of the queue, and the receipt for its sender. *)
Definition flush (user : User) (st : ServerState) (q : PendingMessage) : list server_out :=
  ToSender (event_text (js "message") (q_payload q)) ::
  match payload_str (js "id") (q_payload q) with
  | Some id => push (q_sender_id q) (event_text (js "delivery_receipt") (receipt_payload id (u_winkd_id user))) st
  | None => []
  end.

(** The confirmation, and the entry in the live sessions. *)
Definition register_session (fails : faults) (sid : nat) (user : User) (st : ServerState) : answer :=
  let uid := u_id user in
  let used := match attempt fails CountRoster (count_roster uid (db st)) with DbOk n => n | DbErr => 0 end in
  ([ToSender (to_string (auth_ok_frame user used))],
   with_moving (<[sid := (Opening, user)]> (moving st)) (with_clients (<[uid := sid]> (clients st)) st)).

(** The rest: the presence, the roster, open requests and the queue. *)
Definition open_session (fails : faults) (sid : nat) (user : User) (st : ServerState) : answer :=
  let uid := u_id user in
  let st := with_sockets (<[sid := user]> (sockets st)) (with_moving (delete sid (moving st)) st) in
  let st := with_presence (<[uid := mkPresence online (u_mood_message user)]> (presence st)) st in
  let roster := match attempt fails ListRoster (list_contact_roster uid (db st)) with
                | DbOk cs => [ToSender (event_text (js "contacts_snapshot") (snapshot_payload st cs))]
                | DbErr => []
                end in
  let inbound := match attempt fails ListPendingInbound (list_pending_inbound uid (db st)) with
                 | DbOk rs => map (λ '(id, from), ToSender (event_text (js "contact_request") (request_payload id from))) rs
                 | DbErr => []
                 end in
  let '(queued, d) := match attempt fails DrainPending (drain_pending_messages uid (db st)) with
                      | DbOk r => r
                      | DbErr => ([], db st)
                      end in
  (broadcast_presence_to_contacts fails user (js "online") st ++
   roster ++ inbound ++ flat_map (flush user st) queued,
   with_db d st).

(** ** The end of a socket *)

(** Only the active session is taken out of the live ones, and ends the presence. *)
Definition end_session (sid : nat) (user : User) (st : ServerState) : ServerState :=
  let uid := u_id user in
  let was_active := bool_decide (clients st !! uid = Some sid) in
  let st := with_sockets (delete sid (sockets st)) st in
  if was_active then with_moving (<[sid := (Closing, user)]> (moving st)) (with_clients (delete uid (clients st)) st)
  else st.

Definition leave (fails : faults) (sid : nat) (user : User) (st : ServerState) : answer :=
  let st := with_presence (delete (u_id user) (presence st)) (with_moving (delete sid (moving st)) st) in
  (broadcast_presence_to_contacts fails user (js "offline") st, st).

(** ** Contacts *)

(** [Ok] of a query continues, [Err] answers. *)
Definition try_db {A} (r : db_result A) (failed : answer) (k : A → answer) : answer :=
  match r with DbOk a => k a | DbErr => failed end.

Definition refuse (message : jsstr) (st : ServerState) : answer := ([send_err message], st).
Definition server_error (st : ServerState) : answer := refuse (js "Server error. Please try again.") st.

(** The refusal of a roster that is full. *)
Definition over_cap (fails : faults) (user : User) (st : ServerState) : option answer :=
  match buddy_cap user with
  | None => None
  | Some cap =>
      match attempt fails CountRoster (count_roster (u_id user) (db st)) with
      | DbErr => Some (server_error st)
      | DbOk n =>
          if cap <=? n then
            let hint := if decide (effective_tier user = SUPPORTER_FREE)
                        then js " Your limit is " ++ js_toString cap ++
                             js ". Grab a buddy-slot pack or Winkd Plus! to add more."
                        else [] in
            Some (refuse (js "Buddy list is full (" ++ js_toString n ++ js "/" ++ js_toString cap ++ js ")." ++ hint) st)
          else None
      end
  end.

Definition sent_payload (request_id : nat) (target_id : jsstr) (target : User) : json :=
  JObj [(js "request_id", JStr (uuid_text request_id)); (js "to_winkd_id", JStr target_id);
        (js "to_display_name", JStr (u_display_name target)); (js "to_avatar_data", opt_json (u_avatar_data target))].

Definition add_contact (fails : faults) (payload : json) (user : User) (st : ServerState) : answer :=
  match rust_trim <$> (get_any [js "winkd_id"; js "winkdId"; js "target_winkd_id"] payload ≫= as_str) with
  | None | Some [] =>
      refuse (js "Missing Winkd ID. Please enter an ID like friend#1234 and try again.") st
  | Some target_id =>
      if decide (target_id = u_winkd_id user) then refuse (js "You can't add yourself.") st
      else match over_cap fails user st with
      | Some refusal => refusal
      | None =>
          try_db (attempt fails FindUserByWinkdId (find_user_by_winkd_id target_id (db st))) (server_error st) (λ found,
          match found with
          | None => refuse (js "No user found with that Winkd ID.") st
          | Some target =>
              try_db (attempt fails IsBlockedBetween (is_blocked_between (u_id user) (u_id target) (db st)))
                (server_error st) (λ blocked : bool,
              if blocked then refuse (js "Contact request could not be sent.") st
              else
                try_db (attempt fails CreateRequest (create_contact_request (u_id user) (u_id target) (db st)))
                  (refuse (js "Could not send contact request. You may have already sent one.") st) (λ '(r, d),
                let st := with_db d st in
                (ToSender (event_text (js "contact_request_sent") (sent_payload (cr_id r) target_id target)) ::
                 push (u_id target) (event_text (js "contact_request") (request_payload (cr_id r) user)) st, st)))
          end)
      end
  end.

Definition accepted_payload (u : User) : json :=
  JObj [(js "winkd_id", JStr (u_winkd_id u)); (js "display_name", JStr (u_display_name u));
        (js "avatar_data", opt_json (u_avatar_data u)); (js "mood_message", JStr (u_mood_message u))].

(** The id of a request, for the arms that answer one. *)
Definition with_request_id (payload : json) (st : ServerState) (k : nat → answer) : answer :=
  match payload_str (js "request_id") payload with
  | None => ([], st)
  | Some s => match parse_uuid s with None => refuse (js "Invalid request ID.") st | Some id => k id end
  end.

Definition accept_contact (fails : faults) (payload : json) (user : User) (st : ServerState) : answer :=
  with_request_id payload st (λ request_id,
  try_db (attempt fails AcceptRequest (accept_contact_request request_id (u_id user) (db st)))
    (refuse (js "Could not accept contact request.") st) (λ accepted,
  match accepted with
  | None => refuse (js "Could not accept contact request.") st
  | Some (r, d) =>
      let st := with_db d st in
      try_db (attempt fails FindUserById (find_user_by_id (cr_from_id r) (db st))) ([], st) (λ found,
      match found with
      | None => ([], st)
      | Some requester =>
          (ToSender (event_text (js "contact_accepted") (accepted_payload requester)) ::
           push (u_id requester) (event_text (js "contact_accepted") (accepted_payload user)) st, st)
      end)
  end)).

Definition rejected_payload (request_id : nat) : json := JObj [(js "request_id", JStr (uuid_text request_id))].

Definition reject_contact (fails : faults) (payload : json) (user : User) (st : ServerState) : answer :=
  with_request_id payload st (λ request_id,
  try_db (attempt fails RejectRequest (reject_contact_request request_id (u_id user) (db st)))
    (refuse (js "Could not reject contact request.") st) (λ rejected,
  match rejected with
  | None => refuse (js "Could not reject contact request.") st
  | Some (r, d) =>
      ([ToSender (event_text (js "contact_request_rejected") (rejected_payload (cr_id r)))], with_db d st)
  end)).

(** ** Blocks *)

Definition blocked_payload (request_id : option nat) (u : User) (now : jsstr) : json :=
  JObj (match request_id with Some id => [(js "request_id", JStr (uuid_text id))] | None => [] end ++
        [(js "user_id", JStr (uuid_text (u_id u))); (js "winkd_id", JStr (u_winkd_id u));
         (js "display_name", JStr (u_display_name u)); (js "avatar_data", opt_json (u_avatar_data u));
         (js "blocked_at", JStr now)]).

(** The block, and the end of open requests, whose failure is only logged. *)
Definition block (fails : faults) (request_id : option nat) (target : User) (now : jsstr) (user : User)
    (st : ServerState) : answer :=
  let failed := refuse (js "Could not block user.") st in
  try_db (attempt fails CreateBlock (create_block (u_id user) (u_id target) now (db st))) failed (λ created,
  match created with
  | None => failed
  | Some d =>
      let d := match attempt fails ClearPending (clear_pending_contact_requests_between (u_id user) (u_id target) d) with
               | DbOk d => d
               | DbErr => d
               end in
      ([ToSender (event_text (js "contact_blocked") (blocked_payload request_id target now))], with_db d st)
  end).

Definition block_contact (fails : faults) (now : jsstr) (payload : json) (user : User) (st : ServerState) : answer :=
  with_request_id payload st (λ request_id,
  try_db (attempt fails ListPendingInbound (list_pending_inbound (u_id user) (db st)))
    (refuse (js "Could not block user.") st) (λ inbound,
  match List.find (λ r, (r.1 =? request_id)%nat) inbound with
  | None => refuse (js "Contact request not found.") st
  | Some (_, from) => block fails (Some request_id) from now user st
  end)).

Definition block_user (fails : faults) (now : jsstr) (payload : json) (user : User) (st : ServerState) : answer :=
  match rust_trim <$> payload_str (js "winkd_id") payload with
  | None => ([], st)
  | Some target_winkd_id =>
      if decide (target_winkd_id = u_winkd_id user) then refuse (js "You cannot block yourself.") st
      else
        try_db (attempt fails FindUserByWinkdId (find_user_by_winkd_id target_winkd_id (db st)))
          (refuse (js "Could not block user.") st) (λ found,
        match found with
        | None => refuse (js "User not found.") st
        | Some target => block fails None target now user st
        end)
  end.

Definition unblocked_payload (id : nat) : json := JObj [(js "user_id", JStr (uuid_text id))].

Definition unblock_contact (fails : faults) (payload : json) (user : User) (st : ServerState) : answer :=
  match payload_str (js "user_id") payload with
  | None => ([], st)
  | Some s =>
      match parse_uuid s with
      | None => refuse (js "Invalid user ID.") st
      | Some blocked_id =>
          try_db (attempt fails RemoveBlock (remove_block (u_id user) blocked_id (db st)))
            (refuse (js "Could not unblock user.") st) (λ d,
          ([ToSender (event_text (js "contact_unblocked") (unblocked_payload blocked_id))], with_db d st))
      end
  end.

Definition list_blocked (fails : faults) (user : User) (st : ServerState) : answer :=
  try_db (attempt fails ListBlocked (list_blocked_users (u_id user) (db st)))
    (refuse (js "Could not list blocked users.") st) (λ us,
  ([ToSender (event_text (js "blocked_list")
      (JObj [(js "users", JArr (map (λ '(u, at_), blocked_payload None u at_) us))]))], st)).

(** ** The profile *)

(** The database is updated, a failure only logged. *)
Definition update (fails : faults) (f : Db → Db) (st : ServerState) : ServerState :=
  match attempt fails UpdateUser (f (db st)) with DbOk d => with_db d st | DbErr => st end.

Definition set_presence (uid : nat) (f : PresenceEntry → PresenceEntry) (st : ServerState) : ServerState :=
  with_presence (alter f uid (presence st)) st.

Definition set_mood (fails : faults) (payload : json) (user : User) (st : ServerState) : answer :=
  match take_chars 100 <$> payload_str (js "mood") payload with
  | None => ([], st)
  | Some mood =>
      ([], set_presence (u_id user) (λ e, mkPresence (pe_status e) mood)
             (update fails (update_user_mood (u_id user) mood) st))
  end.

Definition set_display_name (fails : faults) (payload : json) (user : User) (st : ServerState) : answer :=
  match rust_trim <$> payload_str (js "display_name") payload with
  | None | Some [] => ([], st)
  | Some name =>
      ([], update fails (update_user_display_name (u_id user) (take_chars 64 name)
             (payload_str (js "name_color") payload) (payload_str (js "av_color") payload)) st)
  end.

Definition set_avatar (fails : faults) (payload : json) (user : User) (st : ServerState) : answer :=
  ([], update fails (update_user_avatar (u_id user) (payload_str (js "avatar_data") payload)) st).

Definition set_profile_style (fails : faults) (payload : json) (user : User) (st : ServerState) : answer :=
  ([], update fails (update_user_profile_style (u_id user)
         (payload_str (js "name_color") payload) (payload_str (js "av_color") payload)) st).

Definition set_status (fails : faults) (payload : json) (user : User) (st : ServerState) : answer :=
  match payload_str (js "status") payload with
  | None => ([], st)
  | Some s =>
      let status := if decide (s = js "away") then away else if decide (s = js "busy") then busy
                    else if decide (s = js "invisible") then invisible else online in
      let st := set_presence (u_id user) (λ e, mkPresence status (pe_mood e)) st in
      (broadcast_presence_to_contacts fails user (if decide (s = js "invisible") then js "offline" else s) st, st)
  end.

(** ** A text on a socket *)

(** The arms other than the messages'. *)
Definition handle_other (fails : faults) (now command : jsstr) (payload : json) (user : User) (st : ServerState) : answer :=
  if decide (command = js "add_contact") then add_contact fails payload user st
  else if decide (command = js "accept_contact") then accept_contact fails payload user st
  else if decide (command = js "reject_contact") then reject_contact fails payload user st
  else if decide (command = js "block_contact") then block_contact fails now payload user st
  else if decide (command = js "block_user") then block_user fails now payload user st
  else if decide (command = js "unblock_contact") then unblock_contact fails payload user st
  else if decide (command = js "list_blocked") then list_blocked fails user st
  else if decide (command = js "set_mood") then set_mood fails payload user st
  else if decide (command = js "set_display_name") then set_display_name fails payload user st
  else if decide (command = js "set_avatar") then set_avatar fails payload user st
  else if decide (command = js "set_profile_style") then set_profile_style fails payload user st
  else set_status fails payload user st.

(** What the message arm queues. A failure is only logged. *)
Definition enqueue (fails : faults) (user : User) (outs : list server_out) (st : ServerState) : ServerState :=
  foldl (λ st o, match o with
                 | Queued uid payload =>
                     match attempt fails QueuePending (queue_pending_message uid (u_id user) (payload_str (js "id") payload)
                                                         payload (db st)) with
                     | DbOk d => with_db d st
                     | DbErr => st
                     end
                 | _ => st
                 end) st outs.

Definition receive (fails : faults) (now text : jsstr) (user : User) (st : ServerState) : answer :=
  match @handle_text _ (backend_of fails st) user text with
  | Some outs => (outs, enqueue fails user outs st)
  | None =>
      match from_str text ≫= client_command with
      | Some (command, payload) => handle_other fails now command payload user st
      | None => ([], st)
      end
  end.

(** ** Steps *)

Inductive server_event :=
  | Authenticates (sid : nat) (text : jsstr)
  | Opens (sid : nat)
  | Says (sid : nat) (now text : jsstr)
  | Ends (sid : nat)
  | Leaves (sid : nat).

(** [None] for an event that cannot happen, and no user for a socket that is closed
    with code 4001. *)
Definition server_step (fails : faults) (e : server_event) (st : ServerState) : option (option User * answer) :=
  match e with
  | Authenticates sid text =>
      match sockets st !! sid, moving st !! sid with
      | None, None =>
          match authenticate fails text st with
          | None => Some (None, ([], st))
          | Some user => Some (Some user, register_session fails sid user st)
          end
      | _, _ => None
      end
  | Opens sid =>
      match moving st !! sid with
      | Some (Opening, user) => Some (Some user, open_session fails sid user st)
      | _ => None
      end
  | Says sid now text => user ← sockets st !! sid; Some (Some user, receive fails now text user st)
  | Ends sid => user ← sockets st !! sid; Some (Some user, ([], end_session sid user st))
  | Leaves sid =>
      match moving st !! sid with
      | Some (Closing, user) => Some (Some user, leave fails sid user st)
      | _ => None
      end
  end.

(** A run, with the faults, the user and the outputs of every step. *)
Record served := mkServed {
  sv_fails : faults;
  sv_event : server_event;
  sv_user : option User;
  sv_outs : list server_out;
}.

Inductive server_runs (st0 : ServerState) : list served → ServerState → Prop :=
  | server_start : server_runs st0 [] st0
  | server_next tr st fails e user outs st' :
      server_runs st0 tr st → server_step fails e st = Some (user, (outs, st')) →
      server_runs st0 (tr ++ [mkServed fails e user outs]) st'.

(** The run of a list of events. *)
Fixpoint serve (es : list (faults * server_event)) (st : ServerState) : option (list served * ServerState) :=
  match es with
  | [] => Some ([], st)
  | (fails, e) :: es =>
      '(user, (outs, st')) ← server_step fails e st;
      '(tr, st2) ← serve es st';
      Some (mkServed fails e user outs :: tr, st2)
  end.

Lemma serve_runs es st0 tr0 st tr st' :
  server_runs st0 tr0 st → serve es st = Some (tr, st') → server_runs st0 (tr0 ++ tr) st'.
Proof.
  revert tr0 st tr. induction es as [|[fails e] es IH]; intros tr0 st tr Hr; cbn [serve].
  - intros [= <- <-]. by rewrite app_nil_r.
  - destruct (server_step fails e st) as [[user [outs st1]]|] eqn:Es; [|done]. cbn [mbind option_bind].
    destruct (serve es st1) as [[tr1 st2]|] eqn:Et; [|done]. intros [= <- <-].
    change (tr0 ++ ?x :: tr1) with (tr0 ++ [x] ++ tr1). rewrite (assoc_L (++)).
    eapply IH; [|exact Et]. by eapply server_next.
Qed.

End service.

(** ** An instance *)

Module Letters.

(** Ids written in unary. *)
#[global] Instance uuids : Uuids := {
  uuid_text n := replicate (S n) 97;
  parse_uuid s := match s with
                  | [] => None
                  | _ :: s' => if forallb (λ c, c =? 97) s then Some (length s') else None
                  end;
}.

#[global] Instance uuid_laws : UuidLaws.
Proof.
  split; intros n; cbn [uuid_text parse_uuid uuids].
  - change (replicate (S n) 97) with (97 :: replicate n 97). cbn.
    assert (forallb (λ c, c =? 97) (replicate n 97) = true) as -> by (induction n; done). by rewrite length_replicate.
  - assert (Forall (λ c, 0 ≤ c < 55296) (replicate (S n) 97)) as H by (apply Forall_replicate; lia).
    cbn [plain]. apply andb_true_iff. split.
    + apply js_ok_spec. eapply List.Forall_impl, H. cbv beta. intros c Hc. unfold is_unit. lia.
    + apply below_surrogates. eapply List.Forall_impl, H. cbv beta. intros c Hc. lia.
Qed.

End Letters.
