(* ===== verification/ServiceRuns.v ===== *)
(** * Runs of the messaging server

    What holds in every run of Service: nobody becomes a contact without having
    agreed, users of whom one has blocked the other do not reach one another, the
    live sessions are sockets of their users, and the queue keeps what was sent to a
    user who is away. *)

From S2P Require Import Prelude JsString Json Platform Types Serde Limits Database Server Service.

Section runs.
Context {serde : Serde} {uuids : Uuids}.

(** ** What a text does to the tables *)

(** The text is this command. *)
Definition says (text command : jsstr) (payload : json) : Prop :=
  from_str text ≫= client_command = Some (command, payload).

(** It asks for the user of a Winkd ID. *)
Definition asks_for (text winkd_id : jsstr) : Prop :=
  ∃ payload, says text (js "add_contact") payload ∧
    rust_trim <$> (get_any [js "winkd_id"; js "winkdId"; js "target_winkd_id"] payload ≫= as_str) = Some winkd_id.

(** It accepts a request. *)
Definition accepts_request (text : jsstr) (request_id : nat) : Prop :=
  ∃ payload, says text (js "accept_contact") payload ∧
    payload_str (js "request_id") payload ≫= parse_uuid = Some request_id.

(** How a request that was not there comes about. *)
Inductive new_request (user : User) (text : jsstr) (d : Db) : ContactRequest → Prop :=
  | request_asked r winkd_id target :
      asks_for text winkd_id → find_user_by_winkd_id winkd_id d = Some target →
      is_blocked_between (u_id user) (u_id target) d = false →
      cr_from_id r = u_id user → cr_to_id r = u_id target → cr_status r = StPending →
      new_request user text d r
  | request_accepted r :
      accepts_request text (cr_id r) → In r (contact_requests d) → cr_status r = StPending → cr_to_id r = u_id user →
      new_request user text d (Database.set_status StAccepted r)
  | request_rejected r : cr_status r = StRejected → new_request user text d r.

(** ** Queries *)

Lemma attempt_Ok {A} fails q (a b : A) : attempt fails q a = DbOk b → a = b.
Proof. unfold attempt. by destruct (fails q); intros [= ->]. Qed.

Lemma create_request_spec from_id to_id d r d' :
  create_contact_request from_id to_id d = (r, d') →
  cr_from_id r = from_id ∧ cr_to_id r = to_id ∧ cr_status r = StPending ∧
  (∀ x, In x (contact_requests d') → In x (contact_requests d) ∨
     cr_from_id x = from_id ∧ cr_to_id x = to_id ∧ cr_status x = StPending) ∧
  users d' = users d ∧ blocks d' = blocks d ∧ pending_messages d' = pending_messages d.
Proof.
  unfold create_contact_request. destruct (List.find _ _) as [r0|] eqn:E; intros [= <- <-]; cbn.
  - apply find_some in E as [_ Hg]. unfold goes in Hg. apply andb_true_iff in Hg as [H1 H2].
    apply Nat.eqb_eq in H1, H2. split_and!; try done.
    intros x (y & <- & Hy)%in_map_iff. destruct (goes from_id to_id y) eqn:Eg; [|by left].
    unfold goes in Eg. apply andb_true_iff in Eg as [H3 H4]. apply Nat.eqb_eq in H3, H4. right. done.
  - split_and!; try done. intros x [?|[<-|[]]]%in_app_iff; [by left|by right].
Qed.

Lemma answers_true request_id to_id r :
  answers request_id to_id r = true → cr_id r = request_id ∧ cr_to_id r = to_id ∧ cr_status r = StPending.
Proof.
  unfold answers. rewrite !andb_true_iff, !Nat.eqb_eq, bool_decide_eq_true. naive_solver.
Qed.

Lemma answer_request_spec status request_id to_id d r d' :
  answer_contact_request status request_id to_id d = Some (r, d') →
  (∃ r0, In r0 (contact_requests d) ∧ answers request_id to_id r0 = true ∧ r = Database.set_status status r0) ∧
  (∀ x, In x (contact_requests d') → In x (contact_requests d) ∨
     ∃ y, In y (contact_requests d) ∧ answers request_id to_id y = true ∧ x = Database.set_status status y) ∧
  users d' = users d ∧ blocks d' = blocks d ∧ pending_messages d' = pending_messages d.
Proof.
  unfold answer_contact_request. destruct (List.find _ _) as [r0|] eqn:E; [|done]. intros [= <- <-].
  apply find_some in E as [Hin Ha]. split_and!; [by exists r0| |done..].
  cbn. intros x (y & <- & Hy)%in_map_iff. destruct (answers request_id to_id y) eqn:Ea; [right; by exists y|by left].
Qed.

Lemma clear_pending_spec a b d x :
  In x (contact_requests (clear_pending_contact_requests_between a b d)) →
  In x (contact_requests d) ∨ cr_status x = StRejected.
Proof.
  cbn. intros (y & <- & Hy)%in_map_iff. destruct (_ && _); [by right|by left].
Qed.

Lemma create_block_spec a b now d d' :
  create_block a b now d = Some d' →
  contact_requests d' = contact_requests d ∧ users d' = users d ∧ pending_messages d' = pending_messages d ∧
  a ≠ b ∧ blocked_by a b d' = true ∧ ∀ x y, blocked_by x y d' = true → blocked_by x y d = true ∨ x = a ∧ y = b.
Proof.
  unfold create_block. destruct (Nat.eqb_spec a b); [done|]. intros [= <-].
  destruct (blocked_by a b d) eqn:E; [split_and!; auto|]. split_and!; try done.
  - unfold blocked_by. cbn. rewrite existsb_app. cbn. by rewrite !Nat.eqb_refl, orb_true_r.
  - intros x y. unfold blocked_by at 1. cbn. rewrite existsb_app, orb_true_iff. intros [H|H]; [by left|].
    cbn in H. rewrite orb_false_r, andb_true_iff, !Nat.eqb_eq in H. right. naive_solver.
Qed.

(** ** The outcomes of a text *)

Definition names (d : Db) : list (nat * jsstr) := map (λ u, (u_id u, u_winkd_id u)) (users d).

Lemma update_user_names id f d :
  (∀ u, u_id (f u) = u_id u ∧ u_winkd_id (f u) = u_winkd_id u) → names (update_user id f d) = names d.
Proof.
  intros Hf. unfold names. cbn. rewrite map_map. apply map_ext. intros u.
  destruct (u_id u =? id)%nat; [|done]. by destruct (Hf u) as [-> ->].
Qed.

(** The same users are present. *)
Definition same_users (p p' : gmap nat PresenceEntry) : Prop := ∀ uid, is_Some (p !! uid) ↔ is_Some (p' !! uid).

Lemma alter_same f uid (p : gmap nat PresenceEntry) : same_users (alter f uid p) p.
Proof. intros i. rewrite lookup_alter. case_decide; [subst|done]. by rewrite fmap_is_Some. Qed.

Lemma update_presence fails f st : presence (update fails f st) = presence st.
Proof. unfold update. by destruct (attempt _ _ _). Qed.

Inductive outcome (fails : faults) (now : jsstr) (user : User) (text : jsstr) (st : ServerState) :
    list server_out → ServerState → Prop :=
  | out_told outs :                            (** refused, answered, or not even that *)
      (∀ o, In o outs → ∃ t, o = ToSender t) → outcome fails now user text st outs st
  | out_profile us p :
      names (with_users us (db st)) = names (db st) → same_users p (presence st) →
      outcome fails now user text st [] (with_presence p (with_db (with_users us (db st)) st))
  | out_presence status p :
      same_users p (presence st) →
      outcome fails now user text st
        (broadcast_presence_to_contacts fails user status (with_presence p st)) (with_presence p st)
  | out_asked winkd_id target r d :
      asks_for text winkd_id → find_user_by_winkd_id winkd_id (db st) = Some target →
      is_blocked_between (u_id user) (u_id target) (db st) = false →
      create_contact_request (u_id user) (u_id target) (db st) = (r, d) →
      outcome fails now user text st
        (ToSender (event_text (js "contact_request_sent") (sent_payload (cr_id r) winkd_id target)) ::
         push (u_id target) (event_text (js "contact_request") (request_payload (cr_id r) user)) (with_db d st))
        (with_db d st)
  | out_accepted request_id r d outs :
      accepts_request text request_id → accept_contact_request request_id (u_id user) (db st) = Some (r, d) →
      (outs = [] ∨ ∃ requester, find_user_by_id (cr_from_id r) d = Some requester ∧
         outs = ToSender (event_text (js "contact_accepted") (accepted_payload requester)) ::
                push (u_id requester) (event_text (js "contact_accepted") (accepted_payload user)) (with_db d st)) →
      outcome fails now user text st outs (with_db d st)
  | out_rejected request_id r d :
      reject_contact_request request_id (u_id user) (db st) = Some (r, d) →
      outcome fails now user text st
        [ToSender (event_text (js "contact_request_rejected") (rejected_payload (cr_id r)))] (with_db d st)
  | out_blocked request_id target d :
      create_block (u_id user) (u_id target) now (db st) = Some d →
      let d' := if fails ClearPending then d else clear_pending_contact_requests_between (u_id user) (u_id target) d in
      outcome fails now user text st
        [ToSender (event_text (js "contact_blocked") (blocked_payload request_id target now))] (with_db d' st)
  | out_unblocked blocked_id :
      outcome fails now user text st
        [ToSender (event_text (js "contact_unblocked") (unblocked_payload blocked_id))]
        (with_db (remove_block (u_id user) blocked_id (db st)) st).

Lemma told_one t : ∀ o, In o [ToSender t] → ∃ t', o = ToSender t'.
Proof. intros o [<-|[]]. by eexists. Qed.

Lemma told_nothing fails now user text st : outcome fails now user text st [] st.
Proof. by apply out_told. Qed.

Lemma told_refusal fails now user text st m : outcome fails now user text st [send_err m] st.
Proof. apply out_told, told_one. Qed.

#[local] Hint Resolve told_one told_nothing told_refusal : core.

(** A query that fails tells the user so. *)
Lemma try_db_outcome {A} fails now user text st q (a : A) failed k outs st' :
  try_db (attempt fails q a) failed k = (outs, st') →
  (failed = (outs, st') → outcome fails now user text st outs st') →
  (fails q = false → k a = (outs, st') → outcome fails now user text st outs st') →
  outcome fails now user text st outs st'.
Proof. unfold try_db, attempt. destruct (fails q); auto. Qed.

Lemma refuse_outcome fails now user text m st outs st' :
  refuse m st = (outs, st') → outcome fails now user text st outs st'.
Proof. intros [= <- <-]. auto. Qed.

Lemma over_cap_refuses fails user st a : over_cap fails user st = Some a → ∃ m, a = refuse m st.
Proof.
  unfold over_cap, server_error. destruct (buddy_cap user); [|done].
  destruct (attempt fails CountRoster _); [|intros [= <-]; by eexists]. destruct (_ <=? _); [|done].
  intros [= <-]. by eexists.
Qed.

#[local] Hint Resolve refuse_outcome : core.

Lemma add_contact_outcome fails now payload user text st outs st' :
  says text (js "add_contact") payload → add_contact fails payload user st = (outs, st') →
  outcome fails now user text st outs st'.
Proof.
  intros Hs. unfold add_contact, server_error.
  destruct (rust_trim <$> _) as [[|c w]|] eqn:Ew; [by eauto..| |by eauto].
  destruct (decide _); [by eauto|]. destruct (over_cap fails user st) as [a|] eqn:Eo.
  { destruct (over_cap_refuses _ _ _ _ Eo) as [m ->]. eauto. }
  intros H. eapply try_db_outcome; [exact H|by eauto|]. clear H. intros _.
  destruct (find_user_by_winkd_id (c :: w) (db st)) as [target|] eqn:Ef; [|by eauto].
  intros H. eapply try_db_outcome; [exact H|by eauto|]. clear H. intros _.
  destruct (is_blocked_between _ _ _) eqn:Eb; [by eauto|].
  intros H. eapply try_db_outcome; [exact H|by eauto|]. clear H. intros _.
  destruct (create_contact_request _ _ _) as [r d] eqn:Ec. intros [= <- <-].
  apply out_asked; [by exists payload|done..].
Qed.

Lemma with_request_outcome fails now user text st payload k outs st' :
  with_request_id payload st k = (outs, st') →
  (∀ id, payload_str (js "request_id") payload ≫= parse_uuid = Some id → k id = (outs, st') →
     outcome fails now user text st outs st') →
  outcome fails now user text st outs st'.
Proof.
  unfold with_request_id. destruct (payload_str _ _) as [s|]; [|intros [= <- <-]; auto]. cbn.
  destruct (parse_uuid s); eauto.
Qed.

Lemma accept_contact_outcome fails now payload user text st outs st' :
  says text (js "accept_contact") payload → accept_contact fails payload user st = (outs, st') →
  outcome fails now user text st outs st'.
Proof.
  intros Hs H. eapply with_request_outcome; [exact H|]. clear H. intros id Hid H.
  eapply try_db_outcome; [exact H|by eauto|]. clear H. intros _.
  destruct (accept_contact_request _ _ _) as [[r d]|] eqn:Ea; [|by eauto]. cbv zeta. intros H.
  assert (accepts_request text id) as Ht by (by exists payload).
  revert H. unfold try_db, attempt. destruct (fails FindUserById); [intros [= <- <-]; eapply out_accepted; eauto|].
  cbn [db with_db]. destruct (find_user_by_id _ d) as [requester|] eqn:Ef; intros [= <- <-]; eapply out_accepted; eauto.
Qed.

Lemma reject_contact_outcome fails now payload user text st outs st' :
  reject_contact fails payload user st = (outs, st') → outcome fails now user text st outs st'.
Proof.
  intros H. eapply with_request_outcome; [exact H|]. clear H. intros id Hid H.
  eapply try_db_outcome; [exact H|by eauto|]. clear H. intros _.
  destruct (reject_contact_request _ _ _) as [[r d]|] eqn:Ea; [|by eauto]. intros [= <- <-]. by eapply out_rejected.
Qed.

Lemma block_outcome fails now request_id target user text st outs st' :
  block fails request_id target now user st = (outs, st') → outcome fails now user text st outs st'.
Proof.
  unfold block. intros H. eapply try_db_outcome; [exact H|by eauto|]. clear H. intros _.
  destruct (create_block _ _ _ _) as [d|] eqn:Ec; [|by eauto]. cbv zeta. unfold attempt. intros H.
  pose proof (out_blocked fails now user text st request_id target d Ec) as Ho. cbv zeta in Ho.
  destruct (fails ClearPending); injection H as <- <-; exact Ho.
Qed.

Lemma block_contact_outcome fails now payload user text st outs st' :
  block_contact fails now payload user st = (outs, st') → outcome fails now user text st outs st'.
Proof.
  intros H. eapply with_request_outcome; [exact H|]. clear H. intros id Hid H.
  eapply try_db_outcome; [exact H|by eauto|]. clear H. intros _.
  cbv beta. case_match; [|by eauto]. case_match. by apply block_outcome.
Qed.

Lemma block_user_outcome fails now payload user text st outs st' :
  block_user fails now payload user st = (outs, st') → outcome fails now user text st outs st'.
Proof.
  unfold block_user. destruct (rust_trim <$> _) as [w|]; [|intros [= <- <-]; auto]. destruct (decide _); [by eauto|].
  intros H. eapply try_db_outcome; [exact H|by eauto|]. clear H. intros _.
  destruct (find_user_by_winkd_id _ _); [|by eauto]. by apply block_outcome.
Qed.

Lemma unblock_contact_outcome fails now payload user text st outs st' :
  unblock_contact fails payload user st = (outs, st') → outcome fails now user text st outs st'.
Proof.
  unfold unblock_contact. destruct (payload_str _ _) as [s|]; [|intros [= <- <-]; auto].
  destruct (parse_uuid s) as [id|]; [|by eauto].
  intros H. eapply try_db_outcome; [exact H|by eauto|]. intros _ [= <- <-]. apply out_unblocked.
Qed.

Lemma list_blocked_outcome fails now user text st outs st' :
  list_blocked fails user st = (outs, st') → outcome fails now user text st outs st'.
Proof.
  unfold list_blocked. intros H. eapply try_db_outcome; [exact H|by eauto|]. intros _ [= <- <-]. apply out_told, told_one.
Qed.

(** A change of one's own row, and of one's presence. *)
Lemma update_outcome fails now user text st f p :
  (∃ us, f (db st) = with_users us (db st)) → names (f (db st)) = names (db st) → same_users p (presence st) →
  outcome fails now user text st [] (with_presence p (update fails f st)).
Proof.
  intros [us E] Hn Hp. unfold update, attempt. rewrite E in Hn |- *. destruct (fails UpdateUser).
  - pose proof (out_profile fails now user text st (users (db st)) p) as H.
    destruct st as [[? ? ? ? ?] ? ? ?]. by apply H.
  - by apply (out_profile fails now user text st us p).
Qed.

Lemma update_only_outcome fails now user text st f :
  (∃ us, f (db st) = with_users us (db st)) → names (f (db st)) = names (db st) →
  outcome fails now user text st [] (update fails f st).
Proof.
  intros E Hn. pose proof (update_outcome fails now user text st f (presence (update fails f st)) E Hn) as H.
  rewrite update_presence in H. destruct (update fails f st) eqn:Eu. pose proof (update_presence fails f st) as Ep.
  rewrite Eu in Ep. cbn in Ep. subst. by apply H.
Qed.

Lemma handle_other_outcome fails now command payload user text st outs st' :
  says text command payload → handle_other fails now command payload user st = (outs, st') →
  outcome fails now user text st outs st'.
Proof.
  intros Hs. unfold handle_other.
  destruct (decide _) as [->|_]; [by eapply add_contact_outcome|].
  destruct (decide _) as [->|_]; [by eapply accept_contact_outcome|].
  destruct (decide _); [by apply reject_contact_outcome|].
  destruct (decide _); [by apply block_contact_outcome|].
  destruct (decide _); [by apply block_user_outcome|].
  destruct (decide _); [by apply unblock_contact_outcome|].
  destruct (decide _); [by apply list_blocked_outcome|].
  destruct (decide _).
  { unfold set_mood. destruct (take_chars 100 <$> _); intros [= <- <-]; [|auto].
    apply update_outcome; [by eexists|by apply update_user_names|]. rewrite update_presence. apply alter_same. }
  destruct (decide _).
  { unfold set_display_name. destruct (rust_trim <$> _) as [[|c l]|]; intros [= <- <-]; auto.
    apply update_only_outcome; [by eexists|by apply update_user_names]. }
  destruct (decide _).
  { intros [= <- <-]. apply update_only_outcome; [by eexists|by apply update_user_names]. }
  destruct (decide _).
  { intros [= <- <-]. apply update_only_outcome; [by eexists|by apply update_user_names]. }
  unfold set_status. destruct (payload_str _ _); intros [= <- <-]; [|auto].
  unfold set_presence. apply out_presence, alter_same.
Qed.

(** ** A text *)

(** A message for another user. *)
Inductive message_outcome (fails : faults) (user : User) (st : ServerState) : list server_out → ServerState → Prop :=
  | out_message recipient p t :
      is_blocked_between (u_id user) recipient (db st) = false →
      let outs := [if is_live recipient st then ToUser recipient (event_text (js "message") p) else Queued recipient p;
                   ToSender t] in
      message_outcome fails user st outs (enqueue fails user outs st).

Lemma receive_outcome fails now text user st outs st' :
  receive fails now text user st = (outs, st') →
  outcome fails now user text st outs st' ∨ message_outcome fails user st outs st'.
Proof.
  unfold receive, handle_text. destruct (from_str text ≫= client_command) as [[c p]|] eqn:E; [|intros [= <- <-]; by left].
  destruct (bool_decide (c ∈ message_commands)).
  - destruct (@send_message_cases _ (backend_of fails st) user p) as [[m ->]|[->|(w & u & _ & _ & _ & Hb & ->)]];
      intros [= <- <-]; [by left; apply told_refusal|by left|]. right.
    by apply (out_message fails user st u), (attempt_Ok fails IsBlockedBetween).
  - destruct (bool_decide (c ∈ other_commands)).
    + intros H. left. by eapply handle_other_outcome.
    + intros [= <- <-]. by left.
Qed.

Lemma enqueue_db fails user outs st :
  ∃ l, db (enqueue fails user outs st) = with_queue l (db st) ∧
    presence (enqueue fails user outs st) = presence st ∧ clients (enqueue fails user outs st) = clients st ∧
    sockets (enqueue fails user outs st) = sockets st ∧ moving (enqueue fails user outs st) = moving st.
Proof.
  revert st. induction outs as [|o outs IH]; intros st; [exists (pending_messages (db st)); by destruct st as [[]]|].
  cbn [enqueue foldl]. change (foldl _ ?s outs) with (enqueue fails user outs s).
  destruct o as [| |uid p]; [apply IH..|]. unfold attempt. destruct (fails QueuePending); [apply IH|].
  destruct (IH (with_db (queue_pending_message uid (u_id user) (payload_str (js "id") p) p (db st)) st))
    as (l & -> & -> & -> & -> & ->). exists l. split_and!; try done.
  unfold queue_pending_message. cbn. destruct (payload_str _ _); [destruct (existsb _ _)|]; done.
Qed.

Definition id_of (winkd_id : jsstr) (d : Db) : option nat :=
  fst <$> List.find (λ n, bool_decide (n.2 = winkd_id)) (names d).

Lemma find_id winkd_id d : u_id <$> find_user_by_winkd_id winkd_id d = id_of winkd_id d.
Proof.
  unfold find_user_by_winkd_id, find_user, id_of, names. induction (users d) as [|u us IH]; [done|]. cbn.
  by destruct (bool_decide _).
Qed.

Lemma outcome_names fails now user text st outs st' :
  outcome fails now user text st outs st' → names (db st') = names (db st).
Proof.
  destruct 1 as [| |? ?|w target r d _ _ _ H|id r d outs _ H _|id r d H|id target d H d'|]; try done.
  - unfold names. cbn [db with_db]. by rewrite (proj1 (proj2 (proj2 (proj2 (proj2 (create_request_spec _ _ _ _ _ H)))))).
  - unfold names. cbn [db with_db]. by rewrite (proj1 (proj2 (proj2 (answer_request_spec _ _ _ _ _ _ H)))).
  - unfold names. cbn [db with_db]. by rewrite (proj1 (proj2 (proj2 (answer_request_spec _ _ _ _ _ _ H)))).
  - apply create_block_spec in H as (_ & H & _). unfold names, d'. destruct (fails ClearPending); cbn; by rewrite H.
Qed.

Lemma outcome_requests fails now user text st outs st' r :
  outcome fails now user text st outs st' → In r (contact_requests (db st')) →
  In r (contact_requests (db st)) ∨ new_request user text (db st) r.
Proof.
  destruct 1 as [| |? ?|w target q d Hw Hf Hb H|id q d outs Hid H _|id q d H|id target d H d'|]; try by left.
  - apply create_request_spec in H as (_ & _ & _ & H & _). intros [Hr|(? & ? & ?)]%H; [by left|right].
    by eapply request_asked.
  - apply answer_request_spec in H as (_ & H & _). intros [Hr|(y & Hy & Ha & ->)]%H; [by left|right].
    apply answers_true in Ha as (<- & Ht & Hp). by eapply request_accepted.
  - apply answer_request_spec in H as (_ & H & _). intros [Hr|(y & Hy & Ha & ->)]%H; [by left|right].
    by apply request_rejected.
  - apply create_block_spec in H as (H & _). unfold d'. cbn. destruct (fails ClearPending); [rewrite H; by left|].
    intros [Hr|Hr]%clear_pending_spec; [rewrite H in Hr; by left|right; by apply request_rejected].
Qed.

(** ** A step *)

Lemma open_session_db fails sid user st :
  ∃ l, db (open_session fails sid user st).2 = with_queue l (db st).
Proof.
  unfold open_session, attempt. cbn. destruct (fails DrainPending); [|by eexists].
  exists (pending_messages (db st)). by destruct st as [[]].
Qed.

Lemma end_session_db sid user st : db (end_session sid user st) = db st.
Proof. unfold end_session. by destruct (bool_decide _). Qed.

(** The cases of a step. *)
Inductive stepped (fails : faults) (st : ServerState) :
    server_event → option User → list server_out → ServerState → Prop :=
  | stepped_refused sid text : stepped fails st (Authenticates sid text) None [] st
  | stepped_registers sid text user outs st' :
      sockets st !! sid = None → moving st !! sid = None → authenticate fails text st = Some user →
      register_session fails sid user st = (outs, st') →
      stepped fails st (Authenticates sid text) (Some user) outs st'
  | stepped_opens sid user outs st' :
      moving st !! sid = Some (Opening, user) → open_session fails sid user st = (outs, st') →
      stepped fails st (Opens sid) (Some user) outs st'
  | stepped_says sid now text user outs st' :
      sockets st !! sid = Some user → receive fails now text user st = (outs, st') →
      stepped fails st (Says sid now text) (Some user) outs st'
  | stepped_ends sid user :
      sockets st !! sid = Some user → stepped fails st (Ends sid) (Some user) [] (end_session sid user st)
  | stepped_leaves sid user outs st' :
      moving st !! sid = Some (Closing, user) → leave fails sid user st = (outs, st') →
      stepped fails st (Leaves sid) (Some user) outs st'.

Lemma step_stepped fails e st who outs st' :
  server_step fails e st = Some (who, (outs, st')) → stepped fails st e who outs st'.
Proof.
  destruct e as [sid text|sid|sid now text|sid|sid]; cbn [server_step].
  - destruct (sockets st !! sid) eqn:Es; [done|]. destruct (moving st !! sid) eqn:Em; [done|].
    destruct (authenticate fails text st) as [user|] eqn:Ea; intros [<- H]%(inj Some)%pair_eq;
      [by eapply stepped_registers|]. injection H as <- <-. apply stepped_refused.
  - destruct (moving st !! sid) as [[[] user]|] eqn:Em; [|done..]. intros [<- H]%(inj Some)%pair_eq.
    by eapply stepped_opens.
  - destruct (sockets st !! sid) as [user|] eqn:Es; [|done]. intros [<- H]%(inj Some)%pair_eq. by eapply stepped_says.
  - destruct (sockets st !! sid) as [user|] eqn:Es; [|done]. intros [= <- <- <-]. by apply stepped_ends.
  - destruct (moving st !! sid) as [[[] user]|] eqn:Em; [done| |done]. intros [<- H]%(inj Some)%pair_eq.
    by eapply stepped_leaves.
Qed.

(** Only a text changes more than the queue. *)
Lemma step_db fails e st who outs st' :
  server_step fails e st = Some (who, (outs, st')) →
  (∃ l, db st' = with_queue l (db st)) ∨
  ∃ sid now text user, e = Says sid now text ∧ who = Some user ∧ sockets st !! sid = Some user ∧
    outcome fails now user text st outs st'.
Proof.
  intros H%step_stepped. assert (∃ l, db st = with_queue l (db st)) as Hst
    by (exists (pending_messages (db st)); by destruct st as [[]]).
  destruct H as [|sid text user outs st' _ _ _ H|sid user outs st' _ H|sid now text user outs st' Es H|sid user _
    |sid user outs st' _ H]; [by left|by left; injection H as _ <-| | |left; by rewrite end_session_db
    |by left; injection H as _ <-].
  - left. destruct (open_session_db fails sid user st) as [l E]. rewrite H in E. by exists l.
  - destruct (receive_outcome _ _ _ _ _ _ _ H) as [Ho|Ho]; [right; by exists sid, now, text, user|left].
    destruct Ho as [recipient p t _ outs]. destruct (enqueue_db fails user outs st) as (l & -> & _). by exists l.
Qed.

Lemma step_names fails e st who outs st' :
  server_step fails e st = Some (who, (outs, st')) → names (db st') = names (db st).
Proof.
  intros [[l ->]|(sid & now & text & user & _ & _ & _ & Ho)]%step_db; [done|by eapply outcome_names].
Qed.

Lemma runs_names st0 tr st : server_runs st0 tr st → names (db st) = names (db st0).
Proof. induction 1 as [|tr st fails e who outs st' _ IH Hs]; [done|]. by rewrite (step_names _ _ _ _ _ _ Hs). Qed.

(** ** Consent *)

(** Somebody of this id has said it. *)
Definition said_by (uid : nat) (p : jsstr → Prop) (x : served) : Prop :=
  ∃ sid now text user, sv_event x = Says sid now text ∧ sv_user x = Some user ∧ u_id user = uid ∧ p text.

Definition asked (d : Db) (r : ContactRequest) : served → Prop :=
  said_by (cr_from_id r) (λ text, ∃ w, asks_for text w ∧ id_of w d = Some (cr_to_id r)).

Definition agreed (r : ContactRequest) : served → Prop :=
  said_by (cr_to_id r) (λ text, accepts_request text (cr_id r)).

Definition history (d : Db) (tr : list served) (r : ContactRequest) : Prop :=
  (cr_status r = StPending → ∃ x, In x tr ∧ asked d r x) ∧
  (cr_status r = StAccepted → ∃ tr1 x tr2 y tr3, tr = tr1 ++ x :: tr2 ++ y :: tr3 ∧ asked d r x ∧ agreed r y).

Lemma history_grows d tr r x : history d tr r → history d (tr ++ [x]) r.
Proof.
  intros [Hp Ha]. split.
  - intros (y & Hy & Hr)%Hp. exists y. split; [|done]. apply in_or_app. by left.
  - intros (tr1 & y & tr2 & z & tr3 & -> & H)%Ha. exists tr1, y, tr2, z, (tr3 ++ [x]). split; [|done].
    by rewrite <-(assoc_L (++)), <-app_comm_cons, <-(assoc_L (++)).
Qed.

Lemma history_runs st0 tr st :
  server_runs st0 tr st → contact_requests (db st0) = [] →
  ∀ r, In r (contact_requests (db st)) → history (db st0) tr r.
Proof.
  intros Hr H0. induction Hr as [|tr st fails e who outs st' Hr IH Hs]; [by rewrite H0|]. intros r Hin.
  destruct (step_db _ _ _ _ _ _ Hs) as [[l E]|(sid & now & text & user & -> & -> & _ & Ho)].
  { rewrite E in Hin. by apply history_grows, IH. }
  destruct (outcome_requests _ _ _ _ _ _ _ r Ho Hin) as [Hold|Hnew]; [by apply history_grows, IH|].
  destruct Hnew as [r w target Hw Hf _ Hfrom Hto Hst|r Ha Hold Hp Hto|r Hst].
  - split; [|congruence]. intros _. eexists. split; [apply in_or_app; right; by left|].
    exists sid, now, text, user. split_and!; [done..|]. exists w. split; [done|].
    unfold id_of. rewrite <-(runs_names _ _ _ Hr). change (id_of w (db st) = Some (cr_to_id r)).
    by rewrite <-find_id, Hf, Hto.
  - split; [done|]. intros _. destruct (IH r Hold) as [Hask _]. destruct (Hask Hp) as (x & Hx & Hr').
    apply in_split in Hx as (tr1 & tr2 & ->). exists tr1, x, tr2. eexists _, [].
    split; [by rewrite <-(assoc_L (++))|]. split; [exact Hr'|]. by exists sid, now, text, user.
  - split; congruence.
Qed.

(** ** Blocks *)

Lemma is_blocked_sym a b d : is_blocked_between a b d = is_blocked_between b a d.
Proof. unfold is_blocked_between. apply orb_comm. Qed.

(** No open request between users of whom one has blocked the other. *)
Definition quiet (d : Db) : Prop :=
  ∀ r, In r (contact_requests d) → cr_status r = StPending → is_blocked_between (cr_from_id r) (cr_to_id r) d = false.

Lemma quiet_blocks d d' :
  quiet d → contact_requests d' = contact_requests d →
  (∀ a b, is_blocked_between a b d' = true → is_blocked_between a b d = true) → quiet d'.
Proof.
  intros Hq Hr Hb r Hin Hp. rewrite Hr in Hin. destruct (is_blocked_between _ _ d') eqn:E; [|done].
  apply Hb in E. by rewrite (Hq r Hin Hp) in E.
Qed.

Lemma quiet_block a b now d d' :
  create_block a b now d = Some d' → quiet d → quiet (clear_pending_contact_requests_between a b d').
Proof.
  intros (Hr & _ & _ & _ & _ & Hb)%create_block_spec Hq r Hin Hp.
  cbn in Hin. apply in_map_iff in Hin as (y & Ey & Hy). rewrite Hr in Hy.
  change (is_blocked_between (cr_from_id r) (cr_to_id r) d' = false).
  destruct (bool_decide (cr_status y = StPending) && (goes a b y || goes b a y)) eqn:E.
  - subst r. done.
  - subst r. rewrite bool_decide_true in E by done. cbn in E. apply orb_false_iff in E as [E1 E2].
    pose proof (Hq y Hy Hp) as Hold. unfold is_blocked_between in Hold |- *. apply orb_false_iff in Hold as [H1 H2].
    apply orb_false_iff. split.
    + destruct (blocked_by _ _ d') eqn:Eb; [|done]. destruct (Hb _ _ Eb) as [?|[E3 E4]]; [congruence|].
      unfold goes in E1. by rewrite E3, E4, !Nat.eqb_refl in E1.
    + destruct (blocked_by _ _ d') eqn:Eb; [|done]. destruct (Hb _ _ Eb) as [?|[E3 E4]]; [congruence|].
      unfold goes in E2. by rewrite E3, E4, !Nat.eqb_refl in E2.
Qed.

Lemma outcome_quiet fails now user text st outs st' :
  outcome fails now user text st outs st' → fails ClearPending = false → quiet (db st) → quiet (db st').
Proof.
  intros Ho Hf Hq. destruct Ho as [| |? ?|w target q d Hw Hfu Hb H|id q d outs Hid H _|id q d H|id target d H d'|id]; try done.
  - apply create_request_spec in H as (_ & _ & _ & H & _ & Hbl & _). intros r Hin Hp.
    unfold is_blocked_between, blocked_by. cbn [db with_db]. rewrite Hbl.
    change (is_blocked_between (cr_from_id r) (cr_to_id r) (db st) = false).
    destruct (H r Hin) as [?|(-> & -> & _)]; auto.
  - apply answer_request_spec in H as (_ & H & _ & Hbl & _). intros r Hin Hp.
    unfold is_blocked_between, blocked_by. cbn [db with_db]. rewrite Hbl.
    destruct (H r Hin) as [?|(y & _ & _ & ->)]; [by apply Hq|done].
  - apply answer_request_spec in H as (_ & H & _ & Hbl & _). intros r Hin Hp.
    unfold is_blocked_between, blocked_by. cbn [db with_db]. rewrite Hbl.
    destruct (H r Hin) as [?|(y & _ & _ & ->)]; [by apply Hq|done].
  - unfold d'. rewrite Hf. by eapply quiet_block.
  - eapply quiet_blocks; [exact Hq|done|]. intros a b. unfold is_blocked_between, blocked_by. cbn.
    rewrite !orb_true_iff, !existsb_exists. intros [(x & [Hx _]%filter_In & ?)|(x & [Hx _]%filter_In & ?)];
      [left|right]; by exists x.
Qed.

Lemma quiet_runs st0 tr st :
  server_runs st0 tr st → quiet (db st0) → Forall (λ x, sv_fails x ClearPending = false) tr → quiet (db st).
Proof.
  induction 1 as [|tr st fails e who outs st' _ IH Hs]; [done|]. intros H0 [Htr Hx]%list.Forall_app.
  apply list.Forall_cons in Hx as [Hx _]. cbn in Hx. specialize (IH H0 Htr).
  destruct (step_db _ _ _ _ _ _ Hs) as [[l ->]|(sid & now & text & user & -> & -> & _ & Ho)]; [done|].
  by eapply outcome_quiet.
Qed.

(** Whom a push reaches. *)
Lemma push_in y t uid text st : In (ToUser y t) (push uid text st) → y = uid.
Proof. unfold push. by destruct (is_live uid st); [intros [[= -> _]|[]]|]. Qed.

Lemma broadcast_in y t fails user status st :
  In (ToUser y t) (broadcast_presence_to_contacts fails user status st) →
  is_blocked_between (u_id user) y (db st) = false.
Proof.
  unfold broadcast_presence_to_contacts. destruct (attempt fails _ _) as [ids|] eqn:Ei; [|done].
  apply attempt_Ok in Ei as <-. intros (id & Hid & Hp)%in_flat_map. apply push_in in Hp as ->.
  unfold list_accepted_contact_user_ids in Hid. apply list_elem_of_In, list_elem_of_omap in Hid as (r & _ & Hr).
  destruct (_ && _) eqn:E in Hr; [|done]. injection Hr as <-.
  apply andb_true_iff in E as [_ E]. by apply negb_true_iff in E.
Qed.

(** What is sent to a user or kept for it. *)
Definition reaches_user (y : nat) (o : server_out) : Prop :=
  match o with ToUser uid _ | Queued uid _ => uid = y | ToSender _ => False end.

Lemma outcome_apart fails now user text st outs st' y o :
  outcome fails now user text st outs st' → quiet (db st) → In o outs → reaches_user y o →
  is_blocked_between (u_id user) y (db st) = false.
Proof.
  intros Ho Hq Hin Hy.
  destruct Ho as [outs H| |status p|w target q d Hw Hf Hb H|id q d outs Hid H Hout|id q d H|id target d H d'|id].
  - destruct (H o Hin) as [t ->]. done.
  - done.
  - destruct o as [t|uid t|uid p']; cbn in Hy; [done|subst uid; by apply broadcast_in in Hin|].
    unfold broadcast_presence_to_contacts in Hin. destruct (attempt _ _ _); [|done].
    apply in_flat_map in Hin as (id & _ & Hin). unfold push in Hin. by destruct (is_live _ _); [destruct Hin as [?|[]]|].
  - destruct Hin as [<-|Hin]; [done|]. destruct o as [t|uid t|uid p']; cbn in Hy; [done|subst uid; by apply push_in in Hin as ->|].
    unfold push in Hin. by destruct (is_live _ _); [destruct Hin as [?|[]]|].
  - destruct Hout as [->|(requester & Hf & ->)]; [done|]. destruct Hin as [<-|Hin]; [done|].
    apply answer_request_spec in H as ((r0 & Hr0 & Ha & ->) & _ & Hu & _). apply answers_true in Ha as (_ & Ht & Hp).
    assert (u_id requester = cr_from_id r0) as Er.
    { apply find_some in Hf as [_ Hf]. by apply Nat.eqb_eq in Hf. }
    destruct o as [t|uid t|uid p']; cbn in Hy; [done| |].
    + subst uid. apply push_in in Hin as ->. rewrite is_blocked_sym, Er, <-Ht. by apply Hq.
    + unfold push in Hin. by destruct (is_live _ _); [destruct Hin as [?|[]]|].
  - by destruct Hin as [<-|[]].
  - by destruct Hin as [<-|[]].
  - by destruct Hin as [<-|[]].
Qed.

(** ** Live sessions *)

Lemma outcome_clients fails now user text st outs st' :
  outcome fails now user text st outs st' →
  clients st' = clients st ∧ sockets st' = sockets st ∧ moving st' = moving st.
Proof. by destruct 1. Qed.

Lemma outcome_presence fails now user text st outs st' :
  outcome fails now user text st outs st' → same_users (presence st') (presence st).
Proof. by destruct 1. Qed.

Lemma receive_sessions fails now text user st outs st' :
  receive fails now text user st = (outs, st') →
  clients st' = clients st ∧ sockets st' = sockets st ∧ moving st' = moving st ∧
  same_users (presence st') (presence st).
Proof.
  intros [Ho|[recipient p t _ outs1]]%receive_outcome.
  - pose proof (outcome_clients _ _ _ _ _ _ _ Ho) as (-> & -> & ->). split_and!; [done..|by eapply outcome_presence].
  - by destruct (enqueue_db fails user outs1 st) as (l & _ & -> & -> & -> & ->).
Qed.

Lemma open_session_state fails sid user st st' :
  st' = (open_session fails sid user st).2 →
  clients st' = clients st ∧ sockets st' = <[sid := user]> (sockets st) ∧ moving st' = delete sid (moving st) ∧
  presence st' = <[u_id user := mkPresence online (u_mood_message user)]> (presence st).
Proof. intros ->. unfold open_session, attempt. cbn. by destruct (fails DrainPending). Qed.

(** A socket with its user: listened to ([None]), or moving. *)
Definition task (st : ServerState) (sid : nat) (m : option Move) (user : User) : Prop :=
  match m with
  | None => sockets st !! sid = Some user
  | Some m => moving st !! sid = Some (m, user)
  end.

(** A live session is a socket of its user that is not about to leave. *)
Definition clients_ok (st : ServerState) : Prop :=
  ∀ uid sid, clients st !! uid = Some sid → ∃ m user, task st sid m user ∧ u_id user = uid ∧ m ≠ Some Closing.

(** No socket both is listened to and moves. *)
Definition apart (st : ServerState) : Prop := ∀ sid, sockets st !! sid = None ∨ moving st !! sid = None.

Lemma step_apart fails e st who outs st' :
  server_step fails e st = Some (who, (outs, st')) → apart st → apart st'.
Proof.
  intros H%step_stepped Ha x. destruct H as [|sid text user outs st' Es Em _ H|sid user outs st' Em H
    |sid now text user outs st' Es H|sid user Es|sid user outs st' Em H].
  - apply Ha.
  - injection H as _ <-. cbn. destruct (decide (x = sid)) as [->|]; [by left|]. rewrite lookup_insert_ne by done. apply Ha.
  - destruct (open_session_state fails sid user st st') as (_ & -> & -> & _); [by rewrite H|].
    destruct (decide (x = sid)) as [->|]; [right; apply lookup_delete_eq|].
    rewrite lookup_insert_ne, lookup_delete_ne by done. apply Ha.
  - destruct (receive_sessions _ _ _ _ _ _ _ H) as (_ & -> & -> & _). apply Ha.
  - unfold end_session. case_bool_decide; cbn; (destruct (decide (x = sid)) as [->|];
      [left; apply lookup_delete_eq|rewrite lookup_delete_ne by done]); [|apply Ha].
    rewrite lookup_insert_ne by done. apply Ha.
  - injection H as _ <-. cbn. destruct (decide (x = sid)) as [->|]; [right; apply lookup_delete_eq|].
    rewrite lookup_delete_ne by done. apply Ha.
Qed.

(** What a step does to the sockets other than its own. *)
Definition socket_of (e : server_event) : nat :=
  match e with Authenticates sid _ | Opens sid | Says sid _ _ | Ends sid | Leaves sid => sid end.

Lemma step_task_other fails e st who outs st' sid m user :
  server_step fails e st = Some (who, (outs, st')) → sid ≠ socket_of e → task st' sid m user ↔ task st sid m user.
Proof.
  intros H%step_stepped Hne. destruct H as [|sid' text u outs st' Es Em _ H|sid' u outs st' Em H
    |sid' now text u outs st' Es H|sid' u Es|sid' u outs st' Em H]; cbn in Hne.
  - done.
  - injection H as _ <-. destruct m; cbn; [|done]. by rewrite lookup_insert_ne.
  - destruct (open_session_state fails sid' u st st') as (_ & E1 & E2 & _); [by rewrite H|].
    destruct m; cbn; rewrite ?E1, ?E2; [by rewrite lookup_delete_ne|by rewrite lookup_insert_ne].
  - destruct (receive_sessions _ _ _ _ _ _ _ H) as (_ & E1 & E2 & _). destruct m; cbn; by rewrite ?E1, ?E2.
  - unfold end_session. case_bool_decide; destruct m; cbn; rewrite ?lookup_delete_ne, ?lookup_insert_ne; done.
  - injection H as _ <-. destruct m; cbn; [|done]. by rewrite lookup_delete_ne.
Qed.

Lemma step_clients fails e st who outs st' :
  server_step fails e st = Some (who, (outs, st')) → apart st → clients_ok st → clients_ok st'.
Proof.
  intros Hs Ha Hc. assert (∀ uid sid, clients st !! uid = Some sid → sid ≠ socket_of e →
    ∃ m user, task st' sid m user ∧ u_id user = uid ∧ m ≠ Some Closing) as Hold.
  { intros uid sid H Hne. destruct (Hc uid sid H) as (m & u & Ht & E & Hm). exists m, u. split; [|done].
    by apply (step_task_other _ _ _ _ _ _ _ _ _ Hs). }
  pose proof (step_stepped _ _ _ _ _ _ Hs) as H. intros uid x Hx.
  destruct H as [|sid text user outs st' Es Em _ H|sid user outs st' Em H
    |sid now text user outs st' Es H|sid user Es|sid user outs st' Em H]; cbn [socket_of] in Hold.
  - by apply Hc.
  - injection H as _ <-. cbn in Hx. apply lookup_insert_Some in Hx as [[<- <-]|[Hne Hx]].
    + exists (Some Opening), user. split; [apply lookup_insert_eq|done].
    + apply Hold; [done|]. intros ->. destruct (Hc uid sid Hx) as ([m|] & u & Ht & _); cbn in Ht; congruence.
  - destruct (open_session_state fails sid user st st') as (E1 & E2 & _ & _); [by rewrite H|]. rewrite E1 in Hx.
    destruct (decide (x = sid)) as [->|]; [|by apply Hold]. destruct (Hc uid sid Hx) as (m & u & Ht & E & Hm).
    exists None, user. cbn. rewrite E2. split; [apply lookup_insert_eq|]. split; [|done].
    destruct m; cbn in Ht; [congruence|]. destruct (Ha sid); congruence.
  - destruct (receive_sessions _ _ _ _ _ _ _ H) as (E1 & E2 & E3 & _). rewrite E1 in Hx.
    destruct (Hc uid x Hx) as (m & u & Ht & E). exists m, u. split; [|done]. destruct m; cbn in *; by rewrite ?E2, ?E3.
  - assert (clients st !! uid = Some x ∧ x ≠ sid) as [Hx' Hne]; [|by apply Hold].
    assert (∀ y, clients st !! y = Some sid → y = u_id user) as Hy.
    { intros y Hy. destruct (Hc y sid Hy) as ([m|] & u & Ht & E & _); cbn in Ht; [destruct (Ha sid); congruence|congruence]. }
    unfold end_session in Hx. case_bool_decide as Hact; cbn in Hx.
    + apply lookup_delete_Some in Hx as [Hne Hx]. split; [done|]. intros ->. by rewrite (Hy _ Hx) in Hne.
    + split; [done|]. intros ->. by rewrite (Hy _ Hx) in Hx.
  - injection H as _ <-. cbn in Hx. destruct (decide (x = sid)) as [->|]; [|by apply Hold].
    destruct (Hc uid sid Hx) as (m & u & Ht & E & Hm). exists m, u. split; [|done]. destruct m; cbn in *; [congruence|done].
Qed.

Lemma runs_clients st0 tr st :
  server_runs st0 tr st → apart st0 ∧ clients_ok st0 → apart st ∧ clients_ok st.
Proof.
  induction 1 as [|tr st fails e who outs st' _ IH Hs]; [done|]. intros [Ha Hc]%IH.
  split; [by eapply step_apart|by eapply step_clients].
Qed.

(** ** One socket at a time *)

(** The user has a socket, at whatever stage. *)
Definition busy (uid : nat) (st : ServerState) : Prop := ∃ sid m user, task st sid m user ∧ u_id user = uid.

(** A run in which a user connects only when the socket before is gone. *)
Inductive one_socket_runs (st0 : ServerState) : list served → ServerState → Prop :=
  | one_start : one_socket_runs st0 [] st0
  | one_next tr st fails e who outs st' :
      one_socket_runs st0 tr st → server_step fails e st = Some (who, (outs, st')) →
      (∀ sid text user, e = Authenticates sid text → who = Some user → ¬ busy (u_id user) st) →
      one_socket_runs st0 (tr ++ [mkServed fails e who outs]) st'.

(** What the maps hold for a user's only socket. *)
Definition matches (st : ServerState) (uid : nat) (o : option (nat * option Move)) : Prop :=
  match o with
  | Some (sid, m) =>
      clients st !! uid = (if decide (m = Some Closing) then None else Some sid) ∧
      (is_Some (presence st !! uid) ↔ m ≠ Some Opening)
  | None => clients st !! uid = None ∧ presence st !! uid = None
  end.

Record tidy (st : ServerState) : Prop := {
  td_apart : apart st;
  td_unique sid sid' m m' u u' : task st sid m u → task st sid' m' u' → u_id u = u_id u' → sid = sid';
  td_task sid m u : task st sid m u → matches st (u_id u) (Some (sid, m));
  td_none uid : ¬ busy uid st → matches st uid None;
}.

(** One user's only socket goes from the stage [o] to the stage [o']. *)
Lemma tidy_change st st' sid user (o o' : option (option Move)) :
  tidy st → apart st' →
  (∀ x m u, x ≠ sid → task st' x m u ↔ task st x m u) →
  (∀ m u, task st sid m u ↔ o = Some m ∧ u = user) → (∀ m u, task st' sid m u ↔ o' = Some m ∧ u = user) →
  (o = None → ¬ busy (u_id user) st) →
  (∀ uid, uid ≠ u_id user →
    clients st' !! uid = clients st !! uid ∧ (is_Some (presence st' !! uid) ↔ is_Some (presence st !! uid))) →
  matches st' (u_id user) (pair sid <$> o') →
  tidy st'.
Proof.
  intros [Ha Hu Ht Hn] Ha' Hx Hold Hnew Ho Hrest Hm.
  assert (∀ x m u, x ≠ sid → task st x m u → u_id u ≠ u_id user) as Hother.
  { intros x m u Hne Htask E. destruct o as [m0|].
    - apply Hne. eapply Hu; [exact Htask|by apply (Hold m0 user)|done].
    - apply (Ho eq_refl). by exists x, m, u. }
  split; [done|..].
  - intros x y m m' u u' H1 H2 E. destruct (decide (x = sid)) as [->|], (decide (y = sid)) as [->|]; [done|..].
    + apply Hnew in H1 as [_ ->]. apply Hx in H2; [|done]. by destruct (Hother _ _ _ n H2).
    + apply Hnew in H2 as [_ ->]. apply Hx in H1; [|done]. by destruct (Hother _ _ _ n H1).
    + apply Hx in H1, H2; [|done..]. by eapply Hu.
  - intros x m u H. destruct (decide (x = sid)) as [->|]; [by apply Hnew in H as [-> ->]|].
    apply Hx in H; [|done]. destruct (Hrest (u_id u)) as [E1 E2]; [by eapply Hother|].
    cbn. rewrite E1, E2. by apply (Ht x m u).
  - intros uid Hb. destruct (decide (uid = u_id user)) as [->|Hne].
    + destruct o' as [m|]; [|exact Hm]. destruct Hb. exists sid, m, user. split; [by apply Hnew|done].
    + destruct (Hrest uid Hne) as [E1 E2]. destruct (Hn uid) as [H1 H2].
      { intros (x & m & u & H & E). apply Hb. exists x, m, u. split; [|done].
        apply Hx; [|done]. intros ->. apply Hold in H as [_ ->]. done. }
      split; [by rewrite E1|]. apply eq_None_not_Some. rewrite E2, H2. by intros [].
Qed.

Lemma task_socket st sid user m u :
  apart st → sockets st !! sid = Some user → task st sid m u ↔ Some None = Some m ∧ u = user.
Proof. intros Ha Hs. destruct (Ha sid); [congruence|]. destruct m; cbn; naive_solver congruence. Qed.

Lemma task_moving st sid k user m u :
  apart st → moving st !! sid = Some (k, user) → task st sid m u ↔ Some (Some k) = Some m ∧ u = user.
Proof. intros Ha Hs. destruct (Ha sid); [|congruence]. destruct m; cbn; naive_solver congruence. Qed.

Lemma task_gone st sid user m u :
  sockets st !! sid = None → moving st !! sid = None → task st sid m u ↔ None = Some m ∧ u = user.
Proof. intros. destruct m; cbn; naive_solver congruence. Qed.

Lemma step_tidy fails e st who outs st' :
  server_step fails e st = Some (who, (outs, st')) →
  (∀ sid text user, e = Authenticates sid text → who = Some user → ¬ busy (u_id user) st) →
  tidy st → tidy st'.
Proof.
  intros Hs Hfree Htidy. pose proof (td_apart _ Htidy) as Ha. pose proof (step_apart _ _ _ _ _ _ Hs Ha) as Ha'.
  pose proof (λ x m u, step_task_other _ _ _ _ _ _ x m u Hs) as Hx. pose proof (step_stepped _ _ _ _ _ _ Hs) as H.
  destruct H as [|sid text user outs st' Es Em _ H|sid user outs st' Em H
    |sid now text user outs st' Es H|sid user Es|sid user outs st' Em H]; [done|..]; cbn [socket_of] in Hx.
  - injection H as _ <-. apply (tidy_change st _ sid user None (Some (Some Opening))); try done.
    + intros m u. by apply task_gone.
    + intros m u. apply task_moving; [done|]. apply lookup_insert_eq.
    + intros _. by eapply Hfree.
    + intros uid Hne. cbn. by rewrite lookup_insert_ne by done.
    + cbn. rewrite lookup_insert_eq. split; [done|]. split; [|done].
      destruct (td_none _ Htidy (u_id user)) as [_ ->]; [by eapply Hfree|by intros []].
  - destruct (open_session_state fails sid user st st') as (E1 & E2 & E3 & E4); [by rewrite H|].
    apply (tidy_change st _ sid user (Some (Some Opening)) (Some None)); try done.
    + intros m u. by apply task_moving.
    + intros m u. apply task_socket; [done|]. rewrite E2. apply lookup_insert_eq.
    + intros uid Hne. by rewrite E1, E4, lookup_insert_ne by done.
    + cbn. rewrite E1, E4, lookup_insert_eq. split; [|by split; [|eexists]].
      by destruct (td_task _ Htidy sid (Some Opening) user Em) as [-> _].
  - destruct (receive_sessions _ _ _ _ _ _ _ H) as (E1 & E2 & E3 & E4).
    assert (∀ x m u, task st' x m u ↔ task st x m u) as Ht by (intros x [m|] u; cbn; by rewrite ?E2, ?E3).
    destruct Htidy as [_ Hu Htk Hn]. split; [done|..].
    + intros x y m m' u u' H1%Ht H2%Ht. by eapply Hu.
    + intros x m u H1%Ht. cbn. rewrite E1, (E4 (u_id u)). by apply (Htk x m u).
    + intros uid Hb. destruct (Hn uid) as [H1 H2].
      { intros (x & m & u & Hk & E). apply Hb. exists x, m, u. by rewrite Ht. }
      split; [by rewrite E1|]. apply eq_None_not_Some. rewrite (E4 uid), H2. by intros [].
  - destruct (td_task _ Htidy sid None user Es) as [Hc Hp]. rewrite decide_False in Hc by done.
    unfold end_session in *. rewrite bool_decide_true in * by done.
    apply (tidy_change st _ sid user (Some None) (Some (Some Closing))); try done.
    + intros m u. by apply task_socket.
    + intros m u. apply task_moving; [done|]. apply lookup_insert_eq.
    + intros uid Hne. cbn. by rewrite lookup_delete_ne by done.
    + cbn. rewrite lookup_delete_eq. split; [done|]. rewrite Hp. done.
  - injection H as _ <-. destruct (td_task _ Htidy sid (Some Closing) user Em) as [Hc _].
    apply (tidy_change st _ sid user (Some (Some Closing)) None); try done.
    + intros m u. by apply task_moving.
    + intros m u. apply task_gone; [|apply lookup_delete_eq]. destruct (Ha sid); [done|congruence].
    + intros uid Hne. cbn. by rewrite lookup_delete_ne by done.
    + cbn. split; [by rewrite Hc|apply lookup_delete_eq].
Qed.

Lemma one_socket_tidy st0 tr st : one_socket_runs st0 tr st → tidy st0 → tidy st.
Proof. induction 1 as [|tr st fails e who outs st' _ IH Hs Hf]; [done|]. intros H. eapply step_tidy; eauto. Qed.

(** No session yet, and no socket. *)
Definition silent (st : ServerState) : Prop :=
  clients st = ∅ ∧ presence st = ∅ ∧ sockets st = ∅ ∧ moving st = ∅.

Lemma silent_tidy st : silent st → tidy st.
Proof.
  intros (Hc & Hp & Hs & Hm). assert (∀ sid m u, ¬ task st sid m u) as H.
  { intros sid [m|] u; cbn; rewrite ?Hs, ?Hm, lookup_empty; done. }
  split.
  - intros sid. left. by rewrite Hs.
  - intros sid sid' m m' u u' Ht. by apply H in Ht.
  - intros sid m u Ht. by apply H in Ht.
  - intros uid _. cbn. by rewrite Hc, Hp, !lookup_empty.
Qed.

(** A user who reconnects while the old socket is leaving. *)
Lemma reconnect_race fails st sid sid' text user user' :
  sockets st !! sid = Some user → clients st !! u_id user = Some sid →
  sockets st !! sid' = None → moving st !! sid' = None →
  authenticate fails text st = Some user' → u_id user' = u_id user →
  ∃ tr' st', server_runs st (map (λ e, mkServed fails e.1 (Some e.2.1) e.2.2) tr') st' ∧
    map fst tr' = [Ends sid; Authenticates sid' text; Opens sid'; Leaves sid] ∧
    clients st' !! u_id user = Some sid' ∧ sockets st' !! sid' = Some user' ∧ presence st' !! u_id user = None.
Proof.
  intros Hs Hl Hs' Hm' Hauth Hid. assert (sid' ≠ sid) as Hne by congruence.
  set (st1 := end_session sid user st).
  assert (st1 = with_moving (<[sid := (Closing, user)]> (moving st))
    (with_clients (delete (u_id user) (clients st)) (with_sockets (delete sid (sockets st)) st))) as E1.
  { unfold st1, end_session. by rewrite bool_decide_true. }
  destruct (register_session fails sid' user' st1) as [o2 st2] eqn:E2. pose proof E2 as H2. injection H2 as _ H2.
  destruct (open_session fails sid' user' st2) as [o3 st3] eqn:E3.
  destruct (open_session_state fails sid' user' st2 st3) as (Hc3 & Hs3 & Hm3 & Hp3); [by rewrite E3|].
  destruct (leave fails sid user st3) as [o4 st4] eqn:E4. pose proof E4 as H4. injection H4 as _ H4.
  assert (moving st3 !! sid = Some (Closing, user)) as Hcl.
  { rewrite Hm3, lookup_delete_ne by done. rewrite <-H2, E1. cbn.
    by rewrite lookup_insert_ne, lookup_insert_eq by done. }
  exists [(Ends sid, (user, [])); (Authenticates sid' text, (user', o2)); (Opens sid', (user', o3));
          (Leaves sid, (user, o4))], st4. split; [|split; [done|]].
  - apply (serve_runs [(fails, Ends sid); (fails, Authenticates sid' text); (fails, Opens sid'); (fails, Leaves sid)]
      st [] st); [constructor|].
    cbn [serve server_step]. rewrite Hs. cbn [mbind option_bind]. fold st1.
    assert (sockets st1 !! sid' = None ∧ moving st1 !! sid' = None) as [-> ->].
    { rewrite E1. cbn. by rewrite lookup_delete_ne, lookup_insert_ne by done. }
    assert (authenticate fails text st1 = Some user') as ->.
    { rewrite <-Hauth. unfold authenticate. by rewrite E1. }
    rewrite E2. cbn [mbind option_bind]. assert (moving st2 !! sid' = Some (Opening, user')) as ->.
    { rewrite <-H2. cbn. apply lookup_insert_eq. }
    rewrite E3. cbn [mbind option_bind]. rewrite Hcl, E4. reflexivity.
  - rewrite <-H4. cbn. rewrite Hc3, Hs3, lookup_delete_eq, lookup_insert_eq.
    split; [|done]. rewrite <-H2. cbn. by rewrite Hid, lookup_insert_eq.
Qed.

(** ** A user who is away *)

(** The step starts no session of the user. *)
Definition no_start (uid : nat) (e : server_event) (who : option User) : Prop :=
  match e, who with Authenticates _ _, Some u => u_id u ≠ uid | _, _ => True end.

Lemma push_away uid y t text st : is_live uid st = false → ¬ In (ToUser uid t) (push y text st).
Proof. intros Hl Hin. pose proof (push_in _ _ _ _ _ Hin) as <-. unfold push in Hin. by rewrite Hl in Hin. Qed.

Lemma broadcast_away uid t fails user status st :
  is_live uid st = false → ¬ In (ToUser uid t) (broadcast_presence_to_contacts fails user status st).
Proof.
  intros Hl. unfold broadcast_presence_to_contacts. destruct (attempt _ _ _); [|intros []].
  intros (id & _ & Hin)%in_flat_map. by eapply push_away.
Qed.

Lemma flush_away uid t user st q : is_live uid st = false → ¬ In (ToUser uid t) (flush user st q).
Proof.
  intros Hl [?|Hin]; [done|]. destruct (payload_str _ _); [|done]. by eapply push_away.
Qed.

Lemma outcome_away fails now user text st outs st' uid t :
  outcome fails now user text st outs st' → is_live uid st = false → ¬ In (ToUser uid t) outs.
Proof.
  intros Ho Hl Hin.
  destruct Ho as [outs H| |status p Hp|w target q d Hw Hf Hb H|id q d outs Hid H Hout|id q d H|id target d H d'|id].
  - by destruct (H _ Hin) as [? [=]].
  - done.
  - by eapply (broadcast_away uid), Hin.
  - destruct Hin as [?|Hin]; [done|]. by eapply (push_away uid), Hin.
  - destruct Hout as [->|(? & _ & ->)]; [done|]. destruct Hin as [?|Hin]; [done|]. by eapply (push_away uid), Hin.
  - by destruct Hin as [?|[]].
  - by destruct Hin as [?|[]].
  - by destruct Hin as [?|[]].
Qed.

Lemma open_session_outs fails sid user st :
  let '(outs, st') := open_session fails sid user st in
  ∃ before queued, outs = before ++ flat_map (flush user st') queued ∧
    (fails DrainPending = false →
     queued = List.filter (waits_for (u_id user)) (pending_messages (db st)) ∧
     pending_messages (db st') = List.filter (λ q, negb (waits_for (u_id user) q)) (pending_messages (db st))) ∧
    ∀ uid t, is_live uid st = false → ¬ In (ToUser uid t) before.
Proof.
  destruct (open_session fails sid user st) as [outs st'] eqn:E. unfold open_session in E.
  set (st1 := with_presence _ (with_sockets _ _)) in E.
  assert (∀ uid, is_live uid st1 = is_live uid st) as Hl1 by done.
  set (roster := match attempt fails ListRoster _ with DbOk _ => _ | DbErr => _ end) in E.
  set (inbound := match attempt fails ListPendingInbound _ with DbOk _ => _ | DbErr => _ end) in E.
  assert (∀ o, In o (roster ++ inbound) → ∃ t, o = ToSender t) as Hri.
  { intros o. unfold roster, inbound. rewrite in_app_iff. intros [H|H].
    - destruct (attempt fails ListRoster _); [|done]. destruct H as [<-|[]]. by eexists.
    - destruct (attempt fails ListPendingInbound _); [|done]. apply in_map_iff in H as ([? ?] & <- & _). by eexists. }
  exists (broadcast_presence_to_contacts fails user (js "online") st1 ++ roster ++ inbound).
  exists (match attempt fails DrainPending (drain_pending_messages (u_id user) (db st1)) with
          | DbOk r => r.1 | DbErr => [] end).
  split_and!.
  - unfold attempt in *. cbn in E. destruct (fails DrainPending); injection E as <- <-; cbn;
      by rewrite <-!(assoc_L (++)).
  - intros Hd. unfold attempt in *. rewrite Hd in *. injection E as <- <-. done.
  - intros uid t Hl [Hin|Hin]%in_app_iff.
    + by eapply (broadcast_away uid), Hin.
    + by destruct (Hri _ Hin) as [? [=]].
Qed.

Lemma step_away fails e st who outs st' uid t :
  server_step fails e st = Some (who, (outs, st')) → is_live uid st = false → no_start uid e who →
  ¬ In (ToUser uid t) outs ∧ is_live uid st' = false.
Proof.
  intros Hs%step_stepped Hl Hn. destruct Hs as [|sid text user outs st' Es Em _ H|sid user outs st' Em H
    |sid now text user outs st' Es H|sid user Es|sid user outs st' Em H].
  - by split; [intros []|].
  - injection H as <- <-. split; [by intros [|[]]|]. unfold is_live. cbn in Hn |- *. by rewrite lookup_insert_ne.
  - destruct (open_session_state fails sid user st st') as (E1 & _); [by rewrite H|].
    assert (is_live uid st' = false) as Hl' by (unfold is_live; by rewrite E1).
    split; [|done]. pose proof (open_session_outs fails sid user st) as Ho. rewrite H in Ho.
    destruct Ho as (before & queued & -> & _ & Hb). intros [Hin|(q & _ & Hin)%in_flat_map]%in_app_iff.
    + by eapply Hb.
    + by eapply (flush_away uid), Hin.
  - split.
    + destruct (receive_outcome _ _ _ _ _ _ _ H) as [Ho|Ho]; [by eapply outcome_away|].
      destruct Ho as [recipient p t' _ outs]. intros [Hin|[Hin|[]]]; [|done].
      destruct (is_live recipient st) eqn:El; [|done]. injection Hin as -> _. congruence.
    + unfold is_live. by destruct (receive_sessions _ _ _ _ _ _ _ H) as (-> & _).
  - split; [by intros []|]. unfold end_session. case_bool_decide; [|done]. unfold is_live in *. cbn.
    apply bool_decide_eq_false in Hl. apply bool_decide_eq_false.
    rewrite lookup_delete. case_decide; [by intros []|done].
  - injection H as <- <-. split; [|done]. by apply (broadcast_away uid).
Qed.

Lemma runs_away st0 tr st uid :
  server_runs st0 tr st → is_live uid st0 = false → Forall (λ x, no_start uid (sv_event x) (sv_user x)) tr →
  is_live uid st = false ∧ ∀ x t, In x tr → ¬ In (ToUser uid t) (sv_outs x).
Proof.
  induction 1 as [|tr st fails e who outs st' _ IH Hs]; [by split; [|intros ? ? []]|].
  intros H0 [Htr Hx]%list.Forall_app. apply list.Forall_cons in Hx as [Hx _]. destruct (IH H0 Htr) as [Hl Ho].
  destruct (step_away _ _ _ _ _ _ uid [] Hs Hl Hx) as [_ Hl']. split; [done|].
  intros x t [Hin|[<-|[]]]%in_app_iff; [by apply Ho|]. by eapply step_away.
Qed.

(** ** The queue *)

(** What waits for a user from another, in order. *)
Definition rows_between (recipient sender : nat) (d : Db) : list PendingMessage :=
  List.filter (λ q, waits_for recipient q && (q_sender_id q =? sender)%nat) (pending_messages d).

Lemma queue_rows recipient sender id payload d uid from :
  let d' := queue_pending_message recipient sender id payload d in
  (uid ≠ recipient ∨ from ≠ sender) → rows_between uid from d' = rows_between uid from d.
Proof.
  intros d' H. unfold rows_between, d', queue_pending_message.
  assert (List.filter (λ q, waits_for uid q && (q_sender_id q =? from)%nat)
    (pending_messages d ++ [mkQueued recipient sender id payload]) =
    List.filter (λ q, waits_for uid q && (q_sender_id q =? from)%nat) (pending_messages d)) as E.
  { rewrite List.filter_app. cbn. unfold waits_for. cbn. destruct H as [H|H].
    - rewrite (proj2 (Nat.eqb_neq recipient uid)) by done. cbn. apply app_nil_r.
    - rewrite (proj2 (Nat.eqb_neq sender from)) by done. rewrite andb_false_r. apply app_nil_r. }
  destruct id as [id|]; [destruct (existsb _ _)|]; done.
Qed.

Lemma filter_filter_neg {A} (f g : A → bool) l :
  (∀ x, f x = true → g x = true) → List.filter f (List.filter g l) = List.filter f l.
Proof.
  intros H. induction l as [|x l IH]; [done|]. cbn. destruct (g x) eqn:Eg; cbn.
  - by rewrite IH.
  - destruct (f x) eqn:Ef; [|done]. by rewrite (H x Ef) in Eg.
Qed.

Lemma outcome_queue fails now user text st outs st' :
  outcome fails now user text st outs st' → pending_messages (db st') = pending_messages (db st).
Proof.
  destruct 1 as [| |? ?|w target r d _ _ _ H|id r d outs _ H _|id r d H|id target d H d'|]; try done.
  - by apply create_request_spec in H as (_ & _ & _ & _ & _ & _ & H).
  - by apply answer_request_spec in H as (_ & _ & _ & _ & H).
  - by apply answer_request_spec in H as (_ & _ & _ & _ & H).
  - apply create_block_spec in H as (_ & _ & H & _). unfold d'. by destruct (fails ClearPending).
Qed.

(** Only the sender adds to it, and only a start of the recipient's takes from it. *)
Definition leaves_rows (recipient sender : nat) (e : server_event) (who : option User) : Prop :=
  match e, who with
  | Opens _, Some u => u_id u ≠ recipient
  | Says _ _ _, Some u => u_id u ≠ sender
  | _, _ => True
  end.

Lemma step_rows fails e st who outs st' uid from :
  server_step fails e st = Some (who, (outs, st')) → leaves_rows uid from e who →
  rows_between uid from (db st') = rows_between uid from (db st).
Proof.
  intros Hs%step_stepped Hn. destruct Hs as [|sid text user outs st' Es Em _ H|sid user outs st' Em H
    |sid now text user outs st' Es H|sid user Es|sid user outs st' Em H]; cbn in Hn.
  - done.
  - by injection H as _ <-.
  - unfold open_session, attempt in H. cbn in H.
    destruct (fails DrainPending); injection H as _ <-; [done|].
    unfold rows_between. cbn. apply filter_filter_neg. intros q [Hq _]%andb_true_iff.
    unfold waits_for in *. apply Nat.eqb_eq in Hq. apply negb_true_iff, Nat.eqb_neq. congruence.
  - destruct (receive_outcome _ _ _ _ _ _ _ H) as [Ho|Ho].
    + unfold rows_between. by rewrite (outcome_queue _ _ _ _ _ _ _ Ho).
    + destruct Ho as [recipient p t _ outs]. unfold outs. cbn. destruct (is_live recipient st); [done|].
      unfold attempt. destruct (fails QueuePending); [done|]. cbn. apply queue_rows. by right.
  - by rewrite end_session_db.
  - by injection H as _ <-.
Qed.

(** ** Properties *)

(** C9: Nobody becomes a contact without having agreed. In every run of the server
    from a state without contact requests, whatever is said on the sockets and
    whatever fails: if two users are contacts in the end, the one has asked for the
    other by Winkd ID, and after that the other has accepted this request on an
    authenticated socket. *)
Theorem contacts_have_agreed st0 tr st r :
  server_runs st0 tr st → contact_requests (db st0) = [] →
  In r (contact_requests (db st)) → cr_status r = StAccepted →
  ∃ tr1 x tr2 y tr3, tr = tr1 ++ x :: tr2 ++ y :: tr3 ∧
    said_by (cr_from_id r) (λ text, ∃ w, asks_for text w ∧ id_of w (db st0) = Some (cr_to_id r)) x ∧
    said_by (cr_to_id r) (λ text, accepts_request text (cr_id r)) y.
Proof. intros Hr H0 Hin Ha. by apply (history_runs _ _ _ Hr H0 r Hin). Qed.


(** C13: The live sessions are sockets of their users. In every run of the server from
    its start, with the two steps of each session's start and end interleaved in any
    way: the session that a user's messages go to is a socket that was
    authenticated for the user and has not ended, and a socket that ends after
    the user has connected anew ends silently, without touching the new session. The
    presence store knows exactly the users with a live session (once no socket of
    the user is in between) as long as users connect again only when the socket
    before is gone; but a user who reconnects between the two steps of a socket's end
    is left with a live session and without presence. *)
Theorem live_sessions_sound st0 tr st :
  server_runs st0 tr st → silent st0 →
  (∀ uid sid, clients st !! uid = Some sid →
    ∃ user, u_id user = uid ∧ (sockets st !! sid = Some user ∨ moving st !! sid = Some (Opening, user))) ∧
  (∀ fails sid user, sockets st !! sid = Some user → clients st !! u_id user ≠ Some sid →
    ∃ st', server_step fails (Ends sid) st = Some (Some user, ([], st')) ∧
      clients st' = clients st ∧ presence st' = presence st ∧ moving st' = moving st) ∧
  (one_socket_runs st0 tr st → ∀ uid, (∀ sid m user, moving st !! sid = Some (m, user) → u_id user ≠ uid) →
    is_Some (presence st !! uid) ↔ is_Some (clients st !! uid)) ∧
  (∀ fails sid sid' text user user', sockets st !! sid = Some user → clients st !! u_id user = Some sid →
    sockets st !! sid' = None → moving st !! sid' = None →
    authenticate fails text st = Some user' → u_id user' = u_id user →
    ∃ tr' st', server_runs st (map (λ e, mkServed fails e.1 (Some e.2.1) e.2.2) tr') st' ∧
      map fst tr' = [Ends sid; Authenticates sid' text; Opens sid'; Leaves sid] ∧
      clients st' !! u_id user = Some sid' ∧ sockets st' !! sid' = Some user' ∧ presence st' !! u_id user = None).
Proof.
  intros Hr Hsil. pose proof (silent_tidy st0 Hsil) as Htidy. destruct Hsil as (Hc0 & _).
  destruct (runs_clients _ _ _ Hr) as [Ha Hc]; [split; [apply Htidy|intros uid sid; by rewrite Hc0]|].
  split_and!.
  - intros uid sid H. destruct (Hc uid sid H) as ([[]|] & u & Ht & E & Hm); [| |]; exists u; cbn in Ht; auto. done.
  - intros fails sid user Hs Hne. cbn. rewrite Hs. cbn. eexists. split; [done|]. unfold end_session.
    by rewrite bool_decide_false.
  - intros H1%one_socket_tidy uid Hm; [|done]. destruct (clients st !! uid) as [sid|] eqn:E.
    + destruct (Hc uid sid E) as ([m|] & u & Ht & <- & _); cbn in Ht; [by destruct (Hm _ _ _ Ht)|].
      destruct (td_task _ H1 sid None u Ht) as [_ ->]. split; [by eexists|done].
    + split; [|by intros []]. intros [p Hp]. exfalso.
      assert (∀ sid m u, task st sid m u → u_id u ≠ uid) as Hno.
      { intros sid [m|] u Ht <-; [by eapply Hm|]. destruct (td_task _ H1 _ _ _ Ht) as [Hc' _].
        rewrite decide_False in Hc' by done. congruence. }
      destruct (td_none _ H1 uid) as [_ H]; [|congruence]. intros (sid & m & u & Ht & Hu). by eapply Hno.
  - intros fails sid sid' text user user' Hs Hl Hs' Hm' Hauth Hid.
    by eapply reconnect_race.
Qed.

(** C22: The older of two tabs goes deaf. A user with two open sockets has its messages
    sent to the newer one; when that one ends, the user counts as away although the
    older socket stays open, and until another socket is authenticated nothing at
    all is sent to it on behalf of others, whatever happens. *)
Theorem older_tab_goes_deaf st sid sid' user user' fails :
  sockets st !! sid = Some user → sockets st !! sid' = Some user' → u_id user' = u_id user → sid ≠ sid' →
  clients st !! u_id user = Some sid' →
  ∃ outs st', server_step fails (Ends sid') st = Some (Some user', (outs, st')) ∧
    sockets st' !! sid = Some user ∧ is_live (u_id user) st' = false ∧
    ∀ tr st2, server_runs st' tr st2 → Forall (λ x, no_start (u_id user) (sv_event x) (sv_user x)) tr →
      ∀ x t, In x tr → ¬ In (ToUser (u_id user) t) (sv_outs x).
Proof.
  intros Hs Hs' Hu Hne Hc. cbn. rewrite Hs'. cbn. unfold end_session. rewrite Hu, bool_decide_true by done.
  do 2 eexists. split; [done|]. cbn. rewrite lookup_delete_ne by congruence.
  assert (∀ d p c m, is_live (u_id user) (mkServer d p (delete (u_id user) (clients st)) c m) = false) as Hl.
  { intros. unfold is_live. cbn. apply bool_decide_eq_false. rewrite lookup_delete_eq. by intros []. }
  split; [done|]. split; [apply Hl|]. intros tr st2 Hr Hn. by apply (runs_away _ _ _ _ Hr (Hl _ _ _ _) Hn).
Qed.

End runs.
