(* ===== verification/AppMarkup.v ===== *)
(** * The whole page

    The markup of apps/web/src/App.tsx, pages/BuddyListPage.tsx and
    components/AppErrorBoundary.tsx: the screen of Page.v as one tree, whose actions
    are those of its components. *)

From S2P Require Import Prelude JsString Json Platform Types AuthStore Socket Roster Page Html Chrome Login.
From S2P Require Import LoginView SidebarMarkup ChatMarkup.

Inductive AppAction :=
  | ALogin (e : Login.event)
  | ASidebar (a : SidebarAction)
  | AChat (a : ChatAction).

Abbreviation node := (html Empty_set AppAction) (only parsing).

Section app.
Context {doubles : Doubles}.
Context (upper : Z → jsstr) (lower : jsstr → jsstr) (format_double : jsstr → jsstr).
Context (API_URL : jsstr) (fmtDate shortDate : jsstr → jsstr)
        (VITE_BMAC_MEMBERSHIP_URL VITE_BMAC_PLUS_URL : option jsstr).

(** The own states of the components, and where the pointer is. *)
Record Locals := mkLocals {
  lo_providers : list jsstr;
  lo_form : Form;
  lo_edited : bool;
  lo_sidebar : SidebarState;
  lo_chat : ChatLocal;
  lo_hovered : ItemView → bool;
  lo_over : option nat;
}.

Definition BuddyListPage (o : Locals) (sess : Session) (sv : SidebarView) (cv : option ChatView) : node :=
  Element "div" []
    [AeroWindow (js "Winkd Messenger") (Some (js "https://i.imgur.com/cg6eejI.png"))
       [html_map ASidebar
          (SidebarMarkup.Sidebar fmtDate shortDate VITE_BMAC_MEMBERSHIP_URL VITE_BMAC_PLUS_URL
             (lo_hovered o) sess (lo_sidebar o) sv);
        html_map AChat (ChatMarkup.ChatWindow (lo_over o) sess (lo_chat o) cv)]].

Definition error_screen : node :=
  Element "div" []
    [Element "div" []
       [Element "h1" [] [text "Winkd failed to load"];
        Element "p" []
          [text "Something crashed while rendering. Please refresh the page. If the issue keeps happening, open DevTools and share the first red error in the Console."]]].

(** The tree of a screen; the buddy list is shown for a session. *)
Definition screen_element (o : Locals) (s : Stores) (v : screen) : node :=
  match v, session (authStore s) with
  | BuddyScreen sv cv, Some (_, sess) => BuddyListPage o sess sv cv
  | LoginScreen, _ => html_map ALogin (LoginPage API_URL (lo_providers o) (lo_edited o) (lo_form o))
  | _, _ => error_screen
  end.

(** One render below the boundary: its [hasError], and the page. *)
Definition render_page (hasError : bool) (o : Locals) (s : Stores) : bool * node :=
  let '(e, v) := AppErrorBoundary upper lower format_double hasError (local (lo_sidebar o)) s in
  (e, screen_element o s v).

End app.
