(* ===== verification/Relay.v ===== *)
(** * From one screen to another

    The composition of the rendered chat window (ChatRuns), the server's relay
    (Server), the socket hook (Socket) and the page (Page): what one user writes in
    a run of the window, and what the other one sees. *)

From S2P Require Import Prelude JsString Utf Encoding Json Platform Types AuthStore ChatStore ContactsStore.
From S2P Require Import Emoji Bubble Roster Socket Sidebar ChatWindow Page Html ChatMarkup ChatRuns Serde Limits.
From S2P Require Import Database Server.

(** ** Messages as payloads *)

Definition message_payload (m : Message) : json := nullish JNull (json_get (js "payload") (send_message_json m)).

(** What the relay changes in a payload, for the recipient ([forwarded_payload]) and
    for the sender ([sender_payload]). *)
Definition readdress (conversation sender : jsstr) (delivered : bool) (payload : json) : json :=
  set_member (js "delivered") (JBool delivered)
    (set_member (js "senderId") (JStr sender) (set_member (js "conversationId") (JStr conversation) payload)).

Definition readdressed (conversation sender : jsstr) (delivered : bool) (m : Message) : Message :=
  mkMessage (m_id m) conversation sender (m_type m) (m_sentAt m) delivered (m_read m)
    (m_body m) (m_mediaData m) (m_mediaUrl m) (m_mediaName m) (m_mediaMime m) (m_mediaSize m)
    (m_packId m) (m_animationId m).

Definition relay_member (conversation sender : jsstr) (delivered : bool) (k : jsstr) (v : json) : json :=
  if decide (k = js "conversationId") then JStr conversation
  else if decide (k = js "senderId") then JStr sender
  else if decide (k = js "delivered") then JBool delivered else v.

Lemma payload_object m : ∃ l, message_payload m = JObj l.
Proof. by eexists. Qed.

Lemma json_get_payload m :
  json_get (js "payload") (send_message_json m) = Some (message_payload m).
Proof. done. Qed.

Lemma payload_fields m :
  json_get (js "conversationId") (message_payload m) = Some (JStr (m_conversationId m)) ∧
  json_get (js "id") (message_payload m) = Some (JStr (m_id m)).
Proof.
  destruct m as [mid conv sender type sent dl r body md mu mn mm ms p an]. by destruct body, md, mn, mm, ms.
Qed.

Lemma payload_flat m : (∀ v, m_mediaSize m = Val v → ∃ n, v = JNum n) → flat (message_payload m) = true.
Proof.
  destruct m as [mid conv sender type sent dl r body md mu mn mm ms p an]. cbn [m_mediaSize]. intros H.
  assert (ms = Absent ∨ ms = Undef ∨ ∃ n, ms = Val (JNum n)) as Hms.
  { destruct ms as [| |v]; auto. destruct (H v eq_refl) as [n ->]. eauto. }
  destruct Hms as [->|[->|[n ->]]], body, md, mn, mm; reflexivity.
Qed.

(** The members of the message the server passes on. *)
Lemma readdressed_members b a d m k :
  json_get k (message_payload (readdressed b a d m)) = relay_member b a d k <$> json_get k (message_payload m).
Proof.
  assert (∃ l, message_payload m = JObj l ∧
    message_payload (readdressed b a d m) = JObj (map (λ kv, (kv.1, relay_member b a d kv.1 kv.2)) l)) as (l & -> & ->).
  { destruct m as [mid conv sender type sent dl r body md mu mn mm ms p an].
    destruct body, md, mn, mm, ms; eexists; split; reflexivity. }
  apply json_get_map.
Qed.

Lemma readdress_get b a d m k :
  json_get k (readdress b a d (message_payload m)) = json_get k (message_payload (readdressed b a d m)).
Proof.
  rewrite readdressed_members. unfold readdress.
  rewrite !json_get_set by (repeat apply set_member_object; apply payload_object). unfold relay_member.
  assert (∀ x, In x [js "conversationId"; js "senderId"; js "delivered"] → is_Some (json_get x (message_payload m))) as H.
  { destruct m as [mid conv sender type sent dl r body md mu mn mm ms p an].
    destruct body, md, mn, mm, ms; intros x [<-|[<-|[<-|[]]]]; eexists; reflexivity. }
  destruct (decide (js "delivered" = k)) as [<-|H1].
  { by destruct (H (js "delivered")) as [v ->]; [by do 2 right; left|]. }
  destruct (decide (js "senderId" = k)) as [<-|H2].
  { by destruct (H (js "senderId")) as [v ->]; [by right; left|]. }
  destruct (decide (js "conversationId" = k)) as [<-|H3].
  { by destruct (H (js "conversationId")) as [v ->]; [by left|]. }
  destruct (json_get k (message_payload m)); cbn; [|done]. by rewrite !decide_False by congruence.
Qed.

Section relay.
Context {doubles : Doubles} {serde : Serde} {serde_laws : SerdeLaws} {backend : Backend}.

(** A message is read from its members. *)
Lemma message_of_ext now v w :
  (∃ l, v = JObj l) → (∃ l, w = JObj l) → (∀ k, json_get k v = json_get k w) →
  message_of now (Some v) = message_of now (Some w).
Proof. intros [l ->] [l' ->] H. unfold message_of, field2, typed2. by rewrite !H. Qed.

(** What the server's text for a message is to the client. *)
Lemma event_text_read now m payload :
  plain payload = true → (∃ l, payload = JObj l) → (∀ v, m_mediaSize m = Val v → ∃ n, v = JNum n) →
  (∀ k, json_get k payload = json_get k (message_payload m)) →
  ∃ v, parse_json (to_string (event_frame (js "message") payload)) = Ok v ∧ (∃ l, v = JObj l) ∧
    json_get (js "event") v = Some (JStr (js "message")) ∧
    message_of now (json_get (js "payload") v) = Ok (relayed m).
Proof.
  intros Hp Ho Hn Hk. assert (plain (event_frame (js "message") payload) = true) as Hpl by (cbn; by rewrite Hp).
  destruct (law_to_string _ Hpl) as (v & Hv & Ha). exists v. split; [done|].
  split; [apply (alike_object (event_frame (js "message") payload) v); [by eexists|done]|].
  pose proof (alike_get (js "event") _ v Ha) as He. pose proof (alike_get (js "payload") _ v Ha) as Hq.
  change (json_get (js "event") (event_frame (js "message") payload)) with (Some (JStr (js "message"))) in He.
  change (json_get (js "payload") (event_frame (js "message") payload)) with (Some payload) in Hq.
  cbn beta iota in He, Hq. destruct He as (e & -> & Hae). rewrite (alike_scalar (JStr _) e eq_refl Hae). split; [done|].
  destruct Hq as (q & -> & Haq). rewrite <-(message_of_sent now m Hn), json_get_payload.
  apply message_of_ext; [by apply (alike_object _ _ Ho)|apply payload_object|].
  intros k. pose proof (alike_get k payload q Haq) as H. rewrite Hk in H.
  destruct (json_get k (message_payload m)) as [x|] eqn:E; [|done]. destruct H as (y & -> & Hy). f_equal.
  apply alike_scalar; [|done]. pose proof (payload_flat m Hn) as Hf. destruct (payload_object m) as [l El].
  rewrite El in E, Hf. cbn in Hf. rewrite forallb_forall in Hf. by specialize (Hf _ (json_get_In _ _ _ E)).
Qed.

(** ** The relay of one message *)

(** The recipient exists, neither has blocked the other, and there is a live session. *)
Record reaches (user : User) (b : jsstr) (uid : nat) : Prop := {
  rc_user : find_recipient b = DbOk (Some uid);
  rc_open : blocked_between (u_id user) uid = DbOk false;
  rc_live : live_session uid = true;
  rc_name : plain (JStr (u_winkd_id user)) = true;
}.

Definition within_limits (user : User) (m : Message) : Prop :=
  validate_send_payload (message_payload m) (limits_for (effective_tier user)) = None.

(** The texts for one user among the outputs. *)
Definition texts_for (uid : nat) (outs : list server_out) : list jsstr :=
  omap (λ o, match o with ToUser u t => if decide (u = uid) then Some t else None | _ => None end) outs.

(** What a message's payload becomes. *)
Lemma readdressed_payload b a d m payload' :
  plain (JStr b) = true → plain (JStr a) = true → (∀ v, m_mediaSize m = Val v → ∃ n, v = JNum n) →
  alike (message_payload m) payload' → plain payload' = true →
  let p := readdress b a d payload' in
  plain p = true ∧ (∃ l, p = JObj l) ∧ ∀ k, json_get k p = json_get k (message_payload (readdressed b a d m)).
Proof.
  intros Hb Ha Hn Hal Hp p. pose proof (alike_object _ _ (payload_object m) Hal) as Ho. split; [|split].
  - unfold p, readdress. repeat apply plain_set; done.
  - unfold p, readdress. by repeat apply set_member_object.
  - intros k. rewrite <-readdress_get. unfold p, readdress.
    rewrite !json_get_set by (repeat apply set_member_object; first [done|apply payload_object]).
    by rewrite (alike_flat k _ _ (payload_flat m Hn) Hal).
Qed.

(** A text that is read as the message. *)
Definition reads_as (m : Message) (t : jsstr) : Prop :=
  ∀ now, ∃ v, parse_json t = Ok v ∧ (∃ l, v = JObj l) ∧ json_get (js "event") v = Some (JStr (js "message")) ∧
    message_of now (json_get (js "payload") v) = Ok (relayed m).

Lemma send_message_in : In (js "send_message") message_commands.
Proof. by left. Qed.

(** The relay of a message that is not refused: to the recipient, and back. *)
Lemma relay_outputs user m uid :
  let b := m_conversationId m in let a := u_winkd_id user in
  find_recipient b = DbOk (Some uid) → blocked_between (u_id user) uid = DbOk false →
  within_limits user m → plain (JStr a) = true →
  plain (send_message_json m) = true → (∀ v, m_mediaSize m = Val v → ∃ n, v = JNum n) →
  ∃ p t t', handle_text user (stringify (send_message_json m)) =
      Some [if live_session uid then ToUser uid t else Queued uid p; ToSender t'] ∧
    t = to_string (event_frame (js "message") p) ∧ json_get (js "id") p = Some (JStr (m_id m)) ∧
    reads_as (forwarded a m) t ∧ reads_as (readdressed b a (live_session uid) m) t'.
Proof.
  intros b a Hf Hb Hlim Hu Hp Hn.
  destruct (handle_text_message user (js "send_message") (message_payload m) Hp send_message_in) as (payload' & Ha & Hpl & Ht).
  change (JObj _) with (send_message_json m) in Ht.
  pose proof (plain_member (js "payload") _ _ Hp (json_get_payload m)) as Hpm.
  pose proof (plain_member _ _ _ Hpm (proj1 (payload_fields m))) as Hpb.
  assert (recipient_of payload' = Some b) as Hr
    by (rewrite (recipient_alike _ _ Ha); unfold recipient_of; cbn [get_any]; by rewrite (proj1 (payload_fields m))).
  unfold send_message in Ht. rewrite (validate_alike _ _ _ Ha) in Ht. unfold within_limits in Hlim.
  rewrite Hlim, Hr, Hf, Hb in Ht. cbv zeta in Ht. rewrite Ht.
  destruct (readdressed_payload a a true m payload' Hu Hu Hn Ha Hpl) as (Hq & Hqo & Hqk).
  eexists _, _, _. split; [reflexivity|]. split; [reflexivity|]. split; [exact (eq_trans (Hqk _) (proj2 (payload_fields _)))|].
  split; intros now; [by apply (event_text_read now (forwarded a m))|]. clear Hq Hqo Hqk.
  destruct (readdressed_payload b a (live_session uid) m payload' Hpb Hu Hn Ha Hpl) as (Hq & Hqo & Hqk).
  by apply (event_text_read now (readdressed b a (live_session uid) m)).
Qed.

Lemma relay_one user m b uid :
  reaches user b uid → m_conversationId m = b → within_limits user m →
  plain (send_message_json m) = true → (∀ v, m_mediaSize m = Val v → ∃ n, v = JNum n) →
  ∃ outs t, handle_text user (stringify (send_message_json m)) = Some outs ∧ texts_for uid outs = [t] ∧
    reads_as (forwarded (u_winkd_id user) m) t.
Proof.
  intros [Hf Hb Hl Hu] <- Hlim Hp Hn. destruct (relay_outputs user m uid Hf Hb Hlim Hu Hp Hn) as (p & t & t' & Ho & _ & _ & Hread & _).
  rewrite Hl in Ho. eexists _, t. split; [exact Ho|]. split; [cbn; by rewrite decide_True|done].
Qed.

(** ** The frames of a run *)

Definition goes_to (b : jsstr) (f : json) : bool :=
  is_string (js "send_message") (json_get (js "command") f) &&
  is_string b (json_get (js "payload") f ≫= json_get (js "conversationId")).

Definition frame_id (f : json) : jsstr :=
  default [] ((json_get (js "payload") f ≫= json_get (js "id")) ≫= as_str).

Definition frames (tr : list (Stores * json * ChatState)) : list json := map (λ x, x.1.2) tr.

(** What the server passes on to a user for a frame. *)
Definition server_texts (user : User) (uid : nat) (f : json) : list jsstr :=
  match handle_text user (stringify f) with Some outs => texts_for uid outs | None => [] end.

Definition sendable (m : Message) : Prop := has_body m ∧ ∀ v, m_mediaSize m = Val v → ∃ n, v = JNum n.

Lemma goes_to_message b m : goes_to b (send_message_json m) = bool_decide (m_conversationId m = b).
Proof.
  unfold goes_to. rewrite json_get_payload. cbn [option_bind mbind]. rewrite (proj1 (payload_fields m)).
  change (is_string (js "send_message") _) with true. cbn [andb]. apply eq_true_iff_eq.
  rewrite is_string_true, bool_decide_eq_true. naive_solver.
Qed.

(** The window sends messages, with what their bubbles need. *)
Lemma sent_messages b tr :
  Forall (λ x, sent_ok x.1.1 x.1.2 x.2) tr →
  ∃ ms, List.filter (goes_to b) (frames tr) = map send_message_json ms ∧
    Forall (λ m, m_conversationId m = b ∧ sendable m) ms.
Proof.
  induction 1 as [|[[s f] s'] tr Hx _ (ms & Hms & Hok)]; [by exists []|]. cbn [frames map fst snd List.filter] in *.
  assert ((∃ m, f = send_message_json m ∧ sendable m) ∨ goes_to b f = false) as [(m & -> & Hm)|Hf].
  { destruct Hx as [conv id now me body -> _ _ _|conv id now me type -> Ht _ _|conv id now me file data body m -> _ _ _
      |contact -> _ _].
    - left. eexists. split; [done|]. split; [by eexists|done].
    - left. eexists. split; [done|]. split; [|done]. unfold has_body. cbn. intros ->. set_solver.
    - left. eexists. split; [done|]. split; [by eexists|]. intros v [= <-]. by eexists.
    - right. done. }
  - rewrite goes_to_message. unfold frames in Hms. case_bool_decide as E; [|by exists ms].
    exists (m :: ms). rewrite Hms. split; [done|]. by constructor.
  - rewrite Hf. by exists ms.
Qed.

(** ** The other user *)

(** The texts arrive in order on confirmed sockets; in between, anything else may
    happen that leaves the conversation [a] alone. *)
Inductive arrives (a : jsstr) : list jsstr → Stores → Stores → Prop :=
  | arrives_none s : arrives a [] s s
  | arrives_text now k t ts s s' :
      k_authenticated k = true → arrives a ts (onmessage t now k s).2 s' → arrives a (t :: ts) s s'
  | arrives_other ts s s1 s' :
      messages_of a (chatStore s1) = messages_of a (chatStore s) →
      (showable s → showable s1) → (chat_ok (chatStore s) → chat_ok (chatStore s1)) →
      arrives a ts s1 s' → arrives a ts s s'.

Lemma arrives_messages a ts s s' :
  arrives a ts s s' → ∀ ms,
  Forall2 reads_as ms ts → Forall (λ m, m_conversationId m = a ∧ m_senderId m = a ∧ has_body (relayed m)) ms →
  a ≠ [] → Forall (λ m, m_id m ≠ [] ∧ m_id m ∉ ids (messages_of a (chatStore s))) ms → NoDup (ids ms) →
  showable s → chat_ok (chatStore s) →
  showable s' ∧ chat_ok (chatStore s') ∧
  messages_of a (chatStore s') = messages_of a (chatStore s) ++ map relayed ms.
Proof.
  induction 1 as [s|now k t ts s s' Hk _ IH|ts s s1 s' Hsame H1 H2 _ IH]; intros ms Hr Hms Ha Hid Hnd Hs Hc.
  - apply Forall2_nil_inv_r in Hr as ->. by rewrite app_nil_r.
  - apply Forall2_cons_inv_r in Hr as (m & ms' & Hm & Hr & ->).
    apply list.Forall_cons in Hms as [(Hconv & Hsend & Hb) Hms]. apply list.Forall_cons in Hid as [[Hm0 Hnew] Hid].
    cbn [map] in Hnd. apply list.NoDup_cons in Hnd as [Hni Hnd].
    destruct (Hm now) as (v & Hv & Hvo & He & Hp).
    rewrite (onmessage_message t v now m k s Hv Hvo He Hp) in IH by (done || congruence). cbn [snd] in IH.
    set (s1 := if decide _ then _ else _) in IH.
    destruct (received_store (relayed m) _ s s1 _ eq_refl) as (E1 & _ & _ & Hs1).
    assert (messages_of a (chatStore s1) = messages_of a (chatStore s) ++ [relayed m]) as Emsgs.
    { rewrite E1, messages_of_receive, decide_True by (by rewrite <-Hconv). by apply merge_message_new. }
    destruct (IH ms' Hr Hms Ha) as (? & ? & E); [|done|by apply Hs1| |].
    + rewrite Emsgs, map_app. rewrite List.Forall_forall in Hid |- *. intros x Hx. destruct (Hid x Hx) as [H1 H2].
      split; [done|]. intros [?|Heq%list_elem_of_singleton]%elem_of_app; [done|].
      apply Hni. change (m_id x = m_id m) in Heq. rewrite <-Heq. by apply list_elem_of_fmap_2, list_elem_of_In.
    + rewrite E1. apply receive_ok; [|done]. left. cbn. congruence.
    + split_and!; [done..|]. rewrite E, Emsgs, <-(assoc_L (++)). done.
  - rewrite <-Hsame in Hid |- *. apply IH; auto.
Qed.

(** ** The server in between *)

Lemma forwarded_sendable a m : sendable m → has_body (relayed (forwarded a m)).
Proof.
  intros [H _] Ht. destruct (H Ht) as [b Hb]. exists b. cbn. by destruct (m_body m).
Qed.

Lemma relay_all user b uid ms :
  reaches user b uid → Forall (λ m, m_conversationId m = b ∧ sendable m) ms →
  Forall (λ m, within_limits user m ∧ plain (send_message_json m) = true) ms →
  Forall2 reads_as (map (forwarded (u_winkd_id user)) ms) (flat_map (server_texts user uid) (map send_message_json ms)).
Proof.
  intros Hr. induction 1 as [|m ms [Hb [_ Hn]] _ IH]; [constructor|]. intros [[Hl Hp] Hrest]%list.Forall_cons.
  destruct (relay_one user m b uid Hr Hb Hl Hp Hn) as (outs & t & Ho & Ht & Hread).
  cbn [map flat_map]. unfold server_texts at 1. rewrite Ho, Ht. by constructor; [|apply IH].
Qed.

Lemma forwarded_ids a ms : ids (map (forwarded a) ms) = ids ms.
Proof. by rewrite map_map. Qed.

Lemma frame_id_message m : frame_id (send_message_json m) = m_id m.
Proof. unfold frame_id. rewrite json_get_payload. cbn [option_bind mbind]. by rewrite (proj2 (payload_fields m)). Qed.

Lemma frame_ids ms : map frame_id (map send_message_json ms) = ids ms.
Proof. rewrite map_map. apply map_ext, frame_id_message. Qed.

(** ** The screen *)

Lemma mapM_app_Ok {A B} (f : A → result B) l l' ys :
  mapM f (l ++ l') = Ok ys → ∃ ys1 ys2, ys = ys1 ++ ys2 ∧ Forall2 (λ x y, f x = Ok y) l' ys2.
Proof.
  revert ys. induction l as [|x l IH]; intros ys; cbn [app].
  - intros H. exists [], ys. split; [done|]. revert ys H. induction l' as [|x l' IH]; intros ys; [by intros [= <-]; constructor|].
    intros (y & ys' & Hy & Hys & ->)%mapM_ok_cons. constructor; auto.
  - intros (y & ys' & _ & Hys & ->)%mapM_ok_cons. destruct (IH ys' Hys) as (ys1 & ys2 & -> & H2).
    by exists (y :: ys1), ys2.
Qed.

Section screens.
Context (upper : Z → jsstr) (lower : jsstr → jsstr) (format_double : jsstr → jsstr).

(** A click on a contact shows the bubbles of the conversation with it. *)
Lemma click_bubbles a s i sess c :
  (∀ u, Forall (λ v, 0 ≤ v) (upper u)) → showable s → chat_ok (chatStore s) →
  session (authStore s) = Some (i, sess) → a ≠ [] →
  In c (contacts (contactsStore s)) → sc_id c = Some (JStr a) →
  let '(chat', contacts') := handleContactClick a (chatStore s) (contactsStore s) in
  ∃ view, Page.ChatWindow upper format_double (mkStores (authStore s) chat' contacts') = Ok (Some view) ∧
    mapM (λ m, MessageBubble format_double m (bool_decide (m_senderId m = winkdId (own_profile (profile sess)))))
      (messages_of a (chatStore s)) = Ok (cw_bubbles view).
Proof.
  intros Hu Hs Hc Hsess Ha Hin Hi.
  pose proof (click_shows a c s Hc Ha Hin Hi) as Hclick. pose proof (open_showable a _ Hc (sh_chat _ Hs)) as Ho.
  pose proof (sh_contacts _ (showable_contacts (ClearUnread a) s I Hs)) as Hcs.
  unfold handleContactClick in *. destruct Hclick as (conv & c' & H1 & H2 & H3 & _ & _).
  set (s2 := mkStores _ _ _). destruct (ChatWindow_total upper format_double Hu s2 Ho Hcs) as [v Hv].
  pose proof Hv as Hb. unfold Page.ChatWindow in Hb. cbn [chatStore authStore contactsStore s2] in Hb.
  rewrite H1, H2 in Hb. cbn [mbind result_bind option_bind] in Hb. rewrite H3, Hsess in Hb. cbv zeta in Hb.
  apply bind_Ok in Hb as (? & _ & (? & _ & (bubbles & Hbs & (? & _ & (? & _ & [= E])%bind_Ok)%bind_Ok)%bind_Ok)%bind_Ok).
  rewrite <-E in Hv. eexists. split; [exact Hv|exact Hbs].
Qed.

(** The bubble of a text on the other side. *)
Lemma text_bubble m bub body :
  m_type m = js "text" → m_body m = Val body →
  MessageBubble format_double (relayed m) false = Ok bub →
  ∃ parts media, bub = Some (TextBubble false parts media) ∧ concat (map source parts) = body.
Proof.
  intros Ht Hb. unfold MessageBubble. cbn [m_type relayed m_body]. rewrite Ht, Hb.
  rewrite !decide_False by done. rewrite decide_True by done. cbn [prop_get prop_of_option].
  intros [= <-]. do 2 eexists. split; [done|]. apply body_parts_concat.
Qed.

(** ** Properties *)

(** C8: A conversation goes from one screen to the other, when nothing comes
    between. Take any run of one user's rendered chat window, and the messages it
    sends to another user, who exists, has a live session and is not blocked, nor
    blocks. Let their texts be plain and within the server's limits and their ids
    distinct and new; let the server's texts for them be handled in order by the
    other page while its socket is confirmed, with changes that leave the
    conversation alone in between; and let that page be signed in as somebody else
    and have the sender as a contact. Then its store holds exactly these messages, in
    order, after those it had, with the sender the server knows; and a click on the
    sender shows their bubbles, in which the texts stand completely. *)
Theorem conversation_arrives user b uid s0 tr sa ca s s' i sess c :
  chat_runs upper format_double s0 tr sa ca → reaches user b uid →
  let a := u_winkd_id user in
  let sent := List.filter (goes_to b) (frames tr) in
  (∀ u, Forall (λ v, 0 ≤ v) (upper u)) → a ≠ [] →
  Forall (λ f, plain f = true ∧
    ∀ p, json_get (js "payload") f = Some p → validate_send_payload p (limits_for (effective_tier user)) = None) sent →
  Forall (λ x, x ≠ [] ∧ x ∉ ids (messages_of a (chatStore s))) (map frame_id sent) → NoDup (map frame_id sent) →
  showable s → chat_ok (chatStore s) →
  arrives a (flat_map (server_texts user uid) sent) s s' →
  session (authStore s') = Some (i, sess) → winkdId (own_profile (profile sess)) ≠ a →
  In c (contacts (contactsStore s')) → sc_id c = Some (JStr a) →
  ∃ ms, sent = map send_message_json ms ∧
    messages_of a (chatStore s') = messages_of a (chatStore s) ++ map (λ m, relayed (forwarded a m)) ms ∧
    let '(chat', contacts') := handleContactClick a (chatStore s') (contactsStore s') in
    ∃ view before bubbles,
      Page.ChatWindow upper format_double (mkStores (authStore s') chat' contacts') = Ok (Some view) ∧
      cw_bubbles view = before ++ bubbles ∧
      Forall2 (λ m bub, ∀ body, m_type m = js "text" → m_body m = Val body →
        ∃ parts media, bub = Some (TextBubble false parts media) ∧ concat (map source parts) = body) ms bubbles.
Proof.
  intros Hrun Hreach a sent Hu Ha Hlim Hids Hnd Hs Hc Harr Hsess Hme Hin Hi.
  destruct (sent_messages b tr (proj1 (chat_runs_ok _ _ _ _ _ _ Hrun))) as (ms & Hms & Hok).
  fold sent in Hms. rewrite Hms in *. rewrite frame_ids in Hids, Hnd. exists ms. split; [done|].
  assert (Forall (λ m, within_limits user m ∧ plain (send_message_json m) = true) ms) as Hw.
  { rewrite List.Forall_forall in Hlim |- *. intros m Hm. destruct (Hlim _ (in_map send_message_json _ _ Hm)) as [Hp Hv].
    split; [|done]. by apply Hv. }
  pose proof (relay_all user b uid ms Hreach Hok Hw) as Hread.
  destruct (arrives_messages a _ s s' Harr _ Hread) as (Hs' & Hc' & Emsgs); try done.
  { rewrite List.Forall_forall in Hok |- *. intros x (m & <- & Hm)%in_map_iff. split_and!; [done..|].
    by apply forwarded_sendable, (Hok m Hm). }
  { rewrite List.Forall_forall in Hids |- *. intros x (m & <- & Hm)%in_map_iff. apply (Hids (m_id m)). by apply in_map. }
  { by rewrite forwarded_ids. }
  rewrite map_map in Emsgs. split; [done|].
  pose proof (click_bubbles a s' i sess c Hu Hs' Hc' Hsess Ha Hin Hi) as Hclick.
  destruct (handleContactClick a (chatStore s') (contactsStore s')) as [chat' contacts'].
  destruct Hclick as (view & Hview & Hb). rewrite Emsgs in Hb.
  destruct (mapM_app_Ok _ _ _ _ Hb) as (before & bubbles & Eb & Hbs). exists view, before, bubbles.
  split_and!; [done..|]. clear -Hbs Hme. remember (map _ ms) as rs eqn:E. revert ms E.
  induction Hbs as [|r bub rs bubbles Hr _ IH]; intros [|m ms] E; try done.
  injection E as Er Ers. constructor; [|by apply IH].
  intros body Ht Hbody. subst r. rewrite bool_decide_false in Hr by (intros E'; apply Hme; symmetry; exact E').
  by apply (text_bubble (forwarded a m)).
Qed.

End screens.


(** ** Refusals *)

Definition simple_text (s : jsstr) : Prop := Forall (λ c, 0 ≤ c < 55296) s.

Lemma simple_plain s : simple_text s → plain (JStr s) = true.
Proof.
  intros H. cbn. apply andb_true_iff. split.
  - apply js_ok_spec. eapply List.Forall_impl, H. cbv beta. intros c Hc. unfold is_unit. lia.
  - apply below_surrogates. eapply List.Forall_impl, H. cbv beta. intros c Hc. lia.
Qed.

Lemma simple_check s : forallb (λ c, (0 <=? c) && (c <? 55296)) s = true → simple_text s.
Proof. apply Forall_check. intros c H. zbool. lia. Qed.

Lemma simple_number n : simple_text (js_toString n).
Proof. eapply List.Forall_impl, js_toString_bytes. unfold is_byte. lia. Qed.

Lemma simple_too_long len max tier : simple_text (user_message (TextTooLong len max) tier).
Proof.
  unfold user_message. destruct (decide _); repeat (apply list.Forall_app; split);
    solve [apply simple_number|apply simple_check; vm_compute; reflexivity].
Qed.

(** The hook does nothing with an error of the server. *)
Lemma error_ignored message now k s :
  simple_text message → k_authenticated k = true →
  ∃ t, send_err message = ToSender t ∧ onmessage t now k s = (k, s).
Proof.
  intros Hm Hk. eexists. split; [done|].
  set (f := event_frame (js "error") (JObj [(js "message", JStr message)])).
  assert (plain f = true) as Hp by (pose proof (simple_plain _ Hm) as H; cbn in H |- *; by rewrite H).
  destruct (law_to_string f Hp) as (v & Hv & Ha).
  destruct (alike_object f v) as [l ->]; [by eexists|done|].
  pose proof (alike_get (js "event") f _ Ha) as He.
  change (json_get (js "event") f) with (Some (JStr (js "error"))) in He. cbn beta iota in He.
  destruct He as (e & He & Hae). rewrite (alike_scalar (JStr _) e eq_refl Hae) in He.
  unfold onmessage. rewrite Hv, Hk. cbn [mbind result_bind negb get_prop]. by rewrite He.
Qed.

(** C23: A text over the limit is lost without a word. The composer sends a text of
    any length and adds it to the conversation; when it has more characters than the
    user's tier allows, the server sends nothing to anybody but an error to the
    sender, which the socket hook ignores: the text stays in the conversation as if
    it had been sent. *)
Theorem refused_text_looks_sent user conv me id now w now' k s :
  let body := js_trim (inputValue w) in
  let m := text_message id now conv me body in
  let limits := limits_for (effective_tier user) in
  max_text_chars limits < chars_count body → plain (send_message_json m) = true → k_authenticated k = true →
  (handleSend conv me id now w).2 = [send_message_json m] ∧
  messages_of conv (chat (handleSend conv me id now w).1) = messages_of conv (chat w) ++ [m] ∧
  ∃ err, handle_text user (stringify (send_message_json m)) = Some [ToSender err] ∧
    onmessage err now' k s = (k, s).
Proof.
  intros body m limits Hlen Hp Hk. assert (body ≠ []) as Hne.
  { intros E. rewrite E in Hlen. unfold limits, limits_for, chars_count in Hlen. destruct (decide _); cbn in Hlen; lia. }
  unfold handleSend. fold body. rewrite decide_False by done. cbn [sendText fst snd chat]. split; [done|].
  split; [unfold append_message; by rewrite messages_of_put, decide_True|].
  destruct (handle_text_message user (js "send_message") (message_payload m) Hp send_message_in) as (payload' & Ha & _ & Ht).
  change (JObj _) with (send_message_json m) in Ht. rewrite Ht.
  assert (validate_send_payload (message_payload m) limits = Some (TextTooLong (chars_count body) (max_text_chars limits))) as Hv.
  { unfold validate_send_payload. change (get_any [js "body"] (message_payload m)) with (Some (JStr body)).
    cbn [mbind option_bind as_str]. unfold exceeds. by rewrite (proj2 (Z.ltb_lt _ _) Hlen). }
  unfold send_message. rewrite (validate_alike _ _ _ Ha). fold limits. rewrite Hv.
  destruct (error_ignored (user_message (TextTooLong (chars_count body) (max_text_chars limits)) (effective_tier user)) now' k s
    (simple_too_long _ _ _) Hk) as (t & -> & Ho). by exists t.
Qed.

End relay.

(** ** Attachments *)

(** [FileReader.readAsDataURL] *)
Definition data_url (mime : jsstr) (bytes : list Z) : jsstr :=
  js "data:" ++ mime ++ js ";base64," ++ b64_encode bytes.

Lemma b64_encode_length l : Z.of_nat (length (b64_encode l)) = 4 * ((Z.of_nat (length l) + 2) / 3).
Proof.
  induction l as [l IH] using (induction_ltof1 _ (@length Z)). unfold ltof in IH.
  destruct l as [|a [|b [|c l]]]; try done. cbn [b64_encode length]. rewrite !Nat2Z.inj_succ, IH by (cbn; lia). zlia.
Qed.

Lemma b64_encode_ascii l : Forall is_byte l → Forall (λ c, 0 ≤ c < 128) (b64_encode l).
Proof.
  intros H. assert (∀ v, 0 ≤ v < 64 → 0 ≤ b64_char v < 128) as Hc.
  { intros v Hv. unfold b64_char. repeat case_match; zbool; lia. }
  induction l as [l IH] using (induction_ltof1 _ (@length Z)). unfold ltof in IH.
  destruct l as [|a [|b [|c l]]]; decompose_Forall; unfold is_byte in *; cbn [b64_encode];
    repeat constructor; try lia; try (apply Hc; zlia). apply IH; [cbn; lia|done].
Qed.

Lemma after_comma_app p s : 44 ∉ p → after_comma (p ++ 44 :: s) = Some s.
Proof.
  induction p as [|c p IH]; [done|]. rewrite elem_of_cons. intros H. cbn.
  destruct (Z.eqb_spec c 44); [naive_solver|]. apply IH. naive_solver.
Qed.

Lemma str_len_ascii s : Forall (λ c, 0 ≤ c < 128) s → str_len s = Z.of_nat (length s).
Proof.
  intros H. unfold str_len, text_encode, scalar_values. f_equal.
  induction H as [|c s Hc _ IH]; [done|].
  assert (is_hi c = false ∧ is_lo c = false) as [Hh Hl] by (unfold is_hi, is_lo; split; lia).
  cbn [code_points]. rewrite Hh, Hl. cbn [map nullish]. unfold utf8 in *. cbn [map concat]. rewrite length_app, IH.
  unfold utf8_of. by rewrite (proj2 (Z.ltb_lt c 128)) by lia.
Qed.

(** C25: The two gates for attachments agree for a free user, to the byte. The window
    sends a picked file exactly when it has at most 3 MiB, and the server's estimate
    from the base64 text accepts exactly those files, whatever their type: nothing
    that passes the first gate is refused by the second. A paying user may send 10
    MiB by the server, and still only 3 by the window. *)
Theorem attachment_gates_agree mime bytes :
  44 ∉ mime → Forall is_byte bytes →
  let size := Z.of_nat (length bytes) in
  let estimate := approx_base64_decoded_len (data_url mime bytes) in
  (size ≤ estimate ≤ size + 2) ∧
  (size ≤ MAX_ATTACHMENT_BYTES ↔ estimate ≤ max_media_bytes FREE_LIMITS) ∧
  (size ≤ MAX_ATTACHMENT_BYTES → estimate ≤ max_media_bytes PLUS_LIMITS).
Proof.
  intros Hm Hb size estimate. assert (estimate = 3 * ((size + 2) / 3)) as E.
  { unfold estimate, approx_base64_decoded_len, data_url.
    replace (js "data:" ++ mime ++ js ";base64," ++ b64_encode bytes)
      with ((js "data:" ++ mime ++ js ";base64") ++ 44 :: b64_encode bytes) by (rewrite <-!(assoc_L (++)); reflexivity).
    rewrite after_comma_app.
    - change (default _ (Some (b64_encode bytes))) with (b64_encode bytes).
      rewrite str_len_ascii by (by apply b64_encode_ascii). rewrite b64_encode_length. fold size. zlia.
    - rewrite !elem_of_app. intros [H|[H|H]]; [|done|]; revert H; vm_compute; set_solver. }
  change MAX_ATTACHMENT_BYTES with 3145728. cbn [max_media_bytes FREE_LIMITS PLUS_LIMITS]. rewrite E. zlia.
Qed.
