(* ===== verification/Delivery.v ===== *)
(** * Between the server and its clients

    What the messaging server (Service) says to the socket hook (Socket), and what
    comes of it: messages for a user who is away, their receipts, contact requests,
    presence, and what a confirmed socket misses. *)

From S2P Require Import Prelude JsString Json Platform Types AuthStore ChatStore ContactsStore Socket Sidebar.
From S2P Require Import Page ChatRuns Serde Limits Database Server Service ServiceRuns Relay.

(** No query fails. *)
Definition no_faults : faults := λ _, false.

(** ** Reading an event *)

Section delivery.
Context {doubles : Doubles} {serde : Serde} {serde_laws : SerdeLaws} {uuids : Uuids} {uuid_laws : UuidLaws}.

Lemma plain_event event payload :
  plain (JStr event) = true → plain payload = true → plain (event_frame event payload) = true.
Proof. intros He Hp. cbn in He |- *. by rewrite He, Hp. Qed.

(** A confirmed socket handles the event with what the server wrote. *)
Lemma event_read event payload now k s :
  plain (JStr event) = true → plain payload = true → k_authenticated k = true →
  ∃ p, alike payload p ∧
    onmessage (event_text event payload) now k s =
      match handle_event k now (Some (JStr event)) (Some p) s with Ok s' => (k, s') | Throw _ => (k, s) end.
Proof.
  intros He Hp Hk. destruct (law_to_string _ (plain_event event payload He Hp)) as (v & Hv & Ha).
  destruct (alike_object (event_frame event payload) v) as [l ->]; [by eexists|done|].
  pose proof (alike_get (js "event") _ _ Ha) as H1. pose proof (alike_get (js "payload") _ _ Ha) as H2.
  change (json_get (js "event") (event_frame event payload)) with (Some (JStr event)) in H1.
  change (json_get (js "payload") (event_frame event payload)) with (Some payload) in H2.
  cbn beta iota in H1, H2. destruct H1 as (e & H1 & He'). destruct H2 as (p & H2 & Hp').
  rewrite (alike_scalar (JStr event) e eq_refl He') in H1. exists p. split; [done|].
  unfold onmessage, event_text. rewrite Hv, Hk. cbn [mbind result_bind negb get_prop]. rewrite H1, H2.
  by destruct (handle_event k now _ _ s).
Qed.

(** A member of an object of scalars. *)
Lemma get_flat key payload p : flat payload = true → alike payload p → get_prop key (Some p) = Ok (json_get key payload).
Proof.
  intros Hf Ha. destruct (alike_object payload p) as [l ->]; [destruct payload; try done; by eexists|done|].
  cbn [get_prop]. by rewrite (alike_flat key payload _ Hf Ha).
Qed.

Lemma opt_json_scalar o : scalar (opt_json o) = true.
Proof. by destruct o. Qed.

(** ** Receipts *)

Lemma mark_messages c id s :
  chat_ok s → ∃ s', markMessageDelivered c id s = Ok s' ∧
    ∀ j, messages_of j s' =
      if decide (j = c) then map (λ m, if decide (m_id m = id) then set_delivered m else m) (messages_of j s)
      else messages_of j s.
Proof.
  intros Hc. unfold markMessageDelivered. destruct (map_get c (conversations s)) as [conv|] eqn:E.
  - destruct (cv_messages conv) as [ms|] eqn:Em.
    + eexists. split; [done|]. intros j. rewrite messages_of_put. destruct (decide (j = c)) as [->|]; [|done].
      unfold messages_of. rewrite E. cbn. by rewrite Em.
    + destruct (co_messages _ _ (chat_conversations _ Hc c conv E)) as (ms & Hms & _). congruence.
  - eexists. split; [done|]. intros j. destruct (decide (j = c)) as [->|]; [|done].
    unfold messages_of. by rewrite E.
Qed.

Definition delivered_in (c id : jsstr) (s s' : Stores) : Prop :=
  (∀ j, messages_of j (chatStore s') =
     if decide (j = c) then map (λ m, if decide (m_id m = id) then set_delivered m else m) (messages_of j (chatStore s))
     else messages_of j (chatStore s)) ∧
  contactsStore s' = contactsStore s ∧ authStore s' = authStore s.

Lemma receipt_read c id now k s :
  plain (JStr c) = true → plain (JStr id) = true → c ≠ [] → id ≠ [] → k_authenticated k = true → chat_ok (chatStore s) →
  ∃ s', onmessage (event_text (js "delivery_receipt") (receipt_payload id c)) now k s = (k, s') ∧ delivered_in c id s s'.
Proof.
  intros Hc Hi Hc0 Hi0 Hk Hok.
  destruct (event_read (js "delivery_receipt") (receipt_payload id c) now k s) as (p & Ha & ->); [done| |done|].
  { cbn in Hc, Hi |- *. by rewrite Hc, Hi. }
  destruct (mark_messages c id _ Hok) as (ch & Hm & Hms).
  change (handle_event k now (Some (JStr (js "delivery_receipt"))) (Some p) s) with (handle_delivery_receipt (Some p) s).
  unfold handle_delivery_receipt. rewrite !(get_flat _ (receipt_payload id c) p) by done. cbn [mbind result_bind].
  change (json_get (js "message_id") (receipt_payload id c)) with (Some (JStr id)).
  change (json_get (js "conversation_id") (receipt_payload id c)) with (Some (JStr c)).
  assert (∀ x : jsstr, x ≠ [] → truthy (Some (JStr x)) = true) as Ht by (by intros []).
  rewrite !Ht by done. cbn [andb value_toString json_toString mbind result_bind string_value].
  rewrite Hm. eexists. split; [done|]. by split_and!.
Qed.

(** ** Presence *)

Definition known_ids (s : ContactsState) : Prop := Forall (λ c, ∃ w, sc_id c = Some (JStr w)) (contacts s).

(** The server writes [user_id], the hook reads [userId]. *)
Lemma presence_read user status now k s :
  plain (JStr (u_winkd_id user)) = true → plain (JStr status) = true → k_authenticated k = true →
  known_ids (contactsStore s) →
  onmessage (event_text (js "presence") (presence_payload user status)) now k s = (k, s).
Proof.
  intros Hw Hst Hk Hc.
  destruct (event_read (js "presence") (presence_payload user status) now k s) as (p & Ha & ->); [done| |done|].
  { cbn in Hw, Hst |- *. by rewrite Hw, Hst. }
  change (handle_event k now (Some (JStr (js "presence"))) (Some p) s) with
    (userId ← get_prop (js "userId") (Some p); status ← get_prop (js "status") (Some p);
     mret (on_contacts (updateContactStatus userId status) s)).
  rewrite !(get_flat _ (presence_payload user status) p) by done. cbn [mbind result_bind mret result_ret].
  change (json_get (js "userId") (presence_payload user status)) with (None : value).
  assert (contacts (updateContactStatus None (json_get (js "status") (presence_payload user status)) (contactsStore s))
    = contacts (contactsStore s)) as E.
  { cbn. revert Hc. unfold known_ids. induction (contacts (contactsStore s)) as [|c l IH]; [done|].
    intros [[w Hc] Hl]%list.Forall_cons. cbn. by rewrite Hc, IH. }
  destruct s as [au ch [l un pe bl]]. cbn in E. unfold on_contacts, updateContactStatus, with_contacts. cbn. by rewrite E.
Qed.

(** A contact of the roster as the hook stores it. *)
Definition rostered (c : ContactRosterEntry) : StoredContact :=
  let u := ro_user c in
  mkStored (Some (JStr (u_winkd_id u))) (Some (JStr (u_winkd_id u))) (Some (JStr (u_display_name u)))
    (Some (JStr (u_mood_message u))) (Some (JStr (if ro_accepted c then js "online" else js "invisible")))
    (Some (opt_json (u_avatar_data u))) (Some (JStr (if ro_accepted c then js "accepted" else js "pending_outbound")))
    (Some (JNum 0)) (Some JNull).

Lemma snapshot_contact_read st c v :
  alike (roster_json st c) v → snapshot_contact v = Ok (rostered c).
Proof.
  intros Ha. assert (flat (roster_json st c) = true) as Hf by (by destruct c as [u []]; cbn; rewrite opt_json_scalar).
  unfold snapshot_contact. rewrite !(get_flat _ (roster_json st c) v) by done. cbn [mbind result_bind mret result_ret].
  unfold rostered. destruct c as [u acc]. cbn [ro_user ro_accepted].
  change (json_get (js "avatar_data") (roster_json st (mkEntry u acc))) with (Some (opt_json (u_avatar_data u))).
  by destruct acc, (u_avatar_data u).
Qed.

Lemma snapshot_contacts_read st cs vs :
  Forall2 alike (map (roster_json st) cs) vs → mapM snapshot_contact vs = Ok (map rostered cs).
Proof.
  revert vs. induction cs as [|c cs IH]; intros vs H; cbn in H.
  - apply Forall2_nil_inv_l in H as ->. done.
  - apply Forall2_cons_inv_l in H as (v & vs' & Hv & Hvs & ->).
    change (mapM snapshot_contact (v :: vs')) with (y ← snapshot_contact v; ys ← mapM snapshot_contact vs'; mret (y :: ys)).
    by rewrite (snapshot_contact_read st c v Hv), (IH vs' Hvs).
Qed.

Lemma snapshot_read st cs now k s :
  plain (snapshot_payload st cs) = true → k_authenticated k = true →
  onmessage (event_text (js "contacts_snapshot") (snapshot_payload st cs)) now k s =
    (k, on_contacts (setContacts (map rostered cs)) s).
Proof.
  intros Hp Hk. destruct (event_read (js "contacts_snapshot") (snapshot_payload st cs) now k s) as (p & Ha & ->); [done..|].
  change (handle_event k now (Some (JStr (js "contacts_snapshot"))) (Some p) s) with
    (cs ← map_array (js "contacts") snapshot_contact (Some p); mret (on_contacts (setContacts cs) s)).
  pose proof (alike_get (js "contacts") _ _ Ha) as Hg.
  change (json_get (js "contacts") (snapshot_payload st cs)) with (Some (JArr (map (roster_json st) cs))) in Hg.
  cbn beta iota in Hg. destruct Hg as (v & Hv & Hav).
  destruct (alike_object (snapshot_payload st cs) p) as [l ->]; [by eexists|done|].
  unfold map_array. cbn [get_prop]. rewrite Hv. cbn [mbind result_bind].
  assert (∃ vs, v = JArr vs ∧ Forall2 alike (map (roster_json st) cs) vs) as (vs & -> & Hvs).
  { inversion Hav as [|l1 l2 H|]; subst; [|by exists l2]. eexists. split; [done|].
    apply Forall_Forall2_diag, List.Forall_forall. intros x _. constructor. }
  rewrite (snapshot_contacts_read st cs vs Hvs). done.
Qed.

(** ** The supporter state *)

Definition told_supporter (user : User) (used : Z) : SupporterState :=
  mkSupporter (if decide (effective_tier user = SUPPORTER_PLUS) then plus else free) (u_purchased_extras user)
    (JNum <$> buddy_cap user) (JNum used) (u_group_chat_unlocked user) (u_supporter_expires_at user).

Lemma effective_tiers user : effective_tier user = SUPPORTER_PLUS ∨ effective_tier user = SUPPORTER_FREE.
Proof. unfold effective_tier. destruct (decide _); [destruct (u_lapsed user)|]; auto. Qed.

Lemma strings_read l vs : Forall2 alike (map JStr l) vs → omap (λ v, string_value (Some v)) vs = l.
Proof.
  revert vs. induction l as [|x l IH]; intros vs H; cbn in H.
  - by apply Forall2_nil_inv_l in H as ->.
  - apply Forall2_cons_inv_l in H as (v & vs' & Hv & Hvs & ->). rewrite (alike_scalar (JStr x) v eq_refl Hv).
    specialize (IH vs' Hvs). cbn in IH |- *. by rewrite IH.
Qed.

Lemma supporter_read user used v : alike (auth_ok_frame user used) v → supporter_of v = told_supporter user used.
Proof.
  intros Ha. set (f := auth_ok_frame user used) in Ha.
  assert (∀ key x, json_get key f = Some x → scalar x = true → json_get key v = Some x) as Hg.
  { intros key x E Hs. pose proof (alike_get key f v Ha) as H. rewrite E in H. destruct H as (y & -> & Hy).
    by rewrite (alike_scalar x y Hs Hy). }
  assert (∃ vs, json_get (js "purchased_extras") v = Some (JArr vs) ∧
    Forall2 alike (map JStr (u_purchased_extras user)) vs) as (vs & Hvs & Hal).
  { pose proof (alike_get (js "purchased_extras") f v Ha) as H.
    change (json_get (js "purchased_extras") f) with (Some (JArr (map JStr (u_purchased_extras user)))) in H.
    cbn beta iota in H. destruct H as (y & -> & Hy). inversion Hy as [|l1 l2 H|]; subst; [|by exists l2].
    eexists. split; [done|]. apply Forall_Forall2_diag, List.Forall_forall. intros x _. constructor. }
  unfold supporter_of, told_supporter. rewrite Hvs, (strings_read _ vs Hal).
  rewrite (Hg (js "tier") (JStr (effective_tier user)) eq_refl eq_refl).
  rewrite (Hg (js "buddy_used") (JNum used) eq_refl eq_refl).
  rewrite (Hg (js "group_chat_unlocked") (JBool (u_group_chat_unlocked user)) eq_refl eq_refl).
  rewrite (Hg (js "supporter_expires_at") (opt_json (u_supporter_expires_at user)) eq_refl (opt_json_scalar _)).
  rewrite (Hg (js "buddy_cap") (match buddy_cap user with Some n => JNum n | None => JNull end) eq_refl)
    by (by destruct (buddy_cap user)).
  cbn [string_value number_value truthy nullish].
  f_equal; [|by destruct (buddy_cap user)|by destruct (u_supporter_expires_at user)].
  by destruct (effective_tiers user) as [-> | ->].
Qed.

(** ** The queue *)

(** A message of the queue that is read as this one. *)
Definition queued_as (a : jsstr) (m : Message) (q : PendingMessage) : Prop :=
  reads_as (forwarded a m) (event_text (js "message") (q_payload q)).

(** The recipient exists, is away, and neither has blocked the other. *)
Record away (user : User) (b : jsstr) (uid : nat) (st : ServerState) : Prop := {
  aw_user : u_id <$> find_user_by_winkd_id b (db st) = Some uid;
  aw_open : is_blocked_between (u_id user) uid (db st) = false;
  aw_live : is_live uid st = false;
}.

(** A user writes messages to another who is away; in between, anything else may
    happen that is neither a text of the writer's nor a start of the other's. *)
Inductive writes (user : User) (b : jsstr) (uid : nat) : list Message → ServerState → ServerState → Prop :=
  | writes_none st : writes user b uid [] st st
  | writes_message m ms sid now st outs st1 st' :
      away user b uid st → existsb (same_message uid (m_id m)) (pending_messages (db st)) = false →
      server_step no_faults (Says sid now (stringify (send_message_json m))) st = Some (Some user, (outs, st1)) →
      writes user b uid ms st1 st' → writes user b uid (m :: ms) st st'
  | writes_other ms fails e who outs st st1 st' :
      server_step fails e st = Some (who, (outs, st1)) → leaves_rows uid (u_id user) e who →
      writes user b uid ms st1 st' → writes user b uid ms st st'.

Lemma message_queued user b uid m sid now st outs st1 :
  away user b uid st → existsb (same_message uid (m_id m)) (pending_messages (db st)) = false →
  server_step no_faults (Says sid now (stringify (send_message_json m))) st = Some (Some user, (outs, st1)) →
  m_conversationId m = b → within_limits user m → plain (JStr (u_winkd_id user)) = true →
  plain (send_message_json m) = true → sendable m →
  ∃ q, queued_as (u_winkd_id user) m q ∧
    rows_between uid (u_id user) (db st1) = rows_between uid (u_id user) (db st) ++ [q].
Proof.
  intros [Hf Ho Hl] Hq Hs <- Hlim Hw Hp [_ Hn]. cbn [server_step] in Hs. destruct (sockets st !! sid) as [u|]; [|done].
  cbn [mbind option_bind] in Hs. apply (inj Some), pair_eq in Hs as [E Hs]. apply (inj Some) in E as ->.
  destruct (@relay_outputs _ _ _ (backend_of no_faults st) user m uid) as (p & t & t' & Ht & -> & Hid & Hread & _); try done.
  { cbn. unfold attempt. cbn. by rewrite Hf. }
  { cbn. unfold attempt. cbn. by rewrite Ho. }
  unfold receive in Hs. rewrite Ht in Hs. cbn [live_session backend_of] in Hs. rewrite Hl in Hs. apply pair_eq in Hs as [<- <-].
  exists (mkQueued uid (u_id user) (Some (m_id m)) p). split; [exact Hread|].
  cbn [enqueue foldl attempt no_faults db with_db]. unfold payload_str. rewrite Hid. cbn. rewrite Hq. unfold rows_between. cbn.
  rewrite List.filter_app. cbn. unfold waits_for at 2. cbn. by rewrite !Nat.eqb_refl.
Qed.

Lemma writes_rows user b uid ms st st' :
  writes user b uid ms st st' → plain (JStr (u_winkd_id user)) = true →
  Forall (λ m, m_conversationId m = b ∧ within_limits user m ∧ plain (send_message_json m) = true ∧ sendable m) ms →
  ∃ qs, Forall2 (queued_as (u_winkd_id user)) ms qs ∧
    rows_between uid (u_id user) (db st') = rows_between uid (u_id user) (db st) ++ qs.
Proof.
  intros H Hw. induction H as [st|m ms sid now st outs st1 st' Ha Hq Hs _ IH|ms fails e who outs st st1 st' Hs Hn _ IH]; intros Hms.
  - exists []. by rewrite app_nil_r.
  - apply list.Forall_cons in Hms as [(Hb & Hl & Hp & Hm) Hms]. destruct (IH Hms) as (qs & Hqs & E).
    destruct (message_queued _ _ _ _ _ _ _ _ _ Ha Hq Hs Hb Hl Hw Hp Hm) as (q & Hread & Eq).
    exists (q :: qs). split; [by constructor|]. by rewrite E, Eq, <-(assoc_L (++)).
  - destruct (IH Hms) as (qs & Hqs & E). exists qs. split; [done|]. by rewrite E, (step_rows _ _ _ _ _ _ _ _ Hs Hn).
Qed.

(** ** What a closed socket misses *)

Definition dead (i : nat) (a : Socket.App) : Prop :=
  (i < nextConn a)%nat ∧ ∃ k, conns a !! i = Some k ∧ ¬ live k.

Lemma dead_cleanup i a : dead i a → dead i (run_cleanup a).
Proof.
  intros [Hi (k & Hk & Hd)]. unfold run_cleanup. destruct (cleanup a) as [c|]; [|by split; [|exists k]].
  split; [done|]. cbn. unfold close_conn. destruct (conns a !! c) as [kc|] eqn:Ec; [|by exists k].
  assert (live kc → c ≠ i) as Hne by (intros Hl ->; congruence).
  unfold live in Hne. destruct (k_state kc) eqn:Es; try (by exists k);
    exists k; (split; [|done]); rewrite lookup_insert_ne; auto.
Qed.

Lemma dead_step i e a a' out : dead i a → Socket.enabled e a = true → Socket.step e a = (a', out) → dead i a'.
Proof.
  intros Hd He Hs. pose proof Hd as [Hi (k & Hk & Hl)].
  assert (∀ j k', (j = i → k' = k ∨ ¬ live k') → dead i (with_conn j k' a)) as Hconn.
  { intros j k' H. split; [done|]. cbn. destruct (decide (j = i)) as [->|].
    - exists k'. rewrite lookup_insert_eq. split; [done|]. by destruct (H eq_refl) as [->|].
    - exists k. by rewrite lookup_insert_ne. }
  destruct e as [|j|j data now|j code|j| | | |f| |]; cbn in He, Hs; try (injection Hs as <- <-); try exact Hd.
  - unfold render. destruct (decide _); [done|]. destruct (dead_cleanup i a Hd) as [Hi' (k' & Hk' & Hl')].
    unfold run_effect. destruct (session (authStore (stores (run_cleanup a)))) as [[o s]|]; (split; [cbn [nextConn]; lia|]); cbn [conns]; exists k'; [|done].
    rewrite lookup_insert_ne by lia. done.
  - destruct (conns a !! j) as [kj|] eqn:Ej; injection Hs as <- <-; [|exact Hd]. apply Hconn. intros ->.
    rewrite Ej in Hk. injection Hk as ->. apply bool_decide_eq_true in He. unfold live in Hl. tauto.
  - destruct (conns a !! j) as [kj|] eqn:Ej; [|by injection Hs as <- <-].
    destruct (onmessage data now kj (stores a)) as [k' s']. injection Hs as <- <-.
    apply (Hconn j k'). intros ->. rewrite Ej in Hk. injection Hk as ->. apply bool_decide_eq_true in He. unfold live in Hl. tauto.
  - destruct (conns a !! j) as [kj|] eqn:Ej; injection Hs as <- <-; [|exact Hd].
    assert (dead i (with_conn j (set_state CLOSED kj) a)) as [? ?] by (apply Hconn; right; unfold live; cbn; naive_solver).
    by destruct (code =? 4001).
Qed.

Lemma dead_runs i a tr a' : Socket.runs a tr a' → dead i a → dead i a'.
Proof. induction 1 as [|tr b e b' out _ IH He Hs]; [done|]. intros H. by eapply dead_step; [apply IH| |]. Qed.

Lemma dead_hears i a data now : dead i a → Socket.enabled (EMessage i data now) a = false.
Proof.
  intros [_ (k & Hk & Hl)]. cbn. rewrite Hk. apply bool_decide_eq_false. unfold live in Hl. tauto.
Qed.

(** The confirmation of a socket. *)
Lemma auth_ok_read user used now k s :
  plain (auth_ok_frame user used) = true → k_authenticated k = false →
  auth_ok_text (to_string (auth_ok_frame user used)) ∧
  onmessage (to_string (auth_ok_frame user used)) now k s =
    (set_authenticated k, on_auth (setSupporterState (told_supporter user used)) s).
Proof.
  intros Hp Hk. destruct (law_to_string _ Hp) as (v & Hv & Ha).
  destruct (alike_object (auth_ok_frame user used) v) as [l El]; [by eexists|done|].
  pose proof (alike_get (js "type") _ _ Ha) as Hg.
  change (json_get (js "type") (auth_ok_frame user used)) with (Some (JStr (js "auth_ok"))) in Hg.
  cbn beta iota in Hg. destruct Hg as (x & Hx & Hax). rewrite (alike_scalar (JStr _) x eq_refl Hax) in Hx.
  assert (is_string (js "auth_ok") (json_get (js "type") v) = true) as Ht by (rewrite Hx; by apply is_string_true).
  split; [by exists v|]. unfold onmessage. rewrite Hv, Hk. cbn [mbind result_bind negb].
  assert (get_prop (js "type") (Some v) = Ok (json_get (js "type") v)) as -> by (by rewrite El).
  cbn [mbind result_bind]. by rewrite Ht, (supporter_read user used v Ha).
Qed.

Lemma filter_drained {A} (f : A → bool) l : List.filter f (List.filter (λ x, negb (f x)) l) = [].
Proof. induction l as [|x l IH]; [done|]. cbn. destruct (f x) eqn:E; cbn; by rewrite ?E. Qed.

Lemma filter_and {A} (f g : A → bool) l : List.filter g (List.filter f l) = List.filter (λ x, f x && g x) l.
Proof. induction l as [|x l IH]; [done|]. cbn. destruct (f x); cbn; [destruct (g x)|]; by rewrite ?IH. Qed.

(** The confirmation: it makes the session live and changes no row. *)
Lemma register_confirms fails sid text st user outs st' :
  server_step fails (Authenticates sid text) st = Some (Some user, (outs, st')) →
  outs = [ToSender (to_string (auth_ok_frame user
            (if fails CountRoster then 0 else count_roster (u_id user) (db st))))] ∧
  db st' = db st ∧ clients st' = <[u_id user := sid]> (clients st) ∧ moving st' !! sid = Some (Opening, user).
Proof.
  cbn [server_step]. destruct (sockets st !! sid); [done|]. destruct (moving st !! sid); [done|].
  destruct (authenticate fails text st) as [u|]; [|done].
  intros H. apply (inj Some), pair_eq in H as [E H]. apply (inj Some) in E as ->.
  unfold register_session in H. apply pair_eq in H as [<- <-]. split_and!; [|done|done|by apply lookup_insert_eq].
  unfold attempt. by destruct (fails CountRoster).
Qed.

(** The rest of the start empties the queue and ends no session. *)
Lemma open_drains fails sid st user outs st' :
  server_step fails (Opens sid) st = Some (Some user, (outs, st')) → fails DrainPending = false →
  moving st !! sid = Some (Opening, user) ∧
  (∃ before, outs = before ++ flat_map (flush user st') (List.filter (waits_for (u_id user)) (pending_messages (db st)))) ∧
  List.filter (waits_for (u_id user)) (pending_messages (db st')) = [] ∧
  ∀ uid, is_live uid st' = is_live uid st.
Proof.
  cbn [server_step]. destruct (moving st !! sid) as [[[] u]|]; [|done|done].
  intros H Hd. apply (inj Some), pair_eq in H as [E H]. apply (inj Some) in E as ->.
  pose proof (open_session_outs fails sid user st) as Ho. pose proof (open_session_state fails sid user st st') as Hst.
  rewrite H in Ho, Hst. destruct Ho as (before & queued & -> & Hq & _). destruct (Hq Hd) as [-> Hrest].
  destruct (Hst eq_refl) as (Hc & _). split_and!; [done|by eexists| |].
  - rewrite Hrest. apply filter_drained.
  - intros uid. unfold is_live. by rewrite Hc.
Qed.

(** A socket that does nothing keeps its task. *)
Lemma runs_task_other st0 tr st sid m user :
  server_runs st0 tr st → Forall (λ x, socket_of (sv_event x) ≠ sid) tr → task st0 sid m user → task st sid m user.
Proof.
  induction 1 as [|tr st fails e who outs st' _ IH Hs]; [done|]. intros [Htr Hx]%list.Forall_app Ht.
  apply list.Forall_cons in Hx as [Hx _]. cbn in Hx.
  apply (step_task_other _ _ _ _ _ _ _ _ _ Hs); [by intros E|]. by apply IH.
Qed.

(** ** Properties *)


(** C18: The sender of a message that waited learns that it was delivered. When the
    session of its recipient opens and the sender has a live session, a receipt goes to the
    sender, which marks this message of the conversation, and nothing else. *)
Theorem receipt_confirms sid st ub outs st' q id now k s :
  server_step no_faults (Opens sid) st = Some (Some ub, (outs, st')) →
  In q (pending_messages (db st)) → q_recipient_id q = u_id ub →
  payload_str (js "id") (q_payload q) = Some id → is_live (q_sender_id q) st = true →
  plain (JStr (u_winkd_id ub)) = true → plain (JStr id) = true → u_winkd_id ub ≠ [] → id ≠ [] →
  k_authenticated k = true → chat_ok (chatStore s) →
  ∃ t s', In (ToUser (q_sender_id q) t) outs ∧ onmessage t now k s = (k, s') ∧ delivered_in (u_winkd_id ub) id s s'.
Proof.
  intros Hs Hq Hr Hid Hl Hw Hi Hw0 Hi0 Hk Hc.
  destruct (open_drains _ _ _ _ _ _ Hs eq_refl) as (_ & (before & ->) & _ & Hlive).
  destruct (receipt_read (u_winkd_id ub) id now k s Hw Hi Hw0 Hi0 Hk Hc) as (s' & Hm & Hd).
  eexists _, s'. split; [|split; [exact Hm|exact Hd]].
  apply in_or_app. right. apply in_flat_map. exists q. split.
  - apply filter_In. split; [done|]. by apply Nat.eqb_eq.
  - right. rewrite Hid. unfold push. rewrite Hlive, Hl. by left.
Qed.

(** C19: What waited for a user is lost. The hook closes each socket it has confirmed at
    the next render, because the confirmation changes the session. What the server
    sends after the confirmation, the contact list, the requests and the messages
    that waited, is never handled once the page has rendered, whatever happens then;
    and once the server has opened the session, whatever it did for others before,
    the queue is empty, so that the next socket does not get it either. *)
Theorem queued_messages_lost sid t i now a st user outs st1 :
  connecting t i a → server_step no_faults (Authenticates sid (auth_frame t)) st = Some (Some user, (outs, st1)) →
  plain (auth_ok_frame user (count_roster (u_id user) (db st))) = true →
  ∃ first a', outs = [ToSender first] ∧
    run_events (cycle first now i) a = Some (a', [Sent i (auth_frame t)]) ∧ connecting t (S i) a' ∧
    (∀ tr a2 data now', Socket.runs a' tr a2 → Socket.enabled (EMessage i data now') a2 = false) ∧
    (∀ tr st2, server_runs st1 tr st2 → Forall (λ x, socket_of (sv_event x) ≠ sid) tr →
      ∃ rest st', server_step no_faults (Opens sid) st2 = Some (Some user, (rest, st')) ∧
        List.filter (waits_for (u_id user)) (pending_messages (db st')) = []).
Proof.
  intros Hc Hs Hp. destruct (register_confirms _ _ _ _ _ _ _ Hs) as (-> & _ & _ & Hmv). cbn [no_faults].
  destruct (auth_ok_read user _ now (mkConnection t [] None false OPEN)
    (mkStores emptyAuth emptyChat emptyContacts) Hp eq_refl) as [Ht _].
  destruct (cycle_runs _ now t i a Ht Hc) as (a' & Hr & Hc' & (k & Hk & Hcl & _) & _).
  eexists _, a'. split; [reflexivity|]. split_and!; [exact Hr|exact Hc'| |].
  2: { intros tr st2 Hruns Hq. pose proof (runs_task_other _ _ _ sid (Some Opening) user Hruns Hq Hmv) as Hmv'.
       cbn in Hmv'. assert (server_step no_faults (Opens sid) st2 = Some (Some user, open_session no_faults sid user st2)) as Ho
         by (cbn [server_step]; by rewrite Hmv').
       destruct (open_session no_faults sid user st2) as [rest st'] eqn:E. exists rest, st'. split; [exact Ho|].
       by destruct (open_drains _ _ _ _ _ _ Ho eq_refl) as (_ & _ & ? & _). }
  intros tr a2 data now' Hruns. apply (dead_hears i a2 data now'). apply (dead_runs i _ _ _ Hruns). split.
  - rewrite (cn_next _ _ _ Hc'). lia.
  - exists k. split; [exact Hk|]. unfold live. rewrite Hcl. by intros [|].
Qed.

(** C20: Nobody is ever seen to be away. The contact list the server sends names each
    contact's status, and later changes come as presence events; the hook takes
    neither: after the list and any presence events, every accepted contact is shown
    as online. *)
Theorem presence_never_shown st cs ps now k s :
  plain (snapshot_payload st cs) = true → k_authenticated k = true →
  Forall (λ p, plain (JStr (u_winkd_id p.1)) = true ∧ plain (JStr p.2) = true) ps →
  let texts := event_text (js "contacts_snapshot") (snapshot_payload st cs) ::
               map (λ p, event_text (js "presence") (presence_payload p.1 p.2)) ps in
  let s' := foldl (λ s t, (onmessage t now k s).2) s texts in
  contacts (contactsStore s') = map rostered cs ∧
  Forall (λ c, sc_requestStatus c = Some (JStr (js "accepted")) → sc_status c = Some (JStr (js "online")))
    (contacts (contactsStore s')).
Proof.
  intros Hp Hk Hps. cbv zeta. cbn [foldl]. rewrite (snapshot_read st cs now k s Hp Hk). cbn [snd].
  set (s1 := on_contacts _ s). assert (contacts (contactsStore s1) = map rostered cs) as E by done.
  assert (known_ids (contactsStore s1)) as Hids.
  { unfold known_ids. rewrite E. apply List.Forall_forall. intros x (c & <- & _)%in_map_iff. by eexists. }
  assert (foldl (λ s t, (onmessage t now k s).2) s1
    (map (λ p, event_text (js "presence") (presence_payload p.1 p.2)) ps) = s1) as ->.
  { clear E. clearbody s1. induction Hps as [|[u st'] ps [Hu Hst] _ IH]; [done|]. cbn [map foldl fst snd].
    rewrite (presence_read u st' now k s1) by done. exact IH. }
  split; [exact E|]. rewrite E. apply List.Forall_forall. intros x (c & <- & _)%in_map_iff. by destruct c as [u []].
Qed.

(** The hook knows the supporter state the server has. The confirmation of a
    socket carries the tier, the extras, the cap and the count of the buddies, and
    the expiry; the hook confirms the socket and the session holds exactly these. *)
Theorem auth_ok_tells_supporter user used now k s :
  plain (auth_ok_frame user used) = true → k_authenticated k = false →
  onmessage (to_string (auth_ok_frame user used)) now k s =
    (set_authenticated k, on_auth (setSupporterState (mkSupporter
       (if decide (effective_tier user = js "plus") then plus else free) (u_purchased_extras user)
       (JNum <$> buddy_cap user) (JNum used) (u_group_chat_unlocked user) (u_supporter_expires_at user))) s).
Proof. intros Hp Hk. by apply (auth_ok_read user used now k s). Qed.

End delivery.
