(* ===== verification/Handshake.v ===== *)
(** * Becoming contacts

    The composition of two clients and the server: the request from the sidebar
    (Sidebar), through the server (Service), to the other's hook (Socket) and its
    sidebar, and the acceptance back. *)

From S2P Require Import Prelude JsString Json Platform Types AuthStore ChatStore ContactsStore Socket Sidebar.
From S2P Require Import Page ChatRuns Serde Limits Database Server Service ServiceRuns Relay Delivery.

Section handshake.
Context {doubles : Doubles} {serde : Serde} {serde_laws : SerdeLaws} {uuids : Uuids} {uuid_laws : UuidLaws}.

(** ** What the clients read *)

Definition plain_opt (o : option jsstr) : Prop := plain (opt_json o) = true.

Record plain_user (u : User) : Prop := {
  pu_winkd_id : plain (JStr (u_winkd_id u)) = true;
  pu_name : plain (JStr (u_display_name u)) = true;
  pu_mood : plain (JStr (u_mood_message u)) = true;
  pu_avatar : plain_opt (u_avatar_data u);
}.

Definition invitation (request_id : nat) (from : User) : PendingInvitation :=
  mkInvitation (Some (JStr (uuid_text request_id))) (Some (JStr (u_winkd_id from))) (Some (JStr (u_display_name from)))
    (Some (opt_json (u_avatar_data from))).

Lemma request_read request_id from now k s :
  plain_user from → k_authenticated k = true →
  onmessage (event_text (js "contact_request") (request_payload request_id from)) now k s =
    (k, on_contacts (upsertPendingInvitation (invitation request_id from)) s).
Proof.
  intros [Hw Hn _ Ha] Hk. pose proof (law_uuid_plain request_id) as Hu. unfold plain_opt in Ha.
  set (pl := request_payload request_id from).
  assert (flat pl = true) as Hf by (cbn; by rewrite opt_json_scalar).
  destruct (event_read (js "contact_request") pl now k s) as (p & Hal & ->); [done| |done|].
  { cbn in Hw, Hn, Hu |- *. by rewrite Hw, Hn, Hu, Ha. }
  change (handle_event k now (Some (JStr (js "contact_request"))) (Some p) s) with (handle_contact_request (Some p) s).
  unfold handle_contact_request. rewrite !(get_flat _ pl p) by done. cbn [mbind result_bind mret result_ret].
  change (json_get (js "from_avatar_data") pl) with (Some (opt_json (u_avatar_data from))).
  unfold invitation, Socket.or_null. by destruct (u_avatar_data from).
Qed.

(** The contact a confirmed request leaves. *)
Definition befriended (u : User) : StoredContact :=
  mkStored (Some (JStr (u_winkd_id u))) (Some (JStr (u_winkd_id u))) (Some (JStr (u_display_name u)))
    (Some (JStr (u_mood_message u))) (Some (JStr (js "online"))) (Some (opt_json (u_avatar_data u)))
    (Some (JStr (js "accepted"))) (Some (JNum 0)) (Some JNull).

Lemma accepted_read u now k s :
  plain_user u → k_authenticated k = true →
  onmessage (event_text (js "contact_accepted") (accepted_payload u)) now k s =
    (k, on_contacts (addAcceptedContact (befriended u))
          (on_contacts (clearPendingFromUser (Some (JStr (u_winkd_id u)))) s)).
Proof.
  intros [Hw Hn Hm Ha] Hk. unfold plain_opt in Ha. set (pl := accepted_payload u).
  assert (flat pl = true) as Hf by (cbn; by rewrite opt_json_scalar).
  destruct (event_read (js "contact_accepted") pl now k s) as (p & Hal & ->); [done| |done|].
  { cbn in Hw, Hn, Hm |- *. by rewrite Hw, Hn, Hm, Ha. }
  change (handle_event k now (Some (JStr (js "contact_accepted"))) (Some p) s) with (handle_contact_accepted (Some p) s).
  unfold handle_contact_accepted, accepted_contact. rewrite !(get_flat _ pl p) by done.
  cbn [mbind result_bind mret result_ret].
  change (json_get (js "avatar_data") pl) with (Some (opt_json (u_avatar_data u))).
  unfold befriended, Socket.or_null. by destruct (u_avatar_data u).
Qed.

(** A contact that was added is there. *)
Lemma added_contact c w s : sc_id c = Some (JStr w) → In c (contacts (addAcceptedContact c s)).
Proof.
  intros Hc. unfold addAcceptedContact. destruct (existsb _ _) eqn:E; cbn.
  - apply existsb_exists in E as (x & Hx & Heq). apply in_map_iff. exists x. by rewrite Heq.
  - apply in_or_app. right. by left.
Qed.

Lemma cleared_invitations w s :
  Forall (λ i, fromWinkdId i ≠ Some (JStr w)) (pendingInvitations (clearPendingFromUser (Some (JStr w)) s)).
Proof.
  apply List.Forall_forall. intros i [_ Hi]%filter_In E. rewrite E in Hi.
  by rewrite (proj2 (strict_eq_string _ _ w eq_refl) eq_refl) in Hi.
Qed.

(** ** The tables *)

(** Each request has its own id, which is its place. *)
Definition numbered (d : Db) : Prop := map cr_id (contact_requests d) = seq 0 (length (contact_requests d)).

Lemma map_status_ids (p : ContactRequest → bool) status l :
  map cr_id (map (λ r, if p r then Database.set_status status r else r) l) = map cr_id l.
Proof. rewrite map_map. apply map_ext. intros r. by destruct (p r). Qed.

Lemma created_numbered a b d r d' :
  create_contact_request a b d = (r, d') → numbered d → numbered d' ∧ In r (contact_requests d').
Proof.
  unfold create_contact_request, numbered. destruct (List.find _ _) as [r0|] eqn:E; intros [= <- <-] Hn; cbn.
  - rewrite map_status_ids, length_map. split; [done|]. apply find_some in E as [Hin Hg].
    apply in_map_iff. exists r0. by rewrite Hg.
  - rewrite map_app, length_app, seq_app, Hn. split; [done|]. apply in_or_app. right. by left.
Qed.

Lemma numbered_unique d r r' :
  numbered d → In r (contact_requests d) → In r' (contact_requests d) → cr_id r = cr_id r' → r = r'.
Proof.
  intros Hn Hr Hr' E. apply List.In_nth_error in Hr as [i Hi], Hr' as [j Hj].
  assert (∀ n x, nth_error (contact_requests d) n = Some x → cr_id x = n) as Hid.
  { intros n x Hx. pose proof (map_nth_error cr_id _ _ Hx) as H. rewrite Hn in H.
    apply nth_error_split in Hx as (l1 & l2 & Hl & Hlen).
    rewrite (nth_error_nth' _ 0%nat) in H by (rewrite length_seq, Hl, length_app; cbn; lia).
    rewrite seq_nth in H by (rewrite Hl, length_app; cbn; lia). cbn in H. congruence. }
  rewrite (Hid i r Hi), (Hid j r' Hj) in E. congruence.
Qed.

Lemma answered status d r :
  numbered d → In r (contact_requests d) → cr_status r = StPending →
  ∃ d', answer_contact_request status (cr_id r) (cr_to_id r) d = Some (Database.set_status status r, d') ∧
    In (Database.set_status status r) (contact_requests d').
Proof.
  intros Hn Hin Hp. unfold answer_contact_request.
  assert (answers (cr_id r) (cr_to_id r) r = true) as Ha
    by (unfold answers; by rewrite !Nat.eqb_refl, bool_decide_true).
  destruct (List.find (answers (cr_id r) (cr_to_id r)) (contact_requests d)) as [r0|] eqn:E.
  - apply find_some in E as [Hin0 Ha0]. pose proof (answers_true _ _ _ Ha0) as (Hid & _).
    rewrite (numbered_unique d r0 r Hn Hin0 Hin Hid). eexists. split; [done|]. cbn. apply in_map_iff. exists r. by rewrite Ha.
  - pose proof (find_none _ _ E r Hin) as H. congruence.
Qed.

(** An accepted request between users who have not blocked each other. *)
Lemma accepted_lists d r :
  In r (contact_requests d) → cr_status r = StAccepted → is_blocked_between (cr_from_id r) (cr_to_id r) d = false →
  cr_from_id r ≠ cr_to_id r →
  In (cr_to_id r) (list_accepted_contact_user_ids (cr_from_id r) d) ∧
  In (cr_from_id r) (list_accepted_contact_user_ids (cr_to_id r) d).
Proof.
  intros Hin Ha Hb Hne. unfold list_accepted_contact_user_ids.
  split; apply list_elem_of_In, list_elem_of_omap; exists r; (split; [by apply list_elem_of_In|]); unfold concerns, other_side.
  - rewrite Nat.eqb_refl, bool_decide_true by done. cbn. by rewrite Hb.
  - rewrite Nat.eqb_refl, orb_true_r, bool_decide_true by done. cbn.
    rewrite (proj2 (Nat.eqb_neq _ _)) by done. by rewrite is_blocked_sym, Hb.
Qed.

(** ** What the server reads *)

Lemma other_read name payload fails sid now user st :
  plain (JObj [(js "command", JStr name); (js "payload", payload)]) = true → sockets st !! sid = Some user →
  bool_decide (name ∈ message_commands) = false → bool_decide (name ∈ other_commands) = true →
  ∃ p, alike payload p ∧
    server_step fails (Says sid now (stringify (JObj [(js "command", JStr name); (js "payload", payload)]))) st =
      Some (Some user, handle_other fails now name p user st).
Proof.
  intros Hp Hs Hm Ho. destruct (law_from_str _ Hp) as (v & Hv & Ha & Hpl).
  pose proof (alike_get (js "command") _ v Ha) as H1. pose proof (alike_get (js "payload") _ v Ha) as H2.
  change (json_get (js "command") (JObj [(js "command", JStr name); (js "payload", payload)])) with (Some (JStr name)) in H1.
  change (json_get (js "payload") (JObj [(js "command", JStr name); (js "payload", payload)])) with (Some payload) in H2.
  cbn beta iota in H1, H2. destruct H1 as (c & Ec & Hcc). destruct H2 as (p & Ep & Hpp).
  rewrite (alike_scalar (JStr name) c eq_refl Hcc) in Ec. exists p. split; [done|].
  destruct (alike_object _ v (ex_intro _ _ eq_refl) Ha) as [l ->].
  cbn [server_step]. rewrite Hs. cbn [mbind option_bind]. unfold receive, handle_text. rewrite Hv.
  assert (client_command (JObj l) = Some (name, p)) as Hc.
  { unfold client_command. rewrite !member_once_get by done. rewrite Ec, Ep. done. }
  cbn [mbind option_bind]. rewrite Hc, Hm, Ho. done.
Qed.

(** The two users: live sessions, with nothing between them. *)
Record meet (st : ServerState) (sa sb : nat) (a b a' : User) : Prop := {
  mt_a : sockets st !! sa = Some a;
  mt_b : sockets st !! sb = Some b;
  mt_live_a : is_live (u_id a) st = true;
  mt_live_b : is_live (u_id b) st = true;
  mt_find_b : ∃ b', find_user_by_winkd_id (u_winkd_id b) (db st) = Some b' ∧ u_id b' = u_id b;
  mt_find_a : find_user_by_id (u_id a) (db st) = Some a';
  mt_name_a : u_winkd_id a' = u_winkd_id a;
  mt_open : is_blocked_between (u_id a) (u_id b) (db st) = false;
  mt_room : over_cap no_faults a st = None;
  mt_other : u_id a ≠ u_id b ∧ u_winkd_id a ≠ u_winkd_id b;
  mt_name : rust_trim (u_winkd_id b) = u_winkd_id b ∧ u_winkd_id b ≠ [];
  mt_numbered : numbered (db st);
  mt_plain_a : plain_user a;
  mt_plain_a' : plain_user a';
  mt_plain_b : plain_user b;
}.

Definition add_text (winkd_id : jsstr) : jsstr := stringify (command (js "add_contact") [(js "winkd_id", JStr winkd_id)]).

(** The request reaches the server. *)
Lemma request_made st sa sb a b a' now :
  meet st sa sb a b a' →
  ∃ r d t, server_step no_faults (Says sa now (add_text (u_winkd_id b))) st =
      Some (Some a, ([ToSender t; ToUser (u_id b) (event_text (js "contact_request") (request_payload (cr_id r) a))],
                     with_db d st)) ∧
    create_contact_request (u_id a) (u_id b) (db st) = (r, d).
Proof.
  intros H. destruct (mt_find_b _ _ _ _ _ _ H) as (b' & Hf & Hid). destruct (mt_name _ _ _ _ _ _ H) as [Htrim Hne].
  pose proof (pu_winkd_id _ (mt_plain_b _ _ _ _ _ _ H)) as Hw.
  destruct (other_read (js "add_contact") (JObj [(js "winkd_id", JStr (u_winkd_id b))]) no_faults sa now a st) as (p & Hal & Hs).
  { cbn in Hw |- *. by rewrite Hw. }
  { by apply mt_a in H. }
  { vm_compute. reflexivity. }
  { vm_compute. reflexivity. }
  destruct (create_contact_request (u_id a) (u_id b) (db st)) as [r d] eqn:Ec.
  exists r, d, (event_text (js "contact_request_sent") (sent_payload (cr_id r) (u_winkd_id b) b')). split; [|done].
  unfold add_text, command. rewrite Hs.
  change (handle_other no_faults now (js "add_contact") p a st) with (add_contact no_faults p a st).
  unfold add_contact. rewrite (get_any_alike _ _ p Hal).
  change (get_any [js "winkd_id"; js "winkdId"; js "target_winkd_id"] (JObj [(js "winkd_id", JStr (u_winkd_id b))]))
    with (Some (JStr (u_winkd_id b))).
  cbn [mbind option_bind as_str]. change (rust_trim <$> Some (u_winkd_id b)) with (Some (rust_trim (u_winkd_id b))).
  rewrite Htrim. destruct (u_winkd_id b) as [|c w] eqn:Eb; [done|]. rewrite decide_False
    by (pose proof (mt_other _ _ _ _ _ _ H) as [_ Hx]; congruence).
  rewrite (mt_room _ _ _ _ _ _ H), Hf. cbn [attempt no_faults try_db]. rewrite Hid, (mt_open _ _ _ _ _ _ H), Ec.
  unfold push. assert (is_live (u_id b) (with_db d st) = true) as -> by exact (mt_live_b _ _ _ _ _ _ H). reflexivity.
Qed.

(** The acceptance reaches the server. *)
Lemma request_accepts st sa sb a b a' now r d :
  meet st sa sb a b a' → create_contact_request (u_id a) (u_id b) (db st) = (r, d) →
  ∃ d', server_step no_faults (Says sb now
        (stringify (request_command (js "accept_contact") (requestId (invitation (cr_id r) a))))) (with_db d st) =
      Some (Some b, ([ToSender (event_text (js "contact_accepted") (accepted_payload a'));
                      ToUser (u_id a) (event_text (js "contact_accepted") (accepted_payload b))], with_db d' st)) ∧
    In (u_id b) (list_accepted_contact_user_ids (u_id a) d') ∧ In (u_id a) (list_accepted_contact_user_ids (u_id b) d').
Proof.
  intros H Hc. pose proof (law_uuid_plain (cr_id r)) as Hu.
  destruct (other_read (js "accept_contact") (JObj [(js "request_id", JStr (uuid_text (cr_id r)))]) no_faults sb now b (with_db d st))
    as (p & Hal & Hs).
  { cbn in Hu |- *. by rewrite Hu. }
  { by apply mt_b in H. }
  { vm_compute. reflexivity. }
  { vm_compute. reflexivity. }
  destruct (created_numbered _ _ _ _ _ Hc (mt_numbered _ _ _ _ _ _ H)) as [Hn Hin].
  destruct (create_request_spec _ _ _ _ _ Hc) as (Hfrom & Hto & Hp & _ & Husers & Hblocks & _).
  destruct (answered StAccepted d r Hn Hin Hp) as (d' & Hacc & Hin').
  destruct (answer_request_spec _ _ _ _ _ _ Hacc) as (_ & _ & Husers' & Hblocks' & _).
  exists d'. split.
  - change (request_command _ _) with (command (js "accept_contact") [(js "request_id", JStr (uuid_text (cr_id r)))]).
    unfold command. rewrite Hs.
    change (handle_other no_faults now (js "accept_contact") p b (with_db d st)) with (accept_contact no_faults p b (with_db d st)).
    unfold accept_contact, with_request_id, payload_str. rewrite (alike_str _ _ p Hal).
    change (json_get (js "request_id") (JObj [(js "request_id", JStr (uuid_text (cr_id r)))]))
      with (Some (JStr (uuid_text (cr_id r)))).
    cbn [mbind option_bind as_str]. rewrite law_uuid. cbn [attempt no_faults try_db db with_db].
    unfold accept_contact_request. rewrite <-Hto, Hacc. cbn [attempt no_faults try_db db with_db cr_from_id Database.set_status].
    assert (find_user_by_id (cr_from_id r) d' = Some a') as ->.
    { unfold find_user_by_id, find_user. rewrite Husers', Husers, Hfrom. exact (mt_find_a _ _ _ _ _ _ H). }
    assert (u_id a' = u_id a) as Hid.
    { pose proof (mt_find_a _ _ _ _ _ _ H) as Hf. apply find_some in Hf as [_ Hf]. by apply Nat.eqb_eq. }
    unfold push. rewrite Hid.
    assert (is_live (u_id a) (with_db d' (with_db d st)) = true) as -> by exact (mt_live_a _ _ _ _ _ _ H). reflexivity.
  - rewrite <-Hfrom, <-Hto. apply (accepted_lists d' (Database.set_status StAccepted r)); [done..| |].
    + unfold is_blocked_between, blocked_by. rewrite Hblocks', Hblocks. cbn [cr_from_id cr_to_id Database.set_status].
      rewrite Hfrom, Hto. exact (mt_open _ _ _ _ _ _ H).
    + cbn. rewrite Hfrom, Hto. apply (mt_other _ _ _ _ _ _ H).
Qed.

(** ** Properties *)

(** What a text leaves of the stores. *)
Definition hears (now : jsstr) (k : Connection) (t : jsstr) (s : Stores) : Stores := (onmessage t now k s).2.

Definition has_contact (w : jsstr) (s : Stores) : Prop :=
  ∃ c, In c (contacts (contactsStore s)) ∧ sc_id c = Some (JStr w) ∧ sc_requestStatus c = Some (JStr (js "accepted")).

(** C12: Two users become contacts. One enters the other's Winkd ID, and neither has
    blocked the other; the server's text puts the invitation into the other's list;
    the other accepts it there, and the server's texts put each into the contacts of
    the other and take the invitation away; from then on the server counts each
    among the other's contacts. *)
Theorem contact_handshake st sa sb a b a' now ka kb sA sB :
  meet st sa sb a b a' → k_authenticated ka = true → k_authenticated kb = true →
  ∃ x y z w st1 st2 inv,
    server_step no_faults (Says sa now (add_text (u_winkd_id b))) st =
      Some (Some a, ([ToSender x; ToUser (u_id b) y], st1)) ∧
    let sB1 := hears now kb y sB in
    In inv (pendingInvitations (contactsStore sB1)) ∧ fromWinkdId inv = Some (JStr (u_winkd_id a)) ∧
    let '(cs, frames) := handleApprove (requestId inv) (contactsStore sB1) in
    server_step no_faults (Says sb now (stringify (hd JNull frames))) st1 =
      Some (Some b, ([ToSender z; ToUser (u_id a) w], st2)) ∧
    let sB2 := hears now kb z (mkStores (authStore sB1) (chatStore sB1) cs) in
    has_contact (u_winkd_id a) sB2 ∧
    Forall (λ i, fromWinkdId i ≠ Some (JStr (u_winkd_id a))) (pendingInvitations (contactsStore sB2)) ∧
    has_contact (u_winkd_id b) (hears now ka w (hears now ka x sA)) ∧
    In (u_id b) (list_accepted_contact_user_ids (u_id a) (db st2)) ∧
    In (u_id a) (list_accepted_contact_user_ids (u_id b) (db st2)).
Proof.
  intros H Hka Hkb. destruct (request_made st sa sb a b a' now H) as (r & d & t & Hs1 & Hc).
  destruct (request_accepts st sa sb a b a' now r d H Hc) as (d' & Hs2 & Hab & Hba).
  exists t. do 3 eexists. exists (with_db d st), (with_db d' st), (invitation (cr_id r) a). split; [exact Hs1|]. cbv zeta.
  unfold hears. rewrite (request_read (cr_id r) a now kb sB (mt_plain_a _ _ _ _ _ _ H) Hkb). cbn [snd].
  split; [cbn; apply in_or_app; right; by left|]. split; [done|]. unfold handleApprove. cbn [hd].
  split; [exact Hs2|]. rewrite (accepted_read a' now kb _ (mt_plain_a' _ _ _ _ _ _ H) Hkb).
  rewrite (accepted_read b now ka _ (mt_plain_b _ _ _ _ _ _ H) Hka). cbn [snd].
  pose proof (mt_name_a _ _ _ _ _ _ H) as Hname. split_and!; [| | |exact Hab|exact Hba].
  - exists (befriended a'). split; [by eapply (added_contact _ (u_winkd_id a'))|]. cbn. by rewrite Hname.
  - rewrite <-Hname. cbn [contactsStore on_contacts]. unfold addAcceptedContact.
    destruct (existsb _ _); apply cleared_invitations.
  - exists (befriended b). split; [by eapply (added_contact _ (u_winkd_id b))|]. done.
Qed.

(** C21: Asking a contact again ends the contact. The table has one row for a sender
    and a recipient, and a second request sets it back to pending, whatever its
    status: when a user enters the Winkd ID of somebody who has accepted before, the
    server takes each off the other's contacts until the request is accepted anew. *)
Theorem readd_revokes_contact st sa sb a b a' now r :
  meet st sa sb a b a' → In r (contact_requests (db st)) → goes (u_id a) (u_id b) r = true → cr_status r = StAccepted →
  (∀ r', In r' (contact_requests (db st)) → goes (u_id b) (u_id a) r' = true → cr_status r' ≠ StAccepted) →
  In (u_id b) (list_accepted_contact_user_ids (u_id a) (db st)) ∧
  ∃ outs st', server_step no_faults (Says sa now (add_text (u_winkd_id b))) st = Some (Some a, (outs, st')) ∧
    ¬ In (u_id b) (list_accepted_contact_user_ids (u_id a) (db st')) ∧
    ¬ In (u_id a) (list_accepted_contact_user_ids (u_id b) (db st')).
Proof.
  intros H Hin Hg Ha Hback. pose proof (mt_other _ _ _ _ _ _ H) as [Hne _]. split.
  { unfold goes in Hg. apply andb_true_iff in Hg as [Hf Ht]. apply Nat.eqb_eq in Hf, Ht.
    rewrite <-Hf, <-Ht. apply (accepted_lists (db st) r); try done.
    - rewrite Hf, Ht. exact (mt_open _ _ _ _ _ _ H).
    - congruence. }
  destruct (request_made st sa sb a b a' now H) as (r' & d & t & Hs & Hc). do 2 eexists. split; [exact Hs|].
  assert (∀ x, In x (contact_requests d) → goes (u_id a) (u_id b) x = true ∨ goes (u_id b) (u_id a) x = true →
    cr_status x ≠ StAccepted) as Hno.
  { unfold create_contact_request in Hc. destruct (List.find _ _) as [r0|] eqn:E.
    - injection Hc as _ <-. cbn. intros x (y & <- & Hy)%in_map_iff. destruct (goes (u_id a) (u_id b) y) eqn:Ey; [done|].
      intros [?|?]; [congruence|]. by apply Hback.
    - pose proof (find_none _ _ E r Hin) as Hx. congruence. }
  cbn [db with_db]. unfold list_accepted_contact_user_ids.
  split; intros Hl; apply list_elem_of_In, list_elem_of_omap in Hl as (x & Hx & E);
    (destruct (_ && _) eqn:Eb in E; [|done]); injection E as E;
    rewrite !andb_true_iff in Eb; destruct Eb as [[Hcon Hst] _]; apply bool_decide_eq_true in Hst;
    apply list_elem_of_In in Hx; apply (Hno x Hx); try done; unfold goes, concerns, other_side in *;
    destruct (Nat.eqb_spec (cr_from_id x) (u_id a)) as [E1|E1];
    destruct (Nat.eqb_spec (cr_from_id x) (u_id b)) as [E2|E2]; cbn in *;
    rewrite ?orb_false_l, ?Nat.eqb_eq in *; naive_solver congruence.
Qed.

End handshake.
