(* ===== verification/AppRuns.v ===== *)
(** * From the screen to the wire

    One life of the signed-in page, pages/BuddyListPage.tsx as it runs: the socket
    hook, the sidebar and the chat window over the same stores. Everything the
    browser transmits is traced back to the authentication of a socket or to a
    gesture on what was on the screen. After a sign-in the page is another one. *)

From S2P Require Import Prelude JsString Json Platform Types AuthStore ChatStore ContactsStore Roster Sidebar.
From S2P Require Import Page Security SecurityView Html Widgets SidebarMarkup SidebarRuns ChatMarkup ChatRuns.
From S2P Require Import Socket.

(** The hook's state with the stores, and the panels' own states. *)
Record Running := mkRunning {
  r_app : Socket.App;
  r_sidebar : SidebarState;
  r_chat : ChatLocal;
}.

Abbreviation r_stores r := (stores (r_app r)).

(** What happens without the user: renders, the socket's events, the end of the
    session, and what timers and files of an earlier page write to the chat. *)
Definition by_itself (e : Socket.event) : Prop :=
  match e with
  | ERender | EOpen _ | EMessage _ _ _ | EClose _ _ | EError _ | ELogout | EChat _ => True
  | ELogin _ _ | EProfile _ | EContacts _ | ESend _ => False
  end.

(** The hook's [send] for the frames among the effects. *)
Definition transmit (out : list effect) (a : Socket.App) : list output :=
  flat_map (λ e, match e with Sends f => send f a | Opens _ => [] end) out.

(** What each step transmitted, between the stores before and after it. *)
Abbreviation journal := (list (Stores * list output * Stores)) (only parsing).

Definition wire (tr : journal) : list output := flat_map (λ x, x.1.2) tr.

(** The authentication of a socket. *)
Definition authenticates (t : jsstr) (i : nat) : output := Sent i (auth_frame t).

Section runs.
Context {doubles : Doubles}.
Context (upper : Z → jsstr) (lower : jsstr → jsstr) (format_double : jsstr → jsstr).
Context (fmtDate shortDate : jsstr → jsstr) (VITE_BMAC_MEMBERSHIP_URL VITE_BMAC_PLUS_URL : option jsstr).

Abbreviation sidebar_markup := (SidebarMarkup.Sidebar fmtDate shortDate VITE_BMAC_MEMBERSHIP_URL VITE_BMAC_PLUS_URL)
  (only parsing).
Abbreviation justified := (SidebarRuns.justified VITE_BMAC_MEMBERSHIP_URL VITE_BMAC_PLUS_URL) (only parsing).

(** One step, with what is transmitted. *)
Inductive page_step (r : Running) : list output → Running → Prop :=
  | step_itself e a' out :
      by_itself e → Socket.enabled e (r_app r) = true → Socket.step e (r_app r) = (a', out) →
      page_step r out (mkRunning a' (r_sidebar r) (r_chat r))
  | step_sidebar i sess v hovered acts s' p' out :
      session (authStore (r_stores r)) = Some (i, sess) →
      Page.Sidebar upper lower (local (r_sidebar r)) (r_stores r) sess = Ok v →
      offered (sidebar_markup hovered sess (r_sidebar r) v) acts →
      performs sess acts (r_stores r) (r_sidebar r) = Some (s', p', out) →
      page_step r (transmit out (r_app r)) (mkRunning (with_stores s' (r_app r)) p' (r_chat r))
  | step_settings w e :
      settings (r_sidebar r) = Some w → outside e → Security.enabled e w = true →
      page_step r []
        (mkRunning (r_app r) (with_settings (Some (Security.step e w)) (r_sidebar r)) (r_chat r))
  | step_chat i sess v over k b act s' c' frames :
      session (authStore (r_stores r)) = Some (i, sess) →
      Page.ChatWindow upper format_double (r_stores r) = Ok (Some v) →
      closure sess v = Some k → offered (ChatMarkup.ChatWindow over sess (r_chat r) (Some v)) [act] →
      chat_perform k b act (chatStore (r_stores r)) (r_chat r) = (s', c', frames) →
      page_step r (transmit (map Sends frames) (r_app r))
        (mkRunning (with_stores (set_chat s' (r_stores r)) (r_app r)) (r_sidebar r) c')
  | step_read i read b s' c' frames :
      read_done i read b (chatStore (r_stores r)) (r_chat r) = (s', c', frames) →
      page_step r (transmit (map Sends frames) (r_app r))
        (mkRunning (with_stores (set_chat s' (r_stores r)) (r_app r)) (r_sidebar r) c')
  | step_outside :
      page_step r [] (mkRunning (r_app r) (r_sidebar r) (with_picker None (r_chat r))).

(** Runs from a page that is not rendered yet, step by step. *)
Inductive page_runs (s0 : Stores) : journal → Running → Prop :=
  | page_start : page_runs s0 [] (mkRunning (initialApp s0) initialSidebar initialChat)
  | page_next tr r out r' :
      page_runs s0 tr r → page_step r out r' → page_runs s0 (tr ++ [(r_stores r, out, r_stores r')]) r'.

(** The screen a frame came from justified it. *)
Definition frame_allowed (s : Stores) (f : json) (s' : Stores) : Prop :=
  justified s (Sends f) ∨ sent_ok s f (chatStore s').

(** ** The hook's run *)

Lemma runs_more a0 tr a e a' out :
  Socket.runs a0 tr a → Socket.enabled e a = true → Socket.step e a = (a', out) →
  ∃ tr', Socket.runs a0 (tr ++ tr') a' ∧ flat_map snd tr' = out.
Proof. intros. exists [(e, out)]. split; [by eapply runs_snoc|by cbn; rewrite app_nil_r]. Qed.

Lemma runs_then a0 tr tr1 b tr2 (out1 out2 : list output) :
  flat_map snd tr1 = out1 → Socket.runs a0 ((tr ++ tr1) ++ tr2) b → flat_map snd tr2 = out2 →
  ∃ tr', Socket.runs a0 (tr ++ tr') b ∧ flat_map snd tr' = out1 ++ out2.
Proof.
  intros <- H <-. exists (tr1 ++ tr2). by rewrite (assoc_L (++)), flat_map_app.
Qed.

(** What a gesture transmits is what the hook's [send] transmits. *)
Lemma runs_transmit a0 tr a out :
  Socket.runs a0 tr a → ∃ tr', Socket.runs a0 (tr ++ tr') a ∧ flat_map snd tr' = transmit out a.
Proof.
  revert tr. induction out as [|e out IH]; intros tr H; [by exists []; rewrite app_nil_r|].
  destruct e as [f|url]; [|by apply IH].
  destruct (runs_more a0 tr a (ESend f) a (send f a) H) as (tr1 & H1 & E1); [done..|].
  destruct (IH _ H1) as (tr2 & H2 & E2). by eapply runs_then.
Qed.

(** What a gesture may do to the stores. *)
Definition rewrites (s s' : Stores) : Prop :=
  authStore s' = authStore s ∨ ∃ p, authStore s' = updateProfile p (authStore s).

Lemma runs_rewrite a0 tr a s' :
  Socket.runs a0 tr a → rewrites (stores a) s' →
  ∃ tr', Socket.runs a0 (tr ++ tr') (with_stores s' a) ∧ flat_map snd tr' = [].
Proof.
  intros H Hs. destruct s' as [au ch cs].
  assert (∃ tr1 a1, Socket.runs a0 (tr ++ tr1) a1 ∧ flat_map snd tr1 = [] ∧
    with_stores (mkStores au ch cs) a1 = with_stores (mkStores au ch cs) a ∧ authStore (stores a1) = au)
    as (tr1 & a1 & H1 & E1 & Ea & Eau).
  { destruct Hs as [E|[p E]]; cbn in E.
    - exists [], a. by rewrite app_nil_r.
    - exists [(EProfile p, [])], (with_stores (on_auth (updateProfile p) (stores a)) a).
      split; [by eapply runs_snoc|done]. }
  exists (tr1 ++ [(EChat (λ _, ch), []); (EContacts (λ _, cs), [])]). rewrite flat_map_app, E1.
  split; [|done]. rewrite <-Ea, <-Eau. rewrite (assoc_L (++)).
  change [?x; ?y] with ([x] ++ [y]). rewrite (assoc_L (++)).
  eapply runs_snoc; [by eapply runs_snoc|done..].
Qed.

Lemma runs_gesture a0 tr a out s' :
  Socket.runs a0 tr a → rewrites (stores a) s' →
  ∃ tr', Socket.runs a0 (tr ++ tr') (with_stores s' a) ∧ flat_map snd tr' = transmit out a.
Proof.
  intros H Hs. destruct (runs_transmit a0 tr a out H) as (tr1 & H1 & E1).
  destruct (runs_rewrite a0 _ a s' H1 Hs) as (tr2 & H2 & E2).
  destruct (runs_then _ _ _ _ _ _ _ E1 H2 E2) as (tr' & ? & E). exists tr'. by rewrite app_nil_r in E.
Qed.

(** ** What a step keeps *)

(** Everything signed in holds the token [t]. *)
Record holds_token (t : jsstr) (a : Socket.App) : Prop := {
  ht_session o s : session (authStore (stores a)) = Some (o, s) → token s = t;
  ht_conn i k : conns a !! i = Some k → k_token k = t;
}.

Lemma holds_with t s' a : rewrites (stores a) s' → holds_token t a → holds_token t (with_stores s' a).
Proof.
  intros Hs [H1 H2]. split; [|exact H2]. intros o s. cbn. destruct Hs as [-> |[p ->]]; [apply H1|].
  unfold updateProfile. destruct (session (authStore (stores a))) as [[o' s2]|] eqn:E; [|by rewrite E].
  cbn. intros [= <- <-]. by apply (H1 o' s2).
Qed.

Lemma holds_conn t i k a : k_token k = t → holds_token t a → holds_token t (with_conn i k a).
Proof.
  intros Hk [H1 H2]. split; [exact H1|]. intros j l. cbn. intros [[_ <-]|[_ Hj]]%lookup_insert_Some; eauto.
Qed.

Lemma holds_onmessage t data now k s k' s' :
  onmessage data now k s = (k', s') →
  (∀ o x, session (authStore s) = Some (o, x) → token x = t) →
  k_token k' = k_token k ∧ ∀ o x, session (authStore s') = Some (o, x) → token x = t.
Proof.
  intros Hm%onmessage_effect H. destruct Hm as [|v _ _ _|v s' _ _ Hh]; [done| |].
  - split; [done|]. intros o x. cbn. unfold setSupporterState.
    destruct (session (authStore s)) as [[o' x']|] eqn:E; [|by cbn; rewrite E].
    cbn. intros [= <- <-]. by apply (H o' x').
  - split; [done|]. by rewrite (handle_event_auth _ _ _ _ _ _ Hh).
Qed.

Lemma holds_render t a : holds_token t a → holds_token t (render a).
Proof.
  intros [H1 H2]. unfold render. destruct (decide _); [done|].
  assert (holds_token t (run_cleanup a)) as [H3 H4].
  { unfold run_cleanup. destruct (cleanup a); [|done]. split; [exact H1|]. cbn.
    intros i k (k0 & Hk0 & [[-> _]|(_ & _ & ->)])%close_conn_lookup; cbn; eauto. }
  unfold run_effect. destruct (session (authStore (stores (run_cleanup a)))) as [[o s]|] eqn:E.
  - split; [intros o' x; cbn; rewrite E; apply H3|]. cbn.
    intros i k [[_ <-]|[_ Hk]]%lookup_insert_Some; [cbn; by apply (H3 o s)|eauto].
  - split; [intros o' x; cbn; by rewrite E|exact H4].
Qed.

(** No event of the page's own signs anybody else in. *)
Lemma holds_step t e a a' out :
  by_itself e → Socket.step e a = (a', out) → holds_token t a →
  holds_token t a' ∧ ∀ i text, In (Sent i text) out → text = auth_frame t.
Proof.
  intros He Hs Ha. pose proof Ha as [H1 H2]. destruct e as [|i|i data now|i code|i| | | |f| |]; cbn in Hs; try done.
  - injection Hs as <- <-. by split; [apply holds_render|].
  - destruct (conns a !! i) as [k|] eqn:E; injection Hs as <- <-; [|done].
    split; [apply holds_conn; [by apply (H2 i k)|done]|]. intros j text [[= _ <-]|[]]. by rewrite (H2 i k E).
  - destruct (conns a !! i) as [k|] eqn:E; [|by injection Hs as <- <-].
    destruct (onmessage data now k (stores a)) as [k' s'] eqn:Em. injection Hs as <- <-. split; [|done].
    destruct (holds_onmessage t _ _ _ _ _ _ Em H1) as [Hk Hs'].
    split; [exact Hs'|]. apply (holds_conn t i k' a); [rewrite Hk; by apply (H2 i k)|done].
  - destruct (conns a !! i) as [k|] eqn:E; injection Hs as <- <-; [|done].
    destruct (holds_conn t i (set_state CLOSED k) a (H2 i k E) Ha) as [H3 H4].
    split; [|done]. by destruct (code =? 4001); split.
  - injection Hs as <- <-. by split.
  - injection Hs as <- <-. by split; [split|].
  - injection Hs as <- <-. by split; [split|].
Qed.

(** The authentication came first. *)
Lemma send_opened t f a tr i text :
  hook_ok a tr → holds_token t a → In (Sent i text) (send f a) →
  text = stringify f ∧ In (authenticates t i) (flat_map snd tr).
Proof.
  intros Ha Ht. unfold send. destruct (wsRef a) as [j|]; [|done].
  destruct (conns a !! j) as [k|] eqn:E; [|done]. destruct (k_state k) eqn:Es; try done.
  intros [[= <- <-]|[]]. split; [done|]. apply in_flat_map. eexists. split; [by eapply hk_open|].
  rewrite (ht_conn _ _ Ht j k E). by left.
Qed.

Lemma transmit_sends i text out a :
  In (Sent i text) (transmit out a) → ∃ f, In (Sends f) out ∧ In (Sent i text) (send f a).
Proof. intros ([f|] & Hf & Ht)%in_flat_map; [by exists f|done]. Qed.

Lemma perform_rewrites sess a s p s' p' out : perform sess a s p = Some (s', p', out) → rewrites s s'.
Proof.
  destruct a; cbn; intros H; simplify_eq; try (by left); try (by right; eexists).
  - destruct id as [[]|]; try done. simplify_eq. by left.
  - by destruct a; simplify_eq; left.
  - destruct (handleAddContact _). simplify_eq. by left.
Qed.

Lemma gesture_rewrites hovered sess p v acts s s' p' out :
  offered (sidebar_markup hovered sess p v) acts → performs sess acts s p = Some (s', p', out) → rewrites s s'.
Proof.
  intros Ho. assert (acts = [] ∨ ∃ a, acts = [a]) as [-> |[a ->]].
  { destruct (sidebar_offers _ _ _ _ _ _ _ _ _ Ho) as [?|[(a & -> & _)|(w & acts' & _ & -> & Ha)]]; [by left|eauto|].
    destruct (security_acts _ _ _ _ Ha) as [Hl| ->]; [|by left]. destruct acts' as [|a [|]]; try done. right. by eexists. }
  - by intros [= <- _ _]; left.
  - rewrite performs_one. apply perform_rewrites.
Qed.

Lemma set_chat_rewrites s' s : rewrites s (set_chat s' s).
Proof. by left. Qed.

(** ** Invariant *)

Record page_ok (s0 : Stores) (t : jsstr) (tr : journal) (r : Running) : Prop := {
  pk_hook : ∃ tr', Socket.runs (initialApp s0) tr' (r_app r) ∧ flat_map snd tr' = wire tr;
  pk_token : holds_token t (r_app r);
  pk_sidebar : requests_ok (r_sidebar r);
  pk_chat : reads_ok (r_chat r);
}.

(** What may be transmitted in a step, after what was transmitted before. *)
Definition output_ok (t : jsstr) (before : list output) (s : Stores) (s' : Stores) (o : output) : Prop :=
  ∃ i, o = authenticates t i ∨
    ∃ f, o = Sent i (stringify f) ∧ frame_allowed s f s' ∧ In (authenticates t i) before.

Lemma transmit_ok t s0 tr r out s' :
  page_ok s0 t tr r → (∀ f, In (Sends f) out → frame_allowed (r_stores r) f s') →
  Forall (output_ok t (wire tr) (r_stores r) s') (transmit out (r_app r)).
Proof.
  intros [(tr' & Hr & Hw) Ht _ _] Hf. apply List.Forall_forall. intros [i text] Hin.
  destruct (transmit_sends i text out (r_app r) Hin) as (f & Hin' & Hs).
  destruct (send_opened t f _ tr' i text (hook_ok_runs _ _ _ Hr) Ht Hs) as [-> Ha].
  exists i. right. exists f. rewrite <-Hw. auto.
Qed.

(** A gesture, or a finished read: the hook's stores and the own states change. *)
Lemma gesture_step s0 t tr r out s' p' c' :
  page_ok s0 t tr r → rewrites (r_stores r) s' → requests_ok p' → reads_ok c' →
  (∀ f, In (Sends f) out → frame_allowed (r_stores r) f s') →
  let out' := transmit out (r_app r) in
  page_ok s0 t (tr ++ [(r_stores r, out', s')]) (mkRunning (with_stores s' (r_app r)) p' c') ∧
  Forall (output_ok t (wire tr) (r_stores r) s') out'.
Proof.
  intros Hok Hs Hp Hc Hf out'. split; [|by eapply transmit_ok].
  destruct Hok as [(tr' & Hr & Hw) Ht _ _].
  destruct (runs_gesture _ tr' _ out s' Hr Hs) as (tr2 & Hr2 & E2).
  split; [|by apply holds_with|done|done]. exists (tr' ++ tr2). split; [done|].
  unfold wire. rewrite !flat_map_app, Hw, E2. cbn. by rewrite app_nil_r.
Qed.

Lemma frames_allowed s s' frames :
  Forall (λ f, sent_ok s f (chatStore s')) frames → ∀ f, In (Sends f) (map Sends frames) → frame_allowed s f s'.
Proof.
  intros H f (g & [= <-] & Hg)%in_map_iff. right. rewrite List.Forall_forall in H. auto.
Qed.

Lemma page_step_ok s0 t tr r out r' :
  page_ok s0 t tr r → page_step r out r' →
  page_ok s0 t (tr ++ [(r_stores r, out, r_stores r')]) r' ∧ Forall (output_ok t (wire tr) (r_stores r) (r_stores r')) out.
Proof.
  intros Hok Hs. pose proof Hok as [(tr' & Hr & Hw) Ht Hp Hc].
  destruct Hs as [e a' out He Hen Hs|i sess v hovered acts s' p' out Hs Hv Ho Hp'|w e Hset Hout Hen
    |i sess v over k b act s' c' frames Hs Hv Hk Ho Hp'|i read b s' c' frames Hp'|].
  - destruct (holds_step t e _ a' out He Hs Ht) as [Ht' Ha]. split.
    + destruct (runs_more _ _ _ _ _ _ Hr Hen Hs) as (tr2 & Hr2 & E2). split; [|done..].
      exists (tr' ++ tr2). split; [done|]. unfold wire. rewrite !flat_map_app, Hw, E2. cbn. by rewrite app_nil_r.
    + apply List.Forall_forall. intros [i text] Hin. exists i. left. by rewrite (Ha i text Hin).
  - destruct (gesture_sends _ _ _ _ _ _ _ _ _ _ _ _ _ _ _ _ Hs Hv Hp Ho Hp') as [Hj Hw'].
    apply gesture_step; [done|by eapply gesture_rewrites|done|done|].
    intros f Hf. left. rewrite List.Forall_forall in Hj. auto.
  - rewrite <-(app_nil_r tr) in Hok. split; [|constructor]. split; [|done|by apply settings_sound|done].
    exists tr'. split; [done|]. unfold wire. rewrite flat_map_app, Hw. cbn. by rewrite app_nil_r.
  - destruct (perform_sends _ _ _ _ _ _ _ _ _ _ _ _ _ Hs Hv Hk Hc Hp') as [Hf Hc'].
    apply gesture_step; [done|apply set_chat_rewrites|done|done|by apply frames_allowed].
  - destruct (read_sends _ _ _ _ _ _ _ _ Hc Hp') as [Hf Hc'].
    apply gesture_step; [done|apply set_chat_rewrites|done|done|by apply frames_allowed].
  - split; [|constructor]. split; [|done..].
    exists tr'. split; [done|]. unfold wire. rewrite flat_map_app, Hw. cbn. by rewrite app_nil_r.
Qed.

Lemma page_runs_ok s0 o sess tr r :
  session (authStore s0) = Some (o, sess) → page_runs s0 tr r →
  page_ok s0 (token sess) tr r ∧
  ∀ tr1 s out s' tr2, tr = tr1 ++ (s, out, s') :: tr2 → Forall (output_ok (token sess) (wire tr1) s s') out.
Proof.
  intros Hs. induction 1 as [|tr r out r' Hr [IH IHo] Hstep].
  - split; [|by intros []]. split.
    + exists []. split; [constructor|done].
    + split; [|by intros i k]. cbn. intros o' s. rewrite Hs. by intros [= _ <-].
    + by intros w.
    + constructor.
  - destruct (page_step_ok _ _ _ _ _ _ IH Hstep) as [Hok Hout]. split; [done|].
    intros tr1 s out1 s' tr2 E. destruct tr2 as [|x tr3 _] using rev_ind.
    + apply app_inj_tail in E as [-> [= <- <- <-]]. done.
    + rewrite app_comm_cons, (assoc_L (++)) in E. apply app_inj_tail in E as [-> _]. by eapply IHo.
Qed.

(** ** Properties *)

(** What reaches the server. In one life of the signed-in page, whatever the
    user does with what is on the screen and whatever the network does: the socket
    hook runs as Socket.v has it, and what it transmits is, in order, what the page
    transmits; and each text is either the authentication of a socket with the
    token the page was opened with, or, after that authentication on the same
    socket, the JSON text of a frame that the screen it came from justifies. *)
Theorem page_wire s0 o sess tr r :
  session (authStore s0) = Some (o, sess) → page_runs s0 tr r →
  (∃ tr', Socket.runs (initialApp s0) tr' (r_app r) ∧ flat_map snd tr' = wire tr) ∧
  ∀ tr1 s out s' tr2 i text, tr = tr1 ++ (s, out, s') :: tr2 → In (Sent i text) out →
    text = auth_frame (token sess) ∨
    ∃ f, text = stringify f ∧ (justified s (Sends f) ∨ sent_ok s f (chatStore s')) ∧
      In (Sent i (auth_frame (token sess))) (flat_map (λ x, x.1.2) tr1).
Proof.
  intros Hs Hr. destruct (page_runs_ok s0 o sess tr r Hs Hr) as [[Hh _ _ _] Ho]. split; [done|].
  intros tr1 s out s' tr2 i text E Hin. specialize (Ho tr1 s out s' tr2 E).
  rewrite List.Forall_forall in Ho. destruct (Ho _ Hin) as (j & [[= <- ->]|(f & [= <- ->] & Hf & Ha)]); [by left|].
  right. by exists f.
Qed.

End runs.
