(* ===== verification/Browser.v ===== *)
(** * A tab of the browser

    The application from the first load on, across sign-ins, sign-outs and reloads:
    apps/web/src/App.tsx shows the sign-in page (Login) without a session and the
    page with the socket hook (AppRuns) with one; the persisted store (Persist) is
    all that a reload keeps. The stores of the chat and of the contacts live as
    long as the tab is not reloaded. *)

From S2P Require Import Prelude JsString Utf Json Platform Types AuthStore ChatStore ContactsStore Persist.
From S2P Require Import Socket Roster Sidebar Login Page Html SidebarMarkup SidebarRuns ChatMarkup ChatRuns.
From S2P Require Import AppRuns.

(** The session as a value, without the identity of its object. *)
Definition content (au : AuthState) : option Session := snd <$> session au.

Inductive Screen :=
  | SigningIn (chat : ChatState) (contacts : ContactsState) (p : Login.Page)
  | SignedIn (n : nat) (r : Running).          (** the [n]th page with a session *)

Record Tab := mkTab {
  tab_storage : option jsstr;                  (** [localStorage] at [winkd-auth] *)
  tab_lives : nat;
  tab_screen : Screen;
}.

(** What happens in a tab, as far as it is kept. *)
Inductive mark :=
  | Loaded (o : option Session)                (** the session a load restores *)
  | Reply (e : Login.event)                    (** an event of the sign-in page *)
  | Opened (n : nat) (t : jsstr)               (** page [n] is shown for a session with this token *)
  | Transmitted (n : nat) (s : Stores) (out : list output) (s' : Stores).

(** The page for the stores, mounted anew. *)
Definition show (storage : option jsstr) (n : nat) (s : Stores) : Tab * list mark :=
  match session (authStore s) with
  | None =>
      (mkTab storage n (SigningIn (chatStore s) (contactsStore s) (mkPage initialForm (authStore s) [])), [])
  | Some (_, x) =>
      (mkTab storage (S n) (SignedIn n (mkRunning (initialApp s) initialSidebar initialChat)), [Opened n (token x)])
  end.

(** The sign-in page gives way as soon as there is a session. *)
Definition show_login (storage : option jsstr) (n : nat) (chat : ChatState) (contacts : ContactsState)
    (p : Login.Page) : Tab * list mark :=
  match session (authState p) with
  | None => (mkTab storage n (SigningIn chat contacts p), [])
  | Some _ => show storage n (mkStores (authState p) chat contacts)
  end.

(** A reply is handled with what the storage holds then. *)
Definition reads_storage (storage : option jsstr) (e : Login.event) : Prop :=
  match e with
  | EReply _ s _ | ETotpReply _ s _ => s = storage
  | _ => True
  end.

Section tab.
Context {doubles : Doubles} {persist : Persist}.
Context (upper : Z → jsstr) (lower : jsstr → jsstr) (format_double : jsstr → jsstr).
Context (fmtDate shortDate : jsstr → jsstr) (VITE_BMAC_MEMBERSHIP_URL VITE_BMAC_PLUS_URL : option jsstr).

Abbreviation page_step := (AppRuns.page_step upper lower format_double fmtDate shortDate
  VITE_BMAC_MEMBERSHIP_URL VITE_BMAC_PLUS_URL) (only parsing).
Abbreviation page_runs := (AppRuns.page_runs upper lower format_double fmtDate shortDate
  VITE_BMAC_MEMBERSHIP_URL VITE_BMAC_PLUS_URL) (only parsing).
Abbreviation frame_allowed := (AppRuns.frame_allowed VITE_BMAC_MEMBERSHIP_URL VITE_BMAC_PLUS_URL) (only parsing).
Abbreviation output_ok := (AppRuns.output_ok VITE_BMAC_MEMBERSHIP_URL VITE_BMAC_PLUS_URL) (only parsing).
Abbreviation justified := (SidebarRuns.justified VITE_BMAC_MEMBERSHIP_URL VITE_BMAC_PLUS_URL) (only parsing).

(** The stores of a tab that is loaded: the persisted session, and nothing else. *)
Definition load (storage : option jsstr) : Stores :=
  mkStores (mkAuth ((λ s, (0%nat, s)) <$> hydrate storage) 1) emptyChat emptyContacts.

(** Every [set] of the store writes the storage. *)
Definition saves (au au' : AuthState) (storage storage' : option jsstr) : Prop :=
  au' = au ∧ storage' = storage ∨ storage' = Some (written (content au')).

Inductive tab_step (t : Tab) : list mark → Tab → Prop :=
  | step_form chat contacts p e storage' t' ms :
      tab_screen t = SigningIn chat contacts p →
      Login.enabled e p → reads_storage (tab_storage t) e →
      saves (authState p) (authState (Login.step e p)) (tab_storage t) storage' →
      show_login storage' (tab_lives t) chat contacts (Login.step e p) = (t', ms) →
      tab_step t (Reply e :: ms) t'
  | step_late chat contacts p chat' :          (** a file of an earlier page was read *)
      tab_screen t = SigningIn chat contacts p →
      tab_step t [] (mkTab (tab_storage t) (tab_lives t) (SigningIn chat' contacts p))
  | step_page n r out r' storage' :
      tab_screen t = SignedIn n r → page_step r out r' →
      saves (authStore (r_stores r)) (authStore (r_stores r')) (tab_storage t) storage' →
      tab_step t [Transmitted n (r_stores r) out (r_stores r')] (mkTab storage' (tab_lives t) (SignedIn n r'))
  | step_leave n r t' ms :
      tab_screen t = SignedIn n r → session (authStore (r_stores r)) = None →
      show (tab_storage t) (tab_lives t) (r_stores r) = (t', ms) →
      tab_step t ms t'
  | step_reload t' ms :
      show (tab_storage t) (tab_lives t) (load (tab_storage t)) = (t', ms) →
      tab_step t (Loaded (hydrate (tab_storage t)) :: ms) t'.

(** The tab from its first load, with the storage it finds. *)
Inductive tab_runs (storage : option jsstr) : list mark → Tab → Prop :=
  | tab_start t ms :
      show storage 0 (load storage) = (t, ms) → tab_runs storage (Loaded (hydrate storage) :: ms) t
  | tab_next tr t ms t' :
      tab_runs storage tr t → tab_step t ms t' → tab_runs storage (tr ++ ms) t'.

(** ** What a tab has done *)

(** The server gave this token out, or a load found it in the storage. *)
Definition obtained (x : jsstr) (tr : list mark) : Prop :=
  (∃ e, In (Reply e) tr ∧ grants e x) ∨ ∃ s, In (Loaded (Some s)) tr ∧ token s = x.

(** What page [n] has transmitted. *)
Definition sent_in (n : nat) (tr : list mark) : list output :=
  flat_map (λ m, match m with
                 | Transmitted k _ out _ => if decide (k = n) then out else []
                 | _ => []
                 end) tr.

Record history_ok (lives : nat) (tr : list mark) : Prop := {
  hs_opened n x : In (Opened n x) tr → (n < lives)%nat ∧ obtained x tr;
  hs_unique n x y : In (Opened n x) tr → In (Opened n y) tr → x = y;
  hs_sent n s out s' : In (Transmitted n s out s') tr → (n < lives)%nat;
  hs_ok tr1 n s out s' tr2 :
    tr = tr1 ++ Transmitted n s out s' :: tr2 →
    ∃ x, In (Opened n x) tr1 ∧ Forall (output_ok x (sent_in n tr1) s s') out;
}.

Definition screen_ok (tr : list mark) (v : Screen) : Prop :=
  match v with
  | SigningIn _ _ p => session (authState p) = None
  | SignedIn n r =>
      ∃ s0 o sess tr', session (authStore s0) = Some (o, sess) ∧ page_runs s0 tr' r ∧
        In (Opened n (token sess)) tr ∧ sent_in n tr = wire tr'
  end.

Lemma obtained_app x tr ms : obtained x tr → obtained x (tr ++ ms).
Proof.
  intros [(e & He & Hg)|(s & Hs & Ht)]; [left; exists e|right; exists s]; (split; [apply in_or_app; by left|done]).
Qed.

Lemma sent_in_app n tr ms : sent_in n (tr ++ ms) = sent_in n tr ++ sent_in n ms.
Proof. apply flat_map_app. Qed.

Lemma sent_in_fresh n lives tr : history_ok lives tr → (lives ≤ n)%nat → sent_in n tr = [].
Proof.
  intros [_ _ H _] Hn. unfold sent_in. induction tr as [|m tr IH]; [done|]. cbn.
  rewrite IH by (intros; eapply H; by right). rewrite app_nil_r. destruct m as [| | |k s out s']; try done.
  rewrite decide_False; [done|]. specialize (H k s out s' (or_introl eq_refl)). lia.
Qed.

Lemma history_snoc lives lives' tr m :
  history_ok lives tr → (lives ≤ lives')%nat →
  match m with
  | Opened n x => n = lives ∧ (lives < lives')%nat ∧ obtained x tr
  | Transmitted n s out s' =>
      (n < lives)%nat ∧ ∃ x, In (Opened n x) tr ∧ Forall (output_ok x (sent_in n tr) s s') out
  | _ => True
  end →
  history_ok lives' (tr ++ [m]).
Proof.
  intros [H1 H2 H3 H4] Hl Hm. assert (∀ y, In y (tr ++ [m]) → In y tr ∨ y = m) as Hin.
  { intros y [?|[->|[]]]%in_app_iff; auto. }
  split.
  - intros n x [H|<-]%Hin.
    + destruct (H1 n x H) as [? ?]. split; [lia|by apply obtained_app].
    + destruct Hm as (-> & ? & ?). split; [lia|by apply obtained_app].
  - intros n x y [Hx|<-]%Hin [Hy|E]%Hin; [by eapply H2| | |by injection E].
    + subst m. destruct Hm as (-> & _). destruct (H1 _ _ Hx). lia.
    + destruct Hm as (-> & _). destruct (H1 _ _ Hy). lia.
  - intros n s out s' [H|<-]%Hin; [specialize (H3 _ _ _ _ H); lia|]. destruct Hm. lia.
  - intros tr1 n s out s' tr2 E. destruct tr2 as [|y tr3 _] using rev_ind.
    + apply app_inj_tail in E as [<- ->]. by destruct Hm.
    + rewrite app_comm_cons, (assoc_L (++)) in E. apply app_inj_tail in E as [-> _]. by eapply H4.
Qed.

Lemma show_ok storage n s t ms tr :
  history_ok n tr → (∀ o x, session (authStore s) = Some (o, x) → obtained (token x) tr) →
  show storage n s = (t, ms) →
  history_ok (tab_lives t) (tr ++ ms) ∧ screen_ok (tr ++ ms) (tab_screen t).
Proof.
  intros Hh Hs. unfold show. destruct (session (authStore s)) as [[o x]|] eqn:E; intros [= <- <-]; cbn.
  - assert (history_ok (S n) (tr ++ [Opened n (token x)])) as Hh'.
    { apply (history_snoc n); [done|lia|]. split_and!; [done|lia|by eapply Hs]. }
    split; [done|]. exists s, o, x, []. split_and!; [done|constructor|apply in_or_app; right; by left|].
    rewrite sent_in_app, (sent_in_fresh n n tr) by done. done.
  - rewrite app_nil_r. by split.
Qed.

(** The only events of the sign-in page that make a session are the server's. *)
Lemma form_step_grants e p o x :
  Login.enabled e p → session (authState p) = None → session (authState (Login.step e p)) = Some (o, x) →
  grants e (token x).
Proof.
  intros He Hn. destruct e as [g|m| | | |i storage r|i storage r]; cbn in He |- *; try congruence.
  - destruct (Login.pending p !! i) as [[? ? m|]|]; try congruence.
    destruct (submit_reply storage m r (form p) (authState p)) as [f st] eqn:E. cbn. intros Hs.
    destruct (submit_reply_spec _ _ _ _ _ _ _ E) as (_ & _ & [->|(o' & x' & Hs' & Hg)]); [congruence|].
    rewrite Hs in Hs'. injection Hs' as <- <-. apply (Hg i).
  - destruct (totp_reply storage r (form p) (authState p)) as [f st] eqn:E. cbn. intros Hs.
    destruct (totp_reply_spec _ _ _ _ _ _ E) as (_ & _ & _ & [->|(o' & x' & Hs' & Hg)]); [congruence|].
    rewrite Hs in Hs'. injection Hs' as <- <-. apply (Hg i).
Qed.

Lemma load_obtained storage tr o x :
  session (authStore (load storage)) = Some (o, x) → obtained (token x) (tr ++ [Loaded (hydrate storage)]).
Proof.
  cbn. destruct (hydrate storage) as [y|]; [|done]. intros [= _ <-]. right. exists y.
  split; [apply in_or_app; right; by left|done].
Qed.

Lemma tab_step_ok tr t ms t' :
  history_ok (tab_lives t) tr → screen_ok tr (tab_screen t) → tab_step t ms t' →
  history_ok (tab_lives t') (tr ++ ms) ∧ screen_ok (tr ++ ms) (tab_screen t').
Proof.
  intros Hh Hv Hs. destruct Hs as [chat cs p e sto' t' ms Hscr He _ _ Hshow|chat cs p chat' Hscr
    |n r out r' sto' Hscr Hs _|n r t' ms Hscr Hn Hshow|t' ms Hshow].
  - rewrite Hscr in Hv. cbn in Hv. assert (history_ok (tab_lives t) (tr ++ [Reply e])) as Hh' by (by apply (history_snoc (tab_lives t))).
    change (Reply e :: ms) with ([Reply e] ++ ms). rewrite (assoc_L (++)). unfold show_login in Hshow.
    destruct (session (authState (Login.step e p))) as [[o x]|] eqn:E.
    + eapply show_ok; [done| |done]. cbn. intros o' x' Hx. left. exists e.
      split; [apply in_or_app; right; by left|]. by eapply form_step_grants.
    + injection Hshow as <- <-. rewrite app_nil_r. by split.
  - rewrite Hscr in Hv. rewrite app_nil_r. by split.
  - rewrite Hscr in Hv. destruct Hv as (s0 & o & sess & tr' & Hs0 & Hr & Hop & Hsent).
    pose proof (page_next _ _ _ _ _ _ _ _ _ _ _ _ Hr Hs) as Hr'.
    destruct (page_runs_ok _ _ _ _ _ _ _ _ _ _ _ _ Hs0 Hr') as [_ Hout].
    specialize (Hout tr' _ _ _ [] eq_refl). rewrite <-Hsent in Hout. split; cbn.
    + apply (history_snoc (tab_lives t)); [done|lia|]. split; [by eapply hs_opened|by exists (token sess)].
    + exists s0, o, sess, (tr' ++ [(r_stores r, out, r_stores r')]). split_and!; [done..|apply in_or_app; by left|].
      rewrite sent_in_app, Hsent. unfold wire. rewrite flat_map_app. cbn. by rewrite decide_True.
  - eapply show_ok; [done| |done]. congruence.
  - change (Loaded (hydrate (tab_storage t)) :: ms) with ([Loaded (hydrate (tab_storage t))] ++ ms). rewrite (assoc_L (++)).
    eapply show_ok; [by apply (history_snoc (tab_lives t))| |done]. apply load_obtained.
Qed.

Lemma tab_runs_ok storage tr t :
  tab_runs storage tr t → history_ok (tab_lives t) tr ∧ screen_ok tr (tab_screen t).
Proof.
  induction 1 as [t ms Hshow|tr t ms t' Hr [Hh Hv] Hs]; [|by eapply tab_step_ok].
  change (Loaded (hydrate storage) :: ms) with (([] ++ [Loaded (hydrate storage)]) ++ ms).
  eapply (show_ok storage 0 (load storage)); [|apply load_obtained|done].
  apply (history_snoc 0); [|lia|done]. split; try done. by intros [].
Qed.

(** ** The storage *)

Definition tab_auth (t : Tab) : AuthState :=
  match tab_screen t with
  | SigningIn _ _ p => authState p
  | SignedIn _ r => authStore (r_stores r)
  end.

(** The storage holds what was set last, or it is as the last load found it. *)
Definition in_sync (storage : option jsstr) (au : AuthState) : Prop :=
  storage = Some (written (content au)) ∨ content au = hydrate storage.

Lemma saves_sync au au' sto sto' : in_sync sto au → saves au au' sto sto' → in_sync sto' au'.
Proof. by intros H [[-> ->]| ->]; [|left]. Qed.

Lemma show_sync storage n s t ms : in_sync storage (authStore s) → show storage n s = (t, ms) →
  in_sync (tab_storage t) (tab_auth t).
Proof. unfold show. by destruct (session (authStore s)) as [[]|]; intros ? [= <- <-]. Qed.

Lemma load_sync storage : in_sync storage (authStore (load storage)).
Proof. right. unfold content, load. cbn [authStore session]. by destruct (hydrate storage). Qed.

Lemma tab_sync storage tr t : tab_runs storage tr t → in_sync (tab_storage t) (tab_auth t).
Proof.
  induction 1 as [t ms Hshow|tr t ms t' _ IH Hs]; [by eapply show_sync; [apply load_sync|]|].
  unfold tab_auth in IH. destruct Hs as [chat cs p e sto' t' ms Hscr _ _ Hsave Hshow|chat cs p chat' Hscr
    |n r out r' sto' Hscr _ Hsave|n r t' ms Hscr _ Hshow|t' ms Hshow].
  - rewrite Hscr in IH. pose proof (saves_sync _ _ _ _ IH Hsave) as Hsync. unfold show_login in Hshow.
    destruct (session (authState (Login.step e p))); [refine (show_sync _ _ _ _ _ _ Hshow); exact Hsync|injection Hshow as <- <-; exact Hsync].
  - rewrite Hscr in IH. exact IH.
  - rewrite Hscr in IH. exact (saves_sync _ _ _ _ IH Hsave).
  - rewrite Hscr in IH. by eapply show_sync.
  - eapply show_sync; [apply load_sync|done].
Qed.

(** What is stored has the version of this program. *)
Definition current (storage : option jsstr) : Prop :=
  ∀ raw v, storage = Some raw → parse_json raw = Ok v → stored_version v = Some (JNum 0).

Lemma nothing_kept `{!PersistLaws} storage au id :
  current storage → in_sync storage au → session au = None → kept storage id = (None, online).
Proof.
  intros Hcur Hs Hn. unfold content in Hs. unfold in_sync, content in Hs. rewrite Hn in Hs. cbn in Hs.
  destruct storage as [raw|]; [|done]. unfold kept. destruct (decide (raw = [])); [done|]. unfold stored_profile.
  destruct (parse_json raw) as [v|] eqn:Ep; [|done]. cbn [mbind result_bind mret result_ret option_bind].
  assert (∀ l, stored_session v ≠ Some (JObj l)) as Hv.
  { intros l E. destruct Hs as [[= ->]|Hh].
    - rewrite law_written, json_roundtrip in Ep by done. by injection Ep as <-.
    - destruct (law_object raw v l Ep (Hcur _ _ eq_refl Ep) E) as [s Hs]. congruence. }
  change (json_get (js "state") v ≫= json_get (js "session")) with (stored_session v).
  destruct (stored_session v) as [[]|]; try done. by destruct (Hv l).
Qed.

(** ** Signing out *)

Lemma window_shows s conv c i sess :
  (∀ u, Forall (λ n, 0 ≤ n) (upper u)) → showable s → session (authStore s) = Some (i, sess) →
  shown_conversation (chatStore s) = Some conv → find_contact conv (contactsStore s) = Some c →
  ∃ view, Page.ChatWindow upper format_double s = Ok (Some view) ∧ cw_conversation view = conv.
Proof.
  intros Hu [_ Hm Hc] Hs Hconv Hf. destruct (ChatWindow_total upper format_double Hu s Hm Hc) as [v Hv].
  pose proof Hv as H. unfold Page.ChatWindow in H. rewrite Hconv in H.
  destruct (cv_messages conv) as [ms|]; [|done]. cbn [mbind result_bind option_bind] in H.
  rewrite Hf, Hs in H. cbv zeta in H.
  apply bind_Ok in H as (? & _ & (? & _ & (? & _ & (? & _ & (? & _ & [= <-])%bind_Ok)%bind_Ok)%bind_Ok)%bind_Ok).
  by eexists.
Qed.

(** The server closes a socket of the page with code 4001: the sign-in page is
    shown, over the same conversations and contacts. *)
Lemma signing_out storage tr t n r i :
  tab_runs storage tr t → tab_screen t = SignedIn n r → Socket.enabled (Socket.EClose i 4001) (r_app r) = true →
  let s := r_stores r in
  ∃ ms, tab_runs storage (tr ++ ms)
    (mkTab (Some (written None)) (tab_lives t)
       (SigningIn (chatStore s) (contactsStore s) (mkPage initialForm (logout (authStore s)) []))).
Proof.
  intros Hr Hv He s. destruct (Socket.step (Socket.EClose i 4001) (r_app r)) as [a out] eqn:Es.
  assert (stores a = on_auth logout s ∧ out = []) as [E ->].
  { cbn in He, Es. destruct (conns (r_app r) !! i); [|done]. by injection Es as <- <-. }
  set (r1 := mkRunning a (r_sidebar r) (r_chat r)).
  exists ([Transmitted n s [] (r_stores r1)] ++ []). rewrite (assoc_L (++)).
  apply (tab_next _ _ (mkTab (Some (written None)) (tab_lives t) (SignedIn n r1))).
  - eapply tab_next; [exact Hr|]. apply (step_page t n r [] r1); [done|by apply (step_itself _ _ _ _ _ _ _ r (Socket.EClose i 4001) a [])|]. right. cbn. by rewrite E.
  - eapply (step_leave _ n r1); [done|cbn; by rewrite E|]. unfold show. cbn. by rewrite E.
Qed.

(** Any use of the sign-in page, with whatever the server answers. *)
Inductive form_steps (t : Tab) : Tab → Prop :=
  | form_start : form_steps t t
  | form_next t1 e ms t2 : form_steps t t1 → tab_step t1 (Reply e :: ms) t2 → form_steps t t2.

(** The page of a session that is shown anew, over these conversations and contacts. *)
Definition starts_over (chat : ChatState) (contacts : ContactsState) (v : Screen) : Prop :=
  match v with
  | SigningIn chat' contacts' _ => chat' = chat ∧ contacts' = contacts
  | SignedIn _ r =>
      ∃ au, r = mkRunning (initialApp (mkStores au chat contacts)) initialSidebar initialChat ∧ is_Some (session au)
  end.

Lemma show_starts storage n au chat contacts t ms :
  show storage n (mkStores au chat contacts) = (t, ms) → starts_over chat contacts (tab_screen t).
Proof.
  unfold show. cbn [authStore chatStore contactsStore]. destruct (session au) as [[o x]|] eqn:E; intros [= <- _]; cbn; [|done].
  exists au. by rewrite E.
Qed.

Lemma form_steps_start t t' chat contacts :
  form_steps t t' → starts_over chat contacts (tab_screen t) → starts_over chat contacts (tab_screen t').
Proof.
  induction 1 as [|t1 e ms t2 _ IH Hs]; [done|]. intros Ht%IH. remember (Reply e :: ms) as l eqn:El.
  destruct Hs as [ch cs p e' sto' t2 ms' Hscr He _ _ Hshow|ch cs p chat' Hscr
    |n r out r' sto' Hscr _ _|n r t2 ms' Hscr Hn Hshow|t2 ms' Hshow].
  - rewrite Hscr in Ht. destruct Ht as [-> ->]. unfold show_login in Hshow.
    destruct (session (authState (Login.step e' p))); [by eapply show_starts|]. by injection Hshow as <- <-.
  - done.
  - done.
  - exfalso. unfold show in Hshow. rewrite Hn in Hshow. injection Hshow as _ <-. done.
  - done.
Qed.

(** Somebody fills in the form and is signed in by the server. *)
Lemma signing_in sto n chat contacts au f d :
  session au = None → typing f →
  let s := mkStores (completeLogin sto d au) chat contacts in
  ∃ sto', form_steps (mkTab sto n (SigningIn chat contacts (mkPage initialForm au [])))
    (mkTab sto' (S n) (SignedIn n (mkRunning (initialApp s) initialSidebar initialChat))).
Proof.
  intros Hn Hf s. destruct (Hf initialForm) as (Em & El & _).
  set (p1 := Login.step (EInput f) (mkPage initialForm au [])). set (p2 := Login.step ESubmit p1).
  set (e := EReply 0 sto (Answered (mkData false None d))).
  destruct (completeLogin_session sto d au) as (o & x & Hx & Hxt).
  exists (Some (written (content (authStore s)))).
  eapply (form_next _ (mkTab sto n (SigningIn chat contacts p2)) e [Opened n (token x)]).
  - eapply (form_next _ (mkTab sto n (SigningIn chat contacts p1)) ESubmit []).
    + eapply (form_next _ _ (EInput f) []); [constructor|].
      eapply step_form; [done|exact Hf|done|by left|]. unfold show_login. cbn. by rewrite Hn.
    + eapply step_form; [done|cbn; by rewrite Em, El|done|by left|]. unfold show_login. cbn. by rewrite Hn.
  - eapply (step_form _ chat contacts p2 e); [done|cbn; by do 3 eexists|done|by right|].
    unfold show_login, show. cbn [Login.step e]. change (Login.pending p2 !! 0%nat) with (Some (handleSubmit (form p1)).2).
    cbn. by rewrite Hx.
Qed.

(** ** Properties *)

(** C14: What a tab sends, over all of its pages. In every run of a tab, with any
    sign-ins, sign-outs and reloads: a page belongs to one token, which a reply of
    the server gave out or a load found in the storage; and each text a page
    transmits is the authentication of a socket with that page's token, or comes
    after it on the same socket and is the JSON text of a frame that the screen it
    came from justifies. No page ever uses the token of another sign-in. *)
Theorem tab_wire storage tr t :
  tab_runs storage tr t →
  (∀ n x, In (Opened n x) tr → obtained x tr ∧ ∀ y, In (Opened n y) tr → x = y) ∧
  ∀ tr1 n s out s' tr2 i text, tr = tr1 ++ Transmitted n s out s' :: tr2 → In (Sent i text) out →
    ∃ x, In (Opened n x) tr1 ∧
      (text = auth_frame x ∨
       ∃ f, text = stringify f ∧ (justified s (Sends f) ∨ sent_ok s f (chatStore s')) ∧
         In (Sent i (auth_frame x)) (sent_in n tr1)).
Proof.
  intros Hr. destruct (tab_runs_ok storage tr t Hr) as [[H1 H2 _ H4] _]. split.
  - intros n x Hx. split; [by apply (H1 n)|]. intros y Hy. by eapply H2.
  - intros tr1 n s out s' tr2 i text E Hin. destruct (H4 _ _ _ _ _ _ E) as (x & Hx & Ho). exists x. split; [done|].
    rewrite List.Forall_forall in Ho. destruct (Ho _ Hin) as (j & [[= <- ->]|(f & [= <- ->] & Hf & Ha)]); [by left|].
    right. by exists f.
Qed.

(** C15: A reload keeps the session and nothing else. At any time in a tab's life, if
    the session can be written as JSON, a reload reads the same session back,
    profile, supporter state and all, whatever happened since it was written; the
    page for it starts with no conversation, no contact and no socket, and without a
    session the sign-in form is empty. *)
Theorem reload_keeps_session `{!PersistLaws} storage tr t :
  tab_runs storage tr t → storable_session (content (tab_auth t)) →
  ∃ t' ms, tab_step t (Loaded (content (tab_auth t)) :: ms) t' ∧ content (tab_auth t') = content (tab_auth t) ∧
    match tab_screen t', content (tab_auth t) with
    | SignedIn n r, Some x =>
        ms = [Opened n (token x)] ∧ r_sidebar r = initialSidebar ∧ r_chat r = initialChat ∧
        chatStore (r_stores r) = emptyChat ∧ contactsStore (r_stores r) = emptyContacts ∧
        conns (r_app r) = ∅ ∧ wsRef (r_app r) = None
    | SigningIn chat contacts p, None =>
        ms = [] ∧ chat = emptyChat ∧ contacts = emptyContacts ∧ form p = initialForm ∧ Login.pending p = []
    | _, _ => False
    end.
Proof.
  intros Hr Ho. assert (hydrate (tab_storage t) = content (tab_auth t)) as Hh.
  { destruct (tab_sync _ _ _ Hr) as [E|E]; [by rewrite E, hydrate_written|done]. }
  destruct (show (tab_storage t) (tab_lives t) (load (tab_storage t))) as [t' ms] eqn:E.
  exists t', ms. split; [rewrite <-Hh; by apply step_reload|].
  unfold show, load in E. cbn in E. rewrite Hh in E. destruct (content (tab_auth t)) as [x|]; injection E as <- <-; cbn; by split_and!.
Qed.

(** Signing in restores nothing. The sign-in page looks in the storage for the
    avatar and the status of the user's last session; in a tab, whenever that page
    is shown, the storage holds no session, so the search is in vain: a user who
    signs in is online, and has no avatar but the server's (a text that an older
    version of the program left, and that is not loaded, aside). *)
Theorem sign_in_restores_nothing `{!PersistLaws} storage tr t chat contacts p d st :
  tab_runs storage tr t → current (tab_storage t) → tab_screen t = SigningIn chat contacts p →
  completeLogin (tab_storage t) d st =
    login (r_session_token d)
      (mkOwnProfile (mkUserProfile (r_winkd_id d) (r_display_name d) (r_mood_message d) online (r_avatar_data d))
         (r_session_token d)) st.
Proof.
  intros Hr Hcur Hv. pose proof (tab_sync _ _ _ Hr) as Hs. destruct (tab_runs_ok _ _ _ Hr) as [_ Hn].
  unfold tab_auth in Hs. rewrite Hv in Hs, Hn. cbn in Hn. unfold completeLogin.
  rewrite (nothing_kept _ _ _ Hcur Hs Hn). by destruct (r_avatar_data d).
Qed.

(** C16: The next user sees the conversation. When the server ends a session with
    code 4001 while a conversation is open, the sign-in page is shown, with an empty
    form, over the same conversations and contacts. However it is used then, by
    whoever, and whatever the server answers: as soon as there is a session, the
    first screen of its user shows that conversation, out of the stores of the user
    before. And every reply that grants a session leads there. *)
Theorem next_user_sees_conversation storage tr t n r i conv c :
  (∀ u, Forall (λ v, 0 ≤ v) (upper u)) →
  tab_runs storage tr t → tab_screen t = SignedIn n r → Socket.enabled (Socket.EClose i 4001) (r_app r) = true →
  showable (r_stores r) →
  shown_conversation (chatStore (r_stores r)) = Some conv → find_contact conv (contactsStore (r_stores r)) = Some c →
  let s := r_stores r in
  ∃ ms t1, tab_runs storage (tr ++ ms) t1 ∧
    tab_screen t1 = SigningIn (chatStore s) (contactsStore s) (mkPage initialForm (logout (authStore s)) []) ∧
    (∀ t2 n' r' o sess, form_steps t1 t2 → tab_screen t2 = SignedIn n' r' →
      session (authStore (r_stores r')) = Some (o, sess) →
      is_js (winkdId (own_profile (profile sess))) → well_formed (winkdId (own_profile (profile sess))) = true →
      chatStore (r_stores r') = chatStore s ∧ contactsStore (r_stores r') = contactsStore s ∧
      ∃ sidebar view,
        Page.App upper lower format_double (local (r_sidebar r')) (r_stores r') = Ok (BuddyScreen sidebar (Some view)) ∧
        cw_conversation view = conv) ∧
    ∀ f d, typing f → ∃ t2 n' r' o sess, form_steps t1 t2 ∧ tab_screen t2 = SignedIn n' r' ∧
      session (authStore (r_stores r')) = Some (o, sess) ∧
      token sess = r_session_token d ∧ winkdId (own_profile (profile sess)) = r_winkd_id d.
Proof.
  intros Hu Hr Hv He [_ Hm Hc] Hconv Hct s.
  destruct (signing_out _ _ _ _ _ _ Hr Hv He) as (ms & Hr1). do 2 eexists. split; [exact Hr1|]. split; [done|]. split.
  - intros t2 n' r' o sess Hf Hs2 Hses Hj Hw.
    pose proof (form_steps_start _ _ (chatStore s) (contactsStore s) Hf ltac:(done)) as Hst. rewrite Hs2 in Hst.
    destruct Hst as (au & -> & _). split; [done|]. split; [done|]. cbn in Hses.
    set (s2 := mkStores au (chatStore s) (contactsStore s)).
    assert (showable s2) as Hsh.
    { split; [|exact Hm|exact Hc]. intros o' x. cbn. rewrite Hses. by intros [= _ <-]. }
    destruct (window_shows s2 conv c o sess Hu Hsh Hses Hconv Hct) as (view & Hview & Hcv).
    destruct (Sidebar_total upper lower Hu (local initialSidebar) s2 o sess Hses (sh_auth _ Hsh) Hc) as [sv Hsv].
    exists sv, view. split; [|done].
    change (Page.App upper lower format_double (local initialSidebar) s2 = Ok (BuddyScreen sv (Some view))).
    unfold Page.App. change (authStore s2) with au. rewrite Hses, Hsv. cbn [mbind result_bind]. by rewrite Hview.
  - intros f d Hf. destruct (signing_in (Some (written None)) (tab_lives t) (chatStore s) (contactsStore s)
      (logout (authStore s)) f d eq_refl Hf) as (sto' & Hsteps).
    do 3 eexists. destruct (completeLogin_session (Some (written None)) d (logout (authStore s))) as (o & x & Hx & Hxt).
    exists o, x. split; [exact Hsteps|]. split; [done|]. split; [exact Hx|]. split; [done|].
    revert Hx. unfold completeLogin. destruct (kept _ _). by intros [= _ <-].
Qed.

End tab.
