(* ===== verification/ServiceWorker.v ===== *)
(** * sw.js: the service worker

    apps/web/public/sw.js. A handler is a tree of the platform calls it makes
    ([task]); each call is a turn of the event loop, a promise that is not
    awaited is a task of its own ([Fork]), and the worker's tasks are interleaved
    in any order. What the network answers comes with the turn. [worker] has the
    named caches, the objects behind them, the tasks and what was done; [seen]
    is a ghost: every answer of the network. *)

From S2P Require Import Prelude JsString Utf Json Platform.

(** ** The platform: requests, responses, caches *)

(** The URL parser, and where the worker is served from. *)
Class Location := {
  location_origin : jsstr;
  url_origin : jsstr → jsstr;
  url_hostname : jsstr → jsstr;
}.

Record Request := mkRequest {
  q_url : jsstr; q_method : jsstr; q_mode : jsstr;
  q_headers : list (jsstr * jsstr) }.

(** An opaque response (of a cross-origin request without CORS) has status 0. *)
Record Response := mkResponse {
  r_status : Z; r_vary : list jsstr; r_body : jsstr }.

#[global] Instance Request_eq_dec : EqDecision Request.
Proof. solve_decision. Defined.
#[global] Instance Response_eq_dec : EqDecision Response.
Proof. solve_decision. Defined.

(** [response.ok] *)
Definition ok (r : Response) : bool := (200 <=? r_status r) && (r_status r <=? 299).

(** The list of requests and responses of a Cache object. *)
Abbreviation Cache := (list (Request * Response)) (only parsing).

(** A URL without its fragment. *)
Fixpoint no_fragment (url : jsstr) : jsstr :=
  match url with
  | [] => []
  | c :: url => if c =? 35 then [] else c :: no_fragment url
  end.

(** Whether a stored entry answers a request: same URL, and equal values of the
    headers that the stored response varies by. *)
Definition entry_matches (q : Request) (e : Request * Response) : bool :=
  bool_decide (q_method q = js "GET") &&
  bool_decide (no_fragment (q_url q) = no_fragment (q_url e.1)) &&
  forallb (λ h, negb (bool_decide (h = js "*")) &&
                bool_decide (map_get h (q_headers q) = map_get h (q_headers e.1))) (r_vary e.2).

Definition cache_match (q : Request) (c : Cache) : option Response :=
  snd <$> List.find (entry_matches q) c.

(** [cache.put]: entries the request matches are replaced. *)
Definition storable (q : Request) (r : Response) : bool :=
  bool_decide (q_method q = js "GET") && negb (r_status r =? 206) &&
  negb (bool_decide (js "*" ∈ r_vary r)).

Definition cache_put (q : Request) (r : Response) (c : Cache) : Cache :=
  List.filter (λ e, negb (entry_matches q e)) c ++ [(q, r)].

(** ** Handlers as trees of platform calls *)

Record WindowClient := mkWindowClient { w_id : nat; w_url : jsstr; w_focus : bool }.

(** What a handler does that can be seen from outside. *)
Inductive output :=
  | Answered (q : Request) (r : option Response)   (** [respondWith]; [None] is a network error *)
  | Installed (r : result unit)                    (** the promise given to [waitUntil] of install *)
  | SkipWaiting
  | Claimed
  | Notified (title body tag : jsstr) (url contactId : value)
  | NotificationClosed
  | Focused (id : nat)
  | OpenedWindow (url : value)
  | Flushed.

Inductive sw_op : Type → Type :=
  | CachesOpen (name : jsstr) : sw_op nat
  | CachesKeys : sw_op (list jsstr)
  | CachesDelete (name : jsstr) : sw_op bool
  | CachesMatch (q : Request) : sw_op (option Response)
  | CacheMatch (c : nat) (q : Request) : sw_op (option Response)
  | CachePut (c : nat) (q : Request) (r : Response) : sw_op unit
  | CacheAddAll (c : nat) (qs : list Request) : sw_op (result unit)
  | Fetch (q : Request) : sw_op (option Response)
  | MatchAll : sw_op (list WindowClient)
  | Emit (o : output) : sw_op unit.

Inductive task :=
  | Done
  | Do {R : Type} (o : sw_op R) (k : R → task)
  | Fork (p : task) (k : task).

Declare Scope task_scope.
Delimit Scope task_scope with task.
Notation "'do!' x ':=' o 'in' k" := (Do o (λ x, k))
  (at level 200, x pattern, o at level 100, k at level 200) : task_scope.
Open Scope task_scope.

Definition emit (o : output) : task := Do (Emit o) (λ _, Done).

(** ** sw.js *)

Definition CACHE_NAME : jsstr := js "winkd-v3".
Definition OFFLINE_URL : jsstr := js "/app.html".
Definition PRECACHE_ASSETS : list jsstr := [js "/app.html"; js "/login.html"; js "/manifest.json"].

Section worker.
Context {location : Location}.

(** [new Request(path)] for an absolute path. *)
Definition new_Request (path : jsstr) : Request :=
  mkRequest (location_origin ++ path) (js "GET") (js "cors") [].

Definition on_install : task :=
  do! cache := CachesOpen CACHE_NAME in
  do! r := CacheAddAll cache (map new_Request PRECACHE_ASSETS) in
  match r with
  | Throw e => emit (Installed (Throw e))
  | Ok _ => do! _ := Emit SkipWaiting in emit (Installed (Ok tt))
  end.

(** The deletions [Promise.all] starts, then [clients.claim]. *)
Fixpoint delete_all (keys : list jsstr) : task :=
  match keys with
  | [] => emit Claimed
  | key :: keys => do! _ := CachesDelete key in delete_all keys
  end.

Definition on_activate : task :=
  do! keys := CachesKeys in
  delete_all (List.filter (λ key, negb (bool_decide (key = CACHE_NAME))) keys).

Definition respondWith (q : Request) (r : option Response) : task := emit (Answered q r).

Definition put_clone (request : Request) (clone : Response) : task :=
  do! cache := CachesOpen CACHE_NAME in do! _ := CachePut cache request clone in Done.

(** Navigation: network first, then the cached page, then the offline page. *)
Definition offline_answer (request : Request) : task :=
  do! cached := CachesMatch request in
  match cached with
  | Some response => respondWith request (Some response)
  | None => do! offline := CachesMatch (new_Request OFFLINE_URL) in respondWith request offline
  end.

Definition navigate (request : Request) : task :=
  do! answer := Fetch request in
  match answer with
  | Some response =>
      if ok response then Fork (put_clone request response) (respondWith request (Some response))
      else respondWith request (Some response)
  | None => offline_answer request
  end.

(** Other requests: stale-while-revalidate. *)
Definition fetchPromise (cache : nat) (request : Request) (cached : option Response)
    (k : option Response → task) : task :=
  do! answer := Fetch request in
  match answer with
  | Some response =>
      if ok response then Fork (do! _ := CachePut cache request response in Done) (k (Some response))
      else k (Some response)
  | None => k cached
  end.

Definition revalidate (request : Request) : task :=
  do! cache := CachesOpen CACHE_NAME in
  do! cached := CacheMatch cache request in
  match cached with
  | Some response =>
      Fork (fetchPromise cache request cached (λ _, Done)) (respondWith request (Some response))
  | None => fetchPromise cache request cached (respondWith request)
  end.

(** Requests the worker leaves to the browser. *)
Definition intercepts (request : Request) : bool :=
  bool_decide (q_method request = js "GET") &&
  (bool_decide (url_origin (q_url request) = location_origin) ||
   js_includes (url_hostname (q_url request)) (js "imgur.com")).

Definition on_fetch (request : Request) : task :=
  if intercepts request then
    if bool_decide (q_mode request = js "navigate") then navigate request else revalidate request
  else Done.

(** *** Notifications *)

Section notifications.
Context {doubles : Doubles}.

(** [data.k || d] *)
Definition or_default (k : jsstr) (d : jsstr) (data : value) : result value :=
  v ← get_prop k data; mret (if truthy v then v else Some (JStr d)).

(** [event.data.json()], or the text itself. *)
Definition push_data (text : jsstr) : value :=
  match parse_json text with
  | Ok v => Some v
  | Throw _ => Some (JObj [(js "title", JStr (js "Winkd")); (js "body", JStr text)])
  end.

(** The notification; its texts are converted to strings by the platform. *)
Definition notification (data : value) : result output :=
  body ← or_default (js "body") (js "New message") data;
  tag ← or_default (js "tag") (js "winkd-message") data;
  url ← or_default (js "url") (js "/") data;
  contactId ← get_prop (js "contactId") data;
  title ← or_default (js "title") (js "Winkd Messenger") data;
  title ← value_toString title;
  body ← value_toString body;
  tag ← value_toString tag;
  mret (Notified title body tag url contactId).

Definition on_push (data : option jsstr) : task :=
  match data with
  | None => Done
  | Some text => match notification (push_data text) with Ok o => emit o | Throw _ => Done end
  end.

Definition on_notificationclick (action : jsstr) (url : value) : task :=
  do! _ := Emit NotificationClosed in
  if bool_decide (action = js "dismiss") then Done else
  let targetUrl := if truthy url then url else Some (JStr (js "/")) in
  do! windowClients := MatchAll in
  match List.find (λ w, js_includes (w_url w) location_origin && w_focus w) windowClients with
  | Some client => emit (Focused (w_id client))
  | None => emit (OpenedWindow targetUrl)
  end.

Definition on_sync (tag : jsstr) : task :=
  if bool_decide (tag = js "winkd-send-queued") then emit Flushed else Done.
End notifications.
End worker.

(** ** The worker's event loop *)

Record worker := mkWorker {
  names : list (jsstr * nat);      (** the CacheStorage: names of the Cache objects *)
  store : list Cache;              (** the Cache objects *)
  tasks : list task;
  outputs : list output;
  seen : list (Request * option Response) }.

(** What the platform answers at a turn. *)
Record env := mkEnv { e_net : list (option Response); e_windows : list WindowClient }.

Definition empty_worker : worker := mkWorker [] [] [] [] [].

(** The caches, in the order of the names. *)
Definition all_caches (s : worker) : list Cache :=
  omap (λ c, store s !! c) (values (names s)).

Definition caches_match (q : Request) (s : worker) : option Response :=
  head (omap (cache_match q) (all_caches s)).

(** [cache.addAll]: all of the responses are stored, or none is. *)
Definition added (r : option Response) : bool :=
  match r with
  | Some r => ok r && negb (r_status r =? 206) && negb (bool_decide (js "*" ∈ r_vary r))
  | None => false
  end.

Definition add_all (qs : list Request) (net : list (option Response)) (c : Cache) : option Cache :=
  let answers := imap (λ i q, (q, default None (net !! i))) qs in
  if forallb (λ a, added a.2) answers then
    Some (foldl (λ c a, match a.2 with Some r => cache_put a.1 r c | None => c end) c answers)
  else None.

Definition with_store (st : list Cache) (s : worker) : worker :=
  mkWorker (names s) st (tasks s) (outputs s) (seen s).
Definition with_names (ns : list (jsstr * nat)) (s : worker) : worker :=
  mkWorker ns (store s) (tasks s) (outputs s) (seen s).
Definition with_tasks (ts : list task) (s : worker) : worker :=
  mkWorker (names s) (store s) ts (outputs s) (seen s).
Definition with_seen (l : list (Request * option Response)) (s : worker) : worker :=
  mkWorker (names s) (store s) (tasks s) (outputs s) (seen s ++ l).
Definition with_output (o : output) (s : worker) : worker :=
  mkWorker (names s) (store s) (tasks s) (outputs s ++ [o]) (seen s).

Definition exec {R} (o : sw_op R) (e : env) (s : worker) : worker * R :=
  match o in sw_op R return worker * R with
  | CachesOpen name =>
      match map_get name (names s) with
      | Some c => (s, c)
      | None =>
          (with_names (map_set name (length (store s)) (names s))
             (with_store (store s ++ [[]]) s), length (store s))
      end
  | CachesKeys => (s, keys (names s))
  | CachesDelete name =>
      (with_names (map_delete name (names s)) s, bool_decide (name ∈ keys (names s)))
  | CachesMatch q => (s, caches_match q s)
  | CacheMatch c q => (s, store s !! c ≫= cache_match q)
  | CachePut c q r =>
      (match store s !! c with
       | Some cache =>
           if storable q r then with_store (<[c := cache_put q r cache]> (store s)) s else s
       | None => s
       end, tt)
  | CacheAddAll c qs =>
      let s' := with_seen (imap (λ i q, (q, default None (e_net e !! i))) qs) s in
      match add_all qs (e_net e) (default [] (store s !! c)) with
      | Some cache => (with_store (<[c := cache]> (store s)) s', Ok tt)
      | None => (s', Throw TypeError_)
      end
  | Fetch q =>
      let answer := default None (head (e_net e)) in (with_seen [(q, answer)] s, answer)
  | MatchAll => (s, e_windows e)
  | Emit o => (with_output o s, tt)
  end.

(** A turn of task [i]. *)
Definition turn (i : nat) (e : env) (s : worker) : worker :=
  match tasks s !! i with
  | None | Some Done => s
  | Some (Do o k) => let '(s', x) := exec o e s in with_tasks (<[i := k x]> (tasks s)) s'
  | Some (Fork p k) => with_tasks (<[i := k]> (tasks s) ++ [p]) s
  end.

Inductive event :=
  | Install | Activate
  | FetchEvent (q : Request)
  | Push (data : option jsstr)
  | NotificationClick (action : jsstr) (url : value)
  | Sync (tag : jsstr)
  | Turn (i : nat) (e : env).

Section loop.
Context {location : Location} {doubles : Doubles}.

Definition handler (e : event) : option task :=
  match e with
  | Install => Some on_install
  | Activate => Some on_activate
  | FetchEvent q => Some (on_fetch q)
  | Push data => Some (on_push data)
  | NotificationClick action url => Some (on_notificationclick action url)
  | Sync tag => Some (on_sync tag)
  | Turn _ _ => None
  end.

Definition step (e : event) (s : worker) : worker :=
  match e with
  | Turn i e => turn i e s
  | _ => match handler e with Some t => with_tasks (tasks s ++ [t]) s | None => s end
  end.

Definition steps (es : list event) (s : worker) : worker := foldl (λ s e, step e s) s es.
End loop.

(** ** Interleaved tasks and invariants *)

(** [I] is what every turn keeps and [G] what every turn guarantees to the other
    tasks: [keeps t s] says that [t], started in a state after [s], keeps both. *)
Section rely.
Context (I : worker → Prop) (G : relation worker) `{!PreOrder G}.

Fixpoint keeps (t : task) (s : worker) : Prop :=
  match t with
  | Done => True
  | Do o k => ∀ s1 e, G s s1 → I s1 →
      let '(s2, x) := exec o e s1 in I s2 ∧ G s1 s2 ∧ keeps (k x) s2
  | Fork p k => keeps p s ∧ keeps k s
  end.

Lemma keeps_later t s s' : keeps t s → G s s' → keeps t s'.
Proof.
  revert s s'; induction t as [|R o k IH|p IHp k IHk]; cbn; intros s s' H HG; [done| |naive_solver].
  intros s1 e HG1 HI. apply H; [by etrans|done].
Qed.

Context (I_tasks : ∀ ts s, I s → I (with_tasks ts s)).
Context (G_tasks : ∀ ts s s', G s s' → G s (with_tasks ts s')).

Definition safe (s : worker) : Prop := I s ∧ Forall (λ t, keeps t s) (tasks s).

Lemma Forall_later ts s s' :
  Forall (λ t, keeps t s) ts → G s s' → Forall (λ t, keeps t s') ts.
Proof. intros H HG. eapply list.Forall_impl; [exact H|]. intros t Ht. exact (keeps_later _ _ _ Ht HG). Qed.

Lemma turn_safe i e s : safe s → safe (turn i e s) ∧ G s (turn i e s).
Proof.
  intros [HI Ht]. unfold turn. destruct (tasks s !! i) as [[|R o k|p k]|] eqn:Ei; [done| | |done].
  - pose proof (Forall_lookup_1 _ _ _ _ Ht Ei) as Hk. cbn in Hk.
    specialize (Hk s e (reflexivity s) HI). destruct (exec o e s) as [s2 x].
    destruct Hk as (HI2 & HG & Hk). split; [split; [by apply I_tasks|]|by apply G_tasks].
    apply Forall_insert; [apply (Forall_later _ s); [done|by apply G_tasks]|].
    eapply keeps_later; [exact Hk|by apply G_tasks].
  - pose proof (Forall_lookup_1 _ _ _ _ Ht Ei) as [Hp Hk].
    pose proof (G_tasks (<[i:=k]> (tasks s) ++ [p]) s s (reflexivity s)) as HG.
    split; [split; [by apply I_tasks|]|exact HG]. cbn [tasks with_tasks].
    apply list.Forall_app; split.
    + apply Forall_insert; [by apply (Forall_later _ s)|exact (keeps_later _ _ _ Hk HG)].
    + constructor; [exact (keeps_later _ _ _ Hp HG)|constructor].
Qed.

Context {location : Location} {doubles : Doubles}.

Lemma step_safe e s :
  (∀ t s, handler e = Some t → I s → keeps t s) → safe s → safe (step e s) ∧ G s (step e s).
Proof.
  intros Hh Hs.
  assert (∀ t, handler e = Some t →
    safe (with_tasks (tasks s ++ [t]) s) ∧ G s (with_tasks (tasks s ++ [t]) s)) as Hnew.
  { intros t Ht. destruct Hs as [HI Hts].
    pose proof (G_tasks (tasks s ++ [t]) s s (reflexivity s)) as HG.
    split; [split; [by apply I_tasks|]|exact HG].
    apply list.Forall_app; split; [by apply (Forall_later _ s)|].
    constructor; [|constructor]. eapply keeps_later; [|exact HG]. by eapply Hh. }
  destruct e; cbn in *; try (by apply Hnew). by apply turn_safe.
Qed.

Lemma steps_safe es s :
  (∀ e t s, handler e = Some t → I s → keeps t s) → safe s → safe (steps es s) ∧ G s (steps es s).
Proof.
  intros Hh. revert s; induction es as [|e es IH]; intros s Hs; cbn; [done|].
  destruct (step_safe e s (Hh e) Hs) as [Hs' HG]. destruct (IH _ Hs') as [? HG']. split; [done|by etrans].
Qed.
End rely.
