(* ===== verification/WorkerSafety.v ===== *)
(** * The service worker under any interleaving

    What holds of every run of ServiceWorker.v: where answers and cache entries
    come from, that every request is answered once and soon, and which caches are
    left by an activation. *)

From S2P Require Import Prelude JsString Json Platform ServiceWorker.

(** ** Where answers and entries come from *)

Section genuine.
Context {location : Location} {doubles : Doubles} (old : list Cache).

Definition same_url (u v : jsstr) : Prop := no_fragment u = no_fragment v.

(** [r] was answered for the URL [u], by the network or by an old cache. *)
Definition genuine (s : worker) (u : jsstr) (r : Response) : Prop :=
  (∃ q, (q, Some r) ∈ seen s ∧ same_url (q_url q) u) ∨
  (∃ cache q, cache ∈ old ∧ (q, r) ∈ cache ∧ same_url (q_url q) u).

(** What the worker may add to a cache. *)
Definition cacheable (q : Request) (r : Response) : Prop :=
  ok r = true ∧ (q ∈ map new_Request PRECACHE_ASSETS ∨ intercepts q = true).

Definition entry_genuine (s : worker) (c : nat) (e : Request * Response) : Prop :=
  ((e.1, Some e.2) ∈ seen s ∧ cacheable e.1 e.2) ∨
  (∃ cache, old !! c = Some cache ∧ e ∈ cache).

Definition answer_genuine (s : worker) (q : Request) (r : Response) : Prop :=
  genuine s (q_url q) r ∨
  (q_mode q = js "navigate" ∧ (q, None) ∈ seen s ∧ genuine s (location_origin ++ OFFLINE_URL) r).

Definition entries_genuine (s : worker) : Prop :=
  ∀ c cache e, store s !! c = Some cache → e ∈ cache → entry_genuine s c e.

Definition all_genuine (s : worker) : Prop :=
  (length old ≤ length (store s))%nat ∧ entries_genuine s ∧
  ∀ q r, Answered q (Some r) ∈ outputs s → answer_genuine s q r.

Definition seen_grows (s s' : worker) : Prop := seen s ⊆ seen s'.

#[export] Instance seen_grows_pre : PreOrder seen_grows.
Proof. split; [intros s; unfold seen_grows; set_solver|intros a b c; unfold seen_grows; set_solver]. Qed.

Lemma genuine_later s s' u r : genuine s u r → seen_grows s s' → genuine s' u r.
Proof. unfold genuine, seen_grows. intros [(q & Hq & Hu)|H] HG; [left; eauto|by right]. Qed.

Lemma entry_genuine_later s s' c e : entry_genuine s c e → seen_grows s s' → entry_genuine s' c e.
Proof. unfold entry_genuine, seen_grows. intros [[Hq Hc]|H] HG; [left; eauto|by right]. Qed.

Lemma answer_genuine_later s s' q r :
  answer_genuine s q r → seen_grows s s' → answer_genuine s' q r.
Proof.
  intros [H|(Hm & Hs & H)] HG; [left; by eapply genuine_later|right].
  split; [done|]. split; [by apply HG|by eapply genuine_later].
Qed.

(** An entry that a request matches was stored for its URL. *)
Lemma cache_match_url q c r :
  cache_match q c = Some r → ∃ q', (q', r) ∈ c ∧ same_url (q_url q') (q_url q).
Proof.
  unfold cache_match, entry_matches. destruct (List.find _ c) as [[q' r']|] eqn:E; [|done].
  intros [= ->]. apply find_some in E as [Hi Hm]. exists q'.
  apply andb_true_iff in Hm as [Hm _]. apply andb_true_iff in Hm as [_ Hm].
  apply bool_decide_eq_true in Hm. split; [by apply list_elem_of_In|done].
Qed.

Lemma entry_genuine_genuine s c e :
  entry_genuine s c e → genuine s (q_url e.1) e.2.
Proof.
  destruct e as [q r]. intros [[Hs _]|(cache & Hc & He)]; [left; by exists q|right].
  exists cache, q. split; [by eapply list_elem_of_lookup_2|done].
Qed.

Lemma genuine_same s u v r : genuine s u r → same_url u v → genuine s v r.
Proof.
  intros [(q & Hq & Hu)|(cache & q & Hc & Hq & Hu)] Huv; unfold same_url in *.
  - left. exists q. split; [done|]. unfold same_url. congruence.
  - right. exists cache, q. split; [done|]. split; [done|]. unfold same_url. congruence.
Qed.

Lemma match_genuine s c cache q r :
  entries_genuine s → store s !! c = Some cache → cache_match q cache = Some r →
  genuine s (q_url q) r.
Proof.
  intros HI Hc (q' & Hq & Hu)%cache_match_url. eapply genuine_same; [|exact Hu].
  by apply (entry_genuine_genuine s c (q', r)), (HI c cache).
Qed.

Lemma caches_match_genuine s q r :
  entries_genuine s → caches_match q s = Some r → genuine s (q_url q) r.
Proof.
  intros HI H. apply head_Some_elem_of, list_elem_of_omap in H as (cache & Hc & Hr).
  apply list_elem_of_omap in Hc as (c & _ & Hc). by eapply match_genuine.
Qed.

Lemma elem_of_cache_put q r c e : e ∈ cache_put q r c → e = (q, r) ∨ e ∈ c.
Proof.
  unfold cache_put. rewrite elem_of_app, list_elem_of_singleton.
  intros [H|H]; [right|by left]. rewrite list_elem_of_In in H |- *. by apply filter_In in H as [? _].
Qed.

Lemma add_all_entries qs net c c' e :
  add_all qs net c = Some c' → e ∈ c' →
  e ∈ c ∨ (e.1, Some e.2) ∈ imap (λ i q, (q, default None (net !! i))) qs ∧ e.1 ∈ qs ∧ ok e.2 = true.
Proof.
  unfold add_all. set (l := imap _ qs). destruct (forallb _ l) eqn:Ha; [|done]. intros [= <-].
  assert (∀ a, a ∈ l → a.1 ∈ qs) as Hqs.
  { intros a (i & q & -> & Hq)%elem_of_lookup_imap. by eapply list_elem_of_lookup_2. }
  assert (∀ a, a ∈ l → added a.2 = true) as Hok.
  { rewrite forallb_forall in Ha. intros a Hi. apply Ha. by apply list_elem_of_In. }
  clearbody l. clear Ha. revert c; induction l as [|[q [r|]] l IH]; intros c; cbn; [by left| |].
  - intros He. edestruct (IH (λ a H, Hqs a ltac:(by right)) (λ a H, Hok a ltac:(by right))) as
      [Hc|(Hl & H)]; [exact He| |right; split; [by right|done]].
    apply elem_of_cache_put in Hc as [->|Hc]; [right; cbn|by left].
    split; [by left|]. split; [apply (Hqs (q, Some r)); by left|].
    pose proof (Hok (q, Some r) ltac:(by left)) as H.
    cbn [snd added] in H. by do 2 apply andb_true_iff in H as [H _].
  - pose proof (Hok (q, None) ltac:(by left)) as H. done.
Qed.

(** What a call must satisfy for the worker to stay genuine. *)
Definition op_genuine {R} (o : sw_op R) (s : worker) : Prop :=
  match o with
  | CachePut _ q r => (q, Some r) ∈ seen s ∧ cacheable q r
  | CacheAddAll _ qs => qs = map new_Request PRECACHE_ASSETS
  | Emit (Answered q (Some r)) => answer_genuine s q r
  | _ => True
  end.

Lemma exec_seen {R} (o : sw_op R) e s : seen_grows s (exec o e s).1.
Proof.
  unfold seen_grows. destruct o; cbn; try done; try set_solver; unfold with_seen.
  - by destruct (map_get _ _).
  - by destruct (store s !! c); [destruct (storable _ _)|].
  - destruct (add_all _ _ _); cbn; set_solver.
Qed.

Lemma entries_genuine_grow s s' :
  store s' = store s → seen_grows s s' → entries_genuine s → entries_genuine s'.
Proof. intros Hs HG HI c cache e Hc He. rewrite Hs in Hc. eapply entry_genuine_later; eauto. Qed.

Lemma entries_genuine_insert s s' c cache :
  store s' = <[c := cache]> (store s) → seen_grows s s' → entries_genuine s →
  (∀ e, e ∈ cache → e ∈ default [] (store s !! c) ∨ (e.1, Some e.2) ∈ seen s' ∧ cacheable e.1 e.2) →
  entries_genuine s'.
Proof.
  intros Hs HG HI Hnew c' cache' e Hc He. rewrite Hs in Hc.
  apply list_lookup_insert_Some in Hc as [(-> & -> & Hl)|[Hne Hc]].
  - destruct (Hnew e He) as [Ho|Hn]; [|by left].
    destruct (lookup_lt_is_Some_2 _ _ Hl) as [c0 Hc0]. rewrite Hc0 in Ho.
    eapply entry_genuine_later; [|exact HG]. by eapply HI.
  - eapply entry_genuine_later; [|exact HG]. by eapply HI.
Qed.

Lemma exec_genuine {R} (o : sw_op R) e s :
  all_genuine s → op_genuine o s → all_genuine (exec o e s).1.
Proof.
  intros (Hl & HE & HA) Ho. pose proof (exec_seen o e s) as HG.
  assert (∀ s', seen_grows s s' → outputs s' = outputs s →
    ∀ q r, Answered q (Some r) ∈ outputs s' → answer_genuine s' q r) as HA'.
  { intros s' HG' Heq q r. rewrite Heq. intros H. eapply answer_genuine_later; [by apply HA|done]. }
  assert (∀ s', seen_grows s s' → outputs s' = outputs s → store s' = store s → all_genuine s') as Hsame.
  { intros s' HG' Ho' Hs'. split; [by rewrite Hs'|].
    split; [by apply (entries_genuine_grow s)|by apply HA']. }
  destruct o; cbn in *; try (apply Hsame; done).
  - destruct (map_get _ _); cbn in *; [apply Hsame; done|].
    split; [cbn; rewrite length_app; cbn; lia|]. split; [|by apply HA'].
    intros c cache e' Hc He. cbn in Hc. apply lookup_app_Some in Hc as [Hc|[_ Hc]].
    + eapply entry_genuine_later; [|exact HG]. by eapply HE.
    + apply list_lookup_singleton_Some in Hc as [_ <-]. by apply elem_of_nil in He.
  - destruct (store s !! c) as [c0|] eqn:Hc; [|done]. destruct (storable _ _); cbn in *; [|done].
    split; [cbn; by rewrite length_insert|]. split; [|by apply HA'].
    eapply (entries_genuine_insert s _ c (cache_put q r c0)); [done|exact HG|done|].
    intros e' [->|He]%elem_of_cache_put; [right; done|left; by rewrite Hc].
  - destruct (add_all _ _ _) as [cache|] eqn:Ha; cbn in *; [|apply Hsame; done].
    split; [cbn; by rewrite length_insert|]. split; [|by apply HA'].
    eapply (entries_genuine_insert s _ c cache); [done|exact HG|done|].
    intros e' He. destruct (add_all_entries _ _ _ _ _ Ha He) as [H|(Hs & Hq & Hk)]; [by left|right].
    split; [cbn; apply elem_of_app; by right|]. split; [done|left]. by subst qs.
  - split; [done|]. split; [done|]. intros q r. cbn. rewrite elem_of_app, list_elem_of_singleton.
    intros [H|<-]; [|exact Ho]. by apply HA.
Qed.

(** A call of a task, given what it needs and what follows from its answer. *)
Lemma keeps_Do {R} (o : sw_op R) (k : R → task) s :
  (∀ s1 e, seen_grows s s1 → all_genuine s1 →
     op_genuine o s1 ∧
     keeps all_genuine seen_grows (k (exec o e s1).2) (exec o e s1).1) →
  keeps all_genuine seen_grows (Do o k) s.
Proof.
  intros H s1 e HG HI. destruct (H s1 e HG HI) as [Ho Hk].
  pose proof (exec_genuine o e s1 HI Ho) as HI2. pose proof (exec_seen o e s1) as HG2.
  destruct (exec o e s1) as [s2 x]. done.
Qed.

Lemma keeps_respond q r s :
  (∀ r', r = Some r' → answer_genuine s q r') → keeps all_genuine seen_grows (respondWith q r) s.
Proof.
  intros H. apply keeps_Do. intros s1 e HG _. split; [|done]. cbn.
  destruct r; [|done]. eapply answer_genuine_later; [by apply H|done].
Qed.

Lemma keeps_put c q r s :
  (q, Some r) ∈ seen s → cacheable q r →
  keeps all_genuine seen_grows (do! _ := CachePut c q r in Done) s.
Proof. intros Hs Hc. apply keeps_Do. intros s1 e HG _. split; [|done]. split; [by apply HG|done]. Qed.

Lemma keeps_fetch q (k : option Response → task) s :
  (∀ s1 r, seen_grows s s1 → (q, r) ∈ seen s1 → keeps all_genuine seen_grows (k r) s1) →
  keeps all_genuine seen_grows (do! x := Fetch q in k x) s.
Proof.
  intros H. apply keeps_Do. intros s1 e HG _. split; [done|]. cbn. apply H; cbn.
  - etrans; [exact HG|]. unfold seen_grows; cbn. set_solver.
  - set_solver.
Qed.

Lemma keeps_emit o s :
  (∀ s1, op_genuine (Emit o) s1) → keeps all_genuine seen_grows (emit o) s.
Proof. intros H. apply keeps_Do. intros s1 e _ _. split; [apply H|done]. Qed.

Lemma keeps_silent {R} (o : sw_op R) (k : R → task) s :
  (∀ s1, op_genuine o s1) → (∀ x s1, keeps all_genuine seen_grows (k x) s1) →
  keeps all_genuine seen_grows (Do o k) s.
Proof. intros Ho Hk. apply keeps_Do. intros s1 e _ _. split; [apply Ho|apply Hk]. Qed.

Lemma install_keeps s : keeps all_genuine seen_grows on_install s.
Proof.
  apply keeps_silent; [done|]. intros c s1. apply keeps_silent; [done|]. intros [[]|e] s2.
  - apply keeps_silent; [done|]. intros _ s3. by apply keeps_emit.
  - by apply keeps_emit.
Qed.

Lemma activate_keeps s : keeps all_genuine seen_grows on_activate s.
Proof.
  apply keeps_silent; [done|]. intros ks s1. generalize dependent s1.
  induction (List.filter _ ks) as [|key l IH]; intros s1; [by apply keeps_emit|].
  apply keeps_silent; [done|]. intros _ s2. apply IH.
Qed.

Lemma put_clone_keeps q r s :
  (q, Some r) ∈ seen s → cacheable q r → keeps all_genuine seen_grows (put_clone q r) s.
Proof.
  intros Hs Hc. apply keeps_Do. intros s1 e HG _. split; [done|].
  apply keeps_put; [|done]. pose proof (exec_seen (CachesOpen CACHE_NAME) e s1) as HG2.
  by apply HG2, HG.
Qed.

Lemma seen_genuine s q r : (q, Some r) ∈ seen s → answer_genuine s q r.
Proof. intros H. left. left. by exists q. Qed.

Lemma navigate_keeps q s :
  q_mode q = js "navigate" → intercepts q = true →
  keeps all_genuine seen_grows (navigate q) s.
Proof.
  intros Hm Hi. apply keeps_fetch. intros s1 [r|] HG Hs.
  - assert (∀ r', Some r = Some r' → answer_genuine s1 q r') as Ha.
    { intros r' [= <-]. by apply seen_genuine. }
    destruct (ok r) eqn:Hk; [|by apply keeps_respond]. split; [|by apply keeps_respond].
    apply put_clone_keeps; [done|]. split; [done|by right].
  - apply keeps_Do. intros s2 e HG2 (_ & HE2 & _). split; [done|]. cbn.
    destruct (caches_match q s2) as [r|] eqn:Hr.
    + apply keeps_respond. intros r' [= <-]. left. by apply caches_match_genuine.
    + apply keeps_Do. intros s3 e3 HG3 (_ & HE3 & _). split; [done|]. apply keeps_respond.
      intros r Hr3. right. split; [done|]. split; [by apply HG3, HG2|].
      by apply (caches_match_genuine s3 (new_Request OFFLINE_URL)).
Qed.

Lemma fetchPromise_keeps c q cached (k : option Response → task) s :
  intercepts q = true →
  (∀ s1 r, seen_grows s s1 → (r = cached ∨ ∃ r', r = Some r' ∧ answer_genuine s1 q r') →
     keeps all_genuine seen_grows (k r) s1) →
  keeps all_genuine seen_grows (fetchPromise c q cached k) s.
Proof.
  intros Hi Hk. apply keeps_fetch. intros s1 [r|] HG Hs; [|apply Hk; [done|by left]].
  assert (keeps all_genuine seen_grows (k (Some r)) s1) as Hr.
  { apply Hk; [done|]. right. exists r. split; [done|by apply seen_genuine]. }
  destruct (ok r) eqn:Hok; [|done]. split; [|done].
  apply keeps_put; [done|]. split; [done|by right].
Qed.

Lemma revalidate_keeps q s :
  intercepts q = true → keeps all_genuine seen_grows (revalidate q) s.
Proof.
  intros Hi. apply keeps_silent; [done|]. intros c s1. apply keeps_Do.
  intros s2 e HG2 (_ & HE2 & _). split; [done|]. cbn.
  destruct (store s2 !! c ≫= cache_match q) as [r|] eqn:Hr.
  - split; [apply fetchPromise_keeps; [done|by intros]|].
    apply keeps_respond. intros r' [= <-]. left.
    apply bind_Some in Hr as (cache & Hc & Hr). by eapply match_genuine.
  - apply fetchPromise_keeps; [done|]. intros s3 r HG3 [->|(r' & -> & Hr')]; apply keeps_respond.
    + done.
    + by intros ? [= <-].
Qed.

Lemma handlers_keep e t s : handler e = Some t → keeps all_genuine seen_grows t s.
Proof.
  destruct e; cbn; intros [= <-].
  - apply install_keeps.
  - apply activate_keeps.
  - unfold on_fetch. destruct (intercepts q) eqn:Hi; [|done].
    case_bool_decide; [by apply navigate_keeps|by apply revalidate_keeps].
  - destruct data as [text|]; [|done]. cbn. destruct (notification _) as [o|] eqn:E; [|done].
    apply keeps_emit. unfold notification in E.
    repeat (apply bind_Ok in E as (? & _ & E)). injection E as <-. done.
  - apply keeps_silent; [done|]. intros _ s1. case_bool_decide; [done|].
    apply keeps_silent; [done|]. intros ws s2. destruct (List.find _ ws); by apply keeps_emit.
  - unfold on_sync. case_bool_decide; [by apply keeps_emit|done].
Qed.
End genuine.

Section provenance.
Context {location : Location} {doubles : Doubles}.

(** C30: Over any events, answers of the network and interleaving of the worker's
    tasks: a request that is answered with a response gets one that the network
    gave for its URL, or that a cache of an earlier life of the worker held for it;
    only a navigation the network failed may get what is known for /app.html
    instead. And each entry of a cache is the network's answer, with a success
    status, to a precached page or to a GET request of the worker's own origin or of
    imgur, or was in that cache before this life of the worker. *)
Theorem worker_answers_genuine es ns old :
  let s := steps es (mkWorker ns old [] [] []) in
  (∀ q r, Answered q (Some r) ∈ outputs s → answer_genuine old s q r) ∧
  (∀ c cache q r, store s !! c = Some cache → (q, r) ∈ cache →
     ((q, Some r) ∈ seen s ∧ cacheable q r) ∨ (∃ cache0, old !! c = Some cache0 ∧ (q, r) ∈ cache0)).
Proof.
  intros s. assert (safe (all_genuine old) seen_grows s) as [(_ & HE & HA) _].
  { refine (proj1 (steps_safe (all_genuine old) seen_grows _ _ es _ _ _)); [done|done| |].
    - intros e t s0 He _. by eapply handlers_keep.
    - split; [|constructor]. split; [done|]. split; [|intros q r H; by apply elem_of_nil in H].
      intros c cache e Hc He. right. eauto. }
  split; [exact HA|]. intros c cache q r Hc Hq. exact (HE c cache (q, r) Hc Hq).
Qed.
End provenance.

(** ** Every request is answered once *)

Definition answered {R} (o : sw_op R) : option Request :=
  match o with Emit (Answered q _) => Some q | _ => None end.

(** [owes t q]: on every path [t] answers [q] once and nothing else; with
    [None], it answers nothing. *)
Fixpoint owes (t : task) (q : option Request) : Prop :=
  match t with
  | Done => q = None
  | Do o k =>
      match answered o with
      | Some q' => q = Some q' ∧ ∀ x, owes (k x) None
      | None => ∀ x, owes (k x) q
      end
  | Fork p k => owes p None ∧ owes k q
  end.

(** [within n t]: [t] ends after at most [n] turns of its own. *)
Fixpoint within (n : nat) (t : task) : Prop :=
  match t, n with
  | Done, _ => True
  | _, O => False
  | Do o k, S n => ∀ x, within n (k x)
  | Fork p k, S n => within n k
  end.

Definition answered_requests (s : worker) : list Request :=
  omap (λ o, match o with Answered q _ => Some q | _ => None end) (outputs s).

Section answers.
Context {location : Location} {doubles : Doubles}.

Definition asked (e : event) : option Request :=
  match e with FetchEvent q => if intercepts q then Some q else None | _ => None end.

Lemma fetch_owes q : owes (on_fetch q) (if intercepts q then Some q else None).
Proof.
  unfold on_fetch. destruct (intercepts q); [|done]. case_bool_decide; cbn.
  - intros [r|]; [destruct (ok r)|intros [r|]]; cbn; auto.
  - intros c [r|]; cbn; [split; [|by auto]|]; intros [r'|]; try destruct (ok r'); cbn; auto.
Qed.

Lemma handlers_owe e t : handler e = Some t → owes t (asked e).
Proof.
  destruct e; cbn; intros [= <-]; try apply fetch_owes.
  - intros c [[]|err]; cbn; auto.
  - intros ks. induction (List.filter _ ks); cbn; auto.
  - destruct data as [text|]; [|done]. cbn. destruct (notification _) as [o|] eqn:E; [|done].
    unfold notification in E. repeat (apply bind_Ok in E as (? & _ & E)). injection E as <-. cbn. auto.
  - intros _. case_bool_decide; [done|]. cbn. intros ws. destruct (List.find _ ws); cbn; auto.
  - unfold on_sync. case_bool_decide; cbn; auto.
Qed.

Definition accounted (asked : list Request) (s : worker) : Prop :=
  ∃ os, Forall2 owes (tasks s) os ∧ answered_requests s ++ omap id os ≡ₚ asked.

Lemma exec_answered {R} (o : sw_op R) e s :
  answered_requests (exec o e s).1 = answered_requests s ++ option_list (answered o) ∧
  tasks (exec o e s).1 = tasks s.
Proof.
  unfold answered_requests. destruct o; cbn; rewrite ?app_nil_r; try done.
  - by destruct (map_get _ _).
  - by destruct (store s !! c); [destruct (storable _ _)|].
  - by destruct (add_all _ _ _).
  - rewrite omap_app. split; [by destruct o|done].
Qed.

Lemma omap_insert_Permutation (os : list (option Request)) i o o' q :
  os !! i = Some o → option_list o ≡ₚ q ++ option_list o' →
  q ++ omap id (<[i := o']> os) ≡ₚ omap id os.
Proof.
  intros Hi Ho. rewrite (insert_take_drop os i o') by (by eapply lookup_lt_Some).
  rewrite <-(take_drop_middle os i o Hi) at 3.
  rewrite !omap_app.
  assert (∀ (a : option Request) l, omap id (a :: l) = option_list a ++ omap id l) as Hc by by intros [].
  rewrite !Hc, Ho. rewrite !app_assoc. do 2 f_equiv. apply Permutation_app_comm.
Qed.

Lemma turn_accounted i e l s : accounted l s → accounted l (turn i e s).
Proof.
  intros (os & Hos & Hp). unfold turn. destruct (tasks s !! i) as [t|] eqn:Ei; [|by exists os].
  destruct (Forall2_lookup_l _ _ _ _ _ Hos Ei) as (o' & Eo & Ht).
  destruct t as [|R o k|p k]; [by exists os| |].
  - pose proof (exec_answered o e s) as [Ha Hts]. destruct (exec o e s) as [s2 x]. cbn in *.
    destruct (answered o) as [q|].
    + destruct Ht as [-> Hk]. exists (<[i := None]> os). split; [by apply Forall2_insert|].
      change (answered_requests s2 ++ omap id (<[i:=None]> os) ≡ₚ l). rewrite Ha, <-app_assoc.
      by rewrite (omap_insert_Permutation os i (Some q) None [q]).
    + exists os. split; [rewrite <-(list_insert_id os i o') by done; by apply Forall2_insert|].
      change (answered_requests s2 ++ omap id os ≡ₚ l). by rewrite Ha, app_nil_r.
  - destruct Ht as [Hpn Hk]. exists (os ++ [None]). split.
    + cbn. apply Forall2_app; [|by repeat constructor].
      rewrite <-(list_insert_id os i o') by done. by apply Forall2_insert.
    + rewrite omap_app, app_nil_r. exact Hp.
Qed.

Lemma steps_accounted es l s : accounted l s → accounted (l ++ omap asked es) (steps es s).
Proof.
  revert l s; induction es as [|e es IH]; intros l s Hs; [by rewrite app_nil_r|].
  assert (accounted (l ++ option_list (asked e)) (step e s)) as H.
  { destruct (handler e) as [t|] eqn:He.
    - destruct Hs as (os & Hos & Hp). pose proof (handlers_owe e t He) as Ht.
      assert (step e s = with_tasks (tasks s ++ [t]) s) as -> by by destruct e; cbn in *; simplify_eq.
      exists (os ++ [asked e]). split; [apply Forall2_app; [done|by repeat constructor]|].
      cbn. rewrite omap_app, app_assoc. change (outputs (with_tasks _ s)) with (outputs s).
      apply Permutation_app; [exact Hp|]. by destruct (asked e).
    - destruct e; try done. cbn. rewrite app_nil_r. by apply turn_accounted. }
  specialize (IH _ _ H). rewrite <-app_assoc in IH. replace (omap asked (e :: es)) with
    (option_list (asked e) ++ omap asked es); [done|]. cbn. by destruct (asked e).
Qed.

(** C31: Over any events, answers of the network and interleaving: each task of the
    worker owes an answer to at most one request, on every path it can take, and
    the answers given together with those owed are the requests intercepted, each
    as often as it was asked. So none is answered twice, none that was not asked,
    and once the tasks have ended all have been answered. *)
Theorem every_request_answered_once es ns old :
  let s := steps es (mkWorker ns old [] [] []) in
  (∃ os, Forall2 owes (tasks s) os ∧ answered_requests s ++ omap id os ≡ₚ omap asked es) ∧
  (Forall (λ t, t = Done) (tasks s) → answered_requests s ≡ₚ omap asked es).
Proof.
  intros s. destruct (steps_accounted es [] (mkWorker ns old [] [] [])) as (os & Hos & Hp).
  { exists []. split; [constructor|done]. }
  fold s in Hos, Hp. split; [by exists os|]. intros Hd. rewrite <-Hp.
  assert (omap id os = []) as ->; [|by rewrite app_nil_r].
  revert Hd. clear Hp. induction Hos as [|t o ts os Ht Hos IH]; [done|].
  intros Hd. inversion Hd; subst. cbn in Ht. subst. cbn. by apply IH.
Qed.

Lemma within_answers n q i s e :
  (q ∈ answered_requests s ∨ ∃ t, tasks s !! i = Some t ∧ owes t (Some q) ∧ within (S n) t) →
  q ∈ answered_requests (turn i e s) ∨
  ∃ t, tasks (turn i e s) !! i = Some t ∧ owes t (Some q) ∧ within n t.
Proof.
  intros [Hq|(t & Hi & Ho & Hw)].
  - left. unfold turn. destruct (tasks s !! i) as [[|R o k|p k]|]; try done.
    pose proof (exec_answered o e s) as [Ha _]. destruct (exec o e s). cbn in Ha |- *.
    change (q ∈ answered_requests w). rewrite Ha. by apply elem_of_app; left.
  - unfold turn. rewrite Hi. destruct t as [|R o k|p k]; [done| |].
    + pose proof (exec_answered o e s) as [Ha _]. destruct (exec o e s) as [s2 x]. cbn in Ha, Ho |- *.
      destruct (answered o) as [q'|].
      * destruct Ho as [[= <-] _]. left. change (q ∈ answered_requests s2). rewrite Ha.
        apply elem_of_app; right. by left.
      * right. exists (k x). split; [|split; [apply Ho|apply Hw]].
        apply list_lookup_insert_eq. by eapply lookup_lt_Some.
    + destruct Ho as [_ Ho]. right. exists k. split; [|done]. cbn.
      rewrite lookup_app_l by (rewrite length_insert; by eapply lookup_lt_Some).
      apply list_lookup_insert_eq. by eapply lookup_lt_Some.
Qed.

Definition pending (n : nat) (q : Request) (i : nat) (s : worker) : Prop :=
  q ∈ answered_requests s ∨ ∃ t, tasks s !! i = Some t ∧ owes t (Some q) ∧ within n t.

(** The turns a run gives to task [i]. *)
Definition is_turn (i : nat) (e : event) : bool :=
  match e with Turn j _ => bool_decide (j = i) | _ => false end.
Definition turns_of (i : nat) (es : list event) : nat := length (List.filter (is_turn i) es).

Lemma pending_other n q i s e : is_turn i e = false → pending n q i s → pending n q i (step e s).
Proof.
  intros Hi [Hq|(t & Ht & H)].
  - left. destruct e; cbn; try done. unfold turn. destruct (tasks s !! i0) as [[|R o k|p k]|]; try done.
    pose proof (exec_answered o e s) as [Ha _]. destruct (exec o e s) as [s2 x]. cbn in Ha |- *.
    change (q ∈ answered_requests s2). rewrite Ha. by apply elem_of_app; left.
  - right. exists t. split; [|exact H].
    destruct e; cbn; try (by apply lookup_app_l_Some). cbn in Hi. apply bool_decide_eq_false in Hi.
    unfold turn. destruct (tasks s !! i0) as [[|R o k|p k]|]; try done.
    + destruct (exec o e s) as [s2 x]. cbn. by rewrite list_lookup_insert_ne.
    + cbn. apply lookup_app_l_Some. by rewrite list_lookup_insert_ne.
Qed.

Lemma steps_pending es n q i s :
  pending (n + turns_of i es) q i s → pending n q i (steps es s).
Proof.
  unfold turns_of. revert s; induction es as [|e es IH]; intros s Hp; cbn in *; [by rewrite Nat.add_0_r in Hp|].
  apply IH. destruct (is_turn i e) eqn:Hi; [|by apply pending_other].
  destruct e; try done. apply bool_decide_eq_true in Hi as ->. cbn in Hp. rewrite Nat.add_succ_r in Hp.
  by apply within_answers.
Qed.

Lemma within_more n m t : within n t → (n ≤ m)%nat → within m t.
Proof.
  revert n m; induction t as [|R o k IH|p _ k IH]; intros n m Hw Hl; [by destruct m| |];
    (destruct n as [|n]; [done|]); (destruct m as [|m]; [lia|]); cbn in *.
  - intros x. apply (IH x n); [apply Hw|lia].
  - apply (IH n); [done|lia].
Qed.

Lemma fetch_within q : within 5 (on_fetch q).
Proof.
  unfold on_fetch. destruct (intercepts q); [|done]. case_bool_decide; cbn.
  - intros [r|]; [destruct (ok r)|intros [r|]]; cbn; auto.
  - intros c [r|]; cbn; [by auto|]. intros [r'|]; try destruct (ok r'); cbn; auto.
Qed.

(** C32: Whatever the network answers and however the tasks are interleaved, a
    request the worker intercepts is answered after at most five turns of its
    handler. *)
Theorem answered_within_five_turns es1 q es2 s :
  intercepts q = true →
  (5 ≤ turns_of (length (tasks (steps es1 s))) es2)%nat →
  q ∈ answered_requests (steps (es1 ++ FetchEvent q :: es2) s).
Proof.
  intros Hi Hn. unfold steps at 1. rewrite foldl_app. cbn. change (foldl _ s es1) with (steps es1 s).
  set (s1 := steps es1 s) in *. set (i := length (tasks s1)) in *.
  assert (pending (0 + turns_of i es2) q i (with_tasks (tasks s1 ++ [on_fetch q]) s1)) as Hp.
  { right. exists (on_fetch q). split; [by apply list_lookup_middle|].
    pose proof (fetch_owes q) as Ho. rewrite Hi in Ho. split; [exact Ho|].
    eapply within_more; [apply fetch_within|lia]. }
  apply steps_pending in Hp as [H|(t & _ & Ho & Hw)]; [exact H|].
  by destruct t.
Qed.
End answers.

(** ** Activation *)

Section activation.
Context {location : Location} {doubles : Doubles}.

Definition is_current (n : jsstr) : Prop := n = CACHE_NAME.
#[local] Hint Unfold is_current : core.

Definition claimed_current (s : worker) : Prop :=
  Claimed ∈ outputs s → ∀ n, n ∈ keys (names s) → is_current n.

(** No name but the current one is added, and the current cache stays. *)
Definition names_kept (s s' : worker) : Prop :=
  (∀ n, n ∈ keys (names s') → is_current n ∨ n ∈ keys (names s)) ∧
  (∀ c, map_get CACHE_NAME (names s) = Some c → map_get CACHE_NAME (names s') = Some c).

#[export] Instance names_kept_pre : PreOrder names_kept.
Proof.
  split; [intros s; split; auto|]. intros a b c [H1 K1] [H2 K2]. split; [|auto].
  intros n [H|H]%H2; auto.
Qed.

Definition op_current {R} (o : sw_op R) (s : worker) : Prop :=
  match o with
  | CachesOpen name => is_current name
  | CachesDelete key => ¬ is_current key
  | Emit Claimed => ∀ n, n ∈ keys (names s) → is_current n
  | _ => True
  end.

Lemma exec_current {R} (o : sw_op R) e s :
  claimed_current s → op_current o s →
  claimed_current (exec o e s).1 ∧ names_kept s (exec o e s).1.
Proof.
  intros HI Ho. assert (∀ s', names s' = names s → names_kept s s') as Hsame.
  { intros s' Hn. split; rewrite Hn; auto. }
  assert (∀ s', names_kept s s' → outputs s' = outputs s → claimed_current s') as Hkeep.
  { intros s' [Hn _] He Hc n Hk. rewrite He in Hc. destruct (Hn n Hk) as [?|H]; [done|by apply HI]. }
  assert (∀ s', outputs s' = outputs s → names s' = names s → claimed_current s' ∧ names_kept s s') as Hno.
  { intros s' He Hn. split; [apply Hkeep; [by apply Hsame|done]|by apply Hsame]. }
  assert (∀ s', outputs s' = outputs s → names_kept s s' → claimed_current s' ∧ names_kept s s') as Hyes.
  { intros s' He Hn. split; [by apply Hkeep|done]. }
  destruct o; cbn in *; try (by apply Hno).
  - destruct (map_get name (names s)) eqn:Hg; cbn; [by apply Hno|]. apply Hyes; [done|]. split; cbn.
    + intros n [->|H]%elem_of_keys_set; [by left|by right].
    + intros c Hc. rewrite Ho in Hg. congruence.
  - apply Hyes; [done|]. split; cbn.
    + intros n [_ H]%elem_of_keys_delete. by right.
    + intros c Hc. rewrite map_get_delete. rewrite decide_False; [done|].
      intros H. apply Ho. done.
  - apply Hno; destruct (store s !! c); try done; by destruct (storable _ _).
  - apply Hno; by destruct (add_all _ _ _).
  - split; [|by apply Hsame]. intros Hc n Hk. cbn in Hc, Hk.
    apply elem_of_app in Hc as [Hc|Hc]; [by apply HI|].
    apply list_elem_of_singleton in Hc as <-. by apply Ho.
Qed.

Lemma current_Do {R} (o : sw_op R) (k : R → task) s :
  (∀ s1 e, names_kept s s1 → claimed_current s1 →
     op_current o s1 ∧
     keeps claimed_current names_kept (k (exec o e s1).2) (exec o e s1).1) →
  keeps claimed_current names_kept (Do o k) s.
Proof.
  intros H s1 e HG HI. destruct (H s1 e HG HI) as [Ho Hk].
  pose proof (exec_current o e s1 HI Ho) as [HI2 HG2]. destruct (exec o e s1). done.
Qed.

(** A task that only opens the current cache, deletes none and never claims. *)
Fixpoint tame (t : task) : Prop :=
  match t with
  | Done => True
  | Do o k => (∀ s, op_current o s) ∧ ∀ x, tame (k x)
  | Fork p k => tame p ∧ tame k
  end.

Lemma tame_keeps t s : tame t → keeps claimed_current names_kept t s.
Proof.
  revert s; induction t as [|R o k IH|p IHp k IHk]; intros s; [done| |cbn; naive_solver].
  intros [Ho Hk]. apply current_Do. intros s1 e _ _. split; [apply Ho|by apply IH].
Qed.

Lemma delete_all_keeps ks s :
  (∀ k, k ∈ ks → ¬ is_current k) → (∀ n, n ∈ keys (names s) → is_current n ∨ n ∈ ks) →
  keeps claimed_current names_kept (delete_all ks) s.
Proof.
  revert s; induction ks as [|k ks IH]; intros s Hks Hn; apply current_Do; intros s1 e HG _.
  - split; [|done]. intros n Hk. destruct (proj1 HG n Hk) as [?|H]; [done|].
    destruct (Hn n H) as [?|H']; [done|]. by apply elem_of_nil in H'.
  - split; [apply Hks; by left|]. apply IH; [intros k' Hk'; apply Hks; by right|].
    intros n [Hne Hk]%elem_of_keys_delete. destruct (proj1 HG n Hk) as [?|H]; [by left|].
    destruct (Hn n H) as [?|H']; [by left|]. apply elem_of_cons in H' as [->|?]; [done|by right].
Qed.

Lemma handlers_current e t s : handler e = Some t → keeps claimed_current names_kept t s.
Proof.
  destruct e; cbn; intros [= <-]; [|apply current_Do| | | |]; try apply tame_keeps.
  - split; [done|]. intros c. split; [done|]. intros [[]|err]; cbn; auto.
  - intros s1 e HG _. split; [done|]. cbn. apply delete_all_keeps.
    + intros k. rewrite list_elem_of_In. intros [_ H]%filter_In.
      by apply negb_true_iff, bool_decide_eq_false in H.
    + intros n Hn. destruct (decide (n = CACHE_NAME)) as [|Hne]; [by left|right].
      rewrite list_elem_of_In in Hn |- *. apply filter_In. split; [done|].
      by apply negb_true_iff, bool_decide_eq_false.
  - unfold on_fetch. destruct (intercepts q); [|done]. case_bool_decide; cbn; (split; [done|]).
    + intros [r|]; [destruct (ok r)|split; [done|]; intros [r|]]; cbn; auto 12.
    + intros c. split; [done|]. intros [r|]; cbn; [split; [|by auto]|]; (split; [done|]);
        intros [r'|]; try destruct (ok r'); cbn; auto 12.
  - destruct data as [text|]; [|done]. cbn. destruct (notification _) as [o|] eqn:E; [|done].
    unfold notification in E. repeat (apply bind_Ok in E as (? & _ & E)). injection E as <-. cbn. auto.
  - split; [done|]. intros _. case_bool_decide; [done|]. split; [done|]. cbn.
    intros ws. destruct (List.find _ ws); cbn; auto.
  - unfold on_sync. case_bool_decide; cbn; auto.
Qed.

(** Once activation has claimed the clients, over any interleaving, no cache
    but that of the current version is left; and the current cache, once opened,
    stays the same object. *)
Theorem activate_keeps_only_current es ns old :
  let s0 := mkWorker ns old [] [] [] in
  let s := steps es s0 in
  (Claimed ∈ outputs s → ∀ n, n ∈ keys (names s) → n = CACHE_NAME) ∧
  (∀ es' c, map_get CACHE_NAME (names s) = Some c →
     map_get CACHE_NAME (names (steps es' s)) = Some c).
Proof.
  intros s0 s.
  assert (∀ es s, safe claimed_current names_kept s →
    safe claimed_current names_kept (steps es s) ∧ names_kept s (steps es s)) as Hsafe.
  { intros es1 s1. apply (steps_safe claimed_current names_kept); [intros ts s2 H; exact H|intros ts s2 s3 H; exact H|].
    intros e t s2 He _. by eapply handlers_current. }
  assert (safe claimed_current names_kept s) as Hs.
  { apply Hsafe. split; [|constructor]. intros H. by apply elem_of_nil in H. }
  split; [exact (proj1 Hs)|]. intros es' c. apply (Hsafe es' s Hs).
Qed.
End activation.
