(* ===== verification/WorkerRuns.v ===== *)
(** * What a request to the service worker gets

    Handlers of ServiceWorker.v that run alone ([run_one]): the answer from the
    cache and its refresh, installation, navigation without a network,
    notifications; and three concrete runs. *)

From S2P Require Import Prelude JsString Json Platform ServiceWorker WorkerSafety.

(** ** What a request gets *)

Section requests.
Context {location : Location} {doubles : Doubles}.

(** A handler that runs alone: its state, what is left of it, what it forked. *)
Fixpoint run_one (es : list env) (t : task) (forked : list task) (s : worker)
    : worker * task * list task :=
  match es with
  | [] => (s, t, forked)
  | e :: es =>
      match t with
      | Done => run_one es Done forked s
      | Do o k => let '(s', x) := exec o e s in run_one es (k x) forked s'
      | Fork p k => run_one es k (forked ++ [p]) s
      end
  end.

Lemma exec_with_tasks {R} (o : sw_op R) e ts s :
  exec o e (with_tasks ts s) = (with_tasks ts (exec o e s).1, (exec o e s).2).
Proof.
  destruct o; cbn; try done.
  - by destruct (map_get _ _).
  - by destruct (store s !! c); [destruct (storable _ _)|].
  - by destruct (add_all _ _ _).
Qed.

(** The turns of task [i] alone. *)
Definition alone (i : nat) (es : list env) : list event := map (Turn i) es.

Lemma alone_run i ts t ts' es s :
  i = length ts →
  steps (alone i es) (with_tasks (ts ++ t :: ts') s) =
    let '(s', t', forked) := run_one es t [] s in with_tasks (ts ++ t' :: ts' ++ forked) s'.
Proof.
  intros ->. assert (∀ fs, steps (alone (length ts) es) (with_tasks (ts ++ t :: ts' ++ fs) s) =
    let '(s', t', forked) := run_one es t fs s in with_tasks (ts ++ t' :: ts' ++ forked) s') as H.
  { revert t s. unfold alone. induction es as [|e es IH]; intros t s fs; [done|].
    cbn [map steps foldl step]. change (foldl _ ?s (map (Turn (length ts)) es)) with
      (steps (map (Turn (length ts)) es) s).
    unfold turn. cbn [tasks with_tasks]. rewrite list_lookup_middle by done.
    destruct t as [|R o k|p k]; [apply IH| |].
    - rewrite exec_with_tasks. cbn. destruct (exec o e s) as [s' x]. cbn.
      rewrite insert_app_r_alt, Nat.sub_diag by lia. exact (IH (k x) s' fs).
    - rewrite insert_app_r_alt, Nat.sub_diag by lia. cbn.
      replace ((ts ++ k :: ts' ++ fs) ++ [p]) with (ts ++ k :: ts' ++ (fs ++ [p]));
        [exact (IH k s (fs ++ [p]))|by rewrite <-!app_assoc; cbn; rewrite <-app_assoc]. }
  specialize (H []). by rewrite app_nil_r in H.
Qed.

(** An event whose handler runs alone. *)
Lemma handled_alone e t es s :
  handler e = Some t →
  steps (e :: alone (length (tasks s)) es) s =
    let '(s', t', forked) := run_one es t [] s in with_tasks (tasks s ++ t' :: forked) s'.
Proof.
  intros He. pose proof (alone_run _ (tasks s) t [] es s eq_refl) as H. cbn [app] in H. rewrite <-H.
  by destruct e; cbn in He; simplify_eq.
Qed.

Lemma cache_match_put q r c : storable q r = true → cache_match q (cache_put q r c) = Some r.
Proof.
  unfold storable. intros H. apply andb_true_iff in H as [H Hv]. apply andb_true_iff in H as [Hm _].
  apply negb_true_iff, bool_decide_eq_false in Hv.
  assert (entry_matches q (q, r) = true) as Hq.
  { unfold entry_matches. rewrite Hm, bool_decide_true by done. cbn. apply forallb_forall.
    intros h Hh. apply andb_true_iff; split; [|by apply bool_decide_eq_true].
    apply negb_true_iff, bool_decide_eq_false. intros ->. apply Hv. by apply list_elem_of_In. }
  unfold cache_match, cache_put. induction c as [|e c IH]; cbn; [by rewrite Hq|].
  destruct (entry_matches q e) eqn:E; cbn; [exact IH|]. by rewrite E.
Qed.

Definition offline : env := mkEnv [None] [].
Definition online_with (r : Response) : env := mkEnv [Some r] [].

(** A request that is not a navigation is answered with the cached response,
    whatever the network would say; the network's answer, when it succeeds, is
    what the next request gets. *)
Theorem cached_request_is_stale s q c cache r r' e1 e2 e3 e4 e5 e6 :
  intercepts q = true → q_mode q ≠ js "navigate" →
  map_get CACHE_NAME (names s) = Some c → store s !! c = Some cache → cache_match q cache = Some r →
  ok r' = true → storable q r' = true →
  let i := length (tasks s) in
  let s1 := steps (FetchEvent q :: alone i [e1; e2; e3; e4]) s in
  let s2 := steps [Turn (S i) (online_with r'); Turn (S i) e5; Turn (S (S i)) e6] s1 in
  outputs s1 = outputs s ++ [Answered q (Some r)] ∧ outputs s2 = outputs s1 ∧
  ∃ cache', store s2 !! c = Some cache' ∧ cache_match q cache' = Some r'.
Proof.
  intros Hi Hm Hn Hc Hr Hok Hst i s1 s2.
  assert (s1 = with_tasks (tasks s ++ [Done; fetchPromise c q (Some r) (λ _, Done)])
                 (with_output (Answered q (Some r)) s)) as Hs1.
  { unfold s1, i. rewrite (handled_alone _ (on_fetch q)) by done. unfold on_fetch.
    rewrite Hi, bool_decide_false by done. cbn. rewrite Hn. cbn. rewrite Hc. cbn. by rewrite Hr. }
  split; [by rewrite Hs1|].
  assert (s2 = with_tasks (tasks s ++ [Done; Done; Done])
                 (with_store (<[c := cache_put q r' cache]> (store s))
                    (with_seen [(q, Some r')] (with_output (Answered q (Some r)) s)))) as Hs2.
  { unfold s2. rewrite Hs1.
    set (ts := tasks s). set (p := fetchPromise c q (Some r) (λ _, Done)).
    set (w := with_output (Answered q (Some r)) s).
    change (steps (alone (S (S i)) [e6]) (steps (alone (S i) [online_with r'; e5])
      (with_tasks (ts ++ [Done; p]) w)) = with_tasks (ts ++ [Done; Done; Done])
                 (with_store (<[c := cache_put q r' cache]> (store s)) (with_seen [(q, Some r')] w))).
    set (p2 := do! _ := CachePut c q r' in Done).
    assert (steps (alone (S i) [online_with r'; e5]) (with_tasks (ts ++ [Done; p]) w) =
      with_tasks (ts ++ [Done; Done; p2]) (with_seen [(q, Some r')] w)) as ->.
    { pose proof (alone_run (S i) (ts ++ [Done]) p [] [online_with r'; e5] w) as H1.
      rewrite <-app_assoc in H1. cbn [app] in H1.
      rewrite H1 by (unfold i, ts; rewrite length_app; cbn; lia).
      cbn. rewrite Hok. cbn. by rewrite <-app_assoc. }
    pose proof (alone_run (S (S i)) (ts ++ [Done; Done]) p2 [] [e6] (with_seen [(q, Some r')] w)) as H2.
    rewrite <-app_assoc in H2. cbn [app] in H2.
    rewrite H2 by (unfold i, ts; rewrite length_app; cbn; lia).
    cbn. rewrite Hc, Hst. cbn. by rewrite <-app_assoc. }
  rewrite Hs2, Hs1. split; [done|]. exists (cache_put q r' cache). split; [|by apply cache_match_put].
  apply list_lookup_insert_eq. by eapply lookup_lt_Some.
Qed.

(** When a precached page cannot be had, nothing is cached and the new worker
    does not take over. *)
Theorem install_all_or_nothing s e1 e2 e3 :
  existsb (λ i, negb (added (default None (e_net e2 !! i)))) [0; 1; 2]%nat = true →
  let s' := steps (Install :: alone (length (tasks s)) [e1; e2; e3]) s in
  outputs s' = outputs s ++ [Installed (Throw TypeError_)] ∧
  ∀ c cache, store s !! c = Some cache → store s' !! c = Some cache.
Proof.
  intros Hf s'. unfold s'. rewrite (handled_alone _ on_install) by done.
  assert (∀ c, add_all (map new_Request PRECACHE_ASSETS) (e_net e2) c = None) as Hn.
  { intros c. unfold add_all. cbn. cbn in Hf. by repeat destruct (added _). }
  cbn [run_one on_install exec]. destruct (map_get CACHE_NAME (names s)); cbn [exec];
    rewrite Hn; cbn; (split; [done|]); [done|]. intros c cache Hc. by apply lookup_app_l_Some.
Qed.

Lemma no_fragment_app u v :
  Forall (λ c, c ≠ 35) u → no_fragment (u ++ v) = u ++ no_fragment v.
Proof.
  induction 1 as [|c u Hc _ IH]; cbn; [done|]. rewrite (proj2 (Z.eqb_neq c 35)) by done. by rewrite IH.
Qed.

(** The page a navigation gets without a network, after an installation. *)
Definition offline_page (app login manifest : Response) (url : jsstr) : Response :=
  if bool_decide (no_fragment url = location_origin ++ js "/login.html") then login
  else if bool_decide (no_fragment url = location_origin ++ js "/manifest.json") then manifest
  else app.

Section installed.
Context (origin_plain : Forall (λ c, c ≠ 35) location_origin).
Context (app login manifest : Response).
Context (all_added : forallb (λ r, added (Some r)) [app; login; manifest] = true).
Context (no_vary : r_vary app = [] ∧ r_vary login = [] ∧ r_vary manifest = []).

Definition precached : Cache :=
  [(new_Request (js "/app.html"), app); (new_Request (js "/login.html"), login);
   (new_Request (js "/manifest.json"), manifest)].

Lemma entry_matches_page q path r :
  q_method q = js "GET" → r_vary r = [] → no_fragment path = path →
  entry_matches q (new_Request path, r) = bool_decide (no_fragment (q_url q) = location_origin ++ path).
Proof.
  intros Hm Hv Hp. unfold entry_matches. rewrite bool_decide_true by done. cbn [snd]. rewrite Hv.
  cbn. rewrite andb_true_r, no_fragment_app by done. by rewrite Hp.
Qed.

Lemma page_url path : no_fragment path = path →
  no_fragment (q_url (new_Request path)) = location_origin ++ path.
Proof. intros Hp. cbn. by rewrite no_fragment_app, Hp. Qed.

Lemma precache_added :
  add_all (map new_Request PRECACHE_ASSETS) [Some app; Some login; Some manifest] [] = Some precached.
Proof.
  destruct no_vary as (Ha & Hl & Hmf). unfold add_all. cbn [forallb] in all_added.
  rewrite andb_true_r in all_added. cbn [map PRECACHE_ASSETS imap default lookup list_lookup snd].
  unfold PRECACHE_ASSETS. cbn [imap map fmap list_fmap]. cbn [forallb snd]. cbn -[added js].
  rewrite andb_true_r, all_added. unfold cache_put. cbn -[js new_Request entry_matches].
  rewrite !entry_matches_page by done. rewrite !page_url by done.
  rewrite !bool_decide_false by (intros H; apply app_inv_head in H; discriminate H). cbn -[js new_Request entry_matches].
  rewrite !entry_matches_page by done. rewrite !page_url by done.
  rewrite !bool_decide_false by (intros H; apply app_inv_head in H; discriminate H). done.
Qed.

Lemma install_run e1 e3 e4 :
  steps (Install :: alone 0 [e1; mkEnv [Some app; Some login; Some manifest] []; e3; e4]) empty_worker =
  mkWorker [(CACHE_NAME, 0%nat)] [precached] [Done] [SkipWaiting; Installed (Ok tt)]
    [(new_Request (js "/app.html"), Some app); (new_Request (js "/login.html"), Some login);
     (new_Request (js "/manifest.json"), Some manifest)].
Proof.
  rewrite (handled_alone Install on_install _ empty_worker) by done.
  cbn -[add_all js PRECACHE_ASSETS map new_Request precached CACHE_NAME].
  change (map_get CACHE_NAME []) with (@None nat).
  cbn -[add_all js PRECACHE_ASSETS map new_Request precached CACHE_NAME].
  by rewrite precache_added.
Qed.

Lemma precached_match q :
  q_method q = js "GET" →
  cache_match q precached =
    if bool_decide (no_fragment (q_url q) = location_origin ++ js "/app.html") then Some app
    else if bool_decide (no_fragment (q_url q) = location_origin ++ js "/login.html") then Some login
    else if bool_decide (no_fragment (q_url q) = location_origin ++ js "/manifest.json") then Some manifest
    else None.
Proof.
  intros Hm. destruct no_vary as (Ha & Hl & Hmf). unfold cache_match, precached.
  cbn [List.find]. rewrite !entry_matches_page by done. by repeat case_bool_decide.
Qed.

Lemma installed_match q ts os sn :
  caches_match q (mkWorker [(CACHE_NAME, 0%nat)] [precached] ts os sn) = cache_match q precached.
Proof. unfold caches_match, all_caches. cbn -[cache_match precached js]. by destruct (cache_match q _). Qed.
End installed.

(** After an installation that succeeded, a navigation that the network fails
    shows the page that was precached for its own URL, and the application page
    when there is none: never the application page for the login page. *)
Theorem offline_after_install app login manifest q e1 e3 e4 e5 e6 e7 :
  Forall (λ c, c ≠ 35) location_origin →
  forallb (λ r, added (Some r)) [app; login; manifest] = true →
  r_vary app = [] ∧ r_vary login = [] ∧ r_vary manifest = [] →
  intercepts q = true → q_mode q = js "navigate" →
  outputs (steps (FetchEvent q :: alone 1 [offline; e5; e6; e7])
    (steps (Install :: alone 0 [e1; mkEnv [Some app; Some login; Some manifest] []; e3; e4])
       empty_worker)) =
  [SkipWaiting; Installed (Ok tt);
   Answered q (Some (offline_page app login manifest (q_url q)))].
Proof.
  intros Ho Ha Hv Hi Hm. rewrite (install_run Ho app login manifest Ha Hv).
  set (s := mkWorker _ _ _ _ _). change (alone 1 ?l) with (alone (length (tasks s)) l).
  rewrite (handled_alone _ (on_fetch q)) by done.
  unfold on_fetch. rewrite Hi, bool_decide_true by done. unfold navigate, offline_answer.
  unfold intercepts in Hi. apply andb_true_iff in Hi as [Hg _]. apply bool_decide_eq_true in Hg.
  unfold s. cbn -[caches_match js precached CACHE_NAME new_Request].
  unfold with_seen. cbn -[caches_match js precached CACHE_NAME new_Request].
  rewrite !installed_match, !(precached_match Ho app login manifest Hv) by done.
  unfold offline_page. case_bool_decide as H1; [|repeat case_bool_decide; try done].
  - rewrite H1, !bool_decide_false; [done| |]; intros H; apply app_inv_head in H; discriminate H.
  - cbn -[caches_match js precached CACHE_NAME new_Request].
    rewrite installed_match, (precached_match Ho app login manifest Hv) by done.
    rewrite bool_decide_true by (by apply page_url). done.
Qed.
End requests.

(** ** Notifications *)

Section notified.
Context {location : Location} {doubles : Doubles}.

(** A push whose payload is not JSON is shown as it is. *)
Theorem push_text_shown text :
  parse_json text = Throw SyntaxError_ →
  on_push (Some text) =
    emit (Notified (js "Winkd") (if decide (text = []) then js "New message" else text)
            (js "winkd-message") (Some (JStr (js "/"))) None).
Proof.
  intros Hp. unfold on_push, push_data. rewrite Hp. unfold notification, or_default.
  by destruct text.
Qed.

(** A click opens the application once: an open window of it is focused, and only
    without one a window is opened. *)
Theorem click_focuses_or_opens s action url e1 e2 e3 :
  let ours w := js_includes (w_url w) location_origin && w_focus w in
  let s' := steps (NotificationClick action url :: alone (length (tasks s)) [e1; e2; e3]) s in
  outputs s' = outputs s ++ NotificationClosed ::
    (if bool_decide (action = js "dismiss") then []
     else match List.find ours (e_windows e2) with
          | Some w => [Focused (w_id w)]
          | None => [OpenedWindow (if truthy url then url else Some (JStr (js "/")))]
          end).
Proof.
  intros ours s'. unfold s'. rewrite (handled_alone _ (on_notificationclick action url)) by done.
  unfold on_notificationclick. cbn -[js]. case_bool_decide; cbn -[js]; [done|].
  fold ours. destruct (List.find ours _); cbn -[js]; by rewrite <-app_assoc.
Qed.
End notified.

(** ** Runs *)

Module Runs.

#[local] Instance winkd : Location := {
  location_origin := js "https://winkd.app";
  url_origin := λ u, if js_startsWith u (js "https://winkd.app/") then js "https://winkd.app"
                     else js "https://i.imgur.com";
  url_hostname := λ u, if js_startsWith u (js "https://winkd.app/") then js "winkd.app"
                       else js "i.imgur.com" }.

#[local] Instance no_doubles : Doubles := {
  double_toString := id; double_is_zero := λ _, false; double_eqb := λ _ _, false }.

Definition page (text : string) : Response := mkResponse 200 [] (js text).
Definition served (rs : list Response) : env := mkEnv (map Some rs) [].

Definition installed : worker :=
  steps (Install :: alone 0 (map (λ _, served [page "app"; page "login"; page "manifest"]) (seq 0 4)))
    empty_worker.

Definition asset (path mode : string) (headers : list (jsstr * jsstr)) : Request :=
  mkRequest (js path) (js "GET") (js mode) headers.

Definition devices (token : string) : Request :=
  asset "https://winkd.app/api/devices" "cors" [(js "authorization", js token)].

(** The list of devices that the server answered to one user is the answer to
    the next user of the browser, before the network is asked: the cache is keyed
    by the URL. *)
Example next_user_sees_cached_devices :
  let alice := served [page "the devices of alice"] in
  let s := steps (FetchEvent (devices "alice") :: alone 1 [alice; alice; alice; alice; alice]
                  ++ [Turn 2 alice]) installed in
  let bob := served [page "the devices of bob"] in
  outputs (steps (FetchEvent (devices "bob") :: alone 3 [bob; bob; bob; bob]) s) =
  [SkipWaiting; Installed (Ok tt);
   Answered (devices "alice") (Some (page "the devices of alice"));
   Answered (devices "bob") (Some (page "the devices of alice"))].
Proof. vm_compute. reflexivity. Qed.

(** After the installation the pages are there without a network, but not the
    scripts they load. *)
Example scripts_are_not_precached :
  let q := asset "https://winkd.app/assets/app.js" "cors" [] in
  outputs (steps (FetchEvent q :: alone 1 [offline; offline; offline; offline; offline]) installed) =
  [SkipWaiting; Installed (Ok tt); Answered q None].
Proof. vm_compute. reflexivity. Qed.

(** The icon is fetched without CORS, so its response is opaque and is not kept. *)
Example icon_is_not_cached :
  let q := asset "https://i.imgur.com/cg6eejI.png" "no-cors" [] in
  let opaque := served [mkResponse 0 [] []] in
  let s := steps (FetchEvent q :: alone 1 (map (λ _, opaque) (seq 0 9))) installed in
  outputs s = [SkipWaiting; Installed (Ok tt); Answered q (Some (mkResponse 0 [] []))] ∧
  tasks s = [Done; Done] ∧ caches_match q s = None.
Proof. vm_compute. repeat split; reflexivity. Qed.

(** *** The theorems at these inputs *)

Definition two_users : list event :=
  let alice := served [page "the devices of alice"] in
  Install :: alone 0 (map (λ _, served [page "app"; page "login"; page "manifest"]) (seq 0 4)) ++
  FetchEvent (devices "alice") :: alone 1 [alice; alice; alice; alice; alice] ++ [Turn 2 alice] ++
  FetchEvent (devices "bob") :: alone 3 [alice; alice; alice; alice].

Lemma worker_answers_genuine_witness :
  let s := steps two_users (mkWorker [] [] [] [] []) in
  outputs s !! 3%nat = Some (Answered (devices "bob") (Some (page "the devices of alice"))) ∧
  answer_genuine [] s (devices "bob") (page "the devices of alice").
Proof.
  split; [vm_compute; reflexivity|].
  apply (proj1 (worker_answers_genuine two_users [] [])).
  apply (list_elem_of_lookup_2 _ 3). vm_compute. reflexivity.
Defined.

Lemma every_request_answered_once_witness :
  let s := steps two_users (mkWorker [] [] [] [] []) in
  (∃ os, Forall2 owes (tasks s) os ∧ answered_requests s ++ omap id os ≡ₚ omap asked two_users) ∧
  omap asked two_users = [devices "alice"; devices "bob"].
Proof.
  split; [|vm_compute; reflexivity].
  apply (proj1 (every_request_answered_once two_users [] [])).
Defined.

Lemma answered_within_five_turns_witness :
  let q := devices "bob" in
  let es2 := [Turn 2 offline; Turn 1 offline; Turn 1 offline; Turn 0 offline; Turn 1 offline;
              FetchEvent (devices "alice"); Turn 1 offline; Turn 1 offline] in
  intercepts q = true ∧ (5 ≤ turns_of 1 es2)%nat ∧
  q ∈ answered_requests (steps ([Install; Turn 0 offline] ++ FetchEvent q :: es2) empty_worker).
Proof.
  split; [vm_compute; reflexivity|]. split; [vm_compute; lia|].
  apply answered_within_five_turns; [vm_compute; reflexivity|vm_compute; lia].
Defined.

Definition old_caches : worker :=
  mkWorker [(js "winkd-v2", 0%nat); (CACHE_NAME, 1%nat)] [[]; []] [] [] [].

Lemma activate_keeps_only_current_witness :
  let s := steps (Activate :: alone 0 [offline; offline; offline])
    (mkWorker (names old_caches) (store old_caches) [] [] []) in
  keys (names s) = [CACHE_NAME] ∧ ∀ n, n ∈ keys (names s) → n = CACHE_NAME.
Proof.
  split; [vm_compute; reflexivity|].
  apply (proj1 (activate_keeps_only_current (Activate :: alone 0 [offline; offline; offline])
    (names old_caches) (store old_caches))).
  vm_compute. left.
Defined.

Lemma cached_request_is_stale_witness :
  let q := asset "https://winkd.app/app.html" "cors" [] in
  let e := offline in
  let s1 := steps (FetchEvent q :: alone 1 [e; e; e; e]) installed in
  let s2 := steps [Turn 2 (online_with (page "new")); Turn 2 e; Turn 3 e] s1 in
  outputs s1 = outputs installed ++ [Answered q (Some (page "app"))] ∧ outputs s2 = outputs s1 ∧
  ∃ cache', store s2 !! 0%nat = Some cache' ∧ cache_match q cache' = Some (page "new").
Proof.
  refine (cached_request_is_stale installed (asset "https://winkd.app/app.html" "cors" []) 0
    (default [] (store installed !! 0%nat)) (page "app") (page "new")
    offline offline offline offline offline offline _ _ _ _ _ _ _);
    try (vm_compute; reflexivity). vm_compute. discriminate.
Defined.

Lemma offline_after_install_witness :
  let q := asset "https://winkd.app/login.html" "navigate" [] in
  let e := served [] in
  outputs (steps (FetchEvent q :: alone 1 [offline; e; e; e])
    (steps (Install :: alone 0
       [e; mkEnv [Some (page "app"); Some (page "login"); Some (page "manifest")] []; e; e])
       empty_worker)) =
  [SkipWaiting; Installed (Ok tt);
   Answered q (Some (offline_page (page "app") (page "login") (page "manifest") (q_url q)))] ∧
  offline_page (page "app") (page "login") (page "manifest") (q_url q) = page "login".
Proof.
  split; [|vm_compute; reflexivity].
  apply (offline_after_install (page "app") (page "login") (page "manifest")
    (asset "https://winkd.app/login.html" "navigate" [])); try (vm_compute; reflexivity).
  - apply (Forall_check (λ c, negb (c =? 35))); [|vm_compute; reflexivity].
    intros c H. by apply negb_true_iff, Z.eqb_neq in H.
  - by repeat split.
Defined.

Lemma install_all_or_nothing_witness :
  let missing := mkEnv [Some (page "app"); None; Some (page "manifest")] [] in
  let s' := steps (Install :: alone 0 [missing; missing; missing]) empty_worker in
  outputs s' = [Installed (Throw TypeError_)] ∧
  ∀ c cache, store empty_worker !! c = Some cache → store s' !! c = Some cache.
Proof.
  exact (install_all_or_nothing empty_worker _
    (mkEnv [Some (page "app"); None; Some (page "manifest")] []) _ eq_refl).
Defined.

Lemma push_text_shown_witness :
  parse_json (js "Ada: hi") = Throw SyntaxError_ ∧
  on_push (Some (js "Ada: hi")) =
    emit (Notified (js "Winkd") (js "Ada: hi") (js "winkd-message") (Some (JStr (js "/"))) None).
Proof.
  split; [vm_compute; reflexivity|].
  rewrite (push_text_shown (js "Ada: hi")); [|vm_compute; reflexivity].
  by rewrite decide_False.
Defined.

End Runs.
