(* ===== verification/Witnesses.v ===== *)
(** * Witnesses

    Each theorem that has hypotheses, applied at a concrete input where they
    hold, over the platform of Toy.v. *)

From S2P Require Import Prelude JsString Utf Encoding Json Platform Dynamic Types Async Crypto Toy KeyStore.
From S2P Require Import Session Ratchet.
From S2P Require Import System Scenario.

(** ** crypto.ts *)

Lemma x3dh_agreement_witness :
  ∃ sk,
    x3dh (jwk_text 1) (jwk_text 2) (pub_text 3) (pub_text 4) (Some (pub_text 5)) = Ok sk ∧
    x3dhRespond (jwk_text 3) (jwk_text 4) (Some (jwk_text 5)) (pub_text 1) (pub_text 2) = Ok sk ∧
    is_bytes sk ∧ length sk = 32%nat.
Proof. exact (x3dh_agreement 1 2 3 4 (Some 5%nat)). Defined.

Definition empty_world (e : nat) : world InMemory.InMemoryKeyStore := mkWorld e ∅ InMemory.new.

Lemma generateSignedPreKeyPair_verifies_witness :
  ∃ spk, run (generateSignedPreKeyPair 1 (jwk_text 2)) (empty_world 9)
         = (empty_world 11, Ok spk) ∧
    pk_id (spk_key spk) = 1 ∧
    verifyPreKey (pub_text 2) (pk_publicKey (spk_key spk)) (spk_signature spk) = true.
Proof. exact (generateSignedPreKeyPair_verifies 1 2 (empty_world 9)). Defined.

Lemma newRegistrationId_range_witness :
  ∃ id, run newRegistrationId (empty_world 3) = (empty_world 4, Ok id) ∧ 1 ≤ id ≤ 16384.
Proof. exact (newRegistrationId_range (empty_world 3)). Defined.

Lemma computeSafetyNumber_agrees_witness :
  ∃ s, computeSafetyNumber alice (pub_text 1) bob (pub_text 2) = Ok s ∧
    computeSafetyNumber bob (pub_text 2) alice (pub_text 1) = Ok s ∧
    length s = 71%nat ∧ ∀ n c, s !! n = Some c → digit_or_space n c.
Proof. apply (computeSafetyNumber_agrees alice 1 bob 2). vm_compute. discriminate. Defined.

(** ** session.ts *)

(** The session Bob has with Alice after two messages of a conversation. *)
Definition a_session : RatchetSession :=
  mkSession (bufToHex (replicate 32 1)) (Some (bufToHex (replicate 32 2)))
    (Some (bufToHex (replicate 32 3))) 0 (JNum 1) 0 (pub_text 5) (jwk_text 5) (Some (JStr (pub_text 6))) ∅ false None.

(** A world whose IndexedDB holds a session with Alice. *)
Definition world_holding (s : RatchetSession) : world Idb.IndexedDb :=
  (run (calls_prog [CSaveRegId 5; CStoreSession alice s]) (mkWorld 0 ∅ Idb.new)).1.

Definition view_holding (s : RatchetSession) : ks_view :=
  (calls_spec [CSaveRegId 5; CStoreSession alice s] empty_view).2.

Lemma holding_idle s : idle (world_holding s) (view_holding s) 0.
Proof.
  assert (idle (mkWorld 0 ∅ Idb.new) empty_view 0) as Hi by (split; [apply Idb.idb_new_rep|done]).
  apply (calls_refine [CSaveRegId 5; CStoreSession alice s]) in Hi.
  unfold wp in Hi. unfold world_holding. destruct (run _ _). apply Hi.
Qed.

Definition session_world : world Idb.IndexedDb := world_holding a_session.
Definition session_view : ks_view := view_holding a_session.
Definition session_idle : idle session_world session_view 0 := holding_idle a_session.

(** The same world, with the session loaded. *)
Definition loaded_world : world InMemory.InMemoryKeyStore :=
  mkWorld 0 {[0%nat := a_session]} InMemory.new.

Lemma loaded_editing : editing loaded_world alice 0%nat a_session empty_view 0.
Proof.
  split; [reflexivity|]. split; [split; [by eexists|done]|].
  exists empty_view. split; [|done]. split; [apply InMemory.mem_new_rep|done].
Qed.

Lemma manager_refines_witness :
  idle session_world session_view 0 ∧
  wp (encrypt alice (js "hi")) session_world (λ r w',
    match (match v_sessions session_view !! alice with
           | Some s => send_value s (js "hi") 0
           | None => Throw (no_session alice)
           end) with
    | Ok (s', (payload, ty)) =>
        r = (λ c, mkEnvelope ty c (nullish 0 (v_regId session_view))) <$> btoa (stringify payload) ∧
        idle w' (set_sessions <[alice := s']> session_view) 1
    | Throw er => r = Throw er ∧ ∃ v' e', idle w' v' e' ∧ ks_touch alice session_view v'
    end).
Proof.
  split; [exact session_idle|].
  exact (proj1 (proj2 (manager_refines 500 alice session_world session_view 0
    (mkBundle 0 0 [] (mkPublicSignedPreKey 0 [] []) None) (js "hi") forged session_idle))).
Defined.

(** A payload with a header and nothing else, under the ratchet key of Alice's session. *)
Definition bare (n : Z) : EncryptedEnvelope :=
  mkEnvelope 2 (match btoa (stringify (JObj [(js "h", header_json (mkHeader (pub_text 6) n 0))])) with
                | Ok c => c | Throw _ => [] end) 5.


Lemma skipMessageKeys_terminates_witness :
  wp (skipMessageKeys 500 0%nat (Some (JNum 20))) loaded_world (λ res w', res ≠ Throw out_of_fuel ∧
    (res = Ok tt → ∃ s', editing w' alice 0%nat s' empty_view 0 ∧
      (size (skipped s') ≤ size (skipped a_session) + Z.to_nat MAX_SKIP)%nat)).
Proof.
  apply (skipMessageKeys_terminates 500 20 1 alice 0 a_session empty_view 0 loaded_world loaded_editing).
  - reflexivity.
  - unfold SAFE, MAX_SKIP. lia.
  - unfold MAX_SKIP. lia.
Defined.

(** The session at the start of a receiving chain. *)
Definition b_session : RatchetSession := set_recvCount (JNum 0) a_session.

Lemma b_receives : receiving b_session 6 (bufToHex (replicate 32 3)).
Proof.
  split; try done.
  - by exists (replicate 32 3); split; [apply Forall_replicate; unfold is_byte; lia|].
Qed.

Lemma forged_numbers_never_end_witness :
  wp (decrypt 500 alice (bare STUCK)) (world_holding b_session) (λ _ w1,
    (∃ s1, idle w1 (set_sessions <[alice := s1]> (view_holding b_session)) 0 ∧ recvCount s1 = JNum STUCK) ∧
    ∀ fuel', wp (decrypt fuel' alice (bare (STUCK + 320))) w1 (λ r _, r = Throw out_of_fuel)).
Proof.
  eapply (forged_numbers_never_end 500 alice _ _ 0 b_session 6 (bufToHex (replicate 32 3)) _ _ _ _ (holding_idle b_session)).
  - reflexivity.
  - exact b_receives.
  - reflexivity.
  - done.
  - vm_compute. reflexivity.
  - vm_compute. reflexivity.
  - done.
  - vm_compute. reflexivity.
  - vm_compute. reflexivity.
Defined.

(** ** The conversation *)

(** Alice with an identity (draw 0) and Bob with an identity (draw 1), a signed
    pre-key (draw 2, signed in draw 3) and a one-time pre-key (draw 4). *)
Definition alice_device : device InMemory.InMemoryKeyStore :=
  mkDevice bob ∅ (InMemory.mkStore (Some (mkIdentity (pub_text 0) (jwk_text 0))) None ∅ ∅ ∅).

Definition spk_sig : jsstr := bufToBase64 (Toy.signature 1 (Toy.raw (Toy.TPub 2))).

Definition bob_device : device InMemory.InMemoryKeyStore :=
  mkDevice alice ∅ (InMemory.mkStore (Some (mkIdentity (pub_text 1) (jwk_text 1))) None
    {[7 := mkPreKey 7 (pub_text 4) (jwk_text 4)]}
    {[1 := mkSignedPreKey (mkPreKey 1 (pub_text 2) (jwk_text 2)) spk_sig]} ∅).

Lemma devices_starting :
  starting alice_device bob_device 5 0 1 2 1 spk_sig (Some (7, 4%nat)).
Proof.
  split.
  - eexists. split; [split; [by split|reflexivity]|]. reflexivity.
  - eexists. split; [split; [by split|reflexivity]|]. split; [reflexivity|].
    split; [by eexists|by do 2 eexists|by split; [|by eexists]|done].
  - vm_compute. reflexivity.
  - lia.
Qed.

#[local] Instance enough : EnoughFuel 500 := le_n _.

Lemma conversation_delivers_witness :
  ∃ w, run (initSessionFromBundle bob (published 5 1 1 2 1 spk_sig (Some (7, 4%nat))))
           (world_of 5 alice_device) = (w, Ok tt) ∧
    ∀ s l s', reachable 500 (mkSys (w_entropy w) (device_of bob w) bob_device [] []) s →
      sys_step 500 s l s' →
      match l with
      | LSend _ r => (∃ env, r = Ok env) ∨ (∃ p, r = Throw (no_session p))
      | LDeliver text r => r = Ok text
      | LLose => True
      end.
Proof.
  exact (conversation_delivers alice_device bob_device 5 0 1 2 1 spk_sig (Some (7, 4%nat)) 5 1
    devices_starting).
Defined.
