(* ===== verification/AppWitnesses.v ===== *)
(** * Witnesses of the client, the stores and the hook

    Each theorem of these parts that has hypotheses, applied at a concrete
    input where they hold. *)

From S2P Require Import Prelude JsString Utf Json Platform Types.
From S2P Require Import AuthStore ChatStore ContactsStore Client Contacts Socket Sidebar ChatWindow Login.
From S2P Require Import Security.

(** ** client.ts *)

Module ClientRuns.
Import Client.

Definition tok : jsstr := js "token".
Definition auth_ok : jsstr := stringify (JObj [(js "type", JStr (js "auth_ok"))]).
Definition c0 : WinkdClient := newClient.

(** Subscribe, open, get confirmed, send a nudge. *)
Definition events : list event :=
  [EOn ev_message 7; EOpen 0; EMessage 0 auth_ok; ESend cmd_send_nudge JNull].

Definition final : WinkdClient :=
  match run_events tok true events (connect newClient) with Some (c, _) => c | None => newClient end.
Definition tr : list (event * list effect) :=
  match run_events tok true events (connect newClient) with Some (_, tr) => tr | None => [] end.

Lemma client_final_runs : runs tok true (connect newClient) tr final.
Proof.
  apply (run_events_runs tok true events _ [] (connect newClient) final tr); [constructor|].
  vm_compute. reflexivity.
Qed.

Lemma from_connect :
  runs tok true newClient ((EConnect, []) :: tr) final.
Proof.
  apply (run_events_runs tok true (EConnect :: events) _ [] newClient final ((EConnect, []) :: tr)); [constructor|].
  vm_compute. reflexivity.
Qed.

Lemma client_auth_gate_witness :
  is_open final = true ∧ ∀ e, In e [Sent 0 (command_frame cmd_send_nudge JNull)] →
    match e with
    | Sent i text =>
        ESend cmd_send_nudge JNull = EOpen i ∧ text = auth_frame tok ∨
        ∃ command payload, ESend cmd_send_nudge JNull = ESend command payload ∧
          text = command_frame command payload ∧ confirmed tok i (take 3 tr)
    | Called h payload => ∃ i data, ESend cmd_send_nudge JNull = EMessage i data ∧ confirmed tok i (take 3 tr)
    | AuthFailure => ∃ i, ESend cmd_send_nudge JNull = EClose i 4001
    | Uncaught _ => False
    end.
Proof.
  split; [reflexivity|].
  apply (client_auth_gate tok true (take 3 tr) (ESend cmd_send_nudge JNull)
           [Sent 0 (command_frame cmd_send_nudge JNull)] final).
  - exact client_final_runs.
  - repeat constructor.
Defined.

Lemma reconnect_backoff_witness :
  1000 ≤ reconnectDelay final ≤ 30000 ∧
  (∀ t d, timers final !! t = Some d → 1000 ≤ d ≤ 30000) ∧
  reconnectDelay (Nat.iter 6 ontimer (onopen tok final).1) = Z.min (1000 * 2 ^ Z.of_nat 6) 30000.
Proof. exact (reconnect_backoff tok true _ final 6 from_connect). Defined.

Lemma dispatch_calls_subscribers_witness :
  onmessage (stringify (JObj [(js "event", JStr (event_name ev_message)); (js "payload", JNum 5)])) final
    = (final, map (λ h, Called h (Some (JNum 5))) (nullish [] (handlers final !! event_name ev_message))) ∧
  List.NoDup (nullish [] (handlers final !! event_name ev_message)).
Proof.
  apply (dispatch_calls_subscribers tok true _ final ev_message (JNum 5) from_connect);
    vm_compute; reflexivity.
Defined.

End ClientRuns.

(** ** contacts/index.ts *)

Module Qr.
Import Contacts.

(** A URL parser for the one form of URL of the QR codes. *)
Definition parse_url (raw : jsstr) : option url :=
  if decide (take 12 raw = qr_prefix)
  then Some (mkUrl (js "winkd:") (js "add") (47 :: drop 12 raw)) else None.

Lemma parse_url_standard : url_standard parse_url.
Proof.
  intros e _ _. unfold parse_url. assert (length qr_prefix = 12%nat) as Hl by reflexivity.
  rewrite take_app_length' by done. rewrite decide_True by done. by rewrite drop_app_length' by done.
Qed.

Lemma qr_roundtrip_witness :
  ∃ raw, qrPayload (js "zoë#42") = Ok raw ∧ parseQrPayload parse_url raw = Some (js "zoë#42").
Proof.
  apply (qr_roundtrip parse_url (js "zoë#42")).
  - exact parse_url_standard.
  - apply is_js_check. vm_compute. reflexivity.
  - vm_compute. reflexivity.
  - vm_compute. discriminate.
  - vm_compute. discriminate.
Defined.

End Qr.

(** ** The stores *)

(** No double occurs in the witnesses. *)
#[global] Instance no_doubles : Doubles := {|
  double_toString := id;
  double_is_zero := λ _, false;
  double_eqb := λ a b, bool_decide (a = b);
|}.

Module Stores.
Import ChatStore ContactsStore.

Definition bob : jsstr := js "bob#2".
Definition hello : Message := text_message (js "m1") (js "2026") bob bob (js "hello").

Definition opened_chat : ChatState := openConversation bob emptyChat.

Lemma opened_reachable : chat_reachable opened_chat.
Proof. eapply (chat_step (Open bob)); [constructor|done|reflexivity]. Qed.

Lemma chat_invariant_witness :
  chat_ok opened_chat ∧
  ∀ op, allowed op opened_chat → ∃ s', apply_chat op opened_chat = Ok s' ∧ chat_ok s'.
Proof. exact (chat_invariant opened_chat opened_reachable). Defined.

Lemma open_conversation_witness :
  let s' := openConversation (js "carol#3") opened_chat in
  activeConversationId s' = Some (js "carol#3") ∧
  (∃ c, map_get (js "carol#3") (conversations s') = Some c ∧ cv_contactId c = Some (js "carol#3")) ∧
  (∀ k, messages_of k s' = messages_of k opened_chat) ∧
  openConversation (js "carol#3") s' = s'.
Proof. exact (open_conversation (js "carol#3") opened_chat opened_reachable). Defined.

Lemma received_stream_witness :
  let all := messages_of bob emptyChat ++ List.filter (in_conversation bob) [hello; hello] in
  let res := messages_of bob (receive_all [hello; hello] emptyChat) in
  ids res = first_occurrences (ids all) ∧ NoDup (ids res) ∧
  (∀ m, m ∈ res → combined (m_id m) all = Some m) ∧
  ∀ m, receive_all [m; m] emptyChat = receive_all [m] emptyChat.
Proof. apply (received_stream bob [hello; hello] emptyChat). constructor. Defined.

Definition some_block : BlockedUser :=
  mkBlocked (Some (JStr (js "u1"))) (Some (JStr bob)) (Some (JStr (js "Bob"))) (Some JNull) (Some (JStr (js "2026"))).
Definition store_ops : list contacts_op :=
  [UpsertBlocked some_block; IncrementUnread bob; UpsertBlocked some_block].

Lemma contacts_store_refines_witness :
  let s := run_contacts store_ops emptyContacts in
  let a := foldl (λ a op, spec_contacts op a) empty_spec store_ops in
  repr sc_id (contacts s) (a_contacts a) ∧
  repr requestId (pendingInvitations s) (a_pending a) ∧
  repr b_userId (blockedUsers s) (a_blocked a) ∧
  ∀ id, map_get id (unreadCounts s) = a_unread a !! id.
Proof.
  apply (contacts_store_refines store_ops). repeat constructor; by eexists.
Defined.

Lemma unread_counts_since_clear_witness :
  nullish 0 (map_get bob (unreadCounts
    (run_contacts ([IncrementUnread bob] ++ ClearUnread bob :: store_ops) emptyContacts))) = 1.
Proof.
  apply (unread_counts_since_clear bob [IncrementUnread bob] store_ops).
  intros op Hop ->. cbn in Hop. intuition discriminate.
Defined.

End Stores.

(** ** useSocket.ts *)

Module Hook.
Import AuthStore ChatStore ContactsStore Socket.

Definition es : list event :=
  [ERender; EOpen 0; EMessage 0 auth_ok_data []; ERender; EOpen 1].

Definition final : App :=
  match trace_of es (initialApp signed_in) with Some (a, _) => a | None => initialApp signed_in end.
Definition tr : list (event * list output) :=
  match trace_of es (initialApp signed_in) with Some (_, tr) => tr | None => [] end.

Lemma hook_final_runs : runs (initialApp signed_in) tr final.
Proof.
  apply (trace_of_runs es _ [] (initialApp signed_in) final tr); [constructor|].
  vm_compute. reflexivity.
Qed.

Lemma socket_run_safety_witness :
  (∀ i j k l, conns final !! i = Some k → conns final !! j = Some l → live k → live l → i = j) ∧
  (∀ payload i text, In (Sent i text) (send payload final) →
     text = stringify payload ∧
     ∃ k, conns final !! i = Some k ∧ k_state k = OPEN ∧ opened i (k_token k) tr) ∧
  (∀ i data now a' out,
     enabled (EMessage i data now) final = true → step (EMessage i data now) final = (a', out) →
     (chatStore (stores a') = chatStore (stores final) ∧
      contactsStore (stores a') = contactsStore (stores final))
     ∨ ∃ k, conns final !! i = Some k ∧ confirmed i (k_token k) tr).
Proof. exact (socket_run_safety signed_in tr final hook_final_runs). Defined.

Definition bob_message : Message := bob_says (js "hi").
Definition connected : Connection := mkConnection (js "t") (js "alice#1") (Some (js "bob#2")) true OPEN.

Lemma incoming_message_witness :
  onmessage (stringify (message_frame bob_message)) [] connected signed_in =
    (connected, on_chat (receiveMessage (relayed bob_message)) signed_in).
Proof.
  apply (incoming_message [] bob_message connected signed_in); [|reflexivity].
  split; [vm_compute; reflexivity|]. split; [intros v E; discriminate|].
  repeat split; vm_compute; discriminate.
Defined.

Definition presence_frame : json :=
  JObj [(js "event", JStr (js "presence"));
        (js "payload", JObj [(js "userId", JStr (js "bob#2")); (js "status", JStr (js "away"))])].

Lemma signed_in_ok : stores_ok signed_in.
Proof.
  split; split; try constructor; cbn; try done; try constructor.
Qed.

Lemma server_events_keep_invariants_witness :
  stores_ok (onmessage (stringify presence_frame) [] connected signed_in).2.
Proof.
  eapply (server_events_keep_invariants (stringify presence_frame) [] connected signed_in);
    [|exact signed_in_ok|apply surjective_pairing].
  intros v Hv. vm_compute in Hv. injection Hv as <-.
  unfold event_ok. split_and!; intros E; vm_compute in E; discriminate.
Defined.

Lemma close_4001_signs_out_witness :
  let a' := render (step (EClose 1 4001) final).1 in
  session (authStore (stores a')) = None ∧
  (∀ j k, conns a' !! j = Some k → ¬ live k) ∧
  ∀ payload, send payload a' = [].
Proof. apply (close_4001_signs_out signed_in tr final 1 hook_final_runs). vm_compute. reflexivity. Defined.

Lemma reconnect_loop_witness :
  ∃ a, run_events (ERender :: concat (map (cycle auth_ok_data []) (seq 0 3))) (initialApp signed_in)
         = Some (a, map (λ j, Sent j (auth_frame (js "t"))) (seq 0 3)) ∧
    (∀ j, (j < 3)%nat → ∃ k, conns a !! j = Some k ∧ k_state k = CLOSING ∧ k_authenticated k = true) ∧
    ∃ k, conns a !! 3%nat = Some k ∧ k_state k = CONNECTING ∧ k_authenticated k = false.
Proof.
  apply (reconnect_loop signed_in 0 (mkSession (js "t") alice_profile defaultSupporterState) auth_ok_data [] 3).
  - reflexivity.
  - apply set_session_fresh.
  - eexists. split; [vm_compute; reflexivity|reflexivity].
Defined.

End Hook.

(** ** The panels *)

Module Panels.

Lemma sidebar_qr_roundtrip_witness :
  let id := js "zoë#4242" in
  let raw := js "winkd://add/zo%C3%AB%234242" in
  Contacts.qrPayload id = Ok raw ∧ parseQrToWinkdId raw = Ok (Some id) ∧
  ∀ a, qrScanInput a = raw →
    ∃ a', handleUseQrPayload a = Ok a' ∧
      (handleAddContact a').2 = [command (js "add_contact") [(js "winkd_id", JStr id)]].
Proof.
  apply (sidebar_qr_roundtrip (js "zoë#4242") (js "winkd://add/zo%C3%AB%234242")).
  - apply is_js_check. vm_compute. reflexivity.
  - vm_compute. reflexivity.
  - vm_compute. reflexivity.
  - vm_compute. reflexivity.
Defined.

Definition window : ChatWindow.Window :=
  ChatWindow.mkWindow (ChatStore.openConversation (js "bob#2") ChatStore.emptyChat) [] None.

Lemma attachment_gate_witness :
  let '(w', frames) :=
    ChatWindow.handleAttachmentSelect (js "bob#2") (js "alice#1")
      (Some (ChatWindow.mkFile (js "setup" ++ 46 :: js "EXE") 10 [])) (Some (js "data:")) (js "m") (js "t") window in
  frames = [] ∧ ChatWindow.chat w' = ChatWindow.chat window ∧ is_Some (ChatWindow.attachmentError w').
Proof.
  apply (ChatWindow.attachment_gate (js "bob#2") (js "alice#1") (js "setup") (js "EXE") 10 []
           (Some (js "data:")) (js "m") (js "t") window).
  vm_compute. intuition discriminate.
Defined.

Definition login_data : Login.LoginReply :=
  Login.mkReply (js "tok") (js "alice#1") (js "Alice") [] None.

(** A login with a second factor. *)
Definition login_events : list Login.event :=
  [Login.ESubmit; Login.EReply 0 None (Login.Answered (Login.mkData true (Some (js "ch")) login_data));
   Login.ETotpSubmit; Login.ETotpReply 0 None (Login.Answered login_data)].

Definition login_page : Login.Page :=
  foldl (λ p e, Login.step e p) (Login.mkPage Login.initialForm AuthStore.emptyAuth []) login_events.

Lemma login_reachable : Login.reachable AuthStore.emptyAuth login_events login_page.
Proof.
  assert (∀ es e p q, Login.reachable AuthStore.emptyAuth es p → Login.enabled e p → q = Login.step e p →
    Login.reachable AuthStore.emptyAuth (es ++ [e]) q) as Hs by (intros ??????->; by constructor).
  apply (Hs (take 3 login_events) (Login.ETotpReply 0 None (Login.Answered login_data))
    (foldl (λ p e, Login.step e p) (Login.mkPage Login.initialForm AuthStore.emptyAuth []) (take 3 login_events))); [|by eexists|done].
  apply (Hs (take 2 login_events) Login.ETotpSubmit
    (foldl (λ p e, Login.step e p) (Login.mkPage Login.initialForm AuthStore.emptyAuth []) (take 2 login_events))); [|done|done].
  apply (Hs (take 1 login_events) (Login.EReply 0 None (Login.Answered (Login.mkData true (Some (js "ch")) login_data)))
    (foldl (λ p e, Login.step e p) (Login.mkPage Login.initialForm AuthStore.emptyAuth []) (take 1 login_events))); [|by do 3 eexists|done].
  apply (Hs [] Login.ESubmit (Login.mkPage Login.initialForm AuthStore.emptyAuth [])); [constructor|done|done].
Qed.

Lemma login_run_safety_witness :
  (∀ i s, AuthStore.session (Login.authState login_page) = Some (i, s) →
     AuthStore.session AuthStore.emptyAuth = Some (i, s) ∨
     ∃ e, In e login_events ∧ Login.grants e (AuthStore.token s)) ∧
  (Login.mode (Login.form login_page) = Login.TotpMode →
     Login.challengeToken (Login.form login_page) ≠ [] ∧
     (∃ e, In e login_events ∧ Login.challenges e (Login.challengeToken (Login.form login_page))) ∧
     (Login.handleTotpSubmit (Login.form login_page)).2 =
       Login.Challenge (JObj [(js "challenge_token", JStr (Login.challengeToken (Login.form login_page)));
                              (js "code", JStr (Login.totpCode (Login.form login_page)))])) ∧
  (length (Login.pending login_page) ≤ 1)%nat ∧
  (Login.loading (Login.form login_page) = false ↔ Login.pending login_page = []).
Proof. exact (Login.login_run_safety AuthStore.emptyAuth login_events login_page login_reachable). Defined.

Definition old_session : AuthStore.Session :=
  AuthStore.mkSession (js "t")
    (mkOwnProfile (mkUserProfile (js "alice#1") (js "Alice") [] busy (Some (js "pic"))) (js "t"))
    AuthStore.defaultSupporterState.

Lemma relogin_keeps_status_witness :
  ∃ i s, AuthStore.session (Login.completeLogin (Some (stringify (Persist.persisted old_session))) login_data
           AuthStore.emptyAuth) = Some (i, s) ∧
    status (own_profile (AuthStore.profile s)) = busy ∧
    avatarData (own_profile (AuthStore.profile s)) = Some (js "pic").
Proof.
  apply (Login.relogin_keeps_status old_session login_data AuthStore.emptyAuth);
    [vm_compute; reflexivity|reflexivity].
Defined.

Definition enabled_view : Security.View :=
  match Security.run_events Security.enabling Security.initialView with
  | Some v => v | None => Security.initialView end.

Lemma run_reachable es es0 v w :
  Security.reachable es0 v → Security.run_events es v = Some w → Security.reachable (es0 ++ es) w.
Proof.
  revert es0 v. induction es as [|e es IH]; cbn; intros es0 v Hr H.
  - injection H as <-. by rewrite app_nil_r.
  - destruct (Security.enabled e v) eqn:He; [|done]. change (e :: es) with ([e] ++ es).
    rewrite (assoc_L (++)). eapply IH; [by constructor|done].
Qed.

Lemma enabled_reachable : Security.reachable Security.enabling enabled_view.
Proof.
  apply (run_reachable Security.enabling [] Security.initialView); [constructor|]. vm_compute. reflexivity.
Qed.

Lemma panel_run_safety_witness :
  (Security.loading (Security.panel enabled_view) = true ↔ is_Some (Security.pending enabled_view)) ∧
  (∀ c, Security.pending enabled_view = Some (Security.Confirm c) → length c = 6%nat) ∧
  (∀ c, Security.pending enabled_view = Some (Security.Disable c) ∨
        Security.pending enabled_view = Some (Security.Regenerate c) → js_trim c ≠ []) ∧
  (Security.msg (Security.panel enabled_view) = [] ∨ Security.err (Security.panel enabled_view) = []).
Proof. exact (Security.panel_run_safety Security.enabling enabled_view enabled_reachable). Defined.

Lemma panel_recovers_witness :
  ∃ es' v', Security.run_events es' enabled_view = Some v' ∧
    Forall (λ e, e = Security.EReply Security.Failed ∨ e = Security.ETimer) es' ∧
    Security.loading (Security.panel v') = false ∧ Security.pending v' = None ∧
    Security.msg (Security.panel v') = [] ∧ Security.err (Security.panel v') = [].
Proof.
  apply (Security.panel_recovers Security.enabling enabled_view Security.Failed enabled_reachable).
  intros [q Hq]. vm_compute in Hq. discriminate.
Defined.

Lemma totp_follows_server_witness :
  let v := Security.initialView in
  let e := Security.EStatus true 3 in
  Security.totpEnabled (Security.panel (Security.step e v)) = true ∧
  (Security.totpEnabled (Security.panel (Security.step e v)) ≠ Security.totpEnabled (Security.panel v) →
     (∃ b n, e = Security.EStatus b n ∧ Security.totpEnabled (Security.panel (Security.step e v)) = b) ∨
     (∃ c codes, Security.pending v = Some (Security.Confirm c) ∧
        e = Security.EReply (Security.Answered (Security.CodesData codes)) ∧
        Security.totpEnabled (Security.panel (Security.step e v)) = true) ∨
     (∃ c, Security.pending v = Some (Security.Disable c) ∧
        e = Security.EReply (Security.Answered Security.NoData) ∧
        Security.totpEnabled (Security.panel (Security.step e v)) = false)).
Proof. split; [reflexivity|]. exact (proj1 (Security.totp_follows_server (Security.EStatus true 3) Security.initialView eq_refl)). Defined.

End Panels.
