(* ===== verification/PageWitnesses.v ===== *)
(** * Witnesses of the views and the page

    Each theorem about the bubbles, the contact list and the page that has
    hypotheses, applied at a concrete input where they hold. *)

From S2P Require Import Prelude JsString Utf Matching Json Platform Types AuthStore ChatStore ContactsStore.
From S2P Require Import Socket.
From S2P Require Import Emoji Bubble Roster Sidebar ChatWindow Page AppWitnesses.

(** Upper case of the ASCII letters. *)
Definition ascii_upper (c : Z) : jsstr := if (97 <=? c) && (c <=? 122) then [c - 32] else [Z.max 0 c].

Lemma ascii_upper_units c : Forall (λ u, 0 ≤ u) (ascii_upper c).
Proof. unfold ascii_upper. destruct (_ && _) eqn:E; zbool; constructor; try constructor; lia. Qed.

Definition no_format (l : jsstr) : jsstr := l.

(** ** Bubbles *)

Definition greeting : Message :=
  text_message (js "m1") (js "2026") (js "bob#2") (js "alice#1")
    (js "hi :classic-smile:! see https://example.org/a.png").

Lemma bubble_keeps_text_witness :
  ∃ parts,
    MessageBubble no_format greeting true =
      Ok (Some (TextBubble true parts
        (media_view no_format greeting (js "hi :classic-smile:! see https://example.org/a.png")))) ∧
    concat (map source parts) = js "hi :classic-smile:! see https://example.org/a.png" ∧
    Forall (part_ok parts) parts.
Proof. apply (bubble_keeps_text no_format greeting true); reflexivity. Defined.

Lemma emoji_in_bubble_witness :
  In (InlineImage (js ":classic-smile:")
        [EmojiPiece (MSN_EMOTICON_BASE_URL ++ js "/smile.png") (MSN_EMOTICON_BASE_URL ++ js "/smile.png") []] [])
    (body_parts (js "hi :classic-smile:!")).
Proof.
  apply (emoji_in_bubble (js "hi :classic-smile:!") (js ":classic-smile:")).
  - vm_compute. by left.
  - vm_compute. reflexivity.
Defined.

Lemma formatBytes_rounds_witness :
  ∃ tenths unit suffix,
    formatBytes no_format (Some (JNum 1048575)) =
      js_toString (tenths / 10) ++ js "." ++ js_toString (tenths mod 10) ++ suffix ∧
    (unit = 1024 ∧ suffix = js " KB" ∧ 1048575 < 1048576 ∨
     unit = 1048576 ∧ suffix = js " MB" ∧ 1048576 ≤ 1048575) ∧
    Z.abs (20 * 1048575 - 2 * unit * tenths) ≤ unit.
Proof. apply (formatBytes_rounds no_format 1048575). lia. Defined.

(** ** The contact list *)

Definition bob_contact : StoredContact :=
  mkStored (Some (JStr (js "bob#2"))) (Some (JStr (js "bob#2"))) (Some (JStr (js "Bob B")))
    (Some (JStr [])) (Some (JStr (js "online"))) (Some JNull) (Some (JStr (js "accepted")))
    (Some (JNum 0)) (Some JNull).

Definition some_contacts : ContactsState := mkContacts [bob_contact] [] [] [].

Definition some_roster : RosterView :=
  match Roster ascii_upper js_toLowerCase None (js "bo") initialCollapsed some_contacts with
  | Ok r => r | Throw _ => mkRoster [] [] true end.

Lemma roster_shows_contacts_witness :
  (∃ a b c, rv_groups some_roster = shown_views [a; b; c] ∧
     group_shows ascii_upper js_toLowerCase None (js "bo") initialCollapsed some_contacts GroupOnline a ∧
     group_shows ascii_upper js_toLowerCase None (js "bo") initialCollapsed some_contacts GroupAway b ∧
     group_shows ascii_upper js_toLowerCase None (js "bo") initialCollapsed some_contacts GroupOffline c) ∧
  (∀ c, In c (acceptedContacts some_contacts) → name_matches js_toLowerCase (js "bo") c = true →
     (known_status c → exists! g, In c (members js_toLowerCase (js "bo") some_contacts g)) ∧
     (¬ known_status c → ∀ g, ¬ In c (members js_toLowerCase (js "bo") some_contacts g))) ∧
  (rv_empty some_roster = true ↔
     ∀ c, In c (acceptedContacts some_contacts) ∨ In c (pendingOutbound some_contacts) →
       name_matches js_toLowerCase (js "bo") c = false).
Proof.
  apply (roster_shows_contacts ascii_upper js_toLowerCase None (js "bo") initialCollapsed some_contacts).
  vm_compute. reflexivity.
Defined.

(** ** The page *)

Lemma bob_typed : contact_typed bob_contact.
Proof. split; [by eexists|by eexists|by left|by left|by eexists]. Qed.

(** Alice is signed in and has Bob as a contact. *)
Definition alice_stores : Stores := mkStores (authStore signed_in) emptyChat some_contacts.

Lemma alice_showable : showable alice_stores.
Proof.
  split.
  - intros i s [= <- <-]. split; [|vm_compute; reflexivity].
    apply is_js_check. vm_compute. reflexivity.
  - intros k c. done.
  - split; cbn; [|constructor..]. constructor; [apply bob_typed|constructor].
Qed.

Lemma empty_chat_ok : chat_ok emptyChat.
Proof. split; [constructor|done|done]. Qed.

Definition alice_connection : Connection := mkConnection (js "t") (js "alice#1") None true OPEN.

(** Bob's window, with a text typed. *)
Definition bob_window : Window := mkWindow emptyChat (js " hello :classic-smile: ") None.

Definition alice_session : Session :=
  match session (authStore signed_in) with Some (_, s) => s
  | None => mkSession [] alice_profile defaultSupporterState end.

Definition bob_sent : Message :=
  text_message (js "m1") (js "2026") (js "alice#1") (js "bob#2") (js_trim (inputValue bob_window)).

Lemma message_reaches_screen_witness :
  (handleSend (js "alice#1") (js "bob#2") (js "m1") (js "2026") bob_window).2 = [send_message_json bob_sent] ∧
  let s1 := (onmessage (stringify (message_frame (forwarded (js "bob#2") bob_sent))) (js "2026")
               alice_connection alice_stores).2 in
  let '(chat', contacts') := handleContactClick (js "bob#2") (chatStore s1) (contactsStore s1) in
  ∃ view before parts,
    Page.ChatWindow ascii_upper no_format (mkStores (authStore s1) chat' contacts') = Ok (Some view) ∧
    cw_bubbles view = before ++ [Some (TextBubble false parts None)] ∧
    concat (map source parts) = js_trim (inputValue bob_window).
Proof.
  apply (message_reaches_screen ascii_upper no_format ascii_upper_units (js "bob#2") (js "alice#1") (js "m1")
    (js "2026") bob_window (js "2026") alice_connection alice_stores 0%nat alice_session bob_contact).
  - vm_compute. discriminate.
  - split; [vm_compute; reflexivity|]. split; [done|]. vm_compute. by split_and!.
  - reflexivity.
  - exact alice_showable.
  - exact empty_chat_ok.
  - reflexivity.
  - vm_compute. discriminate.
  - apply not_elem_of_nil.
  - by left.
  - reflexivity.
Defined.

Lemma missing_body_crashes_witness :
  let m := own_message (js "m1") (js "2026") (js "bob#2") (js "bob#2") (js "text") in
  let s1 := (onmessage (stringify (message_frame m)) (js "2026") alice_connection alice_stores).2 in
  let '(chat', contacts') := handleContactClick (js "bob#2") (chatStore s1) (contactsStore s1) in
  renders ascii_upper js_toLowerCase no_format
    [(mkLocal [] initialCollapsed false false, mkStores (authStore s1) chat' contacts')] = (true, ErrorScreen).
Proof.
  apply (missing_body_crashes ascii_upper js_toLowerCase no_format ascii_upper_units (js "bob#2") (js "m1")
    (js "2026") alice_connection alice_stores 0%nat alice_session bob_contact
    (mkLocal [] initialCollapsed false false) []).
  - split; [vm_compute; reflexivity|]. split; [done|]. vm_compute. by split_and!.
  - reflexivity.
  - exact alice_showable.
  - exact empty_chat_ok.
  - reflexivity.
  - apply not_elem_of_nil.
  - by left.
  - reflexivity.
Defined.

(** A presence event. *)
Definition presence : json :=
  JObj [(js "event", JStr (js "presence"));
        (js "payload", JObj [(js "userId", JStr (js "bob#2")); (js "status", JStr (js "away"))])].

Lemma typed_events_show_witness :
  let s' := (onmessage (stringify presence) (js "2026") alice_connection alice_stores).2 in
  showable s' ∧
  ∀ l, ∃ v, AppErrorBoundary ascii_upper js_toLowerCase no_format false l s' = (false, v) ∧ v ≠ ErrorScreen.
Proof.
  apply (typed_events_show ascii_upper js_toLowerCase no_format ascii_upper_units (stringify presence) (js "2026")
    alice_connection alice_stores
    (onmessage (stringify presence) (js "2026") alice_connection alice_stores).1).
  - intros v Hv. assert (v = presence) as -> by (vm_compute in Hv; injection Hv as <-; reflexivity).
    unfold event_typed. split_and!; intros E; try (vm_compute in E; discriminate E).
    intros st [= <-]. apply readable_text.
  - exact alice_showable.
  - apply surjective_pairing.
Defined.

(** A nudge to shake: the conversation is open and a winkd arrives. *)
Definition shake_events : list shake_event :=
  [EStore (openConversation (js "bob#2"));
   EStore (receiveMessage (own_message (js "w1") (js "2026") (js "bob#2") (js "bob#2") (js "winkd")))].

Definition shaken : Shake := foldl (λ k e, shake_step e k) (shake_start emptyChat) shake_events.

Lemma shaken_runs : shake_runs emptyChat shake_events shaken.
Proof.
  assert (chat_ok (openConversation (js "bob#2") emptyChat)) as H1.
  { exact (chat_reachable_ok _ Stores.opened_reachable). }
  apply (shake_runs_store emptyChat [EStore (openConversation (js "bob#2"))] _
    (receiveMessage (own_message (js "w1") (js "2026") (js "bob#2") (js "bob#2") (js "winkd")))).
  - apply (shake_runs_store emptyChat [] _ (openConversation (js "bob#2"))); [constructor|exact H1].
  - apply receive_ok; [by left|exact H1].
Qed.

Lemma shake_timer_witness :
  (∀ id, sk_timer shaken = Some id ↔ shaking (sk_chat shaken) id) ∧
  (∀ id, sk_timer shaken = Some id →
     let k' := shake_step ETimer shaken in
     (∀ j, ¬ shaking (sk_chat k') j) ∧ sk_timer k' = None ∧
     ∀ j, messages_of j (sk_chat k') = messages_of j (sk_chat shaken)).
Proof.
  exact (shake_timer emptyChat shake_events shaken empty_chat_ok shaken_runs).
Defined.

Example shaken_timer : sk_timer shaken = Some (js "bob#2").
Proof. vm_compute. reflexivity. Qed.
