(* ===== verification/MarkupWitnesses.v ===== *)
(** * Witnesses of the rendered pages

    Each theorem about the markup of the pages that has hypotheses, applied to a
    short run that a user makes on the screen. *)

From S2P Require Import Login LoginView Security SecurityView SidebarMarkup SidebarRuns ChatMarkup ChatRuns.
From S2P Require Import AppMarkup AppRuns.
From S2P Require Import Prelude JsString Json Platform Types AuthStore ChatStore ContactsStore Socket.
From S2P Require Import Roster Sidebar ChatWindow Page Html Widgets Chrome AppWitnesses PageWitnesses.

(** ** Signing in *)

Module SignIn.
Import Login LoginView.

Definition api : jsstr := js "https://api".

(** A name and a short password for an account with two-factor authentication, and
    from the second step back to a new account. *)
Definition second_step : LoginData := mkData true (Some (js "c")) (mkReply [] [] [] [] None).
Definition comes_back : list event :=
  [EInput (set_username (js "bob")); EInput (set_password (js "secret")); ESubmit;
   EReply 0 None (Answered second_step); EBack; ETab RegisterMode; ESubmit].
Definition after (es : list event) : Page := foldl (λ p e, step e p) (mkPage initialForm emptyAuth []) es.
(** Whether the password is the user's own, after so many events. *)
Definition own (n : nat) : bool := match n with 2%nat | 3%nat => true | _ => false end.

Lemma user_types n g v :
  take (S n) comes_back = take n comes_back ++ [EInput (g v)] →
  viewed api emptyAuth (take n comes_back) (after (take n comes_back)) [] (own n) →
  In (typed g) (page_handlers (own n) (form (after (take n comes_back)))) →
  viewed api emptyAuth (take (S n) comes_back) (step (EInput (g v)) (after (take n comes_back))) []
    (edited_after (own n) (form (after (take n comes_back))) (EInput (g v)) (form (step (EInput (g v)) (after (take n comes_back))))).
Proof.
  intros -> Hv Hin. apply viewed_user; [exact Hv|].
  eapply (offered_change _ None (λ v, [EInput (g v)]) v); [by rewrite login_handlers|done].
Qed.

Lemma user_acts n e x :
  take (S n) comes_back = take n comes_back ++ [e] → x = HClick [e] ∨ x = HSubmit [e] →
  viewed api emptyAuth (take n comes_back) (after (take n comes_back)) [] (own n) →
  In x (page_handlers (own n) (form (after (take n comes_back)))) →
  viewed api emptyAuth (take (S n) comes_back) (step e (after (take n comes_back))) []
    (edited_after (own n) (form (after (take n comes_back))) e (form (step e (after (take n comes_back))))).
Proof.
  intros -> Hx Hv Hin. apply viewed_user; [exact Hv|].
  destruct Hx as [-> | ->]; [apply offered_click|apply offered_submit]; by rewrite login_handlers.
Qed.

Lemma comes_back_viewed : viewed api emptyAuth comes_back (after comes_back) [] false.
Proof.
  assert (viewed api emptyAuth (take 0 comes_back) (after (take 0 comes_back)) [] (own 0)) as H by constructor.
  apply (user_types 0 set_username (js "bob")) in H; [|done|vm_compute; auto 10].
  change (viewed api emptyAuth (take 1 comes_back) (after (take 1 comes_back)) [] (own 1)) in H.
  apply (user_types 1 set_password (js "secret")) in H; [|done|vm_compute; auto 10].
  change (viewed api emptyAuth (take 2 comes_back) (after (take 2 comes_back)) [] (own 2)) in H.
  apply (user_acts 2 ESubmit (HSubmit [ESubmit])) in H; [|done|by right|vm_compute; auto 10].
  change (viewed api emptyAuth (take 3 comes_back) (after (take 3 comes_back)) [] (own 3)) in H.
  apply (viewed_reply _ _ _ _ _ _ (EReply 0 None (Answered second_step))) in H; [|done|by do 3 eexists].
  change (viewed api emptyAuth (take 4 comes_back) (after (take 4 comes_back)) [] (own 4)) in H.
  apply (user_acts 4 EBack (HClick [EBack])) in H; [|done|by left|vm_compute; auto 10].
  change (viewed api emptyAuth (take 5 comes_back) (after (take 5 comes_back)) [] (own 5)) in H.
  apply (user_acts 5 (ETab RegisterMode) (HClick [ETab RegisterMode])) in H; [|done|by left|vm_compute; auto 10].
  change (viewed api emptyAuth (take 6 comes_back) (after (take 6 comes_back)) [] (own 6)) in H.
  apply (user_acts 6 ESubmit (HSubmit [ESubmit])) in H; [exact H|done|by right|vm_compute; auto 10].
Qed.


End SignIn.

(** ** The settings *)

Module Settings.
Import Security SecurityView.

Definition enabling : View := step EStart initialView.

Lemma enabling_viewed : viewed no_format (js "t") [EStart] enabling.
Proof.
  apply (viewed_user no_format (js "t") [] initialView [Act EStart]); [constructor|].
  apply offered_click. rewrite security_handlers. vm_compute. auto.
Qed.

Lemma rendered_panel_refines_witness :
  reachable [EStart] enabling ∧ ∀ r, pending enabling = Some r → request_ok r.
Proof. apply (rendered_panel_refines no_format (js "t") [EStart] enabling). exact enabling_viewed. Defined.

End Settings.

(** ** The sidebar *)

Module Buddies.
Import SidebarMarkup SidebarRuns.

(** Bob's contact is in the list, and Carol asks to be one. *)
Definition carol : PendingInvitation :=
  mkInvitation (Some (JNum 7)) (Some (JStr (js "carol#3"))) (Some (JStr (js "Carol"))) (Some JNull).

Definition invited : Stores :=
  mkStores (authStore alice_stores) emptyChat (mkContacts [bob_contact] [] [carol] []).

Lemma invited_showable : showable invited.
Proof.
  destruct alice_showable as [Ha Hm [Hc _ _]]. split; [exact Ha|exact Hm|]. split; [exact Hc| |constructor].
  constructor; [|constructor]. split; [by eexists|]. split; [by left|right; by eexists].
Qed.

Definition view_of (l : SidebarLocal) : SidebarView :=
  match Page.Sidebar ascii_upper js_toLowerCase l invited alice_session with
  | Ok v => v
  | Throw _ => mkSidebarView (mkAvatar (ImagePicture [] []) None) None (mkRoster [] [] true) None [] [] []
  end.

Definition dialog : SidebarState := with_local (setShowPendingModal true) initialSidebar.

(** Alice opens the invitations and accepts Carol's. *)
Definition accepted : Stores :=
  mkStores (authStore invited) emptyChat (mkContacts [bob_contact] [] [] []).
Definition accept_frame : json := command (js "accept_contact") [(js "request_id", JNum 7)].

Lemma opens : offered (Sidebar no_format no_format None None (λ _, false) alice_session initialSidebar
  (view_of (local initialSidebar))) [SPendingOpen].
Proof. apply offered_click. rewrite sidebar_markup_handlers. vm_compute. tauto. Qed.

Lemma accepts : offered (Sidebar no_format no_format None None (λ _, false) alice_session dialog
  (view_of (local dialog))) [SApprove (Some (JNum 7))].
Proof. apply offered_click. rewrite sidebar_markup_handlers. vm_compute. tauto. Qed.

Lemma accepting :
  sidebar_runs ascii_upper js_toLowerCase no_format no_format None None invited
    [(invited, Sends accept_frame)] accepted dialog.
Proof.
  apply (sidebar_gesture _ _ _ _ _ _ invited [] invited dialog 0 alice_session (view_of (local dialog)) (λ _, false)
    [SApprove (Some (JNum 7))] accepted dialog [Sends accept_frame]); [|reflexivity|reflexivity|exact accepts|reflexivity].
  apply (sidebar_gesture _ _ _ _ _ _ invited [] invited initialSidebar 0 alice_session
    (view_of (local initialSidebar)) (λ _, false) [SPendingOpen] invited dialog []);
    [constructor|reflexivity|reflexivity|exact opens|reflexivity].
Qed.

Lemma sidebar_sends_justified_witness :
  Forall (λ x, justified None None x.1 x.2) [(invited, Sends accept_frame)] ∧
  (∀ t payload,
     (t, Sends (command (js "set_display_name") payload)) ∉ [(invited, Sends accept_frame)] ∧
     (t, Sends (command (js "set_mood") payload)) ∉ [(invited, Sends accept_frame)]) ∧
  ∀ w r, settings dialog = Some w → Security.pending w = Some r → SecurityView.request_ok r.
Proof.
  apply (sidebar_sends_justified ascii_upper js_toLowerCase no_format no_format None None invited
    [(invited, Sends accept_frame)] accepted dialog).
  exact accepting.
Defined.

Lemma sidebar_gestures_show_witness :
  ∃ s' p' out, performs alice_session [SApprove (Some (JNum 7))] invited dialog = Some (s', p', out) ∧
    chat_ok (chatStore s') ∧ showable s' ∧
    ∀ format_double l, ∃ view,
      AppErrorBoundary ascii_upper js_toLowerCase format_double false l s' = (false, view) ∧ view ≠ ErrorScreen.
Proof.
  apply (sidebar_gestures_show ascii_upper js_toLowerCase no_format no_format None None invited 0 alice_session
    dialog (view_of (local dialog)) (λ _, false)).
  - exact ascii_upper_units.
  - reflexivity.
  - exact invited_showable.
  - exact empty_chat_ok.
  - reflexivity.
  - exact accepts.
Defined.

(** Alice's page connects, and she accepts. *)
Definition connecting_app : Socket.App := (Socket.step ERender (initialApp invited)).1.
Definition connected_app : Socket.App := (Socket.step (EOpen 0) connecting_app).1.
Definition accepted_app : Socket.App := with_stores accepted connected_app.
Definition authentication : output := Sent 0 (auth_frame (AuthStore.token alice_session)).

Definition wired : list (Stores * list output * Stores) :=
  [(invited, [], invited); (invited, [authentication], invited); (invited, [], invited);
   (invited, [Sent 0 (stringify accept_frame)], accepted)].

Lemma accepting_page :
  page_runs ascii_upper js_toLowerCase no_format no_format no_format None None invited wired
    (mkRunning accepted_app dialog ChatMarkup.initialChat).
Proof.
  set (before := mkRunning connected_app initialSidebar ChatMarkup.initialChat).
  set (opened := mkRunning connected_app dialog ChatMarkup.initialChat).
  apply (page_next _ _ _ _ _ _ _ invited (take 3 wired) opened [Sent 0 (stringify accept_frame)]
    (mkRunning accepted_app dialog ChatMarkup.initialChat)).
  2: { apply (step_sidebar _ _ _ _ _ _ _ opened 0 alice_session (view_of (local dialog)) (λ _, false)
         [SApprove (Some (JNum 7))] accepted dialog [Sends accept_frame]); [reflexivity..|exact accepts|reflexivity]. }
  apply (page_next _ _ _ _ _ _ _ invited (take 2 wired) before [] opened).
  2: { apply (step_sidebar _ _ _ _ _ _ _ before 0 alice_session (view_of (local initialSidebar)) (λ _, false)
         [SPendingOpen] invited dialog []); [reflexivity..|exact opens|reflexivity]. }
  apply (page_next _ _ _ _ _ _ _ invited (take 1 wired)
    (mkRunning connecting_app initialSidebar ChatMarkup.initialChat) [authentication] before).
  2: { by apply (step_itself _ _ _ _ _ _ _ (mkRunning connecting_app initialSidebar ChatMarkup.initialChat)
         (EOpen 0) connected_app [authentication]). }
  apply (page_next _ _ _ _ _ _ _ invited [] (mkRunning (initialApp invited) initialSidebar ChatMarkup.initialChat)
    [] (mkRunning connecting_app initialSidebar ChatMarkup.initialChat));
    [constructor|by apply (step_itself _ _ _ _ _ _ _ (mkRunning (initialApp invited) initialSidebar ChatMarkup.initialChat)
      ERender connecting_app [])].
Qed.

Lemma page_wire_witness :
  (∃ tr', Socket.runs (initialApp invited) tr' accepted_app ∧ flat_map snd tr' = wire wired) ∧
  ∀ tr1 s out s' tr2 i text, wired = tr1 ++ (s, out, s') :: tr2 → In (Sent i text) out →
    text = auth_frame (AuthStore.token alice_session) ∨
    ∃ f, text = stringify f ∧ (justified None None s (Sends f) ∨ ChatRuns.sent_ok s f (chatStore s')) ∧
      In (Sent i (auth_frame (AuthStore.token alice_session))) (flat_map (λ x, x.1.2) tr1).
Proof.
  apply (page_wire ascii_upper js_toLowerCase no_format no_format no_format None None invited 0 alice_session wired
    (mkRunning accepted_app dialog ChatMarkup.initialChat)).
  - reflexivity.
  - exact accepting_page.
Defined.

End Buddies.

(** ** The chat window *)

Module Chats.
Import ChatMarkup ChatRuns.

(** Alice has Bob's conversation open. *)
Definition chatting : Stores :=
  set_chat (openConversation (js "bob#2") emptyChat) alice_stores.

Lemma chatting_showable : showable chatting.
Proof.
  destruct alice_showable as [Ha Hm Hc]. split; [exact Ha| |exact Hc]. apply open_showable; [exact empty_chat_ok|exact Hm].
Qed.

Definition shown : option ChatView :=
  match Page.ChatWindow ascii_upper no_format chatting with Ok v => v | Throw _ => None end.
Definition bob_closure : Closure := mkClosure (js "bob#2") (js "alice#1") (Some (JStr (js "bob#2"))).
Definition browser : Browser := mkBrowser (js "m1") (js "2026") None.

Definition typed_hi : ChatLocal := mkChatLocal (js " hi ") None None [].
Definition hi : Message := text_message (js "m1") (js "2026") (js "bob#2") (js "alice#1") (js "hi").
Definition after_hi : ChatState := append_message (js "bob#2") hi (chatStore chatting).

Lemma types : offered (ChatWindow None alice_session initialChat shown) [CInput (js " hi ")].
Proof.
  eapply (offered_change _ None (λ t, [CInput t]) (js " hi ")); [|done]. rewrite chat_markup_handlers. vm_compute. tauto.
Qed.

Lemma sends : offered (ChatWindow None alice_session typed_hi shown) [CSend].
Proof. apply offered_click. rewrite chat_markup_handlers. vm_compute. tauto. Qed.

(** She types a text and sends it. *)
Lemma saying_hi :
  chat_runs ascii_upper no_format chatting [(chatting, send_message_json hi, after_hi)]
    (set_chat after_hi chatting) initialChat.
Proof.
  destruct shown as [v|] eqn:E; [|discriminate E].
  pose proof types as Ht. pose proof sends as Hs. rewrite E in Ht, Hs.
  assert (Page.ChatWindow ascii_upper no_format chatting = Ok (Some v)) as Hv.
  { unfold shown in E. destruct (Page.ChatWindow _ _ _) as [w|]; [by rewrite E|discriminate E]. }
  assert (closure alice_session v = Some bob_closure) as Hk by (vm_compute in E; injection E as <-; reflexivity).
  apply (chat_gesture _ _ chatting [] chatting typed_hi 0 alice_session v None bob_closure browser CSend
    after_hi initialChat [send_message_json hi]); [|reflexivity|exact Hv|exact Hk|exact Hs|reflexivity].
  apply (chat_gesture _ _ chatting [] chatting initialChat 0 alice_session v None bob_closure browser
    (CInput (js " hi ")) (chatStore chatting) typed_hi []); [constructor|reflexivity|exact Hv|exact Hk|exact Ht|reflexivity].
Qed.

Lemma chat_sends_allowed_witness :
  Forall (λ x, sent_ok x.1.1 x.1.2 x.2) [(chatting, send_message_json hi, after_hi)].
Proof.
  apply (chat_sends_allowed ascii_upper no_format chatting [(chatting, send_message_json hi, after_hi)]
    (set_chat after_hi chatting) initialChat).
  exact saying_hi.
Defined.

Lemma chat_actions_show_witness :
  showable (set_chat after_hi chatting) ∧
  ∀ l, ∃ view, AppErrorBoundary ascii_upper js_toLowerCase no_format false l (set_chat after_hi chatting) = (false, view) ∧
    view ≠ ErrorScreen.
Proof.
  apply (chat_actions_show ascii_upper js_toLowerCase no_format chatting typed_hi browser after_hi).
  - exact ascii_upper_units.
  - exact chatting_showable.
  - left. exists bob_closure, CSend. reflexivity.
Defined.

(** Bob's photo is read while Alice types on. *)
Definition photo : File := mkFile (js "a.png") 10 (js "image/png").
Definition reading : ChatLocal :=
  mkChatLocal (js "see you tomorrow") None None [mkRead (js "bob#2") (js "alice#1") photo (js "look")].

Lemma read_discards_typing_witness :
  let '(_, c', frames) := read_done 0 (Some (js "data:")) browser (chatStore chatting) reading in
  cl_input c' = [] ∧
  ∃ m, frames = [send_message_json m] ∧ m_body m = Val (or_else (js_trim (js "look")) (js "📎 " ++ f_name photo)).
Proof.
  apply (read_discards_typing 0 (mkRead (js "bob#2") (js "alice#1") photo (js "look")) (js "data:") browser
    (chatStore chatting) reading).
  reflexivity.
Defined.

End Chats.
