(* ===== verification/RelayWitnesses.v ===== *)
(** * Witnesses of the relay and of the browser's tab

    The theorems of Server, Relay and Browser with hypotheses, applied at concrete
    runs: Alice writes to Bob through the server's relay, and a tab is loaded,
    signed in to, reloaded and signed out of. *)

From S2P Require Import Prelude JsString Utf Encoding Json Platform Types AuthStore ChatStore ContactsStore.
From S2P Require Import Persist Socket.
From S2P Require Import Emoji Bubble Roster Sidebar Login ChatWindow Page Html SidebarMarkup SidebarRuns.
From S2P Require Import ChatMarkup ChatRuns Serde Limits Database Server AppRuns Relay Browser.
From S2P Require Import AppWitnesses PageWitnesses MarkupWitnesses.

(** ** The relay *)

Module Relaying.
Import Texts Chats.

#[local] Instance backend : Backend := {
  find_recipient w := DbOk (if decide (w = js "bob#2") then Some 2%nat else None);
  blocked_between _ _ := DbOk false;
  live_session u := (u =? 2)%nat;
}.

Definition alice_user : User := 
  mkUser 1 (js "alice#1") (js "Alice") [] None None None (js "free") None false [] 0 false.

Lemma alice_reaches : reaches alice_user (js "bob#2") 2.
Proof. by split. Qed.

(** Bob is signed in and has Alice as a contact. *)
Definition alice_contact : StoredContact :=
  mkStored (Some (JStr (js "alice#1"))) (Some (JStr (js "alice#1"))) (Some (JStr (js "Alice")))
    (Some (JStr [])) (Some (JStr (js "online"))) (Some JNull) (Some (JStr (js "accepted")))
    (Some (JNum 0)) (Some JNull).
Definition bob_profile : OwnProfile :=
  mkOwnProfile (mkUserProfile (js "bob#2") (js "Bob") [] online None) (js "u").
Definition bob_session : Session := mkSession (js "u") bob_profile defaultSupporterState.
Definition bob_stores : Stores :=
  mkStores (login (js "u") bob_profile emptyAuth) emptyChat (mkContacts [alice_contact] [] [] []).
Definition bob_connection : Connection := mkConnection (js "u") (js "bob#2") None true OPEN.

Lemma bob_showable : showable bob_stores.
Proof.
  split.
  - intros i s [= <- <-]. split; [|vm_compute; reflexivity]. apply is_js_check. vm_compute. reflexivity.
  - done.
  - split; cbn; [|constructor..]. constructor; [|constructor]. split; [by eexists|by eexists|by left|by left|by eexists].
Qed.

(** What the server makes of Alice's text. *)
Definition hi_text : jsstr := default [] (head (server_texts alice_user 2 (send_message_json hi))).
Definition bob_after : Stores := (onmessage hi_text (js "2026") bob_connection bob_stores).2.

Lemma conversation_arrives_witness :
  ∃ ms, [send_message_json hi] = map send_message_json ms ∧
    messages_of (js "alice#1") (chatStore bob_after) =
      messages_of (js "alice#1") (chatStore bob_stores) ++ map (λ m, relayed (forwarded (js "alice#1") m)) ms ∧
    let '(chat', contacts') := handleContactClick (js "alice#1") (chatStore bob_after) (contactsStore bob_after) in
    ∃ view before bubbles,
      Page.ChatWindow ascii_upper no_format (mkStores (authStore bob_after) chat' contacts') = Ok (Some view) ∧
      cw_bubbles view = before ++ bubbles ∧
      Forall2 (λ m bub, ∀ body, m_type m = js "text" → m_body m = Val body →
        ∃ parts media, bub = Some (TextBubble false parts media) ∧ concat (map source parts) = body) ms bubbles.
Proof.
  apply (conversation_arrives ascii_upper no_format alice_user (js "bob#2") 2 chatting
    [(chatting, send_message_json hi, after_hi)] (set_chat after_hi chatting) initialChat
    bob_stores bob_after 0 bob_session alice_contact).
  - exact saying_hi.
  - exact alice_reaches.
  - exact ascii_upper_units.
  - discriminate.
  - constructor; [|constructor]. split; [vm_compute; reflexivity|]. intros p [= <-]. vm_compute. reflexivity.
  - constructor; [|constructor]. split; [vm_compute; discriminate|]. apply not_elem_of_nil.
  - vm_compute. apply NoDup_singleton.
  - exact bob_showable.
  - exact empty_chat_ok.
  - change (List.filter _ _) with [send_message_json hi].
    assert (flat_map (server_texts alice_user 2) [send_message_json hi] = [hi_text]) as -> by (vm_compute; reflexivity).
    apply (arrives_text (js "alice#1") (js "2026") bob_connection hi_text [] bob_stores bob_after); [reflexivity|constructor].
  - reflexivity.
  - discriminate.
  - by left.
  - reflexivity.
Defined.

Definition alice_connected : Connection := mkConnection (js "t") (js "alice#1") None true OPEN.


(** A text of 2001 letters. *)
Definition long_window : Window := mkWindow emptyChat (replicate 2001 97) None.

Lemma refused_text_looks_sent_witness :
  let m := text_message (js "m1") (js "2026") (js "bob#2") (js "alice#1") (js_trim (inputValue long_window)) in
  (handleSend (js "bob#2") (js "alice#1") (js "m1") (js "2026") long_window).2 = [send_message_json m] ∧
  messages_of (js "bob#2") (chat (handleSend (js "bob#2") (js "alice#1") (js "m1") (js "2026") long_window).1) =
    messages_of (js "bob#2") (chat long_window) ++ [m] ∧
  ∃ err, handle_text alice_user (stringify (send_message_json m)) = Some [ToSender err] ∧
    onmessage err (js "2026") alice_connected alice_stores = (alice_connected, alice_stores).
Proof.
  apply (refused_text_looks_sent alice_user (js "bob#2") (js "alice#1") (js "m1") (js "2026") long_window
    (js "2026") alice_connected alice_stores); vm_compute; reflexivity.
Defined.

Lemma server_names_sender_witness :
  let outs := [ToUser 2 (to_string (event_frame (js "message") (forwarded_payload (js "alice#1")
                 (JObj [(js "conversationId", JStr (js "bob#2")); (js "senderId", JStr (js "eve#9"))]))));
               ToSender (to_string (event_frame (js "message") (sender_payload (js "alice#1") (js "bob#2") true
                 (JObj [(js "conversationId", JStr (js "bob#2")); (js "senderId", JStr (js "eve#9"))]))))] in
  Forall (λ o, match o with
               | ToUser uid t => ∃ p, t = to_string (event_frame (js "message") p) ∧ from_user alice_user uid p
               | Queued uid p => from_user alice_user uid p
               | ToSender _ => True
               end) outs ∧
  (length (List.filter (λ o, match o with ToSender _ => false | _ => true end) outs) ≤ 1)%nat.
Proof.
  apply (server_names_sender alice_user (stringify (JObj [(js "command", JStr (js "send_message"));
    (js "payload", JObj [(js "conversationId", JStr (js "bob#2")); (js "senderId", JStr (js "eve#9"))])]))).
  vm_compute. reflexivity.
Defined.

Lemma attachment_gates_agree_witness :
  let bytes := [1; 2; 3; 4] in
  let estimate := approx_base64_decoded_len (data_url (js "text/plain") bytes) in
  (4 ≤ estimate ≤ 4 + 2) ∧
  (4 ≤ MAX_ATTACHMENT_BYTES ↔ estimate ≤ max_media_bytes FREE_LIMITS) ∧
  (4 ≤ MAX_ATTACHMENT_BYTES → estimate ≤ max_media_bytes PLUS_LIMITS).
Proof.
  apply (attachment_gates_agree (js "text/plain") [1; 2; 3; 4]).
  - vm_compute. set_solver.
  - repeat constructor; discriminate.
Defined.

End Relaying.

(** ** The tab *)

Module Tabs.
Import Documented.

Abbreviation runs := (tab_runs ascii_upper js_toLowerCase no_format no_format no_format None None) (only parsing).

(** The tab finds Alice's session in the storage. *)
Definition storage : option jsstr := Some (written (Some alice_session)).
Definition tok : jsstr := AuthStore.token alice_session.
Definition r0 : Running := mkRunning (initialApp (load storage)) initialSidebar initialChat.

Lemma loaded : runs storage [Loaded (Some alice_session); Opened 0 tok] (mkTab storage 1 (SignedIn 0 r0)).
Proof.
  assert (hydrate storage = Some alice_session) as E by (vm_compute; reflexivity).
  pose proof (tab_start ascii_upper js_toLowerCase no_format no_format no_format None None storage
    (mkTab storage 1 (SignedIn 0 r0)) [Opened 0 tok]) as H.
  rewrite E in H. apply H. unfold show, load. cbn [authStore session]. rewrite E. cbn. unfold r0, load. by rewrite E.
Qed.

(** What the page does by itself, with the storage written after it. *)
Lemma happens tr sto r e a' out :
  runs storage tr (mkTab sto 1 (SignedIn 0 r)) →
  by_itself e → Socket.enabled e (r_app r) = true → Socket.step e (r_app r) = (a', out) →
  runs storage (tr ++ [Transmitted 0 (stores (r_app r)) out (stores a')])
    (mkTab (Some (written (content (authStore (stores a'))))) 1
       (SignedIn 0 (mkRunning a' (r_sidebar r) (r_chat r)))).
Proof.
  intros Hr He Hen Hs. eapply tab_next; [exact Hr|].
  apply (step_page _ _ _ _ _ _ _ (mkTab sto 1 (SignedIn 0 r)) 0 r out (mkRunning a' (r_sidebar r) (r_chat r)));
    [done|by eapply step_itself|by right].
Qed.

Definition auth_ok : jsstr := stringify (JObj [(js "type", JStr (js "auth_ok"))]).
Definition snapshot : jsstr :=
  stringify (JObj [(js "event", JStr (js "contacts_snapshot"));
    (js "payload", JObj [(js "contacts", JArr [JObj [(js "winkd_id", JStr (js "bob#2"));
       (js "display_name", JStr (js "Bob B")); (js "request_status", JStr (js "accepted"))]])])]).

Definition app1 : Socket.App := (Socket.step ERender (r_app r0)).1.
Definition app2 : Socket.App := (Socket.step (EOpen 0) app1).1.
Definition app3 : Socket.App := (Socket.step (EMessage 0 auth_ok (js "2026")) app2).1.
Definition app4 : Socket.App := (Socket.step (EMessage 0 snapshot (js "2026")) app3).1.

Definition sidebar_of (s : Stores) : SidebarView :=
  match Page.Sidebar ascii_upper js_toLowerCase (local initialSidebar) s alice_session with
  | Ok v => v
  | Throw _ => mkSidebarView (mkAvatar (ImagePicture [] []) None) None (mkRoster [] [] true) None [] [] []
  end.

(** Alice clicks on Bob. *)
Definition talking : Stores :=
  let '(chat, cs) := handleContactClick (js "bob#2") (chatStore (stores app4)) (contactsStore (stores app4)) in
  mkStores (authStore (stores app4)) chat cs.
Definition r5 : Running := mkRunning (with_stores talking app4) initialSidebar initialChat.

Lemma clicks : offered (SidebarMarkup.Sidebar no_format no_format None None (λ _, false) alice_session initialSidebar
  (sidebar_of (stores app4))) [SContact (Some (JStr (js "bob#2")))].
Proof. apply offered_click. rewrite sidebar_markup_handlers. vm_compute. tauto. Qed.

Definition loaded_marks : list mark :=
  [Loaded (Some alice_session); Opened 0 tok;
   Transmitted 0 (stores (r_app r0)) [] (stores app1); Transmitted 0 (stores app1) [Sent 0 (auth_frame tok)] (stores app2);
   Transmitted 0 (stores app2) [] (stores app3); Transmitted 0 (stores app3) [] (stores app4);
   Transmitted 0 (stores app4) [] talking].
Definition talking_tab : Tab :=
  mkTab (Some (written (content (authStore (stores app4))))) 1 (SignedIn 0 r5).

Lemma talks : runs storage loaded_marks talking_tab.
Proof.
  pose proof (happens _ _ r0 ERender app1 [] loaded I eq_refl eq_refl) as H1.
  pose proof (happens _ _ (mkRunning app1 initialSidebar initialChat) (EOpen 0) app2 [Sent 0 (auth_frame tok)] H1 I
    ltac:(vm_compute; reflexivity) ltac:(vm_compute; reflexivity)) as H2.
  pose proof (happens _ _ (mkRunning app2 initialSidebar initialChat) (EMessage 0 auth_ok (js "2026")) app3 [] H2 I
    ltac:(vm_compute; reflexivity) ltac:(vm_compute; reflexivity)) as H3.
  pose proof (happens _ _ (mkRunning app3 initialSidebar initialChat) (EMessage 0 snapshot (js "2026")) app4 [] H3 I
    ltac:(vm_compute; reflexivity) ltac:(vm_compute; reflexivity)) as H4.
  apply (tab_next _ _ _ _ _ _ _ storage (take 6 loaded_marks) _ [Transmitted 0 (stores app4) [] talking] talking_tab H4).
  apply (step_page _ _ _ _ _ _ _ (mkTab _ 1 (SignedIn 0 (mkRunning app4 initialSidebar initialChat))) 0
    (mkRunning app4 initialSidebar initialChat) [] r5 _); [reflexivity| |by left].
  apply (step_sidebar _ _ _ _ _ _ _ (mkRunning app4 initialSidebar initialChat) 1 alice_session
    (sidebar_of (stores app4)) (λ _, false) [SContact (Some (JStr (js "bob#2")))] talking initialSidebar []).
  - vm_compute. reflexivity.
  - vm_compute. reflexivity.
  - exact clicks.
  - vm_compute. reflexivity.
Qed.

Lemma tab_wire_witness :
  (∀ n x, In (Opened n x) loaded_marks →
     obtained x loaded_marks ∧ ∀ y, In (Opened n y) loaded_marks → x = y) ∧
  ∀ tr1 n s out s' tr2 i text, loaded_marks = tr1 ++ Transmitted n s out s' :: tr2 → In (Sent i text) out →
    ∃ x, In (Opened n x) tr1 ∧
      (text = auth_frame x ∨
       ∃ f, text = stringify f ∧ (justified None None s (Sends f) ∨ sent_ok s f (chatStore s')) ∧
         In (Sent i (auth_frame x)) (sent_in n tr1)).
Proof.
  apply (tab_wire ascii_upper js_toLowerCase no_format no_format no_format None None storage loaded_marks talking_tab).
  exact talks.
Defined.

Lemma reload_keeps_session_witness :
  ∃ t' ms,
    tab_step ascii_upper js_toLowerCase no_format no_format no_format None None talking_tab
      (Loaded (Some alice_session) :: ms) t' ∧
    content (tab_auth t') = Some alice_session ∧
    match tab_screen t' with
    | SignedIn n r =>
        ms = [Opened n tok] ∧ r_sidebar r = initialSidebar ∧ r_chat r = initialChat ∧
        chatStore (r_stores r) = emptyChat ∧ contactsStore (r_stores r) = emptyContacts ∧
        conns (r_app r) = ∅ ∧ wsRef (r_app r) = None
    | SigningIn _ _ _ => False
    end.
Proof.
  assert (content (tab_auth talking_tab) = Some alice_session) as E by (vm_compute; reflexivity).
  destruct (reload_keeps_session ascii_upper js_toLowerCase no_format no_format no_format None None storage
    loaded_marks talking_tab talks) as (t' & ms & H1 & H2 & H3).
  - rewrite E. intros s [= <-]. split; [discriminate|vm_compute; reflexivity].
  - rewrite E in H1, H2, H3. exists t', ms. split; [exact H1|]. split; [exact H2|].
    destruct (tab_screen t'); [destruct H3|exact H3].
Defined.

(** A tab without a stored session. *)
Definition fresh : Tab := mkTab None 0 (SigningIn emptyChat emptyContacts (mkPage initialForm (mkAuth None 1) [])).

Lemma sign_in_restores_nothing_witness :
  completeLogin None AppWitnesses.Panels.login_data (mkAuth None 1) =
    login (js "tok")
      (mkOwnProfile (mkUserProfile (js "alice#1") (js "Alice") [] online None) (js "tok")) (mkAuth None 1).
Proof.
  apply (sign_in_restores_nothing ascii_upper js_toLowerCase no_format no_format no_format None None None [Loaded None] fresh
    emptyChat emptyContacts (mkPage initialForm (mkAuth None 1) []) AppWitnesses.Panels.login_data (mkAuth None 1)).
  - exact (tab_start ascii_upper js_toLowerCase no_format no_format no_format None None None fresh [] eq_refl).
  - discriminate.
  - reflexivity.
Defined.

Lemma talking_showable : showable talking.
Proof.
  assert (session (authStore talking) = Some (1%nat, alice_session)) as Es by (vm_compute; reflexivity).
  assert (contactsStore talking = mkContacts [mkStored (Some (JStr (js "bob#2"))) (Some (JStr (js "bob#2")))
    (Some (JStr (js "Bob B"))) (Some (JStr [])) (Some (JStr (js "online"))) (Some JNull) (Some (JStr (js "accepted")))
    (Some (JNum 0)) (Some JNull)] [] [] []) as Ec by (vm_compute; reflexivity).
  assert (chatStore talking = openConversation (js "bob#2") emptyChat) as Eh by (vm_compute; reflexivity).
  split.
  - intros i s E. rewrite Es in E. injection E as <- <-. split; [apply is_js_check|]; vm_compute; reflexivity.
  - rewrite Eh. apply open_showable; [exact empty_chat_ok|exact (sh_chat _ alice_showable)].
  - rewrite Ec. split; cbn; [|constructor..]. constructor; [|constructor]. split; [by eexists|by eexists|by left|by left|by eexists].
Qed.

Definition bob_conversation : Conversation :=
  mkConversation (Some (js "bob#2")) (Some (js "bob#2")) (Some []) (Some false).

Lemma next_user_sees_conversation_witness :
  ∃ ms t1, runs storage (loaded_marks ++ ms) t1 ∧
    tab_screen t1 = SigningIn (chatStore (r_stores r5)) (contactsStore (r_stores r5))
      (mkPage initialForm (logout (authStore (r_stores r5))) []) ∧
    (∀ t2 n' r' o sess,
      form_steps ascii_upper js_toLowerCase no_format no_format no_format None None t1 t2 →
      tab_screen t2 = SignedIn n' r' → session (authStore (r_stores r')) = Some (o, sess) →
      is_js (winkdId (own_profile (profile sess))) → well_formed (winkdId (own_profile (profile sess))) = true →
      chatStore (r_stores r') = chatStore (r_stores r5) ∧ contactsStore (r_stores r') = contactsStore (r_stores r5) ∧
      ∃ sidebar view,
        Page.App ascii_upper js_toLowerCase no_format (local (r_sidebar r')) (r_stores r') =
          Ok (BuddyScreen sidebar (Some view)) ∧
        cw_conversation view = bob_conversation) ∧
    ∀ f d, typing f → ∃ t2 n' r' o sess,
      form_steps ascii_upper js_toLowerCase no_format no_format no_format None None t1 t2 ∧ tab_screen t2 = SignedIn n' r' ∧
      session (authStore (r_stores r')) = Some (o, sess) ∧
      AuthStore.token sess = r_session_token d ∧ winkdId (own_profile (profile sess)) = r_winkd_id d.
Proof.
  eapply (next_user_sees_conversation ascii_upper js_toLowerCase no_format no_format no_format None None storage
    loaded_marks talking_tab 0 r5 0 bob_conversation).
  - exact ascii_upper_units.
  - exact talks.
  - reflexivity.
  - vm_compute. reflexivity.
  - exact talking_showable.
  - vm_compute. reflexivity.
  - vm_compute. reflexivity.
Defined.

End Tabs.
