(* ===== verification/ServiceWitnesses.v ===== *)
(** * Witnesses of the messaging server

    The theorems of ServiceRuns, Delivery and Handshake with hypotheses, applied at
    concrete runs of the server with two users. *)

From S2P Require Import Prelude JsString Utf Json Platform Types AuthStore ChatStore ContactsStore Socket.
From S2P Require Import Sidebar Page ChatRuns AppWitnesses PageWitnesses Serde Limits Database Server Service.
From S2P Require Import ServiceRuns Relay Delivery Handshake.

Import Texts Letters.

(** ** Two users *)

Definition alice : User :=
  mkUser 1 (js "alice#1") (js "Alice") (js "hi") None None None (js "free") None false [] 0 false.
Definition bob : User :=
  mkUser 2 (js "bob#2") (js "Bob") [] (Some (js "data:")) None None (js "plus") None false [js "pack"] 0 true.

Definition tables : Db := mkDb [alice; bob] [(js "ta", 1%nat); (js "tb", 2%nat)] [] [] [].
Definition started : ServerState := mkServer tables ∅ ∅ ∅ ∅.

Definition state_after (es : list server_event) : ServerState :=
  match serve (map (pair no_faults) es) started with Some (_, st) => st | None => started end.
Definition trace_after (es : list server_event) : list served :=
  match serve (map (pair no_faults) es) started with Some (tr, _) => tr | None => [] end.

Lemma played es :
  (if serve (map (pair no_faults) es) started then true else false) = true →
  server_runs started (trace_after es) (state_after es).
Proof.
  unfold trace_after, state_after. destruct (serve _ started) as [[tr st]|] eqn:E; [|done]. intros _.
  apply (serve_runs (map (pair no_faults) es) started [] started tr st); [constructor|exact E].
Qed.

Definition alice_in : server_event := Authenticates 10 (auth_frame (js "ta")).
Definition bob_in : server_event := Authenticates 20 (auth_frame (js "tb")).
Definition says_json (sid : nat) (v : json) : server_event := Says sid (js "2026") (stringify v).
Definition asks : server_event := says_json 10 (command (js "add_contact") [(js "winkd_id", JStr (js "bob#2"))]).
Definition accepts : server_event :=
  says_json 20 (command (js "accept_contact") [(js "request_id", JStr (uuid_text 0))]).
Definition blocks_bob : server_event := says_json 10 (command (js "block_user") [(js "winkd_id", JStr (js "bob#2"))]).

Definition friends : list server_event := [alice_in; Opens 10; bob_in; Opens 20; asks; accepts].

Lemma contacts_have_agreed_witness :
  ∃ tr1 x tr2 y tr3, trace_after friends = tr1 ++ x :: tr2 ++ y :: tr3 ∧
    said_by 1 (λ text, ∃ w, asks_for text w ∧ id_of w (db started) = Some 2%nat) x ∧
    said_by 2 (λ text, accepts_request text 0) y.
Proof.
  apply (contacts_have_agreed started (trace_after friends) (state_after friends) (mkRequest 0 1 2 StAccepted)).
  - apply played. vm_compute. reflexivity.
  - reflexivity.
  - vm_compute. by left.
  - reflexivity.
Defined.

(** Bob writes to Alice, who has blocked him. *)
Definition hello : server_event :=
  says_json 20 (send_message_json (text_message (js "m1") (js "2026") (js "alice#1") (js "bob#2") (js "hello"))).
Definition blocked : list server_event := friends ++ [blocks_bob].

Definition answer_to (e : server_event) (st : ServerState) : list server_out * ServerState :=
  match server_step no_faults e st with Some (_, a) => a | None => ([], st) end.


Lemma live_sessions_sound_witness :
  clients (state_after friends) !! 1%nat = Some 10%nat ∧
  (∀ uid sid, clients (state_after friends) !! uid = Some sid →
     ∃ user, u_id user = uid ∧ (sockets (state_after friends) !! sid = Some user ∨
                                moving (state_after friends) !! sid = Some (Opening, user))) ∧
  (∀ fails sid user, sockets (state_after friends) !! sid = Some user →
    clients (state_after friends) !! u_id user ≠ Some sid →
    ∃ st', server_step fails (Ends sid) (state_after friends) = Some (Some user, ([], st')) ∧
      clients st' = clients (state_after friends) ∧ presence st' = presence (state_after friends) ∧
      moving st' = moving (state_after friends)) ∧
  (one_socket_runs started (trace_after friends) (state_after friends) →
    ∀ uid, (∀ sid m user, moving (state_after friends) !! sid = Some (m, user) → u_id user ≠ uid) →
      is_Some (presence (state_after friends) !! uid) ↔ is_Some (clients (state_after friends) !! uid)) ∧
  (∀ fails sid sid' text user user', sockets (state_after friends) !! sid = Some user →
    clients (state_after friends) !! u_id user = Some sid →
    sockets (state_after friends) !! sid' = None → moving (state_after friends) !! sid' = None →
    authenticate fails text (state_after friends) = Some user' → u_id user' = u_id user →
    ∃ tr' st', server_runs (state_after friends) (map (λ e, mkServed fails e.1 (Some e.2.1) e.2.2) tr') st' ∧
      map fst tr' = [Ends sid; Authenticates sid' text; Opens sid'; Leaves sid] ∧
      clients st' !! u_id user = Some sid' ∧ sockets st' !! sid' = Some user' ∧ presence st' !! u_id user = None).
Proof.
  split; [vm_compute; reflexivity|].
  apply (live_sessions_sound started (trace_after friends) (state_after friends)).
  - apply played. vm_compute. reflexivity.
  - repeat split.
Defined.

(** Alice has two tabs. *)
Definition two_tabs : ServerState := state_after [alice_in; Opens 10; Authenticates 11 (auth_frame (js "ta")); Opens 11; bob_in; Opens 20].

Lemma older_tab_goes_deaf_witness :
  ∃ outs st', server_step no_faults (Ends 11) two_tabs = Some (Some alice, (outs, st')) ∧
    sockets st' !! 10%nat = Some alice ∧ is_live 1 st' = false ∧
    ∀ tr st2, server_runs st' tr st2 → Forall (λ x, no_start 1 (sv_event x) (sv_user x)) tr →
      ∀ x t, In x tr → ¬ In (ToUser 1 t) (sv_outs x).
Proof.
  apply (older_tab_goes_deaf two_tabs 10 11 alice alice no_faults).
  - vm_compute. reflexivity.
  - vm_compute. reflexivity.
  - reflexivity.
  - discriminate.
  - vm_compute. reflexivity.
Defined.

(** ** Messages that wait *)

Definition waiting : ServerState := state_after (friends ++ [Ends 10; Leaves 10]).
Definition hello_message : Message := text_message (js "m1") (js "2026") (js "alice#1") (js "bob#2") (js "hello").
Definition after_hello : ServerState := (answer_to hello waiting).2.
Definition alice_confirming : list server_out * ServerState :=
  answer_to (Authenticates 12 (auth_frame (js "ta"))) after_hello.
Definition alice_back : list server_out * ServerState := answer_to (Opens 12) alice_confirming.2.

Lemma waiting_writes : writes bob (js "alice#1") 1 [hello_message] waiting after_hello.
Proof.
  apply (writes_message bob (js "alice#1") 1 hello_message [] 20 (js "2026") waiting (answer_to hello waiting).1 after_hello).
  - split; vm_compute; reflexivity.
  - vm_compute. reflexivity.
  - vm_compute. reflexivity.
  - constructor.
Qed.


(** The row of Bob's message. *)
Definition hello_row : PendingMessage :=
  match pending_messages (db after_hello) with q :: _ => q | [] => mkQueued 0 0 None JNull end.
Definition bob_connected : Connection := mkConnection (js "tb") (js "bob#2") None true OPEN.
Definition bob_wrote : Stores :=
  mkStores emptyAuth (append_message (js "alice#1") hello_message (openConversation (js "alice#1") emptyChat)) emptyContacts.

Lemma bob_wrote_ok : chat_ok (chatStore bob_wrote).
Proof.
  unfold bob_wrote. cbn [chatStore]. apply append_ok; [apply open_ok, empty_chat_ok|by eexists|reflexivity|].
  exact (not_elem_of_nil (js "m1")).
Qed.

Lemma receipt_confirms_witness :
  ∃ t s', In (ToUser 2 t) alice_back.1 ∧ onmessage t (js "2026") bob_connected bob_wrote = (bob_connected, s') ∧
    delivered_in (js "alice#1") (js "m1") bob_wrote s'.
Proof.
  apply (receipt_confirms 12 alice_confirming.2 alice alice_back.1 alice_back.2 hello_row (js "m1")
    (js "2026") bob_connected bob_wrote).
  - vm_compute. reflexivity.
  - vm_compute. by left.
  - vm_compute. reflexivity.
  - vm_compute. reflexivity.
  - vm_compute. reflexivity.
  - vm_compute. reflexivity.
  - vm_compute. reflexivity.
  - discriminate.
  - discriminate.
  - reflexivity.
  - exact bob_wrote_ok.
Defined.

(** Alice's page, which has just been rendered for her session. *)
Definition alice_app : Socket.App :=
  run_effect (Socket.initialApp (mkStores (login (js "ta") alice_profile emptyAuth) emptyChat emptyContacts)).

Lemma queued_messages_lost_witness :
  ∃ first a', alice_confirming.1 = [ToSender first] ∧
    run_events (cycle first (js "2026") 0) alice_app = Some (a', [Sent 0 (auth_frame (js "ta"))]) ∧
    connecting (js "ta") 1 a' ∧
    (∀ tr a2 data now', Socket.runs a' tr a2 → Socket.enabled (EMessage 0 data now') a2 = false) ∧
    (∀ tr st2, server_runs alice_confirming.2 tr st2 → Forall (λ x, socket_of (sv_event x) ≠ 12%nat) tr →
      ∃ rest st', server_step no_faults (Opens 12) st2 = Some (Some alice, (rest, st')) ∧
        List.filter (waits_for 1) (pending_messages (db st')) = []).
Proof.
  apply (queued_messages_lost 12 (js "ta") 0 (js "2026") alice_app after_hello alice alice_confirming.1 alice_confirming.2).
  - apply (run_effect_connecting (Socket.initialApp
      (mkStores (login (js "ta") alice_profile emptyAuth) emptyChat emptyContacts)) 0
      (mkSession (js "ta") alice_profile defaultSupporterState)); [reflexivity|].
    intros o s [= <- _]. cbn. lia.
  - vm_compute. reflexivity.
  - vm_compute. reflexivity.
Defined.

(** ** What a client is told *)

Definition alice_confirmed : Connection := mkConnection (js "ta") (js "alice#1") None true OPEN.
Definition alice_alone : Stores := mkStores emptyAuth emptyChat emptyContacts.
Definition alice_roster : list ContactRosterEntry := list_contact_roster 1 (db waiting).

Lemma presence_never_shown_witness :
  let texts := [event_text (js "contacts_snapshot") (snapshot_payload waiting alice_roster);
                event_text (js "presence") (presence_payload bob (js "away"))] in
  let s' := foldl (λ s t, (onmessage t (js "2026") alice_confirmed s).2) alice_alone texts in
  contacts (contactsStore s') = map rostered alice_roster ∧
  Forall (λ c, sc_requestStatus c = Some (JStr (js "accepted")) → sc_status c = Some (JStr (js "online")))
    (contacts (contactsStore s')).
Proof.
  apply (presence_never_shown waiting alice_roster [(bob, js "away")] (js "2026") alice_confirmed alice_alone).
  - vm_compute. reflexivity.
  - reflexivity.
  - constructor; [|constructor]. split; vm_compute; reflexivity.
Defined.

Lemma auth_ok_tells_supporter_witness :
  onmessage (to_string (auth_ok_frame bob 1)) (js "2026") (mkConnection (js "tb") (js "bob#2") None false OPEN) bob_wrote =
    (bob_connected, on_auth (setSupporterState (mkSupporter plus [js "pack"] None (JNum 1) true None)) bob_wrote).
Proof.
  apply (auth_ok_tells_supporter bob 1 (js "2026") (mkConnection (js "tb") (js "bob#2") None false OPEN) bob_wrote).
  - vm_compute. reflexivity.
  - reflexivity.
Defined.

(** ** Two users meet *)

Definition both_in : ServerState := state_after [alice_in; Opens 10; bob_in; Opens 20].

Lemma plain_alice : plain_user alice.
Proof. split; vm_compute; reflexivity. Qed.
Lemma plain_bob : plain_user bob.
Proof. split; vm_compute; reflexivity. Qed.

Lemma users_meet : meet both_in 10 20 alice bob alice.
Proof.
  split; try (vm_compute; reflexivity); try apply plain_alice; try apply plain_bob.
  - exists bob. split; vm_compute; reflexivity.
  - split; discriminate.
  - split; [vm_compute; reflexivity|discriminate].
Qed.

Lemma contact_handshake_witness :
  ∃ x y z w st1 st2 inv,
    server_step no_faults (Says 10 (js "2026") (add_text (js "bob#2"))) both_in =
      Some (Some alice, ([ToSender x; ToUser 2 y], st1)) ∧
    let sB1 := hears (js "2026") bob_connected y alice_alone in
    In inv (pendingInvitations (contactsStore sB1)) ∧ fromWinkdId inv = Some (JStr (js "alice#1")) ∧
    let '(cs, frames) := handleApprove (requestId inv) (contactsStore sB1) in
    server_step no_faults (Says 20 (js "2026") (stringify (hd JNull frames))) st1 =
      Some (Some bob, ([ToSender z; ToUser 1 w], st2)) ∧
    let sB2 := hears (js "2026") bob_connected z (mkStores (authStore sB1) (chatStore sB1) cs) in
    has_contact (js "alice#1") sB2 ∧
    Forall (λ i, fromWinkdId i ≠ Some (JStr (js "alice#1"))) (pendingInvitations (contactsStore sB2)) ∧
    has_contact (js "bob#2") (hears (js "2026") alice_confirmed w (hears (js "2026") alice_confirmed x alice_alone)) ∧
    In 2%nat (list_accepted_contact_user_ids 1 (db st2)) ∧ In 1%nat (list_accepted_contact_user_ids 2 (db st2)).
Proof.
  apply (contact_handshake both_in 10 20 alice bob alice (js "2026") alice_confirmed bob_connected alice_alone alice_alone).
  - exact users_meet.
  - reflexivity.
  - reflexivity.
Defined.

Definition befriended_state : ServerState := state_after friends.

Lemma friends_meet : meet befriended_state 10 20 alice bob alice.
Proof.
  split; try (vm_compute; reflexivity); try apply plain_alice; try apply plain_bob.
  - exists bob. split; vm_compute; reflexivity.
  - split; discriminate.
  - split; [vm_compute; reflexivity|discriminate].
Qed.

Lemma readd_revokes_contact_witness :
  In 2%nat (list_accepted_contact_user_ids 1 (db befriended_state)) ∧
  ∃ outs st', server_step no_faults (Says 10 (js "2026") (add_text (js "bob#2"))) befriended_state = Some (Some alice, (outs, st')) ∧
    ¬ In 2%nat (list_accepted_contact_user_ids 1 (db st')) ∧ ¬ In 1%nat (list_accepted_contact_user_ids 2 (db st')).
Proof.
  apply (readd_revokes_contact befriended_state 10 20 alice bob alice (js "2026") (mkRequest 0 1 2 StAccepted)).
  - exact friends_meet.
  - vm_compute. by left.
  - reflexivity.
  - reflexivity.
  - intros r' Hin Hg. vm_compute in Hin. destruct Hin as [<-|[]]. discriminate Hg.
Defined.
